(** * ebook_calibre_analyzer: the three-stage comparison pipeline

    A shallow embedding of the core of [ebook_calibre_analyzer]
    (models.py, preprocessing.py, comparison/stage{1,2,3}.py, hashing/cpu.py,
    hashing/gpu.py, hashing/orchestrator.py and the deduplication pass of
    __main__.py), with the properties the design document states about it.

    Python objects are shared and mutated in place: an [EbookFile] that sits
    in [FileCollection.files], in the index dictionaries and in a candidate
    list is one object.  The embedding therefore keeps the records in a
    store ([heap]) and lets every list and dictionary hold references. *)

From Stdlib Require Import ZArith List String Lia Bool.
From Stdlib.Strings Require Import Byte.
From stdpp Require Import base gmap list strings countable.

#[local] Open Scope Z_scope.

(** ** Byte strings *)

Abbreviation bytes := (list Byte.byte).

#[global] Instance byte_eq_dec : EqDecision Byte.byte := Byte.byte_eq_dec.

#[global] Instance byte_countable : Countable Byte.byte :=
  inj_countable Byte.to_N Byte.of_N Byte.of_to_N.

(** Python truth value of a [bytes] object: [b""] is false. *)
Definition truthy (b : bytes) : bool :=
  match b with [] => false | _ :: _ => true end.

(** [if field:] on an [Optional[bytes]] field, with the value found when
    the test succeeds: [None] and [b""] fail it. *)
Definition populated (o : option bytes) : option bytes :=
  match o with
  | Some b => if truthy b then Some b else None
  | None => None
  end.

(** ** models.py *)

Module Models.

(** [processing_method]: 'cpu' | 'gpu' | 'skip'. *)
Inductive Method := cpu | gpu | skip.

(** [processing_status]:
    'pending' | 'size_checked' | '1k_hashed' | 'full_hashed' | 'error'. *)
Inductive Status := pending | size_checked | hashed_1k | full_hashed | error.

#[global] Instance Method_eq_dec : EqDecision Method.
Proof. solve_decision. Defined.
#[global] Instance Status_eq_dec : EqDecision Status.
Proof. solve_decision. Defined.

(** The dataclass [EbookFile]; paths are kept as their [str()]. *)
Record EbookFile := mkEbookFile {
  full_path : string;
  relative_path : string;
  filename : string;
  file_size : Z;
  file_extension : string;
  size_hash : option Z;
  first_1k_hash : option bytes;
  full_hash : option bytes;
  processing_method : Method;
  processing_status : Status;
  error_message : option string
}.

(** [EbookFile(full_path=.., relative_path=.., filename=.., file_size=..,
    file_extension=..)]: the other fields take the dataclass defaults. *)
Definition new_file (p rel name : string) (sz : Z) (ext : string) : EbookFile :=
  mkEbookFile p rel name sz ext None None None cpu pending None.

Definition with_size_hash (f : EbookFile) (v : option Z) : EbookFile :=
  mkEbookFile (full_path f) (relative_path f) (filename f) (file_size f)
    (file_extension f) v (first_1k_hash f) (full_hash f)
    (processing_method f) (processing_status f) (error_message f).

Definition with_first_1k_hash (f : EbookFile) (v : option bytes) : EbookFile :=
  mkEbookFile (full_path f) (relative_path f) (filename f) (file_size f)
    (file_extension f) (size_hash f) v (full_hash f)
    (processing_method f) (processing_status f) (error_message f).

Definition with_full_hash (f : EbookFile) (v : option bytes) : EbookFile :=
  mkEbookFile (full_path f) (relative_path f) (filename f) (file_size f)
    (file_extension f) (size_hash f) (first_1k_hash f) v
    (processing_method f) (processing_status f) (error_message f).

Definition with_method (f : EbookFile) (v : Method) : EbookFile :=
  mkEbookFile (full_path f) (relative_path f) (filename f) (file_size f)
    (file_extension f) (size_hash f) (first_1k_hash f) (full_hash f)
    v (processing_status f) (error_message f).

Definition with_status (f : EbookFile) (v : Status) : EbookFile :=
  mkEbookFile (full_path f) (relative_path f) (filename f) (file_size f)
    (file_extension f) (size_hash f) (first_1k_hash f) (full_hash f)
    (processing_method f) v (error_message f).

(** *** The object store *)

(** A reference to an [EbookFile] object. *)
Abbreviation ref := nat.

(** The store: every reference denotes an object (Python references do not
    dangle). *)
Definition heap := ref → EbookFile.

Definition upd (h : heap) (r : ref) (f : EbookFile) : heap :=
  λ r', if decide (r' = r) then f else h r'.

(** [file.<field> = v] *)
Definition set_size_hash h r v := upd h r (with_size_hash (h r) v).
Definition set_first_1k_hash h r v := upd h r (with_first_1k_hash (h r) v).
Definition set_full_hash h r v := upd h r (with_full_hash (h r) v).
Definition set_method h r v := upd h r (with_method (h r) v).
Definition set_status h r v := upd h r (with_status (h r) v).

(** The value [get_size_hash] returns: the cached [size_hash], else
    [file_size]. *)
Definition size_of (f : EbookFile) : Z := default (file_size f) (size_hash f).

(** [EbookFile.get_size_hash]: returns the size and caches it in
    [size_hash]. *)
Definition get_size_hash (h : heap) (r : ref) : Z * heap :=
  match size_hash (h r) with
  | None => (file_size (h r), set_size_hash h r (Some (file_size (h r))))
  | Some s => (s, h)
  end.

(** *** FileCollection *)

Record FileCollection := mkFileCollection {
  files : list ref;
  by_size : gmap Z (list ref);
  by_size_and_1k : gmap (Z * bytes) (list ref);
  by_full_hash : gmap bytes ref
}.

(** [FileCollection()] *)
Definition empty_collection : FileCollection := mkFileCollection [] ∅ ∅ ∅.

(** [d[k].append(r)] on a [defaultdict(list)]. *)
Definition dd_append {K} `{Countable K} (d : gmap K (list ref)) (k : K) (r : ref)
  : gmap K (list ref) :=
  <[k := default [] (d !! k) ++ [r]]> d.

(** [FileCollection.add_file] *)
Definition add_file (c : FileCollection) (h : heap) (r : ref)
  : FileCollection * heap :=
  let '(size, h1) := get_size_hash h r in
  let bs := dd_append (by_size c) size r in
  let b1k :=
    match first_1k_hash (h1 r) with
    | Some k => dd_append (by_size_and_1k c) (size, k) r
    | None => by_size_and_1k c
    end in
  let bfh :=
    match full_hash (h1 r) with
    | Some fh => <[fh := r]> (by_full_hash c)
    | None => by_full_hash c
    end in
  (mkFileCollection (files c ++ [r]) bs b1k bfh, h1).

(** [FileCollection.get_files_by_size_and_1k]: [dict.get(key, [])]. *)
Definition get_files_by_size_and_1k (c : FileCollection) (size : Z) (hash_1k : bytes)
  : list ref :=
  default [] (by_size_and_1k c !! (size, hash_1k)).

(** [FileCollection.get_file_by_full_hash]: [dict.get(key)]. *)
Definition get_file_by_full_hash (c : FileCollection) (hash_value : bytes)
  : option ref :=
  by_full_hash c !! hash_value.

(** [FileCollection.get_unique_sizes]: [set(self.by_size.keys())]. *)
Definition get_unique_sizes (c : FileCollection) : gset Z := dom (by_size c).

End Models.
Export Models.

(** ** comparison/stage1.py *)

Module Stage1.

(** The loop of [Stage1Comparator.compare]; [unique_files] and
    [candidates] are the two lists being appended to. *)
Fixpoint compare_loop (calibre_sizes : gset Z) (todo : list ref) (h : heap)
    (unique_files candidates : list ref) : heap * list ref * list ref :=
  match todo with
  | [] => (h, unique_files, candidates)
  | file :: rest =>
      let '(sz, h1) := get_size_hash h file in
      if decide (sz ∉ calibre_sizes) then
        compare_loop calibre_sizes rest (set_status h1 file size_checked)
          (unique_files ++ [file]) candidates
      else
        compare_loop calibre_sizes rest (set_status h1 file size_checked)
          unique_files (candidates ++ [file])
  end.

(** [Stage1Comparator.compare]: returns the store after the call and
    [(unique_files, candidates_for_stage2)]. *)
Definition compare (ebooks_collection calibre_collection : FileCollection)
    (h : heap) : heap * list ref * list ref :=
  compare_loop (get_unique_sizes calibre_collection)
    (files ebooks_collection) h [] [].

End Stage1.

(** ** comparison/stage2.py *)

Module Stage2.

(** The loop of [Stage2Comparator.compare]. *)
Fixpoint compare_loop (calibre_collection : FileCollection) (todo : list ref)
    (h : heap) (unique_files candidates : list ref)
    : heap * list ref * list ref :=
  match todo with
  | [] => (h, unique_files, candidates)
  | file :: rest =>
      match first_1k_hash (h file) with
      | None =>
          (* Hash failed - treat as unique to be safe *)
          compare_loop calibre_collection rest (set_status h file hashed_1k)
            (unique_files ++ [file]) candidates
      | Some hash_1k =>
          let '(sz, h1) := get_size_hash h file in
          let calibre_matches :=
            get_files_by_size_and_1k calibre_collection sz hash_1k in
          match calibre_matches with
          | [] =>
              compare_loop calibre_collection rest (set_status h1 file hashed_1k)
                (unique_files ++ [file]) candidates
          | _ :: _ =>
              compare_loop calibre_collection rest (set_status h1 file hashed_1k)
                unique_files (candidates ++ [file])
          end
      end
  end.

(** [Stage2Comparator.compare]: returns the store after the call and
    [(unique_files, candidates_for_stage3)]. *)
Definition compare (calibre_collection : FileCollection)
    (stage2_candidates : list ref) (h : heap) : heap * list ref * list ref :=
  compare_loop calibre_collection stage2_candidates h [] [].

End Stage2.

(** ** comparison/stage3.py *)

Module Stage3.

(** The loop of [Stage3Comparator.compare]. *)
Fixpoint compare_loop (calibre_collection : FileCollection) (todo : list ref)
    (h : heap) (unique_files : list ref) : heap * list ref :=
  match todo with
  | [] => (h, unique_files)
  | file :: rest =>
      match full_hash (h file) with
      | Some fh =>
          if truthy fh then
            match get_file_by_full_hash calibre_collection fh with
            | None =>
                compare_loop calibre_collection rest
                  (set_status h file full_hashed) (unique_files ++ [file])
            | Some _ =>
                (* Duplicate found - skip *)
                compare_loop calibre_collection rest
                  (set_status h file full_hashed) unique_files
            end
          else
            compare_loop calibre_collection rest
              (set_status h file full_hashed) (unique_files ++ [file])
      | None =>
          compare_loop calibre_collection rest
            (set_status h file full_hashed) (unique_files ++ [file])
      end
  end.

(** [Stage3Comparator.compare]: returns the store after the call and the
    list of unique files. *)
Definition compare (calibre_collection : FileCollection)
    (stage3_candidates : list ref) (h : heap) : heap * list ref :=
  compare_loop calibre_collection stage3_candidates h [].

End Stage3.

(** ** preprocessing.py *)

Module Preprocessing.

(** The dictionary [preprocess_files] returns, keys 'gpu', 'cpu', 'skip'. *)
Record Categorized := mkCategorized {
  cat_gpu : list ref;
  cat_cpu : list ref;
  cat_skip : list ref
}.

(** [100 * 1024 * 1024  # 100MB default] *)
Definition default_gpu_threshold : Z := 100 * 1024 * 1024.

(** [if gpu_threshold is None and gpu_available: gpu_threshold = 100MB] *)
Definition effective_threshold (gpu_available : bool) (gpu_threshold : option Z)
  : option Z :=
  match gpu_threshold with
  | None => if gpu_available then Some default_gpu_threshold else None
  | Some t => Some t
  end.

(** [gpu_available and gpu_threshold is not None and
     file.file_size >= gpu_threshold], on the threshold in effect. *)
Definition use_gpu (gpu_available : bool) (threshold : option Z) (size : Z) : bool :=
  gpu_available &&
  match threshold with
  | Some t => bool_decide (size >= t)
  | None => false
  end.

(** The loop of [preprocess_files]. *)
Fixpoint categorize (gpu_available : bool) (threshold : option Z)
    (processed_files : gset string) (todo : list ref) (h : heap)
    (categorized : Categorized) : heap * Categorized :=
  match todo with
  | [] => (h, categorized)
  | file :: rest =>
      if decide (full_path (h file) ∈ processed_files) then
        categorize gpu_available threshold processed_files rest h
          (mkCategorized (cat_gpu categorized) (cat_cpu categorized)
             (cat_skip categorized ++ [file]))
      else if use_gpu gpu_available threshold (file_size (h file)) then
        categorize gpu_available threshold processed_files rest
          (set_method h file gpu)
          (mkCategorized (cat_gpu categorized ++ [file]) (cat_cpu categorized)
             (cat_skip categorized))
      else
        categorize gpu_available threshold processed_files rest
          (set_method h file cpu)
          (mkCategorized (cat_gpu categorized) (cat_cpu categorized ++ [file])
             (cat_skip categorized))
  end.

(** [preprocess_files(files, gpu_available, gpu_threshold, processed_files)];
    [processed_files = None] stands for the empty set. *)
Definition preprocess_files (files : list ref) (gpu_available : bool)
    (gpu_threshold : option Z) (processed_files : option (gset string))
    (h : heap) : heap * Categorized :=
  categorize gpu_available (effective_threshold gpu_available gpu_threshold)
    (default ∅ processed_files) files h (mkCategorized [] [] []).

End Preprocessing.

(** ** Exceptions and the file system *)

Module Py.

(** The exception classes the hashing code tells apart; [OtherError] stands
    for any class that is none of the named ones. *)
Inductive exn :=
| OSError
| ValueError (msg : string)
| ImportError
| RuntimeError
| OtherError.

Inductive result (A : Type) :=
| Ok (a : A)
| Raise (e : exn).
Arguments Ok {A} a.
Arguments Raise {A} e.

(** Sequencing: an exception ends the block. *)
#[global] Instance result_bind : MBind result := λ A B k m,
  match m with Ok a => k a | Raise e => Raise e end.

(** A file as [open] and [read] see it: [Missing] makes [open] raise
    [OSError]; a [Regular] file has its content and, when [bad = Some k],
    a fault at offset [k]: a [read] that would deliver that byte raises
    [OSError]. *)
Inductive node :=
| Missing
| Regular (data : bytes) (bad : option nat).

(** The file system: what is found at each path. *)
Definition filesystem := string → node.

(** An open binary file: the rest of the content and the distance to the
    fault. *)
Record handle := mkHandle { rest : bytes; fault : option nat }.

(** [open(path, "rb")] *)
Definition open (fs : filesystem) (path : string) : result handle :=
  match fs path with
  | Missing => Raise OSError
  | Regular data bad => Ok (mkHandle data bad)
  end.

(** [f.read(size)] on a file opened in binary mode: up to [size] bytes,
    everything left when [size] is -1 ([f.read()]); any other negative
    [size] raises [ValueError].  Returns the chunk and the advanced file
    object. *)
Definition read (f : handle) (size : Z) : result (bytes * handle) :=
  if decide (size < -1) then
    Raise (ValueError "read length must be non-negative or -1")
  else
    let n := if decide (size < 0) then length (rest f) else Z.to_nat size in
    let chunk := take n (rest f) in
    match fault f with
    | Some k =>
        if decide (k < length chunk)%nat then Raise OSError
        else Ok (chunk, mkHandle (drop n (rest f)) (Some (k - length chunk)%nat))
    | None => Ok (chunk, mkHandle (drop n (rest f)) None)
    end.

End Py.
Export Py.

(** ** hashing/cpu.py *)

Module Cpu.

(** The state of a hash object: the bytes fed to it so far. *)
Abbreviation hash_new := (@nil Byte.byte).
Abbreviation hash_update hash_obj chunk := (hash_obj ++ chunk).

Section with_digest.

(** [hashlib.sha256]: the digest of a byte string.  A hash object is
    modelled by the bytes fed to it so far: [hashlib.sha256()] starts it
    empty, [update] appends, and [digest] applies [sha256]. *)
Variable sha256 : bytes → bytes.

(** [_hash_first_1k_worker] *)
Definition _hash_first_1k_worker (fs : filesystem) (file_path : string)
  : result bytes :=
  let body :=
    f ← open fs file_path;
    cf ← read f 1024;
    Ok (sha256 (hash_update hash_new cf.1)) in
  match body with
  | Raise OSError => Ok []
  | other => other
  end.

(** The [while True] loop of the full-file workers: read [chunk_size] bytes,
    stop at an empty chunk, otherwise run [stage_chunk] on the chunk (the
    device transfer of the GPU path, nothing for the CPU) and feed it to the
    hash object [acc].  A file of [n] bytes is read in at most [n + 1]
    rounds, which is the [fuel] the callers give. *)
Fixpoint read_loop (stage_chunk : bytes → result unit) (chunk_size : Z)
    (fuel : nat) (f : handle) (acc : bytes) : result bytes :=
  match fuel with
  | O => Ok acc
  | S fuel' =>
      cf ← read f chunk_size;
      match cf.1 with
      | [] => Ok acc
      | _ :: _ =>
          _ ← stage_chunk cf.1;
          read_loop stage_chunk chunk_size fuel' cf.2 (hash_update acc cf.1)
      end
  end.

(** [_hash_full_file_worker]: 1MB chunks. *)
Definition _hash_full_file_worker (fs : filesystem) (file_path : string)
  : result bytes :=
  let body :=
    f ← open fs file_path;
    acc ← read_loop (λ _, Ok tt) (1024 * 1024) (S (length (rest f))) f
            hash_new;
    Ok (sha256 acc) in
  match body with
  | Raise OSError => Ok []
  | other => other
  end.

(** The collection loop of [hash_batch]: [results = [None] * len(files)],
    then, for the futures in their order of completion,
    [results[index] = future.result()], or [b""] if that raises. *)
Fixpoint collect (worker_func : string → result bytes) (file_paths : list string)
    (completed : list nat) (results : list (option bytes))
  : list (option bytes) :=
  match completed with
  | [] => results
  | index :: later =>
      match file_paths !! index with
      | Some path =>
          let r := match worker_func path with Ok d => d | Raise _ => [] end in
          collect worker_func file_paths later (<[index := Some r]> results)
      | None => collect worker_func file_paths later results
      end
  end.

(** [CPUHashProcessor.hash_batch] of a processor with [num_workers]
    workers.  [ProcessPoolExecutor(max_workers=n)] raises [ValueError] for
    [n <= 0] (the upper bound some platforms have is left out);
    [as_completed n] is the order in which the [n] submitted futures
    complete. *)
Definition hash_batch (num_workers : Z) (as_completed : nat → list nat)
    (fs : filesystem) (h : heap) (files : list ref) (stage : string)
  : result (list (option bytes)) :=
  worker_func ←
    (if decide (stage = "1k"%string) then Ok (_hash_first_1k_worker fs)
     else if decide (stage = "full"%string) then Ok (_hash_full_file_worker fs)
     else Raise (ValueError ("Unknown stage: " ++ stage)));
  let results := replicate (length files) None in
  let file_paths := (λ f, full_path (h f)) <$> files in
  if decide (num_workers <= 0) then
    Raise (ValueError "max_workers must be greater than 0")
  else
    Ok (collect worker_func file_paths (as_completed (length files)) results).

(** [CPUHashProcessor.hash_first_1k] and [hash_full_file] *)
Definition hash_first_1k (fs : filesystem) (h : heap) (file : ref) : result bytes :=
  _hash_first_1k_worker fs (full_path (h file)).

Definition hash_full_file (fs : filesystem) (h : heap) (file : ref) : result bytes :=
  _hash_full_file_worker fs (full_path (h file)).

End with_digest.
End Cpu.

(** ** hashing/pool.py and hashing/gpu.py *)

Module Gpu.

(** What the code observes of CuPy and of the device. *)
Record Device := mkDevice {
  (** [GPUMemoryPool.__init__] and [GPUHashProcessor.__init__] found CuPy
      and the device: the value of [_gpu_available]. *)
  probe_ok : bool;
  (** What [import cupy; cp.cuda.Device(id).use()] raises inside
      [hash_full_file], if anything. *)
  use_device : option exn;
  (** [int(self.gpu_pool.get_available_memory() * 0.8)];
      [get_available_memory] returns the free device memory, and 0 when
      the query fails or the pool is not available. *)
  usable_memory : Z;
  (** What staging a buffer on the device raises, if anything: the
      transfer [cp.asarray(bytearray(buffer))] and the release of the device
      memory that follows it.  The hash object is dropped when either
      raises, so one outcome stands for both. *)
  asarray : bytes → option exn
}.

(** The attributes of a [GPUHashProcessor]. *)
Record GPUHashProcessor := mkGPUHashProcessor {
  device : Device;
  batch_size : Z;
  chunk_size : Z;
  _gpu_available : bool
}.

(** [GPUHashProcessor(device_id, batch_size=10,
     chunk_size=256 * 1024 * 1024)] *)
Definition new_processor (dev : Device) : GPUHashProcessor :=
  mkGPUHashProcessor dev 10 (256 * 1024 * 1024) (probe_ok dev).

Definition raise_if (o : option exn) : result unit :=
  match o with Some e => Raise e | None => Ok tt end.

Section with_digest.
Variable sha256 : bytes → bytes.

(** [GPUHashProcessor.hash_first_1k] *)
Definition hash_first_1k (p : GPUHashProcessor) (fs : filesystem) (h : heap)
    (file : ref) : result bytes :=
  Cpu.hash_first_1k sha256 fs h file.

(** [GPUHashProcessor.hash_full_file] *)
Definition hash_full_file (p : GPUHashProcessor) (fs : filesystem) (h : heap)
    (file : ref) : result bytes :=
  if negb (_gpu_available p) then Cpu.hash_full_file sha256 fs h file
  else
    let body :=
      _ ← raise_if (use_device (device p));
      let file_size := file_size (h file) in
      let usable_memory := usable_memory (device p) in
      if decide (file_size <= usable_memory) then
        (* File fits in GPU memory - read all at once *)
        f ← open fs (full_path (h file));
        cf ← read f (-1);
        _ ← raise_if (asarray (device p) cf.1);
        Ok (sha256 (Cpu.hash_update Cpu.hash_new cf.1))
      else
        (* File too large - use chunked processing *)
        let chunk_size := Z.min (chunk_size p) usable_memory in
        f ← open fs (full_path (h file));
        acc ← Cpu.read_loop (λ chunk, raise_if (asarray (device p) chunk))
                chunk_size (S (length (rest f))) f Cpu.hash_new;
        Ok (sha256 acc) in
    match body with
    | Raise ImportError | Raise RuntimeError | Raise OSError =>
        Cpu.hash_full_file sha256 fs h file
    | other => other
    end.

(** One file of a batch: [try: hash_full_file(file) except Exception: b""]. *)
Definition hash_one (p : GPUHashProcessor) (fs : filesystem) (h : heap)
    (file : ref) : option bytes :=
  match hash_full_file p fs h file with
  | Ok d => Some d
  | Raise _ => Some []
  end.

(** [for i in range(0, len(files), batch_size)] with a positive step [step];
    [todo] is [files[i:]]. *)
Fixpoint batch_loop (p : GPUHashProcessor) (fs : filesystem) (h : heap)
    (step : nat) (fuel : nat) (todo : list ref) (results : list (option bytes))
  : list (option bytes) :=
  match fuel, todo with
  | O, _ | _, [] => results
  | S fuel', _ :: _ =>
      let batch := take step todo in
      let batch_results := hash_one p fs h <$> batch in
      batch_loop p fs h step fuel' (drop step todo) (results ++ batch_results)
  end.

(** [GPUHashProcessor.hash_batch] *)
Definition hash_batch (p : GPUHashProcessor) (as_completed : nat → list nat)
    (fs : filesystem) (h : heap) (files : list ref) (stage : string)
  : result (list (option bytes)) :=
  if decide (stage = "1k"%string) then
    (* cpu_processor = CPUHashProcessor() *)
    Cpu.hash_batch sha256 10 as_completed fs h files stage
  else if negb (_gpu_available p) then
    Cpu.hash_batch sha256 10 as_completed fs h files stage
  else if decide (batch_size p = 0) then
    Raise (ValueError "range() arg 3 must not be zero")
  else if decide (batch_size p < 0) then
    Ok []
  else
    Ok (batch_loop p fs h (Z.to_nat (batch_size p)) (length files) files []).

End with_digest.
End Gpu.

(** ** hashing/base.py *)

Module Base.

(** The machine the hashing runs on: the file system and the order in which
    a pool of workers completes [n] submitted tasks. *)
Record Machine := mkMachine {
  fs : filesystem;
  as_completed : nat → list nat
}.

(** The abstract class [HashProcessor]. *)
Class HashProcessor (P : Type) := {
  hash_first_1k : P → Machine → heap → ref → result bytes;
  hash_full_file : P → Machine → heap → ref → result bytes;
  hash_batch : P → Machine → heap → list ref → string
               → result (list (option bytes))
}.

(** The attributes of a [CPUHashProcessor]. *)
Record CPUHashProcessor := mkCPUHashProcessor {
  num_workers : Z;
  cpu_chunk_size : Z
}.

Section with_digest.
Variable sha256 : bytes → bytes.

Definition cpu_is_processor : HashProcessor CPUHashProcessor := {|
  hash_first_1k _ m h f := Cpu.hash_first_1k sha256 (fs m) h f;
  hash_full_file _ m h f := Cpu.hash_full_file sha256 (fs m) h f;
  hash_batch p m h fl st :=
    Cpu.hash_batch sha256 (num_workers p) (as_completed m) (fs m) h fl st
|}.

Definition gpu_is_processor : HashProcessor Gpu.GPUHashProcessor := {|
  hash_first_1k p m h f := Gpu.hash_first_1k sha256 p (fs m) h f;
  hash_full_file p m h f := Gpu.hash_full_file sha256 p (fs m) h f;
  hash_batch p m h fl st := Gpu.hash_batch sha256 p (as_completed m) (fs m) h fl st
|}.

End with_digest.
End Base.

(** ** hashing/orchestrator.py *)

Module Orchestrator.

(** Which of the orchestrator's two processors a call went to. *)
Inductive Backend := via_cpu_processor | via_gpu_processor.

(** One call of [hash_batch] made by the orchestrator. *)
Record HashCall := mkHashCall {
  call_backend : Backend;
  call_stage : string;
  call_files : list ref
}.

(** The objects the orchestrator and the comparators share: the store,
    the two collections, and the [hash_batch] calls made so far. *)
Record World := mkWorld {
  store : heap;
  ebooks_collection : FileCollection;
  calibre_collection : FileCollection;
  calls : list HashCall
}.

Definition with_by_size_and_1k (c : FileCollection) (m : gmap (Z * bytes) (list ref))
  : FileCollection :=
  mkFileCollection (files c) (by_size c) m (by_full_hash c).

Definition with_by_full_hash (c : FileCollection) (m : gmap bytes ref)
  : FileCollection :=
  mkFileCollection (files c) (by_size c) (by_size_and_1k c) m.

(** [{f.get_size_hash() for f in stage2_candidates}] *)
Fixpoint candidate_sizes (todo : list ref) (h : heap) (sizes : gset Z)
  : gset Z * heap :=
  match todo with
  | [] => (sizes, h)
  | f :: rest =>
      let '(sz, h1) := get_size_hash h f in
      candidate_sizes rest h1 ({[sz]} ∪ sizes)
  end.

(** [for file in self.calibre_collection.files:
       if file.get_size_hash() in stage2_sizes: ... append(file)] *)
Fixpoint select_by_size (stage2_sizes : gset Z) (todo : list ref) (h : heap)
    (selected : list ref) : list ref * heap :=
  match todo with
  | [] => (selected, h)
  | file :: rest =>
      let '(sz, h1) := get_size_hash h file in
      if decide (sz ∈ stage2_sizes)
      then select_by_size stage2_sizes rest h1 (selected ++ [file])
      else select_by_size stage2_sizes rest h1 selected
  end.

(** [for file, hash_value in zip(files, hashes):
       if hash_value:
           file.first_1k_hash = hash_value
           collection.by_size_and_1k[(file.get_size_hash(), hash_value)].append(file)] *)
Fixpoint store_1k_hashes (pairs : list (ref * option bytes)) (h : heap)
    (index : gmap (Z * bytes) (list ref)) : heap * gmap (Z * bytes) (list ref) :=
  match pairs with
  | [] => (h, index)
  | (file, hash_value) :: rest =>
      match hash_value with
      | Some hv =>
          if truthy hv then
            let h1 := set_first_1k_hash h file (Some hv) in
            let '(sz, h2) := get_size_hash h1 file in
            store_1k_hashes rest h2 (dd_append index (sz, hv) file)
          else store_1k_hashes rest h index
      | None => store_1k_hashes rest h index
      end
  end.

(** [for file, hash_value in zip(files, hashes):
       if hash_value:
           file.full_hash = hash_value
           collection.by_full_hash[hash_value] = file] *)
Fixpoint store_full_hashes (pairs : list (ref * option bytes)) (h : heap)
    (index : gmap bytes ref) : heap * gmap bytes ref :=
  match pairs with
  | [] => (h, index)
  | (file, hash_value) :: rest =>
      match hash_value with
      | Some hv =>
          if truthy hv then
            store_full_hashes rest (set_full_hash h file (Some hv))
              (<[hv := file]> index)
          else store_full_hashes rest h index
      | None => store_full_hashes rest h index
      end
  end.

(** [{(f.get_size_hash(), f.first_1k_hash) for f in stage3_candidates
      if f.first_1k_hash is not None}] *)
Fixpoint candidate_size_1k (todo : list ref) (h : heap) (keys : gset (Z * bytes))
  : gset (Z * bytes) * heap :=
  match todo with
  | [] => (keys, h)
  | f :: rest =>
      match first_1k_hash (h f) with
      | Some k =>
          let '(sz, h1) := get_size_hash h f in
          candidate_size_1k rest h1 ({[(sz, k)]} ∪ keys)
      | None => candidate_size_1k rest h keys
      end
  end.

(** [for file in self.calibre_collection.files:
       if (file.first_1k_hash is not None
           and (file.get_size_hash(), file.first_1k_hash) in stage3_size_1k_set):
           ... append(file)] *)
Fixpoint select_by_size_1k (keys : gset (Z * bytes)) (todo : list ref) (h : heap)
    (selected : list ref) : list ref * heap :=
  match todo with
  | [] => (selected, h)
  | file :: rest =>
      match first_1k_hash (h file) with
      | Some k =>
          let '(sz, h1) := get_size_hash h file in
          if decide ((sz, k) ∈ keys)
          then select_by_size_1k keys rest h1 (selected ++ [file])
          else select_by_size_1k keys rest h1 selected
      | None => select_by_size_1k keys rest h selected
      end
  end.

Section with_processors.
Context {C G : Type} (CP : Base.HashProcessor C) (GP : Base.HashProcessor G).

(** The processors a [HashingOrchestrator] is built with; the two
    collections it also holds are those of the [World]. *)
Record HashingOrchestrator := mkHashingOrchestrator {
  cpu_processor : C;
  gpu_processor : option G
}.

Variable m : Base.Machine.
Variable self : HashingOrchestrator.

(** [self.cpu_processor.hash_batch(files, stage)], noted in [calls]. *)
Definition call_cpu (w : World) (files : list ref) (stage : string)
  : World * result (list (option bytes)) :=
  (mkWorld (store w) (ebooks_collection w) (calibre_collection w)
     (calls w ++ [mkHashCall via_cpu_processor stage files]),
   Base.hash_batch (cpu_processor self) m (store w) files stage).

(** [self.gpu_processor.hash_batch(files, stage)], noted in [calls]. *)
Definition call_gpu (g : G) (w : World) (files : list ref) (stage : string)
  : World * result (list (option bytes)) :=
  (mkWorld (store w) (ebooks_collection w) (calibre_collection w)
     (calls w ++ [mkHashCall via_gpu_processor stage files]),
   Base.hash_batch g m (store w) files stage).

(** Write the prefix hashes of a batch into the records and into the
    [by_size_and_1k] index of the library ([calibre_side = true]) or of the
    datalake. *)
Definition record_1k (calibre_side : bool) (w : World) (files : list ref)
    (hashes : list (option bytes)) : World :=
  if calibre_side then
    let '(h, idx) := store_1k_hashes (zip files hashes) (store w)
                       (by_size_and_1k (calibre_collection w)) in
    mkWorld h (ebooks_collection w)
      (with_by_size_and_1k (calibre_collection w) idx) (calls w)
  else
    let '(h, idx) := store_1k_hashes (zip files hashes) (store w)
                       (by_size_and_1k (ebooks_collection w)) in
    mkWorld h (with_by_size_and_1k (ebooks_collection w) idx)
      (calibre_collection w) (calls w).

(** The same for the full hashes and the [by_full_hash] index. *)
Definition record_full (calibre_side : bool) (w : World) (files : list ref)
    (hashes : list (option bytes)) : World :=
  if calibre_side then
    let '(h, idx) := store_full_hashes (zip files hashes) (store w)
                       (by_full_hash (calibre_collection w)) in
    mkWorld h (ebooks_collection w)
      (with_by_full_hash (calibre_collection w) idx) (calls w)
  else
    let '(h, idx) := store_full_hashes (zip files hashes) (store w)
                       (by_full_hash (ebooks_collection w)) in
    mkWorld h (with_by_full_hash (ebooks_collection w) idx)
      (calibre_collection w) (calls w).

Definition with_store (w : World) (h : heap) : World :=
  mkWorld h (ebooks_collection w) (calibre_collection w) (calls w).

(** [hashes = self.cpu_processor.hash_batch(files, "1k")] followed by the
    loop that records them. *)
Definition prefix_on_cpu (calibre_side : bool) (files : list ref) (w : World)
  : result World :=
  let '(wc, r) := call_cpu w files "1k" in
  hashes ← r;
  Ok (record_1k calibre_side wc files hashes).

(** [HashingOrchestrator.hash_stage2_files]: returns the world after the
    call and [(calibre_stage2_candidates, stage2_candidates)]. *)
Definition hash_stage2_files (stage2_candidates : list ref) (w : World)
  : result (World * (list ref * list ref)) :=
  let '(stage2_sizes, h1) := candidate_sizes stage2_candidates (store w) ∅ in
  let '(calibre_stage2_candidates, h2) :=
    select_by_size stage2_sizes (files (calibre_collection w)) h1 [] in
  let w2 := with_store w h2 in
  (* Hash Calibre files first (1KB only) - always use CPU for 1KB *)
  w3 ← match calibre_stage2_candidates with
       | [] => Ok w2
       | _ :: _ => prefix_on_cpu true calibre_stage2_candidates w2
       end;
  (* Hash ebooks files (1KB only) - always use CPU for 1KB *)
  w4 ← prefix_on_cpu false stage2_candidates w3;
  Ok (w4, (calibre_stage2_candidates, stage2_candidates)).

(** One of the four hashing blocks of [hash_stage3_files] that go to the
    GPU: [if files and self.gpu_processor: ...]. *)
Definition full_on_gpu (calibre_side : bool) (files : list ref) (w : World)
  : result World :=
  match files, gpu_processor self with
  | _ :: _, Some g =>
      let '(wc, r) := call_gpu g w files "full" in
      hashes ← r;
      Ok (record_full calibre_side wc files hashes)
  | _, _ => Ok w
  end.

(** One of the two blocks that go to the CPU: [if files: ...]. *)
Definition full_on_cpu (calibre_side : bool) (files : list ref) (w : World)
  : result World :=
  match files with
  | _ :: _ =>
      let '(wc, r) := call_cpu w files "full" in
      hashes ← r;
      Ok (record_full calibre_side wc files hashes)
  | [] => Ok w
  end.

(** [HashingOrchestrator.hash_stage3_files]: returns the world after the
    call and [(calibre_stage3_candidates, stage3_candidates)]. *)
Definition hash_stage3_files (stage3_candidates : list ref)
    (gpu_available : bool) (gpu_threshold : option Z)
    (processed_files : option (gset string)) (w : World)
  : result (World * (list ref * list ref)) :=
  let h := store w in
  (* Split ebooks candidates by processing method (GPU/CPU) *)
  let stage3_gpu_files :=
    filter (λ f, processing_method (h f) = gpu ∧ is_Some (gpu_processor self))
      stage3_candidates in
  let stage3_cpu_files :=
    filter (λ f, processing_method (h f) = cpu ∨ gpu_processor self = None)
      stage3_candidates in
  (* Find Calibre files that match size and 1KB hash *)
  let '(stage3_size_1k_set, h1) := candidate_size_1k stage3_candidates h ∅ in
  let '(calibre_stage3_candidates, h2) :=
    select_by_size_1k stage3_size_1k_set (files (calibre_collection w)) h1 [] in
  (* Preprocess Calibre files for GPU/CPU selection *)
  let '(h3, calibre_categorized) :=
    Preprocessing.preprocess_files calibre_stage3_candidates gpu_available
      gpu_threshold (Some (default ∅ processed_files)) h2 in
  let calibre_stage3_gpu_files := Preprocessing.cat_gpu calibre_categorized in
  let calibre_stage3_cpu_files := Preprocessing.cat_cpu calibre_categorized in
  let w3 := with_store w h3 in
  w4 ← full_on_gpu true calibre_stage3_gpu_files w3;
  w5 ← full_on_cpu true calibre_stage3_cpu_files w4;
  w6 ← full_on_gpu false stage3_gpu_files w5;
  w7 ← full_on_cpu false stage3_cpu_files w6;
  Ok (w7, (calibre_stage3_candidates, stage3_candidates)).

End with_processors.
End Orchestrator.

(** ** __main__.py: the analysis run *)

Module Main.

(** What discovery reads off one file: the arguments [EbookFile] is
    constructed with. *)
Record FileInfo := mkFileInfo {
  info_path : string;
  info_relative : string;
  info_name : string;
  info_size : Z;
  info_extension : string
}.

Definition make_file (d : FileInfo) : EbookFile :=
  new_file (info_path d) (info_relative d) (info_name d) (info_size d)
    (info_extension d).

(** The two calls of [discover_files_recursive]: one fresh [EbookFile] per
    file found, first the datalake's, then the library's.  Returns the store
    and the two lists [ebooks_files], [calibre_files]. *)
Definition discover (ebooks calibre : list FileInfo) : heap * list ref * list ref :=
  (λ r, match (ebooks ++ calibre) !! r with
        | Some d => make_file d
        | None => new_file "" "" "" 0 ""
        end,
   seq 0 (length ebooks),
   seq (length ebooks) (length calibre)).

(** [for file in files: collection.add_file(file)] *)
Fixpoint add_files (c : FileCollection) (h : heap) (todo : list ref)
  : FileCollection * heap :=
  match todo with
  | [] => (c, h)
  | file :: rest =>
      let '(c1, h1) := add_file c h file in
      add_files c1 h1 rest
  end.

(** A row of the duplicates report; [dup_size] stands for
    [str(file.file_size)]. *)
Record DupRow := mkDupRow {
  duplicate_path : string;
  original_path : string;
  method : string;
  dup_size : Z;
  dup_filename : string
}.

(** The state of the deduplication loop. *)
Record Dedup := mkDedup {
  dedup_store : heap;
  seen_hashes : gmap bytes ref;
  seen_size_1k : gmap (Z * bytes) ref;
  seen_sizes : gmap Z ref;
  deduplicated_files : list ref;
  duplicates_report : list DupRow
}.

Definition report_row (h : heap) (file original : ref) (how : string) : DupRow :=
  mkDupRow (full_path (h file)) (full_path (h original)) how
    (file_size (h file)) (filename (h file)).

(** One round of [for file in unique_files:]; the tests [if file.full_hash]
    and [elif file.first_1k_hash] are [populated]. *)
Definition dedup_step (s : Dedup) (file : ref) : Dedup :=
  let h := dedup_store s in
  match populated (full_hash (h file)) with
  | Some fh =>
      (* Prefer full hash for deduplication *)
      match seen_hashes s !! fh with
      | None =>
          mkDedup h (<[fh := file]> (seen_hashes s)) (seen_size_1k s)
            (seen_sizes s) (deduplicated_files s ++ [file]) (duplicates_report s)
      | Some original =>
          mkDedup h (seen_hashes s) (seen_size_1k s) (seen_sizes s)
            (deduplicated_files s)
            (duplicates_report s ++ [report_row h file original "full_hash"])
      end
  | None =>
      match populated (first_1k_hash (h file)) with
      | Some k =>
          (* Fallback to size + 1KB hash *)
          let '(sz, h1) := get_size_hash h file in
          let key := (sz, k) in
          match seen_size_1k s !! key with
          | None =>
              mkDedup h1 (seen_hashes s) (<[key := file]> (seen_size_1k s))
                (seen_sizes s) (deduplicated_files s ++ [file])
                (duplicates_report s)
          | Some original =>
              mkDedup h1 (seen_hashes s) (seen_size_1k s) (seen_sizes s)
                (deduplicated_files s)
                (duplicates_report s ++
                   [report_row h1 file original "size+1k_hash"])
          end
      | None =>
          (* Fallback to size only (Stage 1 files) *)
          let '(size_key, h1) := get_size_hash h file in
          match seen_sizes s !! size_key with
          | None =>
              mkDedup h1 (seen_hashes s) (seen_size_1k s)
                (<[size_key := file]> (seen_sizes s))
                (deduplicated_files s ++ [file]) (duplicates_report s)
          | Some original =>
              mkDedup h1 (seen_hashes s) (seen_size_1k s) (seen_sizes s)
                (deduplicated_files s)
                (duplicates_report s ++
                   [report_row h1 file original "size_only"])
          end
      end
  end.

(** The deduplication pass of [run_analyze] over [unique_files]. *)
Definition deduplicate (h : heap) (unique_files : list ref) : Dedup :=
  fold_left dedup_step unique_files (mkDedup h ∅ ∅ ∅ [] []).

(** What a run leaves behind: the store, the calls made to the hash
    processors, the merged unique list, and what is written to the output
    CSV and to the duplicates report. *)
Record Outcome := mkOutcome {
  final_store : heap;
  hash_calls : list Orchestrator.HashCall;
  stage1_unique : list ref;
  stage2_unique : list ref;
  stage3_unique : list ref;
  written : list ref;
  reported : list DupRow
}.

(** The orchestrator and the comparators of a run share the two
    collections; the processors are the CPU one and, if any, the GPU one. *)
Abbreviation Hashing :=
  (@Orchestrator.HashingOrchestrator Base.CPUHashProcessor Gpu.GPUHashProcessor).

Section with_digest.
Variable sha256 : bytes → bytes.

(** The block [if stage2_candidates:] of [run_analyze]: hash, then
    compare.  Returns the world, [stage2_unique] and [stage3_candidates]. *)
Definition stage2_block (m : Base.Machine) (hashing_orchestrator : Hashing)
    (stage2_candidates : list ref) (w : Orchestrator.World)
  : result (Orchestrator.World * list ref * list ref) :=
  match stage2_candidates with
  | [] => Ok (w, [], [])
  | _ :: _ =>
      (* Preprocessing: Hash files for Stage 2 *)
      '(wh, _) ← Orchestrator.hash_stage2_files (Base.cpu_is_processor sha256)
                   m hashing_orchestrator stage2_candidates w;
      (* Comparison: Compare hashed files *)
      let '(h', stage2_unique, stage3_candidates) :=
        Stage2.compare (Orchestrator.calibre_collection wh) stage2_candidates
          (Orchestrator.store wh) in
      Ok (Orchestrator.with_store wh h', stage2_unique, stage3_candidates)
  end.

(** The block [if stage3_candidates:] of [run_analyze].  Returns the world
    and [stage3_unique]. *)
Definition stage3_block (m : Base.Machine) (hashing_orchestrator : Hashing)
    (stage3_candidates : list ref) (gpu_available : bool)
    (gpu_threshold : option Z) (processed_files : gset string)
    (w : Orchestrator.World) : result (Orchestrator.World * list ref) :=
  match stage3_candidates with
  | [] => Ok (w, [])
  | _ :: _ =>
      (* Preprocessing: Hash files for Stage 3 *)
      '(wh, _) ← Orchestrator.hash_stage3_files (Base.cpu_is_processor sha256)
                   (Base.gpu_is_processor sha256) m hashing_orchestrator
                   stage3_candidates gpu_available gpu_threshold
                   (Some processed_files) w;
      (* Comparison: Compare hashed files *)
      let '(h', stage3_unique) :=
        Stage3.compare (Orchestrator.calibre_collection wh) stage3_candidates
          (Orchestrator.store wh) in
      Ok (Orchestrator.with_store wh h', stage3_unique)
  end.

(** [run_analyze] from the discovered lists on.  [use_gpu] and
    [threshold] are [args.use_gpu] and [parse_size(args.gpu_threshold)],
    [workers] is [args.workers], [processed_files] the set read from the
    resume CSV (empty without [--resume]). *)
Definition run_analyze (m : Base.Machine) (dev : Gpu.Device)
    (use_gpu : bool) (threshold : Z) (workers : Z)
    (processed_files : gset string)
    (h0 : heap) (ebooks_files calibre_files : list ref) : result Outcome :=
  (* Preprocessing: GPU/CPU selection *)
  let gpu_available := use_gpu in
  let gpu_threshold := if use_gpu then Some threshold else None in
  let '(h1, categorized) :=
    Preprocessing.preprocess_files ebooks_files gpu_available gpu_threshold
      (Some processed_files) h0 in
  (* Build collections (only include files that aren't skipped) *)
  let files_to_process :=
    Preprocessing.cat_gpu categorized ++ Preprocessing.cat_cpu categorized in
  let '(ebooks_collection, h2) := add_files empty_collection h1 files_to_process in
  let '(calibre_collection, h3) := add_files empty_collection h2 calibre_files in
  (* Initialize hash processors *)
  let cpu_processor := Base.mkCPUHashProcessor workers (1024 * 1024) in
  let gpu_processor :=
    if gpu_available then
      let p := Gpu.new_processor dev in
      if Gpu._gpu_available p then Some p else None
    else None in
  let gpu_available :=
    match gpu_processor with Some _ => gpu_available | None => false end in
  let hashing_orchestrator :=
    Orchestrator.mkHashingOrchestrator cpu_processor gpu_processor in
  (* Stage 1: Size comparison *)
  let '(h4, stage1_unique, stage2_candidates) :=
    Stage1.compare ebooks_collection calibre_collection h3 in
  let w1 := Orchestrator.mkWorld h4 ebooks_collection calibre_collection [] in
  (* Stage 2: First 1KB hash comparison *)
  '(w2, stage2_unique, stage3_candidates) ←
    stage2_block m hashing_orchestrator stage2_candidates w1;
  (* Stage 3: Full file hash comparison *)
  '(w3, stage3_unique) ←
    stage3_block m hashing_orchestrator stage3_candidates gpu_available
      gpu_threshold processed_files w2;
  (* Collect all unique files *)
  let unique_files := stage1_unique ++ stage2_unique ++ stage3_unique in
  let d := deduplicate (Orchestrator.store w3) unique_files in
  Ok (mkOutcome (dedup_store d) (Orchestrator.calls w3)
        stage1_unique stage2_unique stage3_unique
        (deduplicated_files d) (duplicates_report d)).

End with_digest.
End Main.

(** ** models.py: the lookup by size *)

(** [FileCollection.get_files_by_size]: [dict.get(size, [])]. *)
Definition get_files_by_size (c : FileCollection) (size : Z) : list ref :=
  default [] (by_size c !! size).

(** ** comparison/__init__.py *)

Module Comparison.

(** [LibraryComparator.find_unique_files]: the three comparators run one
    after the other on records that are taken to be hashed already.
    Returns the store after the call and [all_unique]. *)
Definition find_unique_files (ebooks_collection calibre_collection : FileCollection)
    (h : heap) : heap * list ref :=
  let all_unique := [] in
  (* Stage 1: Size comparison *)
  let '(h1, stage1_unique, stage2_candidates) :=
    Stage1.compare ebooks_collection calibre_collection h in
  let all_unique := all_unique ++ stage1_unique in
  (* Stage 2: First 1KB hash comparison (only if hashes are available) *)
  match stage2_candidates with
  | [] => (h1, all_unique)
  | _ :: _ =>
      (* Filter to files that have 1KB hashes *)
      let stage2_candidates_with_hash :=
        filter (λ f, first_1k_hash (h1 f) ≠ None) stage2_candidates in
      match stage2_candidates_with_hash with
      | [] => (h1, all_unique)
      | _ :: _ =>
          let '(h2, stage2_unique, stage3_candidates) :=
            Stage2.compare calibre_collection stage2_candidates_with_hash h1 in
          let all_unique := all_unique ++ stage2_unique in
          (* Stage 3: Full file hash comparison (only if hashes are available) *)
          match stage3_candidates with
          | [] => (h2, all_unique)
          | _ :: _ =>
              (* Filter to files that have full hashes *)
              let stage3_candidates_with_hash :=
                filter (λ f, full_hash (h2 f) ≠ None) stage3_candidates in
              match stage3_candidates_with_hash with
              | [] => (h2, all_unique)
              | _ :: _ =>
                  let '(h3, stage3_unique) :=
                    Stage3.compare calibre_collection
                      stage3_candidates_with_hash h2 in
                  (h3, all_unique ++ stage3_unique)
              end
          end
      end
  end.

End Comparison.

(** ** csv_handler.py: the writing side *)

Module CsvHandler.

(** The row [_flush_buffer] hands to [csv.DictWriter.writerow]: the four
    entries of [EbookFile.to_dict] and the time of writing. *)
Record Row := mkRow {
  row_relative_path : string;
  row_filename : string;
  row_file_size : Z;
  row_full_path : string;
  row_processed_at : string
}.

(** [EbookFile.to_dict], with [row["processed_at"] = ...] added. *)
Definition to_dict (f : EbookFile) (processed_at : string) : Row :=
  mkRow (relative_path f) (filename f) (file_size f) (full_path f) processed_at.

(** A CSV file is kept as the lines the writer was asked to write: the
    header line of [writeheader], over the field names [relative_path],
    [filename], [file_size], [full_path], [processed_at], or a row. *)
Inductive Line :=
| HeaderLine
| DataLine (row : Row).

(** What the handler sees of its surroundings: the files that exist, each
    with its lines (a file without lines has size 0); the paths at which
    [open] for writing and [unlink] fail; the paths at which [os.stat]
    fails with an error that [Path.exists] lets through (a name too long, a
    directory that may not be searched); the lines whose writing raises,
    with the exception raised (a row with a string that the utf-8 codec
    cannot encode, as a file name with a lone surrogate, raises
    [UnicodeEncodeError], a [ValueError]; an error of the device is an
    [OSError]); and the clock, [datetime.now(timezone.utc).isoformat()], as
    the values it returns one after the other, [ticks] of them being used
    up. *)
Record Disk := mkDisk {
  content : gmap string (list Line);
  unwritable : gset string;
  unstatable : gset string;
  write_error : Line → option exn;
  now : nat → string;
  ticks : nat
}.

Definition with_content (d : Disk) (c : gmap string (list Line)) : Disk :=
  mkDisk c (unwritable d) (unstatable d) (write_error d) (now d) (ticks d).

(** [datetime.now(timezone.utc).isoformat()] *)
Definition read_clock (d : Disk) : string * Disk :=
  (now d (ticks d),
   mkDisk (content d) (unwritable d) (unstatable d) (write_error d) (now d)
     (S (ticks d))).

(** [path.exists()] *)
Definition exists_ (d : Disk) (path : string) : result bool :=
  if decide (path ∈ unstatable d) then Raise OSError
  else Ok (bool_decide (is_Some (content d !! path))).

(** The file is there and has a line. *)
Definition has_lines (d : Disk) (path : string) : bool :=
  match content d !! path with
  | Some (_ :: _) => true
  | _ => false
  end.

(** [path.exists() and path.stat().st_size > 0]; [stat] is not called on
    a path that is not there, and succeeds where [exists] has. *)
Definition has_content (d : Disk) (path : string) : result bool :=
  e ← exists_ d path;
  Ok (e && has_lines d path).

(** [open(path, "w", ...)]: the file is created or emptied. *)
Definition open_w (d : Disk) (path : string) : result Disk :=
  if decide (path ∈ unwritable d) then Raise OSError
  else Ok (with_content d (<[path := []]> (content d))).

(** [open(path, "a", ...)]: the file is created if it is not there. *)
Definition open_a (d : Disk) (path : string) : result Disk :=
  if decide (path ∈ unwritable d) then Raise OSError
  else Ok (with_content d
             (<[path := default [] (content d !! path)]> (content d))).

(** [writer.writeheader()] and [writer.writerow(row)] on a file that is
    open: the call raises, or the line goes to the end of the file. *)
Definition write_line (d : Disk) (path : string) (l : Line) : result Disk :=
  match write_error d l with
  | Some e => Raise e
  | None =>
      Ok (with_content d
            (<[path := default [] (content d !! path) ++ [l]]> (content d)))
  end.

(** [path.unlink()] *)
Definition unlink (d : Disk) (path : string) : result Disk :=
  if decide (path ∈ unwritable d) then Raise OSError
  else Ok (with_content d (delete path (content d))).

(** The attributes of a [CSVHandler]. *)
Record CSVHandler := mkCSVHandler {
  csv_path : string;
  batch_size : Z;
  resume_mode : bool;
  _processed_files : gset string;
  _buffer : list ref;
  _header_written : bool
}.

(** [CSVHandler(csv_path, batch_size, resume_mode=False)]; with
    [resume_mode=True] the constructor also loads [_processed_files] from
    the file, an attribute the writing methods do not read. *)
Definition new_handler (csv_path : string) (batch_size : Z) : CSVHandler :=
  mkCSVHandler csv_path batch_size false ∅ [] false.

Definition with_buffer (self : CSVHandler) (b : list ref) : CSVHandler :=
  mkCSVHandler (csv_path self) (batch_size self) (resume_mode self)
    (_processed_files self) b (_header_written self).

Definition with_header_written (self : CSVHandler) : CSVHandler :=
  mkCSVHandler (csv_path self) (batch_size self) (resume_mode self)
    (_processed_files self) (_buffer self) true.

(** [CSVHandler.write_header] *)
Definition write_header (self : CSVHandler) (d : Disk)
  : result (CSVHandler * Disk) :=
  if _header_written self then Ok (self, d)
  else
    (* Check if file exists and has content *)
    there ← has_content d (csv_path self);
    if there : bool then Ok (with_header_written self, d)
    else
      (* Write header *)
      d1 ← open_w d (csv_path self);
      d2 ← write_line d1 (csv_path self) HeaderLine;
      Ok (with_header_written self, d2).

(** The loop of [_flush_buffer]: one row per buffered record, stamped with
    the time at which it is written. *)
Fixpoint write_rows (h : heap) (path : string) (todo : list ref) (d : Disk)
  : result Disk :=
  match todo with
  | [] => Ok d
  | file :: rest =>
      let '(processed_at, d1) := read_clock d in
      let row := to_dict (h file) processed_at in
      d2 ← write_line d1 path (DataLine row);
      write_rows h path rest d2
  end.

(** [CSVHandler._flush_buffer]; the records are read in the store [h]
    when they are written. *)
Definition _flush_buffer (self : CSVHandler) (h : heap) (d : Disk)
  : result (CSVHandler * Disk) :=
  match _buffer self with
  | [] => Ok (self, d)
  | _ :: _ =>
      d1 ← open_a d (csv_path self);
      d2 ← write_rows h (csv_path self) (_buffer self) d1;
      Ok (with_buffer self [], d2)
  end.

(** [CSVHandler.flush] *)
Definition flush (self : CSVHandler) (h : heap) (d : Disk)
  : result (CSVHandler * Disk) :=
  _flush_buffer self h d.

(** [CSVHandler.write_batch] *)
Definition write_batch (self : CSVHandler) (files : list ref) (h : heap)
    (d : Disk) : result (CSVHandler * Disk) :=
  match files with
  | [] => Ok (self, d)
  | _ :: _ =>
      '(self1, d1) ← write_header self d;
      (* Append to buffer *)
      let self2 := with_buffer self1 (_buffer self1 ++ files) in
      (* Write if buffer is full *)
      if decide (Z.of_nat (length (_buffer self2)) >= batch_size self2)
      then _flush_buffer self2 h d1
      else Ok (self2, d1)
  end.

(** The end of [run_analyze]: the output file is removed if it is there,
    and the deduplicated records are written through a new handler.
    [batch_size] is [args.batch_size]. *)
Definition write_output (output_path : string) (batch_size : Z)
    (deduplicated_files : list ref) (h : heap) (d : Disk) : result Disk :=
  (* Delete existing file first to ensure clean overwrite *)
  there ← exists_ d output_path;
  d1 ← (if there : bool then unlink d output_path else Ok d);
  let final_csv_handler := new_handler output_path batch_size in
  '(handler1, d2) ← write_batch final_csv_handler deduplicated_files h d1;
  '(_, d3) ← flush handler1 h d2;
  Ok d3.

End CsvHandler.

(** ** copier.py *)

From Stdlib Require DecimalString.

Module Copier.

(** The exception classes [copy_file] tells apart, each with its [str(e)].
    [PermissionError] and [FileExistsError] are subclasses of [OSError];
    [OtherOSError] is any other [OSError], [OtherException] any other
    [Exception]. *)
Inductive Error :=
| PermissionError (e : string)
| FileExistsError (e : string)
| OtherOSError (e : string)
| ValueError (e : string)
| OtherException (e : string).

Inductive outcome (A : Type) :=
| Returns (a : A)
| Raises (e : Error).
Arguments Returns {A} a.
Arguments Raises {A} e.

(** What the copier uses of its surroundings, over the states [fs] of the
    file system: the path arithmetic of [pathlib] on paths kept as their
    [str()], the queries and calls on the file system (a call that raises
    may still have changed the disk), [utils.generate_random_suffix] as the
    values of its successive calls, [CSVHandler.read_all] on the CSV file
    with the base path, and [str.lower].  [Path.exists] and [Path.is_file]
    answer false for a path that is not there and raise the other errors
    of [os.stat] (a name too long, a directory that may not be searched). *)
Record System (fs : Type) := mkSystem {
  joinpath : string → string → string;
  stem : string → string;
  suffix : string → string;
  parent : string → string;
  exists_ : fs → string → outcome bool;
  is_file : fs → string → outcome bool;
  stat_st_size : fs → string → outcome Z;
  mkdir : fs → string → fs * option Error;
  copy2 : fs → string → string → fs * option Error;
  generate_random_suffix : nat → string;
  read_all : fs → string → string → outcome (list EbookFile);
  lower : string → string
}.
Arguments joinpath {fs} _ _ _.
Arguments stem {fs} _ _.
Arguments suffix {fs} _ _.
Arguments parent {fs} _ _.
Arguments exists_ {fs} _ _ _.
Arguments is_file {fs} _ _ _.
Arguments stat_st_size {fs} _ _ _.
Arguments mkdir {fs} _ _ _.
Arguments copy2 {fs} _ _ _ _.
Arguments generate_random_suffix {fs} _ _.
Arguments read_all {fs} _ _ _ _.
Arguments lower {fs} _ _.

(** The attributes of a [FileCopier]. *)
Record FileCopier := mkFileCopier {
  csv_path : string;
  source_base : string;
  target_folder : string;
  conflict_handling : string;
  num_workers : Z
}.

(** [FileCopier.__init__] *)
Definition new_copier (csv_path source_base target_folder conflict_handling : string)
    (num_workers : Z) : outcome FileCopier :=
  if bool_decide (conflict_handling ∉ ["rename"; "skip"; "overwrite"]%string)
  then Raises (ValueError ("Invalid conflict_handling: " +:+ conflict_handling))
  else Returns (mkFileCopier csv_path source_base target_folder
                  conflict_handling num_workers).

(** The dictionary [copy_file] returns. *)
Record CopyResult := mkCopyResult {
  success : bool;
  source : string;
  target : option string;
  message : string
}.

(** The dictionary [copy_all] returns. *)
Record Stats := mkStats {
  stats_total : nat;
  stats_success : nat;
  stats_failed : nat;
  stats_skipped : nat;
  stats_results : list CopyResult
}.

(** [f"{counter}"] *)
Definition str_of_nat (n : nat) : string :=
  DecimalString.NilEmpty.string_of_uint (Nat.to_uint n).

(** [sub in s] on strings *)
Fixpoint contains (sub s : string) : bool :=
  String.prefix sub s ||
  match s with
  | EmptyString => false
  | String _ s' => contains sub s'
  end.

Section with_system.
Context {fs : Type} (sys : System fs).

(** The state a copy runs in: the disk, the number of random suffixes
    drawn so far, and the calls of [shutil.copy2] made so far, as
    (source, destination). *)
Record World := mkWorld {
  disk : fs;
  drawn : nat;
  copy2_calls : list (string * string)
}.

(** [target.parent / f"{stem}_{tag}{suffix}"] *)
Definition renamed (target tag : string) : string :=
  joinpath sys (parent sys target)
    (stem sys target +:+ "_" +:+ tag +:+ suffix sys target).

(** [for _ in range(100)]: the first random name that is free; the loop
    is left by what [exists] raises. *)
Fixpoint random_tries (n : nat) (target : string) (w : World)
  : outcome (option string) * World :=
  match n with
  | O => (Returns None, w)
  | S n =>
      let random_suffix := generate_random_suffix sys (drawn w) in
      let w1 := mkWorld (disk w) (S (drawn w)) (copy2_calls w) in
      let new_path := renamed target random_suffix in
      match exists_ sys (disk w1) new_path with
      | Raises e => (Raises e, w1)
      | Returns true => random_tries n target w1
      | Returns false => (Returns (Some new_path), w1)
      end
  end.

(** [while True] over the counter, cut after [fuel] rounds. *)
Fixpoint counter_loop (fuel : nat) (target : string) (counter : nat) (d : fs)
  : option (outcome string) :=
  match fuel with
  | O => None
  | S fuel =>
      let new_path := renamed target (str_of_nat counter) in
      match exists_ sys d new_path with
      | Raises e => Some (Raises e)
      | Returns true => counter_loop fuel target (S counter) d
      | Returns false => Some (Returns new_path)
      end
  end.

(** [FileCopier._resolve_filename_conflict]; [None] when the counter loop
    has not ended after [fuel] rounds. *)
Definition _resolve_filename_conflict (fuel : nat) (filename target : string)
    (w : World) : option (outcome string * World) :=
  match random_tries 100 target w with
  | (Raises e, w1) => Some (Raises e, w1)
  | (Returns (Some new_path), w1) => Some (Returns new_path, w1)
  | (Returns None, w1) =>
      (* If we can't find a unique name, append a counter *)
      match counter_loop fuel target 1 (disk w1) with
      | Some out => Some (out, w1)
      | None => None
      end
  end.

(** The result the three [except] clauses around [shutil.copy2] return. *)
Definition copy_failed (file : EbookFile) (target_path : string) (e : Error)
  : CopyResult :=
  mkCopyResult false (full_path file) (Some target_path)
    match e with
    | PermissionError e => "Permission denied copying file: " +:+ e
    | FileExistsError e | OtherOSError e =>
        "Filesystem error copying file: " +:+ e
    | ValueError e | OtherException e => "Error copying: " +:+ e
    end.

(** [self.target_folder.exists() and self.target_folder.is_file()] *)
Definition target_folder_is_file (self : FileCopier) (d : fs) : outcome bool :=
  match exists_ sys d (target_folder self) with
  | Raises e => Raises e
  | Returns false => Returns false
  | Returns true => is_file sys d (target_folder self)
  end.

(** [copy_file] from [self.target_folder.mkdir(parents=True,
    exist_ok=True)] on: the target directory is made and the file copied. *)
Definition make_folder_and_copy (self : FileCopier) (file : EbookFile)
    (target_path : string) (w : World) : outcome CopyResult * World :=
  (* Try to create target directory with better error handling *)
  let '(d1, raised) := mkdir sys (disk w) (target_folder self) in
  let w1 := mkWorld d1 (drawn w) (copy2_calls w) in
  match raised with
  | Some (PermissionError e) =>
      (Returns (mkCopyResult false (full_path file) (Some target_path)
                  ("Permission denied creating target directory "
                   +:+ target_folder self +:+ ": " +:+ e)), w1)
  | Some (FileExistsError e) | Some (OtherOSError e) =>
      (Returns (mkCopyResult false (full_path file) (Some target_path)
                  ("Failed to create target directory "
                   +:+ target_folder self +:+ ": " +:+ e)), w1)
  | Some e => (Raises e, w1)
  | None =>
      (* Copy file *)
      let '(d2, raised) := copy2 sys (disk w1) (full_path file) target_path in
      let w2 := mkWorld d2 (drawn w1)
                  (copy2_calls w1 ++ [(full_path file, target_path)]) in
      match raised with
      | Some e => (Returns (copy_failed file target_path e), w2)
      | None =>
          (* Verify the copy actually succeeded by checking if target exists
             and has content; what these tests raise is caught as well *)
          match exists_ sys d2 target_path with
          | Raises e => (Returns (copy_failed file target_path e), w2)
          | Returns false =>
              (Returns (mkCopyResult false (full_path file) (Some target_path)
                 "Copy appeared to succeed but target file does not exist"),
               w2)
          | Returns true =>
              match stat_st_size sys d2 target_path with
              | Raises e => (Returns (copy_failed file target_path e), w2)
              | Returns st_size =>
                  if bool_decide (st_size = 0) && bool_decide (file_size file > 0)
                  then
                    (Returns (mkCopyResult false (full_path file)
                       (Some target_path)
                       "Copy appeared to succeed but target file is empty"),
                     w2)
                  else
                    (Returns (mkCopyResult true (full_path file)
                       (Some target_path) "Copied successfully"), w2)
              end
          end
      end
  end.

(** [copy_file] once the target path is settled and the run is not a dry
    run. *)
Definition copy_to (self : FileCopier) (file : EbookFile) (target_path : string)
    (w : World) : outcome CopyResult * World :=
  (* Ensure target directory exists *)
  (* If path exists as a file, raise an error *)
  match target_folder_is_file self (disk w) with
  | Raises e => (Raises e, w)
  | Returns true =>
      (Raises (FileExistsError
                 ("Cannot create target directory: " +:+ target_folder self
                  +:+ " exists as a file")), w)
  | Returns false => make_folder_and_copy self file target_path w
  end.

(** [copy_file] from the dry-run test on. *)
Definition copy_or_announce (self : FileCopier) (file : EbookFile)
    (dry_run : bool) (target_path : string) (w : World)
  : outcome CopyResult * World :=
  if dry_run then
    (Returns (mkCopyResult true (full_path file) (Some target_path)
                ("Would copy to: " +:+ target_path)), w)
  else copy_to self file target_path w.

(** [FileCopier.copy_file]; [None] when the renaming has not ended after
    [fuel] rounds. *)
Definition copy_file (fuel : nat) (self : FileCopier) (file : EbookFile)
    (dry_run : bool) (w : World) : option (outcome CopyResult * World) :=
  (* Validate source file exists *)
  match exists_ sys (disk w) (full_path file) with
  | Raises e => Some (Raises e, w)
  | Returns false =>
    Some (Returns (mkCopyResult false (full_path file) None
                     ("Source file does not exist: " +:+ full_path file)), w)
  | Returns true =>
    (* Target is always flat: target_folder / filename *)
    let target_path := joinpath sys (target_folder self) (filename file) in
    (* Handle conflicts *)
    match exists_ sys (disk w) target_path with
    | Raises e => Some (Raises e, w)
    | Returns true =>
      if bool_decide (conflict_handling self = "skip"%string) then
        Some (Returns (mkCopyResult false (full_path file) (Some target_path)
                         ("Target file exists, skipping: " +:+ target_path)),
              w)
      else if bool_decide (conflict_handling self = "rename"%string) then
        match _resolve_filename_conflict fuel (filename file) target_path w with
        | Some (Returns target_path, w1) =>
            Some (copy_or_announce self file dry_run target_path w1)
        | Some (Raises e, w1) => Some (Raises e, w1)
        | None => None
        end
      else
        (* Will overwrite, no change needed *)
        Some (copy_or_announce self file dry_run target_path w)
    | Returns false => Some (copy_or_announce self file dry_run target_path w)
    end
  end.

(** [if result["success"]: ... elif "skipping" in
    result["message"].lower(): ... else: ...] *)
Definition count (stats : Stats) (result : CopyResult) : Stats :=
  let results := stats_results stats ++ [result] in
  if success result then
    mkStats (stats_total stats) (S (stats_success stats)) (stats_failed stats)
      (stats_skipped stats) results
  else if contains "skipping" (lower sys (message result)) then
    mkStats (stats_total stats) (stats_success stats) (stats_failed stats)
      (S (stats_skipped stats)) results
  else
    mkStats (stats_total stats) (stats_success stats) (S (stats_failed stats))
      (stats_skipped stats) results.

(** The loop of [copy_all]. *)
Fixpoint copy_loop (fuel : nat) (self : FileCopier) (dry_run : bool)
    (files : list EbookFile) (stats : Stats) (w : World)
  : option (outcome Stats * World) :=
  match files with
  | [] => Some (Returns stats, w)
  | file :: files =>
      match copy_file fuel self file dry_run w with
      | Some (Returns result, w1) =>
          copy_loop fuel self dry_run files (count stats result) w1
      | Some (Raises e, w1) => Some (Raises e, w1)
      | None => None
      end
  end.

(** [FileCopier.copy_all]; [load_files_from_csv] is
    [CSVHandler(self.csv_path, resume_mode=False).read_all(self.source_base)]. *)
Definition copy_all (fuel : nat) (self : FileCopier) (dry_run : bool)
    (w : World) : option (outcome Stats * World) :=
  match read_all sys (disk w) (csv_path self) (source_base self) with
  | Raises e => Some (Raises e, w)
  | Returns files =>
      copy_loop fuel self dry_run files
        (mkStats (length files) 0 0 0 []) w
  end.

End with_system.

End Copier.

(** * Properties *)

(** ** Byte strings and the store *)

Lemma upd_eq h r f : upd h r f r = f.
Proof. unfold upd. by rewrite decide_True. Qed.

Lemma upd_ne h r f r' : r' ≠ r → upd h r f r' = h r'.
Proof. intros. unfold upd. by rewrite decide_False. Qed.

(** [frame h h']: the two stores agree on everything but the processing
    status and the size cache, and the size [get_size_hash] reports is the
    same in both. *)
Definition frame (h h' : heap) : Prop :=
  ∀ r,
    full_path (h' r) = full_path (h r) ∧
    filename (h' r) = filename (h r) ∧
    file_size (h' r) = file_size (h r) ∧
    size_of (h' r) = size_of (h r) ∧
    first_1k_hash (h' r) = first_1k_hash (h r) ∧
    full_hash (h' r) = full_hash (h r) ∧
    processing_method (h' r) = processing_method (h r).

Lemma frame_refl h : frame h h.
Proof. by intros r. Qed.

Lemma frame_trans h1 h2 h3 : frame h1 h2 → frame h2 h3 → frame h1 h3.
Proof.
  intros H12 H23 r. specialize (H12 r). specialize (H23 r).
  intuition congruence.
Qed.

Lemma frame_set_status h r s : frame h (set_status h r s).
Proof.
  intros r'. unfold set_status, upd.
  destruct (decide (r' = r)) as [->|]; done.
Qed.

Lemma get_size_hash_fst h r : (get_size_hash h r).1 = size_of (h r).
Proof.
  unfold get_size_hash, size_of. by destruct (size_hash (h r)).
Qed.

Lemma get_size_hash_frame h r : frame h (get_size_hash h r).2.
Proof.
  unfold get_size_hash.
  destruct (size_hash (h r)) eqn:E; simpl; [apply frame_refl|].
  intros r'. unfold set_size_hash, upd, size_of.
  destruct (decide (r' = r)) as [->|]; simpl; [by rewrite E|done].
Qed.

Lemma get_size_hash_status h r r' :
  processing_status ((get_size_hash h r).2 r') = processing_status (h r').
Proof.
  unfold get_size_hash.
  destruct (size_hash (h r)); simpl; [done|].
  unfold set_size_hash, upd. by destruct (decide (r' = r)) as [->|].
Qed.

Lemma set_status_status h r s r' :
  processing_status (set_status h r s r') =
  if decide (r' = r) then s else processing_status (h r').
Proof. unfold set_status, upd. by destruct (decide (r' = r)). Qed.

(** One loop iteration sets the status of the visited record; the statuses
    after the whole loop follow from those after the rest of it. *)
Lemma status_after_step (h h1 h' : heap) (file : ref) (rest : list ref)
    (s : Status) (r : ref) :
  (∀ r', processing_status (h1 r') = processing_status (h r')) →
  processing_status (h' r) =
    (if decide (r ∈ rest) then s
     else processing_status (set_status h1 file s r)) →
  processing_status (h' r) =
    (if decide (r ∈ file :: rest) then s else processing_status (h r)).
Proof.
  intros Hst ->. rewrite set_status_status, Hst.
  destruct (decide (r ∈ rest)) as [Hr|Hr].
  - rewrite decide_True; [done|by apply list_elem_of_further].
  - destruct (decide (r = file)) as [->|Hne].
    + rewrite decide_True; [done|apply list_elem_of_here].
    + rewrite decide_False; [done|].
      intros [->|?]%elem_of_cons; done.
Qed.

(** A classification that reads only fields the comparators never write
    selects the same records before and after a run of the loop. *)
Lemma filter_frame (cls : EbookFile → bool) (h h' : heap) (b : bool) (l : list ref) :
  (∀ r, cls (h' r) = cls (h r)) →
  filter (λ r, cls (h' r) = b) l = filter (λ r, cls (h r) = b) l.
Proof. intros Hcls. apply list_filter_iff. intros r. by rewrite Hcls. Qed.

(** ** Stage 1 *)

Section stage1.
Variable calibre_sizes : gset Z.

Lemma stage1_loop todo : ∀ h U C h' U' C',
  Stage1.compare_loop calibre_sizes todo h U C = (h', U', C') →
  U' = U ++ filter (λ r, size_of (h r) ∉ calibre_sizes) todo ∧
  C' = C ++ filter (λ r, size_of (h r) ∈ calibre_sizes) todo ∧
  frame h h' ∧
  ∀ r, processing_status (h' r) =
       if decide (r ∈ todo) then size_checked else processing_status (h r).
Proof.
  induction todo as [|file rest IH]; intros h U C h' U' C' Hrun; simpl in Hrun.
  - injection Hrun as <- <- <-. rewrite !app_nil_r.
    split; [done|split; [done|split; [apply frame_refl|]]].
    intros r. rewrite decide_False; [done|apply not_elem_of_nil].
  - pose proof (get_size_hash_fst h file) as Hsz.
    pose proof (get_size_hash_frame h file) as Hfr.
    pose proof (get_size_hash_status h file) as Hst.
    destruct (get_size_hash h file) as [sz h1]; simpl in *. subst sz.
    set (h2 := set_status h1 file size_checked) in *.
    assert (frame h h2) as Hfr2
      by (eapply frame_trans; [exact Hfr|apply frame_set_status]).
    assert (filter (λ r, size_of (h2 r) ∉ calibre_sizes) rest =
            filter (λ r, size_of (h r) ∉ calibre_sizes) rest) as HfU.
    { apply list_filter_iff. intros r.
      destruct (Hfr2 r) as (_ & _ & _ & -> & _). done. }
    assert (filter (λ r, size_of (h2 r) ∈ calibre_sizes) rest =
            filter (λ r, size_of (h r) ∈ calibre_sizes) rest) as HfC.
    { apply list_filter_iff. intros r.
      destruct (Hfr2 r) as (_ & _ & _ & -> & _). done. }
    destruct (decide (size_of (h file) ∉ calibre_sizes)) as [Hin|Hin];
      apply IH in Hrun as (-> & -> & Hfr' & Hst'); rewrite HfU, HfC.
    + rewrite filter_cons_True by done.
      rewrite filter_cons_False by (intros ?; done).
      rewrite <- app_assoc. split; [done|split; [done|split]].
      * by eapply frame_trans.
      * intros r. eapply status_after_step; [exact Hst|apply Hst'].
    + rewrite filter_cons_False by done.
      rewrite filter_cons_True by (by apply dec_stable).
      rewrite <- app_assoc. split; [done|split; [done|split]].
      * by eapply frame_trans.
      * intros r. eapply status_after_step; [exact Hst|apply Hst'].
Qed.

End stage1.

(** A concrete store used by the examples: three datalake files (0, 1, 2)
    and two library files (3, 4), as discovery creates them. *)
Definition example_heap : heap := λ r,
  match r with
  | 0%nat => new_file "/lake/a.epub" "a.epub" "a.epub" 3 ".epub"
  | 1%nat => new_file "/lake/b.epub" "b.epub" "b.epub" 5 ".epub"
  | 2%nat => new_file "/lake/c.epub" "c.epub" "c.epub" 3 ".epub"
  | 3%nat => new_file "/lib/x.epub" "x.epub" "x.epub" 3 ".epub"
  | _ => new_file "/lib/y.epub" "y.epub" "y.epub" 7 ".epub"
  end.

Definition example_ebooks : FileCollection :=
  (add_file (add_file (add_file empty_collection example_heap 0) .1
               example_heap 1).1 example_heap 2).1.

Definition example_calibre : FileCollection :=
  (add_file (add_file empty_collection example_heap 3).1 example_heap 4).1.

(** C2 (Stage 1, size filter).  For every record [r] of the datalake
    collection: when its size is among the sizes of the library index it is
    put in the candidate list (and not in the unique list), otherwise it is
    put in the unique list (and not in the candidate list); either way its
    status is [size_checked] afterwards; and the call leaves the two hash
    fields of every record as they were, so that a record found unique by
    size is classified without a hash. *)
Theorem stage1_compare_spec (ebooks calibre : FileCollection) (h : heap) (r : ref) :
  r ∈ files ebooks →
  let '(h', unique_files, candidates) := Stage1.compare ebooks calibre h in
  (if decide (size_of (h r) ∈ get_unique_sizes calibre)
   then r ∈ candidates ∧ r ∉ unique_files
   else r ∈ unique_files ∧ r ∉ candidates) ∧
  processing_status (h' r) = size_checked ∧
  (∀ r', first_1k_hash (h' r') = first_1k_hash (h r') ∧
         full_hash (h' r') = full_hash (h r')).
Proof.
  intros Hr. unfold Stage1.compare.
  destruct (Stage1.compare_loop _ _ _ _ _) as [[h' U] C] eqn:Hrun.
  apply stage1_loop in Hrun as (-> & -> & Hfr & Hst). simpl.
  split; [|split].
  - destruct (decide (size_of (h r) ∈ get_unique_sizes calibre)) as [Hin|Hin].
    + split.
      * apply list_elem_of_filter. done.
      * intros [Hout _]%list_elem_of_filter. done.
    + split.
      * apply list_elem_of_filter. done.
      * intros [Hout _]%list_elem_of_filter. done.
  - rewrite Hst. by rewrite decide_True.
  - intros r'. destruct (Hfr r') as (_ & _ & _ & _ & ? & ? & _). done.
Qed.

(** Stage 1 splits the datalake list in two, keeping its order. *)
Lemma stage1_compare_lists (ebooks calibre : FileCollection) (h : heap) :
  (Stage1.compare ebooks calibre h).1.2 =
    filter (λ r, size_of (h r) ∉ get_unique_sizes calibre) (files ebooks) ∧
  (Stage1.compare ebooks calibre h).2 =
    filter (λ r, size_of (h r) ∈ get_unique_sizes calibre) (files ebooks).
Proof.
  unfold Stage1.compare.
  destruct (Stage1.compare_loop _ _ _ _ _) as [[h' U] C] eqn:Hrun.
  apply stage1_loop in Hrun as (-> & -> & _). done.
Qed.

Lemma stage1_compare_spec_witness :
  1%nat ∈ files example_ebooks ∧
  let '(h', unique_files, candidates) :=
    Stage1.compare example_ebooks example_calibre example_heap in
  (if decide (size_of (example_heap 1%nat) ∈ get_unique_sizes example_calibre)
   then 1%nat ∈ candidates ∧ 1%nat ∉ unique_files
   else 1%nat ∈ unique_files ∧ 1%nat ∉ candidates) ∧
  processing_status (h' 1%nat) = size_checked ∧
  (∀ r', first_1k_hash (h' r') = first_1k_hash (example_heap r') ∧
         full_hash (h' r') = full_hash (example_heap r')).
Proof.
  assert (1%nat ∈ files example_ebooks) as H by (vm_compute; set_solver).
  split; [exact H|].
  exact (stage1_compare_spec example_ebooks example_calibre example_heap 1%nat H).
Defined.

Example stage1_example :
  (Stage1.compare example_ebooks example_calibre example_heap).1.2 = [1%nat] ∧
  (Stage1.compare example_ebooks example_calibre example_heap).2 = [0%nat; 2%nat].
Proof. vm_compute. done. Qed.

(** ** Stage 2 *)

(** The test of [Stage2Comparator.compare] on one record: a prefix hash is
    set and the library index has an entry under [(size, prefix hash)]. *)
Definition stage2_candidate (calibre : FileCollection) (f : EbookFile) : bool :=
  match first_1k_hash f with
  | None => false
  | Some k =>
      match get_files_by_size_and_1k calibre (size_of f) k with
      | [] => false
      | _ :: _ => true
      end
  end.

Lemma stage2_candidate_frame calibre h h' :
  frame h h' → ∀ r, stage2_candidate calibre (h' r) = stage2_candidate calibre (h r).
Proof.
  intros Hfr r. destruct (Hfr r) as (_ & _ & _ & Hs & Hk & _).
  unfold stage2_candidate. by rewrite Hs, Hk.
Qed.

Lemma stage2_loop calibre todo : ∀ h U C h' U' C',
  Stage2.compare_loop calibre todo h U C = (h', U', C') →
  U' = U ++ filter (λ r, stage2_candidate calibre (h r) = false) todo ∧
  C' = C ++ filter (λ r, stage2_candidate calibre (h r) = true) todo ∧
  frame h h' ∧
  ∀ r, processing_status (h' r) =
       if decide (r ∈ todo) then hashed_1k else processing_status (h r).
Proof.
  induction todo as [|file rest IH]; intros h U C h' U' C' Hrun; simpl in Hrun.
  - injection Hrun as <- <- <-. rewrite !app_nil_r.
    split; [done|split; [done|split; [apply frame_refl|]]].
    intros r. rewrite decide_False; [done|apply not_elem_of_nil].
  - assert (∀ h1, frame h h1 →
              (∀ r', processing_status (h1 r') = processing_status (h r')) →
              ∀ U1 C1,
              Stage2.compare_loop calibre rest (set_status h1 file hashed_1k)
                U1 C1 = (h', U', C') →
              U' = U1 ++ filter (λ r, stage2_candidate calibre (h r) = false) rest ∧
              C' = C1 ++ filter (λ r, stage2_candidate calibre (h r) = true) rest ∧
              frame h h' ∧
              ∀ r, processing_status (h' r) =
                   if decide (r ∈ file :: rest) then hashed_1k
                   else processing_status (h r)) as Hstep.
    { intros h1 Hfr1 Hst1 U1 C1 Hrest.
      assert (frame h (set_status h1 file hashed_1k)) as Hfr2
        by (eapply frame_trans; [exact Hfr1|apply frame_set_status]).
      apply IH in Hrest as (-> & -> & Hfr' & Hst').
      rewrite !(filter_frame (stage2_candidate calibre) h _ _ rest
                  (stage2_candidate_frame calibre _ _ Hfr2)).
      split; [done|split; [done|split]].
      - by eapply frame_trans.
      - intros r. eapply status_after_step; [exact Hst1|apply Hst']. }
    destruct (first_1k_hash (h file)) as [k|] eqn:Hk.
    + pose proof (get_size_hash_fst h file) as Hsz.
      pose proof (get_size_hash_frame h file) as Hfr.
      pose proof (get_size_hash_status h file) as Hst.
      destruct (get_size_hash h file) as [sz h1]; simpl in *. subst sz.
      destruct (get_files_by_size_and_1k calibre (size_of (h file)) k)
        as [|m ms] eqn:Hm;
        apply (Hstep h1 Hfr Hst) in Hrun as (-> & -> & Hfr' & Hst').
      * rewrite filter_cons_True
          by (unfold stage2_candidate; by rewrite Hk, Hm).
        rewrite filter_cons_False
          by (unfold stage2_candidate; by rewrite Hk, Hm).
        by rewrite <- app_assoc.
      * rewrite filter_cons_False
          by (unfold stage2_candidate; by rewrite Hk, Hm).
        rewrite filter_cons_True
          by (unfold stage2_candidate; by rewrite Hk, Hm).
        by rewrite <- app_assoc.
    + apply (Hstep h (frame_refl h) (λ _, eq_refl)) in Hrun
        as (-> & -> & Hfr' & Hst').
      rewrite filter_cons_True by (unfold stage2_candidate; by rewrite Hk).
      rewrite filter_cons_False by (unfold stage2_candidate; by rewrite Hk).
      by rewrite <- app_assoc.
Qed.

(** The scenario of the design document: two datalake files of one size
    with prefix hashes h1 and h2, a library file of that size with prefix
    hash h1. *)
Definition example_heap_1k : heap := λ r,
  match r with
  | 0%nat => with_first_1k_hash (example_heap 0%nat) (Some [x01]%byte)
  | 2%nat => with_first_1k_hash (example_heap 2%nat) (Some [x02]%byte)
  | 3%nat => with_first_1k_hash (example_heap 3%nat) (Some [x01]%byte)
  | _ => example_heap r
  end.

Definition example_calibre_1k : FileCollection :=
  (add_file (add_file empty_collection example_heap_1k 3).1 example_heap_1k 4).1.

(** C3 (Stage 2, prefix-hash filter).  For every record [r] handed to
    Stage 2: without a prefix hash it is classified unique; with a prefix
    hash [k] it becomes a Stage 3 candidate when the library index holds at
    least one record under [(size, k)] and is classified unique when it holds
    none; in all cases its status is the prefix-hashed one afterwards. *)
Theorem stage2_compare_spec (calibre : FileCollection)
    (stage2_candidates : list ref) (h : heap) (r : ref) :
  r ∈ stage2_candidates →
  let '(h', unique_files, candidates) :=
    Stage2.compare calibre stage2_candidates h in
  (first_1k_hash (h r) = None → r ∈ unique_files ∧ r ∉ candidates) ∧
  (∀ k, first_1k_hash (h r) = Some k →
     ((¬ ∃ m, m ∈ get_files_by_size_and_1k calibre (size_of (h r)) k) →
        r ∈ unique_files ∧ r ∉ candidates) ∧
     ((∃ m, m ∈ get_files_by_size_and_1k calibre (size_of (h r)) k) →
        r ∈ candidates ∧ r ∉ unique_files)) ∧
  processing_status (h' r) = hashed_1k.
Proof.
  intros Hr. unfold Stage2.compare.
  destruct (Stage2.compare_loop _ _ _ _ _) as [[h' U] C] eqn:Hrun.
  apply stage2_loop in Hrun as (-> & -> & Hfr & Hst). simpl.
  assert (stage2_candidate calibre (h r) = false →
          r ∈ filter (λ r, stage2_candidate calibre (h r) = false) stage2_candidates ∧
          r ∉ filter (λ r, stage2_candidate calibre (h r) = true) stage2_candidates)
    as Huniq.
  { intros Hc. split; [by apply list_elem_of_filter|].
    intros [Hc' _]%list_elem_of_filter. congruence. }
  assert (stage2_candidate calibre (h r) = true →
          r ∈ filter (λ r, stage2_candidate calibre (h r) = true) stage2_candidates ∧
          r ∉ filter (λ r, stage2_candidate calibre (h r) = false) stage2_candidates)
    as Hcand.
  { intros Hc. split; [by apply list_elem_of_filter|].
    intros [Hc' _]%list_elem_of_filter. congruence. }
  split; [|split].
  - intros Hk. apply Huniq. unfold stage2_candidate. by rewrite Hk.
  - intros k Hk. split.
    + intros Hnone. apply Huniq. unfold stage2_candidate. rewrite Hk.
      destruct (get_files_by_size_and_1k _ _ _) as [|m ms]; [done|].
      exfalso. apply Hnone. exists m. apply list_elem_of_here.
    + intros [m Hm]. apply Hcand. unfold stage2_candidate. rewrite Hk.
      destruct (get_files_by_size_and_1k _ _ _) as [|m' ms]; [|done].
      by apply not_elem_of_nil in Hm.
  - rewrite Hst. by rewrite decide_True.
Qed.

Lemma stage2_compare_spec_witness :
  0%nat ∈ [0%nat; 2%nat] ∧
  let '(h', unique_files, candidates) :=
    Stage2.compare example_calibre_1k [0%nat; 2%nat] example_heap_1k in
  (first_1k_hash (example_heap_1k 0%nat) = None →
     0%nat ∈ unique_files ∧ 0%nat ∉ candidates) ∧
  (∀ k, first_1k_hash (example_heap_1k 0%nat) = Some k →
     ((¬ ∃ m, m ∈ get_files_by_size_and_1k example_calibre_1k
                    (size_of (example_heap_1k 0%nat)) k) →
        0%nat ∈ unique_files ∧ 0%nat ∉ candidates) ∧
     ((∃ m, m ∈ get_files_by_size_and_1k example_calibre_1k
                  (size_of (example_heap_1k 0%nat)) k) →
        0%nat ∈ candidates ∧ 0%nat ∉ unique_files)) ∧
  processing_status (h' 0%nat) = hashed_1k.
Proof.
  assert (0%nat ∈ [0%nat; 2%nat]) as H by apply list_elem_of_here.
  split; [exact H|].
  exact (stage2_compare_spec example_calibre_1k [0%nat; 2%nat] example_heap_1k
           0%nat H).
Defined.

Example stage2_example :
  (Stage2.compare example_calibre_1k [0%nat; 2%nat] example_heap_1k).1.2 = [2%nat] ∧
  (Stage2.compare example_calibre_1k [0%nat; 2%nat] example_heap_1k).2 = [0%nat].
Proof. vm_compute. done. Qed.

(** ** Stage 3 *)

(** The test of [Stage3Comparator.compare] on one record: a non-empty full
    hash is set and the library index has an entry under it. *)
Definition stage3_duplicate (calibre : FileCollection) (f : EbookFile) : bool :=
  match full_hash f with
  | Some fh =>
      truthy fh &&
      match get_file_by_full_hash calibre fh with Some _ => true | None => false end
  | None => false
  end.

Lemma stage3_duplicate_frame calibre h h' :
  frame h h' → ∀ r, stage3_duplicate calibre (h' r) = stage3_duplicate calibre (h r).
Proof.
  intros Hfr r. destruct (Hfr r) as (_ & _ & _ & _ & _ & Hf & _).
  unfold stage3_duplicate. by rewrite Hf.
Qed.

Lemma stage3_loop calibre todo : ∀ h U h' U',
  Stage3.compare_loop calibre todo h U = (h', U') →
  U' = U ++ filter (λ r, stage3_duplicate calibre (h r) = false) todo ∧
  frame h h' ∧
  ∀ r, processing_status (h' r) =
       if decide (r ∈ todo) then full_hashed else processing_status (h r).
Proof.
  induction todo as [|file rest IH]; intros h U h' U' Hrun; simpl in Hrun.
  - injection Hrun as <- <-. rewrite !app_nil_r.
    split; [done|split; [apply frame_refl|]].
    intros r. rewrite decide_False; [done|apply not_elem_of_nil].
  - assert (∀ U1,
              Stage3.compare_loop calibre rest (set_status h file full_hashed) U1
                = (h', U') →
              U' = U1 ++ filter (λ r, stage3_duplicate calibre (h r) = false) rest ∧
              frame h h' ∧
              ∀ r, processing_status (h' r) =
                   if decide (r ∈ file :: rest) then full_hashed
                   else processing_status (h r)) as Hstep.
    { intros U1 Hrest.
      pose proof (frame_set_status h file full_hashed) as Hfr2.
      apply IH in Hrest as (-> & Hfr' & Hst').
      rewrite !(filter_frame (stage3_duplicate calibre) h _ _ rest
                  (stage3_duplicate_frame calibre _ _ Hfr2)).
      split; [done|split].
      - by eapply frame_trans.
      - intros r. eapply (status_after_step h h); [done|apply Hst']. }
    destruct (full_hash (h file)) as [fh|] eqn:Hfh.
    + destruct (truthy fh) eqn:Ht.
      * destruct (get_file_by_full_hash calibre fh) as [m|] eqn:Hm;
          apply Hstep in Hrun as (-> & Hfr' & Hst').
        -- rewrite filter_cons_False
             by (unfold stage3_duplicate; by rewrite Hfh, Ht, Hm).
           done.
        -- rewrite filter_cons_True
             by (unfold stage3_duplicate; by rewrite Hfh, Ht, Hm).
           by rewrite <- app_assoc.
      * apply Hstep in Hrun as (-> & Hfr' & Hst').
        rewrite filter_cons_True
          by (unfold stage3_duplicate; by rewrite Hfh, Ht).
        by rewrite <- app_assoc.
    + apply Hstep in Hrun as (-> & Hfr' & Hst').
      rewrite filter_cons_True by (unfold stage3_duplicate; by rewrite Hfh).
      by rewrite <- app_assoc.
Qed.

(** Stage 3 candidates that got their full hashes: record 0 has the full
    hash of library record 3, record 2 has another one. *)
Definition example_heap_full : heap := λ r,
  match r with
  | 0%nat => with_full_hash (example_heap_1k 0%nat) (Some [xaa]%byte)
  | 2%nat => with_full_hash (example_heap_1k 2%nat) (Some [xbb]%byte)
  | 3%nat => with_full_hash (example_heap_1k 3%nat) (Some [xaa]%byte)
  | _ => example_heap_1k r
  end.

Definition example_calibre_full : FileCollection :=
  (add_file (add_file empty_collection example_heap_full 3).1
     example_heap_full 4).1.

(** C1 (Stage 3, full-hash filter).  For every record [r] handed to
    Stage 3: it is left out of the unique output exactly when it carries a
    full hash under which the library index holds a record; a record whose
    full hash is absent ([None], or the empty sentinel that the code treats
    alike) is classified unique; and its status is [full_hashed]
    afterwards. *)
Theorem stage3_compare_spec (calibre : FileCollection)
    (stage3_candidates : list ref) (h : heap) (r : ref) :
  r ∈ stage3_candidates →
  let '(h', unique_files) := Stage3.compare calibre stage3_candidates h in
  (r ∉ unique_files ↔
     ∃ fh lib, full_hash (h r) = Some fh ∧ fh ≠ [] ∧
               get_file_by_full_hash calibre fh = Some lib) ∧
  (full_hash (h r) = None ∨ full_hash (h r) = Some [] → r ∈ unique_files) ∧
  processing_status (h' r) = full_hashed.
Proof.
  intros Hr. unfold Stage3.compare.
  destruct (Stage3.compare_loop _ _ _ _) as [h' U] eqn:Hrun.
  apply stage3_loop in Hrun as (-> & Hfr & Hst). simpl.
  assert (r ∈ filter (λ r, stage3_duplicate calibre (h r) = false) stage3_candidates
          ↔ stage3_duplicate calibre (h r) = false) as Hin.
  { rewrite list_elem_of_filter. tauto. }
  split; [|split].
  - rewrite Hin. unfold stage3_duplicate.
    destruct (full_hash (h r)) as [[|b fh]|]; simpl.
    + split; [done|]. intros (? & ? & [= <-] & ? & _). done.
    + destruct (get_file_by_full_hash calibre (b :: fh)) as [lib|] eqn:Hlib.
      * split; [|done]. intros _. by exists (b :: fh), lib.
      * split; [done|]. intros (? & ? & [= <-] & _ & ?). congruence.
    + split; [done|]. intros (? & ? & ? & _). done.
  - intros Habs. apply Hin. unfold stage3_duplicate.
    by destruct Habs as [-> | ->].
  - rewrite Hst. by rewrite decide_True.
Qed.

Lemma stage3_compare_spec_witness :
  0%nat ∈ [0%nat; 2%nat] ∧
  let '(h', unique_files) :=
    Stage3.compare example_calibre_full [0%nat; 2%nat] example_heap_full in
  (0%nat ∉ unique_files ↔
     ∃ fh lib, full_hash (example_heap_full 0%nat) = Some fh ∧ fh ≠ [] ∧
               get_file_by_full_hash example_calibre_full fh = Some lib) ∧
  (full_hash (example_heap_full 0%nat) = None ∨
   full_hash (example_heap_full 0%nat) = Some [] → 0%nat ∈ unique_files) ∧
  processing_status (h' 0%nat) = full_hashed.
Proof.
  assert (0%nat ∈ [0%nat; 2%nat]) as H by apply list_elem_of_here.
  split; [exact H|].
  exact (stage3_compare_spec example_calibre_full [0%nat; 2%nat]
           example_heap_full 0%nat H).
Defined.

Example stage3_example :
  (Stage3.compare example_calibre_full [0%nat; 2%nat] example_heap_full).2 = [2%nat].
Proof. vm_compute. done. Qed.

(** ** The CPU hash backend *)

(** The bytes a worker hashes: the first 1024 bytes of the file for the
    prefix stage, all of it otherwise; [None] when [open] fails or a [read]
    the worker makes fails. *)
Definition bytes_to_hash (first_1k : bool) (n : node) : option bytes :=
  match n with
  | Missing => None
  | Regular data bad =>
      let wanted := if first_1k then take 1024 data else data in
      match bad with
      | Some k => if decide (k < length wanted)%nat then None else Some wanted
      | None => Some wanted
      end
  end.

(** What a worker returns for a file: the empty sentinel when opening or
    reading fails, the digest of the bytes read otherwise. *)
Definition digest_or_sentinel (sha256 : bytes → bytes) (first_1k : bool)
    (n : node) : bytes :=
  match bytes_to_hash first_1k n with
  | Some b => sha256 b
  | None => []
  end.

Section read_loop.
Variable stage_chunk : bytes → result unit.
Variable chunk_size : Z.
Hypothesis chunk_size_nonzero : chunk_size ≠ 0.
Hypothesis chunk_size_valid : -1 <= chunk_size.

(** With a chunk size that [read] accepts, other than 0, and one round of
    fuel more than there are bytes left, a loop that ends normally has fed the whole rest of the
    file to the hash object, and met no fault. *)
Lemma read_loop_Ok fuel : ∀ f acc out,
  (length (rest f) < fuel)%nat →
  Cpu.read_loop stage_chunk chunk_size fuel f acc = Ok out →
  out = acc ++ rest f ∧
  match fault f with Some k => (length (rest f) ≤ k)%nat | None => True end.
Proof.
  induction fuel as [|fuel IH]; intros [data bad] acc out Hfuel Hrun;
    simpl in *; [lia|].
  unfold read in Hrun; rewrite decide_False in Hrun by lia; simpl in Hrun.
  set (n := if decide (chunk_size < 0) then length data
            else Z.to_nat chunk_size) in *.
  assert (n ≠ 0%nat ∨ data = []) as Hn.
  { unfold n. destruct (decide (chunk_size < 0)).
    - destruct data; [by right|by left].
    - left. lia. }
  pose proof (take_drop n data) as Htd.
  pose proof (length_take data n) as Hlen.
  assert (take n data = [] → data = []) as Hempty.
  { intros Hnil. rewrite Hnil in Hlen. simpl in Hlen.
    destruct Hn as [?|?]; [|done]. destruct data; [done|simpl in *; lia]. }
  assert (length data = length (take n data) + length (drop n data))%nat
    as Hsplit by (rewrite <- length_app; by rewrite Htd).
  destruct bad as [k|].
  - destruct (decide (k < length (take n data))%nat) as [Hk|Hk];
      [discriminate|]. simpl in Hrun.
    destruct (take n data) as [|b chunk] eqn:Hchunk.
    + injection Hrun as <-. rewrite (Hempty eq_refl). simpl.
      split; [by rewrite app_nil_r|lia].
    + destruct (stage_chunk (b :: chunk)); [|discriminate]. simpl in Hrun.
      apply IH in Hrun as [-> Hf]; simpl in *; [|lia].
      split; [rewrite <- app_assoc; simpl; by rewrite Htd|lia].
  - simpl in Hrun.
    destruct (take n data) as [|b chunk] eqn:Hchunk.
    + injection Hrun as <-. rewrite (Hempty eq_refl).
      split; [by rewrite app_nil_r|done].
    + destruct (stage_chunk (b :: chunk)); [|discriminate]. simpl in Hrun.
      apply IH in Hrun as [-> Hf]; simpl in *; [|lia].
      split; [rewrite <- app_assoc; simpl; by rewrite Htd|done].
Qed.

(** A loop that ends with an exception got it from a [read], which raises
    [OSError] only, or from the staging of a chunk. *)
Lemma read_loop_Raise fuel : ∀ f acc e,
  Cpu.read_loop stage_chunk chunk_size fuel f acc = Raise e →
  e = OSError ∨ ∃ chunk, stage_chunk chunk = Raise e.
Proof.
  induction fuel as [|fuel IH]; intros [data bad] acc e Hrun;
    simpl in *; [discriminate|].
  unfold read in Hrun; rewrite decide_False in Hrun by lia; simpl in Hrun.
  set (n := if decide (chunk_size < 0) then length data
            else Z.to_nat chunk_size) in *.
  assert (∀ hd,
    match take n data with
    | [] => Ok acc
    | _ :: _ =>
        stage_chunk (take n data) ≫= λ _,
          Cpu.read_loop stage_chunk chunk_size fuel hd (acc ++ take n data)
    end = Raise e → e = OSError ∨ ∃ chunk, stage_chunk chunk = Raise e) as Hrest.
  { intros hd Hr. destruct (take n data) as [|b chunk]; [discriminate|].
    destruct (stage_chunk (b :: chunk)) as [[]|e'] eqn:Hs; simpl in Hr.
    - by apply IH in Hr.
    - injection Hr as ->. right. by eexists. }
  destruct bad as [k|].
  - destruct (decide (k < length (take n data))%nat).
    + injection Hrun as <-. by left.
    + by apply Hrest in Hrun.
  - by apply Hrest in Hrun.
Qed.

(** A fault among the bytes left makes the loop raise, unless the staging
    of a chunk raised first. *)
Lemma read_loop_fault fuel : ∀ f acc k,
  (length (rest f) < fuel)%nat →
  fault f = Some k → (k < length (rest f))%nat →
  ∃ e, Cpu.read_loop stage_chunk chunk_size fuel f acc = Raise e.
Proof.
  intros f acc k Hfuel Hk Hlt.
  destruct (Cpu.read_loop stage_chunk chunk_size fuel f acc) as [out|e] eqn:Hrun;
    [|by eexists].
  apply read_loop_Ok in Hrun as [_ Hf]; [|done].
  rewrite Hk in Hf. lia.
Qed.

End read_loop.

(** The CPU loop (nothing to stage) on a whole file. *)
Lemma cpu_read_loop chunk_size data bad :
  chunk_size ≠ 0 → -1 <= chunk_size →
  Cpu.read_loop (λ _, Ok tt) chunk_size (S (length data)) (mkHandle data bad) [] =
  match bytes_to_hash false (Regular data bad) with
  | Some b => Ok b
  | None => Raise OSError
  end.
Proof.
  intros Hc Hv. simpl bytes_to_hash.
  destruct (Cpu.read_loop _ _ _ _ _) as [out|e] eqn:Hrun.
  - apply read_loop_Ok in Hrun as [-> Hf]; simpl in *; [|done|done|lia].
    destruct bad as [k|]; [|done]. rewrite decide_False by lia. done.
  - pose proof Hrun as Hrun'.
    apply read_loop_Raise in Hrun as [->|[? ?]]; [|done..].
    destruct bad as [k|].
    + destruct (decide (k < length data)%nat); [done|].
      exfalso.
      assert (∃ out, Cpu.read_loop (λ _, Ok tt) chunk_size (S (length data))
                       (mkHandle data (Some k)) [] = Ok out) as [out Hout];
        [|congruence].
      clear Hrun'. revert n. generalize (@nil Byte.byte) as acc.
      generalize (S (length data)) as fuel. revert k.
      induction data as [data IH] using (induction_ltof1 _ (@length _)).
      intros k fuel acc Hk. destruct fuel as [|fuel]; [by eexists|].
      simpl. unfold read; rewrite (decide_False (P := chunk_size < -1)) by lia;
        simpl.
      set (m := if decide (chunk_size < 0) then length data
                else Z.to_nat chunk_size).
      pose proof (length_take data m) as Hlen.
      rewrite decide_False by lia. simpl.
      destruct (take m data) as [|b chunk] eqn:Hchunk; [by eexists|].
      simpl. apply IH.
      * unfold ltof. rewrite length_drop. simpl in Hlen.
        assert (m ≠ 0)%nat by (intros ->; by rewrite take_0 in Hchunk). lia.
      * rewrite length_drop. simpl in *. lia.
    + exfalso.
      assert (∃ out, Cpu.read_loop (λ _, Ok tt) chunk_size (S (length data))
                       (mkHandle data None) [] = Ok out) as [out Hout];
        [|congruence].
      clear Hrun'. generalize (@nil Byte.byte) as acc.
      generalize (S (length data)) as fuel.
      induction data as [data IH] using (induction_ltof1 _ (@length _)).
      intros fuel acc. destruct fuel as [|fuel]; [by eexists|].
      simpl. unfold read; rewrite (decide_False (P := chunk_size < -1)) by lia;
        simpl.
      set (m := if decide (chunk_size < 0) then length data
                else Z.to_nat chunk_size).
      destruct (take m data) as [|b chunk] eqn:Hchunk; [by eexists|].
      simpl. apply IH.
      unfold ltof. rewrite length_drop.
      pose proof (length_take data m) as Hlen. rewrite Hchunk in Hlen.
      simpl in Hlen.
      assert (m ≠ 0)%nat by (intros ->; by rewrite take_0 in Hchunk). lia.
Qed.

Section cpu_backend.
Variable sha256 : bytes → bytes.

(** [_hash_first_1k_worker] never raises: it returns the digest of the
    first 1024 bytes, or the empty sentinel when opening or reading fails. *)
Lemma hash_first_1k_worker_spec (fs : filesystem) (path : string) :
  Cpu._hash_first_1k_worker sha256 fs path =
  Ok (digest_or_sentinel sha256 true (fs path)).
Proof.
  unfold Cpu._hash_first_1k_worker, digest_or_sentinel, open, read.
  destruct (fs path) as [|data bad]; simpl; [done|].
  change (Z.to_nat 1024) with 1024%nat.
  destruct bad as [k|]; simpl; [|done].
  by destruct (decide (k < length (take 1024 data))%nat).
Qed.

(** [_hash_full_file_worker] never raises: it returns the digest of the
    whole content, or the empty sentinel when opening or reading fails. *)
Lemma hash_full_file_worker_spec (fs : filesystem) (path : string) :
  Cpu._hash_full_file_worker sha256 fs path =
  Ok (digest_or_sentinel sha256 false (fs path)).
Proof.
  unfold Cpu._hash_full_file_worker, digest_or_sentinel, open.
  destruct (fs path) as [|data bad]; [done|].
  cbn [mbind result_bind rest].
  rewrite cpu_read_loop by lia.
  by destruct (bytes_to_hash false (Regular data bad)).
Qed.

(** The write-back of [hash_batch]: whatever order the futures complete
    in, slot [i] ends up holding the result for file [i]. *)
Lemma collect_lookup (worker_func : string → result bytes)
    (file_paths : list string) (completed : list nat) :
  ∀ (results : list (option bytes)) (i : nat),
  length results = length file_paths →
  Cpu.collect worker_func file_paths completed results !! i =
  if decide (i ∈ completed ∧ i < length file_paths)%nat then
    (λ path, Some match worker_func path with Ok d => d | Raise _ => [] end)
      <$> file_paths !! i
  else results !! i.
Proof.
  induction completed as [|index later IH]; intros results i Hlen;
    cbn [Cpu.collect].
  - rewrite decide_False; [done|]. intros [[]%not_elem_of_nil _].
  - destruct (file_paths !! index) as [path|] eqn:Hpath.
    + pose proof (lookup_lt_Some _ _ _ Hpath) as Hlt.
      rewrite IH by (by rewrite length_insert).
      destruct (decide (i ∈ later ∧ i < length file_paths)%nat) as [[Hi Hb]|Hn].
      * rewrite decide_True; [done|]. split; [by apply list_elem_of_further|done].
      * destruct (decide (i = index)) as [->|Hne].
        -- rewrite decide_True by (split; [apply list_elem_of_here|done]).
           rewrite list_lookup_insert_eq by lia. by rewrite Hpath.
        -- rewrite list_lookup_insert_ne by done.
           rewrite decide_False; [done|].
           intros [[->|?]%elem_of_cons ?]; [done|]. by apply Hn.
    + pose proof (lookup_ge_None_1 _ _ Hpath) as Hge.
      rewrite IH by done.
      destruct (decide (i ∈ later ∧ i < length file_paths)%nat) as [[Hi Hb]|Hn].
      * rewrite decide_True; [done|]. split; [by apply list_elem_of_further|done].
      * rewrite decide_False; [done|].
        intros [[->|?]%elem_of_cons ?]; [lia|]. by apply Hn.
Qed.

Lemma collect_all (worker_func : string → result bytes)
    (file_paths : list string) (completed : list nat) :
  completed ≡ₚ seq 0 (length file_paths) →
  Cpu.collect worker_func file_paths completed
    (replicate (length file_paths) None) =
  (λ path, Some match worker_func path with Ok d => d | Raise _ => [] end)
    <$> file_paths.
Proof.
  intros Hperm. apply list_eq. intros i.
  rewrite collect_lookup by apply length_replicate.
  rewrite list_lookup_fmap.
  destruct (decide (i ∈ completed ∧ i < length file_paths)%nat) as [|Hn];
    [done|].
  assert (length file_paths ≤ i)%nat as Hge.
  { apply Nat.nlt_ge. intros Hlt. apply Hn. split; [|done].
    rewrite Hperm. apply elem_of_seq. lia. }
  rewrite (lookup_ge_None_2 file_paths) by done.
  apply lookup_ge_None_2. by rewrite length_replicate.
Qed.

(** [CPUHashProcessor.hash_batch] at the two stages it knows. *)
Lemma cpu_hash_batch_spec (num_workers : Z) (as_completed : nat → list nat)
    (fs : filesystem) (h : heap) (files : list ref) (first_1k : bool) :
  0 < num_workers →
  as_completed (length files) ≡ₚ seq 0 (length files) →
  Cpu.hash_batch sha256 num_workers as_completed fs h files
    (if first_1k then "1k" else "full") =
  Ok ((λ f, Some (digest_or_sentinel sha256 first_1k (fs (full_path (h f)))))
        <$> files).
Proof.
  intros Hworkers Hperm. unfold Cpu.hash_batch.
  rewrite <- (length_fmap (λ f, full_path (h f)) files) in Hperm |- *.
  destruct first_1k; simpl; rewrite decide_False by lia.
  - rewrite collect_all by done. rewrite <- list_fmap_compose. f_equal.
    apply list_fmap_ext. intros _ f _. simpl.
    by rewrite hash_first_1k_worker_spec.
  - rewrite collect_all by done. rewrite <- list_fmap_compose. f_equal.
    apply list_fmap_ext. intros _ f _. simpl.
    by rewrite hash_full_file_worker_spec.
Qed.

(** [CPUHashProcessor.hash_batch] rejects any other stage identifier. *)
Lemma cpu_hash_batch_unknown_stage (num_workers : Z)
    (as_completed : nat → list nat) (fs : filesystem) (h : heap)
    (files : list ref) (stage : string) :
  stage ≠ "1k"%string → stage ≠ "full"%string →
  Cpu.hash_batch sha256 num_workers as_completed fs h files stage =
  Raise (ValueError ("Unknown stage: " ++ stage)).
Proof.
  intros H1 H2. unfold Cpu.hash_batch.
  rewrite decide_False by done. by rewrite decide_False by done.
Qed.

End cpu_backend.

(** A stand-in for SHA-256 in the concrete examples; the theorems are
    stated for any digest function. *)
Definition toy_digest (b : bytes) : bytes := x5a%byte :: b.

(** A small file system for the records of [example_heap]: [a] is readable,
    [b] starts with the bytes of [a], [c] has a fault at its second byte,
    [x] is readable, and [y] has gone since discovery. *)
Definition example_fs : filesystem := λ path,
  if decide (path = "/lake/a.epub") then Regular [x01; x02; x03]%byte None
  else if decide (path = "/lake/b.epub")
       then Regular [x01; x02; x03; x04; x05]%byte None
  else if decide (path = "/lake/c.epub")
       then Regular [x04; x05; x06]%byte (Some 1%nat)
  else if decide (path = "/lib/x.epub") then Regular [x07; x08; x09]%byte None
  else Missing.

(** C7 (CPU backend, unreadable files).  For a batch at either stage, on
    a pool of at least one worker and whatever the order in which the
    workers finish: [hash_batch] returns, without raising, one result per
    file in the order of the input; for a file whose [open] or [read] fails
    both the worker called on it and its slot of the batch hold the empty
    sentinel; for every other file both hold the digest of the bytes
    read. *)
Theorem cpu_hashing_failure_sentinel (sha256 : bytes → bytes)
    (num_workers : Z) (as_completed : nat → list nat) (fs : filesystem)
    (h : heap) (files : list ref) (first_1k : bool) :
  0 < num_workers →
  as_completed (length files) ≡ₚ seq 0 (length files) →
  ∃ results,
    Cpu.hash_batch sha256 num_workers as_completed fs h files
      (if first_1k then "1k" else "full") = Ok results ∧
    length results = length files ∧
    ∀ i f, files !! i = Some f →
      let worker :=
        if first_1k then Cpu._hash_first_1k_worker sha256 fs
        else Cpu._hash_full_file_worker sha256 fs in
      match bytes_to_hash first_1k (fs (full_path (h f))) with
      | None =>
          worker (full_path (h f)) = Ok [] ∧ results !! i = Some (Some [])
      | Some b =>
          worker (full_path (h f)) = Ok (sha256 b) ∧
          results !! i = Some (Some (sha256 b))
      end.
Proof.
  intros Hworkers Hperm. eexists. split; [by apply cpu_hash_batch_spec|].
  split; [by rewrite length_fmap|].
  intros i f Hf worker.
  assert (worker (full_path (h f)) =
          Ok (digest_or_sentinel sha256 first_1k (fs (full_path (h f))))) as Hw.
  { unfold worker. destruct first_1k.
    - apply hash_first_1k_worker_spec.
    - apply hash_full_file_worker_spec. }
  rewrite Hw, list_lookup_fmap, Hf. unfold digest_or_sentinel. simpl.
  by destruct (bytes_to_hash first_1k (fs (full_path (h f)))).
Qed.

Lemma cpu_hashing_failure_sentinel_witness :
  0 < 10 ∧
  reverse (seq 0 (length [0%nat; 2%nat; 4%nat])) ≡ₚ
    seq 0 (length [0%nat; 2%nat; 4%nat]) ∧
  ∃ results,
    Cpu.hash_batch toy_digest 10 (λ n, reverse (seq 0 n)) example_fs example_heap
      [0%nat; 2%nat; 4%nat] "full" = Ok results ∧
    length results = length [0%nat; 2%nat; 4%nat] ∧
    ∀ i f, [0%nat; 2%nat; 4%nat] !! i = Some f →
      let worker := Cpu._hash_full_file_worker toy_digest example_fs in
      match bytes_to_hash false (example_fs (full_path (example_heap f))) with
      | None =>
          worker (full_path (example_heap f)) = Ok [] ∧
          results !! i = Some (Some [])
      | Some b =>
          worker (full_path (example_heap f)) = Ok (toy_digest b) ∧
          results !! i = Some (Some (toy_digest b))
      end.
Proof.
  assert (reverse (seq 0 (length [0%nat; 2%nat; 4%nat])) ≡ₚ
            seq 0 (length [0%nat; 2%nat; 4%nat])) as H
    by apply reverse_Permutation.
  assert (0 < 10) as Hw by lia.
  split; [exact Hw|]. split; [exact H|].
  exact (cpu_hashing_failure_sentinel toy_digest 10 (λ n, reverse (seq 0 n))
           example_fs example_heap [0%nat; 2%nat; 4%nat] false Hw H).
Defined.

(** The batch of the example: file 0 is hashed, file 2 has a read fault,
    file 4 does not exist; the futures complete last to first. *)
Example cpu_hash_batch_example :
  Cpu.hash_batch toy_digest 10 (λ n, reverse (seq 0 n)) example_fs example_heap
    [0%nat; 2%nat; 4%nat] "full" =
  Ok [Some (toy_digest [x01; x02; x03]%byte); Some []; Some []].
Proof. vm_compute. done. Qed.

(** ** The GPU hash backend *)

(** The exception classes [hash_full_file] catches. *)
Definition caught (e : exn) : Prop :=
  e = ImportError ∨ e = RuntimeError ∨ e = OSError.

#[local] Arguments Cpu.read_loop : simpl never.

Section gpu_backend.
Variable sha256 : bytes → bytes.

(** Without an accelerator the GPU backend is the CPU backend. *)
Lemma gpu_unavailable_is_cpu (p : Gpu.GPUHashProcessor)
    (as_completed : nat → list nat) (fs : filesystem) (h : heap)
    (files : list ref) (file : ref) (stage : string) :
  Gpu._gpu_available p = false →
  Gpu.hash_full_file sha256 p fs h file = Cpu.hash_full_file sha256 fs h file ∧
  Gpu.hash_batch sha256 p as_completed fs h files stage =
    Cpu.hash_batch sha256 10 as_completed fs h files stage.
Proof.
  intros Hoff. unfold Gpu.hash_full_file, Gpu.hash_batch. rewrite Hoff. simpl.
  split; [done|]. by destruct (decide (stage = "1k"%string)).
Qed.

(** Where the two backends do agree: as long as the chunked path reads with
    a chunk size that [read] accepts (positive, or -1), and CuPy raises
    nothing that [hash_full_file] does not catch, the GPU backend returns
    what the CPU backend returns, the digest or the sentinel. *)
Lemma gpu_hash_full_file_agrees (p : Gpu.GPUHashProcessor) (fs : filesystem)
    (h : heap) (file : ref) :
  (file_size (h file) <= Gpu.usable_memory (Gpu.device p) ∨
   Z.min (Gpu.chunk_size p) (Gpu.usable_memory (Gpu.device p)) ≠ 0 ∧
   -1 <= Z.min (Gpu.chunk_size p) (Gpu.usable_memory (Gpu.device p))) →
  (∀ e, Gpu.use_device (Gpu.device p) = Some e → caught e) →
  (∀ b e, Gpu.asarray (Gpu.device p) b = Some e → caught e) →
  Gpu.hash_full_file sha256 p fs h file = Cpu.hash_full_file sha256 fs h file.
Proof.
  intros Hchunk Huse Hasarray. unfold Gpu.hash_full_file.
  destruct (Gpu._gpu_available p); simpl; [|done].
  set (cpu := Cpu.hash_full_file sha256 fs h file).
  destruct (Gpu.use_device (Gpu.device p)) as [e|] eqn:Hu; simpl.
  { destruct (Huse e eq_refl) as [->|[->| ->]]; done. }
  assert (cpu = Ok (digest_or_sentinel sha256 false (fs (full_path (h file)))))
    as Hcpu by apply hash_full_file_worker_spec.
  unfold open. destruct (fs (full_path (h file))) as [|data bad] eqn:Hnode.
  { by destruct (decide _). }
  destruct (decide (file_size (h file) <= Gpu.usable_memory (Gpu.device p)))
    as [Hfit|Hbig]; cbn [mbind result_bind].
  - (* single shot *)
    unfold read. cbn [rest fault]. rewrite decide_False by lia.
    rewrite decide_True by lia. rewrite firstn_all.
    assert (bad = None ∨ (∃ k, bad = Some k ∧ length data ≤ k)%nat →
            digest_or_sentinel sha256 false (Regular data bad) = sha256 data)
      as Hgood.
    { intros [->|(k & -> & Hk)]; unfold digest_or_sentinel; simpl; [done|].
      by rewrite decide_False by lia. }
    destruct bad as [k|].
    + destruct (decide (k < length data)%nat) as [Hk|Hk]; simpl.
      { done. }
      destruct (Gpu.asarray (Gpu.device p) data) as [e|] eqn:Ha; simpl.
      { destruct (Hasarray _ _ Ha) as [->|[->| ->]]; done. }
      rewrite Hcpu, Hgood; [done|]. right. exists k. split; [done|lia].
    + simpl. destruct (Gpu.asarray (Gpu.device p) data) as [e|] eqn:Ha; simpl.
      { destruct (Hasarray _ _ Ha) as [->|[->| ->]]; done. }
      rewrite Hcpu, Hgood; [done|by left].
  - (* chunked *)
    destruct Hchunk as [?|[Hnz Hvalid]]; [done|]. cbn [rest].
    destruct (Cpu.read_loop _ _ _ _ _) as [out|e] eqn:Hloop; simpl.
    + apply read_loop_Ok in Hloop as [-> Hf]; simpl in *; [|done|done|lia].
      rewrite Hcpu. unfold digest_or_sentinel. simpl.
      destruct bad as [k|]; [|done]. by rewrite decide_False by lia.
    + apply read_loop_Raise in Hloop as [->|[chunk Hs]]; [done| |done..].
      unfold Gpu.raise_if in Hs.
      destruct (Gpu.asarray (Gpu.device p) chunk) as [e'|] eqn:Ha; [|done].
      injection Hs as <-.
      destruct (Hasarray _ _ Ha) as [->|[->| ->]]; done.
Qed.

(** With a chunk size of 0 the loop stops at its first, empty, read: nothing
    is fed to the hash object. *)
Lemma read_loop_chunk_0 (stage_chunk : bytes → result unit) (fuel : nat)
    (f : handle) (acc : bytes) :
  Cpu.read_loop stage_chunk 0 (S fuel) f acc = Ok acc.
Proof.
  unfold Cpu.read_loop, read. simpl. rewrite take_0.
  by destruct (fault f).
Qed.

(** For any stage other than '1k', an available GPU backend with a positive
    batch size hashes every file in full: the stage identifier is not looked
    at again. *)
Lemma gpu_hash_batch_any_stage (p : Gpu.GPUHashProcessor)
    (as_completed : nat → list nat) (fs : filesystem) (h : heap)
    (files : list ref) (stage : string) :
  Gpu._gpu_available p = true → 0 < Gpu.batch_size p →
  stage ≠ "1k"%string →
  Gpu.hash_batch sha256 p as_completed fs h files stage =
  Gpu.hash_batch sha256 p as_completed fs h files "full".
Proof.
  intros Hon Hbs Hne. unfold Gpu.hash_batch.
  rewrite decide_False by done. rewrite Hon. simpl.
  rewrite decide_False by lia. by rewrite decide_False by lia.
Qed.

End gpu_backend.

(** A device that is present and answers every call, with room for 1000
    bytes. *)
Definition example_device : Gpu.Device :=
  Gpu.mkDevice true None 1000 (λ _, None).

(** The same device when no device memory is free, or when the query for
    free memory fails: [get_available_memory] returns 0. *)
Definition example_device_full : Gpu.Device :=
  Gpu.mkDevice true None 0 (λ _, None).

(** A device on which every transfer fails with an exception of a class
    that is neither [ImportError], [RuntimeError] nor [OSError]. *)
Definition example_device_failing : Gpu.Device :=
  Gpu.mkDevice true None 1000 (λ _, Some OtherError).

(** C8 (unknown stage identifier), as the code has it.  Called with the
    stage identifier 'bogus', the CPU backend aborts with [ValueError], and
    so does the GPU backend without an accelerator; the GPU backend with an
    accelerator does not abort: it returns the full-file digests of the
    batch, as it does for 'full'. *)
Theorem gpu_hash_batch_unknown_stage_accepted (sha256 : bytes → bytes) :
  Cpu.hash_batch sha256 10 (seq 0) example_fs example_heap [0%nat; 3%nat]
    "bogus"
    = Raise (ValueError "Unknown stage: bogus") ∧
  Gpu.hash_batch sha256
    (Gpu.mkGPUHashProcessor example_device 10 (256 * 1024 * 1024) false)
    (seq 0) example_fs example_heap [0%nat; 3%nat] "bogus"
    = Raise (ValueError "Unknown stage: bogus") ∧
  Gpu.hash_batch sha256 (Gpu.new_processor example_device) (seq 0) example_fs
    example_heap [0%nat; 3%nat] "bogus"
    = Ok [Some (sha256 [x01; x02; x03]%byte); Some (sha256 [x07; x08; x09]%byte)].
Proof. vm_compute. done. Qed.

(** When no usable device memory is reported, a non-empty file takes the
    chunked path with a chunk size of 0, and the digest returned is that of
    the empty byte string. *)
Lemma gpu_hash_full_file_no_usable_memory (sha256 : bytes → bytes)
    (p : Gpu.GPUHashProcessor) (fs : filesystem) (h : heap) (file : ref)
    (data : bytes) (bad : option nat) :
  Gpu._gpu_available p = true →
  Gpu.use_device (Gpu.device p) = None →
  Gpu.usable_memory (Gpu.device p) = 0 →
  0 <= Gpu.chunk_size p →
  0 < file_size (h file) →
  fs (full_path (h file)) = Regular data bad →
  Gpu.hash_full_file sha256 p fs h file = Ok (sha256 []).
Proof.
  intros Hon Huse Hmem Hcs Hsize Hnode. unfold Gpu.hash_full_file.
  rewrite Hon, Huse, Hmem. simpl.
  rewrite decide_False by lia. unfold open. rewrite Hnode.
  replace (Gpu.chunk_size p `min` 0) with 0 by lia.
  cbn [mbind result_bind]. by rewrite read_loop_chunk_0.
Qed.

(** C9 (GPU/CPU digest equivalence), as the code has it.  With an
    accelerator that is available but reports no free memory, the GPU
    backend's full-file hash of the three-byte file [a] is the digest of the
    empty byte string, while the CPU backend's is the digest of the three
    bytes. *)
Theorem gpu_full_hash_differs_without_free_memory (sha256 : bytes → bytes) :
  Gpu.hash_full_file sha256 (Gpu.new_processor example_device_full) example_fs
    example_heap 0%nat = Ok (sha256 []) ∧
  Cpu.hash_full_file sha256 example_fs example_heap 0%nat
    = Ok (sha256 [x01; x02; x03]%byte).
Proof. vm_compute. done. Qed.

(** An exception of another class raised by a transfer leaves
    [hash_full_file] as it is, and [hash_batch] turns it into the empty
    sentinel: neither returns the CPU backend's result. *)
Lemma gpu_uncaught_error_example (sha256 : bytes → bytes) :
  Gpu.hash_full_file sha256 (Gpu.new_processor example_device_failing)
    example_fs example_heap 0%nat = Raise OtherError ∧
  Gpu.hash_batch sha256 (Gpu.new_processor example_device_failing) (seq 0)
    example_fs example_heap [0%nat] "full" = Ok [Some []] ∧
  Cpu.hash_batch sha256 10 (seq 0) example_fs example_heap [0%nat] "full"
    = Ok [Some (sha256 [x01; x02; x03]%byte)].
Proof. vm_compute. done. Qed.

(** ** GPU/CPU categorisation *)

(** The method [preprocess_files] assigns to a file of a given size. *)
Definition assigned_method (gpu_available : bool) (threshold : option Z)
    (size : Z) : Method :=
  if Preprocessing.use_gpu gpu_available threshold size then gpu else cpu.

Lemma set_method_apply h r v r' :
  set_method h r v r' = if decide (r' = r) then with_method (h r) v else h r'.
Proof. done. Qed.

Lemma categorize_spec (gpu_available : bool) (threshold : option Z)
    (processed_files : gset string) (todo : list ref) :
  ∀ h cat h' cat',
  Preprocessing.categorize gpu_available threshold processed_files todo h cat
    = (h', cat') →
  Preprocessing.cat_gpu cat' = Preprocessing.cat_gpu cat ++
    filter (λ r, (full_path (h r) ∉ processed_files) ∧
                 assigned_method gpu_available threshold (file_size (h r)) = gpu)
      todo ∧
  Preprocessing.cat_cpu cat' = Preprocessing.cat_cpu cat ++
    filter (λ r, (full_path (h r) ∉ processed_files) ∧
                 assigned_method gpu_available threshold (file_size (h r)) = cpu)
      todo ∧
  Preprocessing.cat_skip cat' = Preprocessing.cat_skip cat ++
    filter (λ r, full_path (h r) ∈ processed_files) todo ∧
  ∀ r, h' r =
       if decide (r ∈ todo ∧ full_path (h r) ∉ processed_files)
       then with_method (h r)
              (assigned_method gpu_available threshold (file_size (h r)))
       else h r.
Proof.
  induction todo as [|file rest IH]; intros h cat h' cat' Hrun;
    cbn [Preprocessing.categorize] in Hrun.
  - injection Hrun as <- <-. rewrite !app_nil_r.
    split; [done|split; [done|split; [done|]]].
    intros r. rewrite decide_False; [done|]. by intros [[]%not_elem_of_nil _].
  - assert (∀ m, let h1 := set_method h file m in
              ∀ r, full_path (h1 r) = full_path (h r) ∧
                   file_size (h1 r) = file_size (h r)) as Hsame.
    { intros m h1 r. unfold h1. rewrite set_method_apply.
      by destruct (decide (r = file)) as [->|]. }
    assert (∀ m v,
              filter (λ r, (full_path (set_method h file m r) ∉ processed_files) ∧
                           assigned_method gpu_available threshold
                             (file_size (set_method h file m r)) = v) rest =
              filter (λ r, (full_path (h r) ∉ processed_files) ∧
                           assigned_method gpu_available threshold
                             (file_size (h r)) = v) rest) as Hfm.
    { intros m v. apply list_filter_iff. intros r.
      destruct (Hsame m r) as [-> ->]. done. }
    assert (∀ m,
              filter (λ r, full_path (set_method h file m r) ∈ processed_files)
                rest =
              filter (λ r, full_path (h r) ∈ processed_files) rest) as Hfs.
    { intros m. apply list_filter_iff. intros r.
      destruct (Hsame m r) as [-> _]. done. }
    destruct (decide (full_path (h file) ∈ processed_files)) as [Hskip|Hkeep].
    + apply IH in Hrun as (Hg & Hc & Hs & Hh). cbn in Hg, Hc, Hs.
      rewrite Hg, Hc, Hs.
      rewrite !filter_cons_False by (intros [? _]; done).
      rewrite filter_cons_True by done. rewrite <- app_assoc.
      split; [done|split; [done|split; [done|]]].
      intros r. rewrite Hh.
      destruct (decide (r ∈ rest ∧ _)) as [[Hin Hp]|Hn].
      * rewrite decide_True; [done|]. split; [by apply list_elem_of_further|done].
      * rewrite decide_False; [done|].
        intros [[->|?]%elem_of_cons ?]; [done|]. by apply Hn.
    + assert (∀ m,
        (∀ r, h' r =
           if decide (r ∈ rest ∧ full_path (set_method h file m r) ∉ processed_files)
           then with_method (set_method h file m r)
                  (assigned_method gpu_available threshold
                     (file_size (set_method h file m r)))
           else set_method h file m r) →
        m = assigned_method gpu_available threshold (file_size (h file)) →
        ∀ r, h' r =
           if decide (r ∈ file :: rest ∧ full_path (h r) ∉ processed_files)
           then with_method (h r)
                  (assigned_method gpu_available threshold (file_size (h r)))
           else h r) as Hheap.
      { intros m Hh Hm r. rewrite Hh.
        destruct (Hsame m r) as [Hp Hz]. rewrite Hp, Hz.
        destruct (decide (r ∈ rest ∧ _)) as [[Hin Hpr]|Hn].
        - rewrite decide_True by (split; [by apply list_elem_of_further|done]).
          rewrite set_method_apply. by destruct (decide (r = file)) as [->|].
        - destruct (decide (r = file)) as [->|Hne].
          + rewrite decide_True by (split; [apply list_elem_of_here|done]).
            rewrite set_method_apply, decide_True by done. by rewrite Hm.
          + rewrite decide_False.
            * rewrite set_method_apply. by rewrite decide_False.
            * intros [[->|?]%elem_of_cons ?]; [done|]. by apply Hn. }
      destruct (Preprocessing.use_gpu gpu_available threshold
                  (file_size (h file))) eqn:Huse;
        apply IH in Hrun as (Hg & Hc & Hs & Hh); cbn in Hg, Hc, Hs;
        rewrite Hg, Hc, Hs, !Hfm, Hfs.
      * rewrite filter_cons_True by (unfold assigned_method; by rewrite Huse).
        rewrite filter_cons_False
          by (unfold assigned_method; rewrite Huse; by intros [_ ?]).
        rewrite filter_cons_False by done. rewrite <- app_assoc.
        split; [done|split; [done|split; [done|]]].
        apply (Hheap gpu); [done|]. unfold assigned_method. by rewrite Huse.
      * rewrite filter_cons_False
          by (unfold assigned_method; rewrite Huse; by intros [_ ?]).
        rewrite filter_cons_True by (unfold assigned_method; by rewrite Huse).
        rewrite filter_cons_False by done. rewrite <- app_assoc.
        split; [done|split; [done|split; [done|]]].
        apply (Hheap cpu); [done|]. unfold assigned_method. by rewrite Huse.
Qed.

Lemma preprocess_files_spec (files : list ref) (gpu_available : bool)
    (gpu_threshold : option Z) (processed_files : option (gset string))
    (h h' : heap) (cat : Preprocessing.Categorized) :
  Preprocessing.preprocess_files files gpu_available gpu_threshold
    processed_files h = (h', cat) →
  let processed := default ∅ processed_files in
  let threshold :=
    Preprocessing.effective_threshold gpu_available gpu_threshold in
  Preprocessing.cat_gpu cat =
    filter (λ r, (full_path (h r) ∉ processed) ∧
                 assigned_method gpu_available threshold (file_size (h r)) = gpu)
      files ∧
  Preprocessing.cat_cpu cat =
    filter (λ r, (full_path (h r) ∉ processed) ∧
                 assigned_method gpu_available threshold (file_size (h r)) = cpu)
      files ∧
  Preprocessing.cat_skip cat =
    filter (λ r, full_path (h r) ∈ processed) files ∧
  ∀ r, h' r =
       if decide (r ∈ files ∧ full_path (h r) ∉ processed)
       then with_method (h r)
              (assigned_method gpu_available threshold (file_size (h r)))
       else h r.
Proof.
  unfold Preprocessing.preprocess_files. intros Hrun.
  by apply categorize_spec in Hrun.
Qed.

(** ** How the store evolves *)

(** [evolves T1 Tf Tm Ts h h']: from [h] to [h'] no record changed its
    path, name or size; prefix hashes changed only in [T1], full hashes only
    in [Tf], processing methods only in [Tm], statuses only in [Ts]. *)
Definition evolves (T1 Tf Tm Ts : ref → Prop) (h h' : heap) : Prop :=
  ∀ r,
    full_path (h' r) = full_path (h r) ∧
    filename (h' r) = filename (h r) ∧
    file_size (h' r) = file_size (h r) ∧
    size_of (h' r) = size_of (h r) ∧
    (¬ T1 r → first_1k_hash (h' r) = first_1k_hash (h r)) ∧
    (¬ Tf r → full_hash (h' r) = full_hash (h r)) ∧
    (¬ Tm r → processing_method (h' r) = processing_method (h r)) ∧
    (¬ Ts r → processing_status (h' r) = processing_status (h r)).

Definition nowhere : ref → Prop := λ _, False.
Definition anywhere : ref → Prop := λ _, True.

(** Only the size cache changed. *)
Abbreviation cache_only := (evolves nowhere nowhere nowhere nowhere).

Lemma evolves_refl T1 Tf Tm Ts h : evolves T1 Tf Tm Ts h h.
Proof. intros r. tauto. Qed.

Lemma evolves_weaken (T1 Tf Tm Ts T1' Tf' Tm' Ts' : ref → Prop) h h' :
  (∀ r, T1 r → T1' r) → (∀ r, Tf r → Tf' r) →
  (∀ r, Tm r → Tm' r) → (∀ r, Ts r → Ts' r) →
  evolves T1 Tf Tm Ts h h' → evolves T1' Tf' Tm' Ts' h h'.
Proof.
  intros H1 Hf Hm Hs Hev r. specialize (Hev r).
  destruct Hev as (? & ? & ? & ? & E1 & Ef & Em & Es).
  repeat split; try done.
  - intros Hn. apply E1. intros ?. apply Hn. by apply H1.
  - intros Hn. apply Ef. intros ?. apply Hn. by apply Hf.
  - intros Hn. apply Em. intros ?. apply Hn. by apply Hm.
  - intros Hn. apply Es. intros ?. apply Hn. by apply Hs.
Qed.

Lemma evolves_trans T1 Tf Tm Ts h1 h2 h3 :
  evolves T1 Tf Tm Ts h1 h2 → evolves T1 Tf Tm Ts h2 h3 →
  evolves T1 Tf Tm Ts h1 h3.
Proof.
  intros H12 H23 r. specialize (H12 r). specialize (H23 r).
  destruct H12 as (? & ? & ? & ? & E1 & Ef & Em & Es).
  destruct H23 as (? & ? & ? & ? & E1' & Ef' & Em' & Es').
  repeat split; try congruence.
  - intros Hn. rewrite E1', E1; done.
  - intros Hn. rewrite Ef', Ef; done.
  - intros Hn. rewrite Em', Em; done.
  - intros Hn. rewrite Es', Es; done.
Qed.

(** Composition when the two steps touch different records. *)
Lemma evolves_seq (T1 Tf Tm Ts T1' Tf' Tm' Ts' : ref → Prop) h1 h2 h3 :
  evolves T1 Tf Tm Ts h1 h2 → evolves T1' Tf' Tm' Ts' h2 h3 →
  evolves (λ r, T1 r ∨ T1' r) (λ r, Tf r ∨ Tf' r)
    (λ r, Tm r ∨ Tm' r) (λ r, Ts r ∨ Ts' r) h1 h3.
Proof.
  intros H12 H23.
  eapply evolves_trans; (eapply evolves_weaken; [..|eassumption]); tauto.
Qed.

Lemma cache_only_any T1 Tf Tm Ts h h' :
  cache_only h h' → evolves T1 Tf Tm Ts h h'.
Proof. apply evolves_weaken; by intros r []. Qed.

Lemma get_size_hash_cache_only h r : cache_only h (get_size_hash h r).2.
Proof.
  unfold get_size_hash.
  destruct (size_hash (h r)) eqn:E; simpl; [apply evolves_refl|].
  intros r'. unfold set_size_hash, upd, size_of.
  destruct (decide (r' = r)) as [->|]; simpl; [by rewrite E|done].
Qed.

Lemma frame_evolves h h' :
  frame h h' → evolves nowhere nowhere nowhere anywhere h h'.
Proof.
  intros Hfr r. destruct (Hfr r) as (? & ? & ? & ? & ? & ? & ?).
  repeat split; done.
Qed.

Lemma set_first_1k_hash_evolves h r v :
  evolves (λ r', r' = r) nowhere nowhere nowhere h (set_first_1k_hash h r v).
Proof.
  intros r'. unfold set_first_1k_hash, upd.
  destruct (decide (r' = r)) as [->|]; repeat split; try done.
Qed.

Lemma set_full_hash_evolves h r v :
  evolves nowhere (λ r', r' = r) nowhere nowhere h (set_full_hash h r v).
Proof.
  intros r'. unfold set_full_hash, upd.
  destruct (decide (r' = r)) as [->|]; repeat split; try done.
Qed.

(** ** The orchestrator's loops *)

Lemma candidate_sizes_spec todo : ∀ h sizes sizes' h',
  Orchestrator.candidate_sizes todo h sizes = (sizes', h') →
  cache_only h h' ∧
  ∀ z, z ∈ sizes' ↔ z ∈ sizes ∨ ∃ r, r ∈ todo ∧ size_of (h r) = z.
Proof.
  induction todo as [|f rest IH]; intros h sizes sizes' h' Hrun;
    cbn [Orchestrator.candidate_sizes] in Hrun.
  - injection Hrun as <- <-. split; [apply evolves_refl|].
    intros z. split; [by left|]. intros [?|(r & []%not_elem_of_nil & _)]. done.
  - pose proof (get_size_hash_fst h f) as Hsz.
    pose proof (get_size_hash_cache_only h f) as Hco.
    destruct (get_size_hash h f) as [sz h1]; simpl in *. subst sz.
    apply IH in Hrun as [Hco' Hin].
    split; [by eapply evolves_trans|].
    intros z. rewrite Hin. rewrite elem_of_union, elem_of_singleton. split.
    + intros [[->|?]|(r & Hr & <-)].
      * right. exists f. split; [apply list_elem_of_here|done].
      * by left.
      * right. exists r. split; [by apply list_elem_of_further|].
        by destruct (Hco r) as (_ & _ & _ & -> & _).
    + intros [?|(r & [->|Hr]%elem_of_cons & <-)].
      * left. by right.
      * left. by left.
      * right. exists r. split; [done|].
        by destruct (Hco r) as (_ & _ & _ & -> & _).
Qed.

Lemma select_by_size_spec sizes todo : ∀ h sel sel' h',
  Orchestrator.select_by_size sizes todo h sel = (sel', h') →
  cache_only h h' ∧
  sel' = sel ++ filter (λ r, size_of (h r) ∈ sizes) todo.
Proof.
  induction todo as [|f rest IH]; intros h sel sel' h' Hrun;
    cbn [Orchestrator.select_by_size] in Hrun.
  - injection Hrun as <- <-. split; [apply evolves_refl|by rewrite app_nil_r].
  - pose proof (get_size_hash_fst h f) as Hsz.
    pose proof (get_size_hash_cache_only h f) as Hco.
    destruct (get_size_hash h f) as [sz h1]; simpl in *. subst sz.
    assert (filter (λ r, size_of (h1 r) ∈ sizes) rest =
            filter (λ r, size_of (h r) ∈ sizes) rest) as Hf.
    { apply list_filter_iff. intros r.
      by destruct (Hco r) as (_ & _ & _ & -> & _). }
    destruct (decide (size_of (h f) ∈ sizes)) as [Hin|Hout];
      apply IH in Hrun as [Hco' ->]; rewrite Hf;
      (split; [by eapply evolves_trans|]).
    + rewrite filter_cons_True by done. by rewrite <- app_assoc.
    + by rewrite filter_cons_False by done.
Qed.

(** The key [(size, prefix hash)] of a record, if it has a prefix hash. *)
Definition size_1k_key (f : EbookFile) : option (Z * bytes) :=
  match first_1k_hash f with
  | Some k => Some (size_of f, k)
  | None => None
  end.

Lemma size_1k_key_cache_only h h' r :
  cache_only h h' → size_1k_key (h' r) = size_1k_key (h r).
Proof.
  intros Hco. destruct (Hco r) as (_ & _ & _ & Hs & Hk & _).
  unfold size_1k_key. rewrite Hs, Hk; [done|by intros []].
Qed.

Lemma candidate_size_1k_spec todo : ∀ h keys keys' h',
  Orchestrator.candidate_size_1k todo h keys = (keys', h') →
  cache_only h h' ∧
  ∀ key, key ∈ keys' ↔ key ∈ keys ∨ ∃ r, r ∈ todo ∧ size_1k_key (h r) = Some key.
Proof.
  induction todo as [|f rest IH]; intros h keys keys' h' Hrun;
    cbn [Orchestrator.candidate_size_1k] in Hrun.
  - injection Hrun as <- <-. split; [apply evolves_refl|].
    intros z. split; [by left|]. intros [?|(r & []%not_elem_of_nil & _)]. done.
  - destruct (first_1k_hash (h f)) as [k|] eqn:Hk.
    + pose proof (get_size_hash_fst h f) as Hsz.
      pose proof (get_size_hash_cache_only h f) as Hco.
      destruct (get_size_hash h f) as [sz h1]; simpl in *. subst sz.
      apply IH in Hrun as [Hco' Hin].
      split; [by eapply evolves_trans|].
      intros key. rewrite Hin. rewrite elem_of_union, elem_of_singleton.
      setoid_rewrite (size_1k_key_cache_only h h1 _ Hco). split.
      * intros [[->|?]|(r & Hr & Hkey)].
        -- right. exists f. split; [apply list_elem_of_here|].
           unfold size_1k_key. by rewrite Hk.
        -- by left.
        -- right. exists r. split; [by apply list_elem_of_further|done].
      * intros [?|(r & [->|Hr]%elem_of_cons & Hkey)].
        -- left. by right.
        -- left. left. unfold size_1k_key in Hkey. rewrite Hk in Hkey.
           by injection Hkey as <-.
        -- right. exists r. done.
    + apply IH in Hrun as [Hco' Hin]. split; [done|].
      intros key. rewrite Hin. split.
      * intros [?|(r & Hr & Hkey)]; [by left|].
        right. exists r. split; [by apply list_elem_of_further|done].
      * intros [?|(r & [->|Hr]%elem_of_cons & Hkey)]; [by left| |].
        -- unfold size_1k_key in Hkey. by rewrite Hk in Hkey.
        -- right. by exists r.
Qed.

(** The test of the library selection for the full stage. *)
Definition shares_key (keys : gset (Z * bytes)) (f : EbookFile) : bool :=
  match size_1k_key f with
  | Some key => bool_decide (key ∈ keys)
  | None => false
  end.

Lemma select_by_size_1k_spec keys todo : ∀ h sel sel' h',
  Orchestrator.select_by_size_1k keys todo h sel = (sel', h') →
  cache_only h h' ∧
  sel' = sel ++ filter (λ r, shares_key keys (h r) = true) todo.
Proof.
  induction todo as [|f rest IH]; intros h sel sel' h' Hrun;
    cbn [Orchestrator.select_by_size_1k] in Hrun.
  - injection Hrun as <- <-. split; [apply evolves_refl|by rewrite app_nil_r].
  - destruct (first_1k_hash (h f)) as [k|] eqn:Hk.
    + pose proof (get_size_hash_fst h f) as Hsz.
      pose proof (get_size_hash_cache_only h f) as Hco.
      destruct (get_size_hash h f) as [sz h1]; simpl in *. subst sz.
      assert (filter (λ r, shares_key keys (h1 r) = true) rest =
              filter (λ r, shares_key keys (h r) = true) rest) as Hf.
      { apply list_filter_iff. intros r. unfold shares_key.
        by rewrite (size_1k_key_cache_only h h1 _ Hco). }
      destruct (decide ((size_of (h f), k) ∈ keys)) as [Hin|Hout];
        apply IH in Hrun as [Hco' ->]; rewrite Hf;
        (split; [by eapply evolves_trans|]).
      * rewrite filter_cons_True; [by rewrite <- app_assoc|].
        unfold shares_key, size_1k_key. rewrite Hk. by apply bool_decide_eq_true.
      * rewrite filter_cons_False; [done|].
        unfold shares_key, size_1k_key. rewrite Hk.
        rewrite bool_decide_eq_true. done.
    + apply IH in Hrun as [Hco' ->]. split; [done|].
      rewrite filter_cons_False; [done|].
      unfold shares_key, size_1k_key. by rewrite Hk.
Qed.

Lemma store_1k_hashes_spec pairs : ∀ h idx h' idx',
  Orchestrator.store_1k_hashes pairs h idx = (h', idx') →
  evolves (λ r, r ∈ pairs.*1) nowhere nowhere nowhere h h'.
Proof.
  induction pairs as [|[file hv] rest IH]; intros h idx h' idx' Hrun;
    cbn [Orchestrator.store_1k_hashes] in Hrun.
  - injection Hrun as <- _. apply evolves_refl.
  - assert (∀ r, r ∈ rest.*1 → r ∈ ((file, hv) :: rest).*1) as Hmono
      by (intros r ?; by apply list_elem_of_further).
    destruct hv as [b|]; [destruct (truthy b)|].
    + pose proof (get_size_hash_cache_only
                    (set_first_1k_hash h file (Some b)) file) as Hco.
      destruct (get_size_hash _ file) as [sz h2]; simpl in *.
      apply IH in Hrun.
      eapply evolves_trans; [|eapply evolves_weaken; [..|exact Hrun]]; try done.
      eapply evolves_trans; [|eapply cache_only_any; exact Hco].
      eapply evolves_weaken; [..|apply set_first_1k_hash_evolves]; try done.
      intros r ->. apply list_elem_of_here.
    + apply IH in Hrun. eapply evolves_weaken; [..|exact Hrun]; done.
    + apply IH in Hrun. eapply evolves_weaken; [..|exact Hrun]; done.
Qed.

Lemma store_full_hashes_spec pairs : ∀ h idx h' idx',
  Orchestrator.store_full_hashes pairs h idx = (h', idx') →
  evolves nowhere (λ r, r ∈ pairs.*1) nowhere nowhere h h'.
Proof.
  induction pairs as [|[file hv] rest IH]; intros h idx h' idx' Hrun;
    cbn [Orchestrator.store_full_hashes] in Hrun.
  - injection Hrun as <- _. apply evolves_refl.
  - assert (∀ r, r ∈ rest.*1 → r ∈ ((file, hv) :: rest).*1) as Hmono
      by (intros r ?; by apply list_elem_of_further).
    destruct hv as [b|]; [destruct (truthy b)|].
    + apply IH in Hrun.
      eapply evolves_trans; [|eapply evolves_weaken; [..|exact Hrun]]; try done.
      eapply evolves_weaken; [..|apply set_full_hash_evolves]; try done.
      intros r ->. apply list_elem_of_here.
    + apply IH in Hrun. eapply evolves_weaken; [..|exact Hrun]; done.
    + apply IH in Hrun. eapply evolves_weaken; [..|exact Hrun]; done.
Qed.

Lemma elem_of_zip_fst {A B} (l : list A) (k : list B) (x : A) :
  x ∈ (zip l k).*1 → x ∈ l.
Proof.
  revert k. induction l as [|a l IH]; intros [|b k]; simpl;
    try (by intros []%not_elem_of_nil).
  intros [->|?]%elem_of_cons; [apply list_elem_of_here|].
  apply list_elem_of_further. by eapply IH.
Qed.

(** The two collections keep their lists of records and their size
    index. *)
Definition same_lists (w w' : Orchestrator.World) : Prop :=
  files (Orchestrator.ebooks_collection w') =
    files (Orchestrator.ebooks_collection w) ∧
  files (Orchestrator.calibre_collection w') =
    files (Orchestrator.calibre_collection w) ∧
  by_size (Orchestrator.calibre_collection w') =
    by_size (Orchestrator.calibre_collection w).

Lemma same_lists_refl w : same_lists w w.
Proof. by repeat split. Qed.

Lemma same_lists_trans w1 w2 w3 :
  same_lists w1 w2 → same_lists w2 w3 → same_lists w1 w3.
Proof. intros (? & ? & ?) (? & ? & ?). repeat split; congruence. Qed.

Lemma record_1k_spec side w files hashes :
  let w' := Orchestrator.record_1k side w files hashes in
  evolves (λ r, r ∈ files) nowhere nowhere nowhere
    (Orchestrator.store w) (Orchestrator.store w') ∧
  same_lists w w' ∧
  Orchestrator.calls w' = Orchestrator.calls w.
Proof.
  unfold Orchestrator.record_1k.
  destruct side;
    destruct (Orchestrator.store_1k_hashes _ _ _) as [h idx] eqn:Hrun;
    apply store_1k_hashes_spec in Hrun; simpl;
    (split; [|by repeat split]);
    (eapply evolves_weaken; [..|exact Hrun]; try done);
    intros r; apply elem_of_zip_fst.
Qed.

Lemma record_full_spec side w files hashes :
  let w' := Orchestrator.record_full side w files hashes in
  evolves nowhere (λ r, r ∈ files) nowhere nowhere
    (Orchestrator.store w) (Orchestrator.store w') ∧
  same_lists w w' ∧
  Orchestrator.calls w' = Orchestrator.calls w.
Proof.
  unfold Orchestrator.record_full.
  destruct side;
    destruct (Orchestrator.store_full_hashes _ _ _) as [h idx] eqn:Hrun;
    apply store_full_hashes_spec in Hrun; simpl;
    (split; [|by repeat split]);
    (eapply evolves_weaken; [..|exact Hrun]; try done);
    intros r; apply elem_of_zip_fst.
Qed.

(** ** The orchestrator *)

Section orchestrator.
Context {C G : Type} (CP : Base.HashProcessor C) (GP : Base.HashProcessor G).
Variable m : Base.Machine.
Variable self : @Orchestrator.HashingOrchestrator C G.

(** The call filed for a batch that is sent to a processor only if it is
    not empty. *)
Definition batch_call (backend : Orchestrator.Backend) (stage : string)
    (batch : list ref) : list Orchestrator.HashCall :=
  match batch with
  | [] => []
  | _ :: _ => [Orchestrator.mkHashCall backend stage batch]
  end.

(** The call filed for a batch for the CPU processor; the batch of the
    datalake's prefix hashes is sent even when empty ([guarded = false]). *)
Definition cpu_call (guarded : bool) (stage : string) (batch : list ref)
  : list Orchestrator.HashCall :=
  if guarded then batch_call Orchestrator.via_cpu_processor stage batch
  else [Orchestrator.mkHashCall Orchestrator.via_cpu_processor stage batch].

(** The call filed for a batch meant for the GPU processor: none when the
    orchestrator has no GPU processor. *)
Definition gpu_call (stage : string) (batch : list ref)
  : list Orchestrator.HashCall :=
  match Orchestrator.gpu_processor self with
  | Some _ => batch_call Orchestrator.via_gpu_processor stage batch
  | None => []
  end.

(** A library record has the size of some candidate. *)
Definition shares_size (h : heap) (candidates : list ref) (r : ref) : Prop :=
  Exists (λ c, size_of (h c) = size_of (h r)) candidates.

(** A library record has a prefix hash and shares [(size, prefix hash)]
    with some candidate. *)
Definition shares_pair (h : heap) (candidates : list ref) (r : ref) : Prop :=
  is_Some (size_1k_key (h r)) ∧
  Exists (λ c, size_1k_key (h c) = size_1k_key (h r)) candidates.

#[local] Instance shares_size_dec h cs r : Decision (shares_size h cs r).
Proof. unfold shares_size. apply _. Defined.

#[local] Instance shares_pair_dec h cs r : Decision (shares_pair h cs r).
Proof. unfold shares_pair. apply _. Defined.

Lemma prefix_on_cpu_spec side batch w w' :
  Orchestrator.prefix_on_cpu CP m self side batch w = Ok w' →
  Orchestrator.calls w' =
    Orchestrator.calls w ++
      [Orchestrator.mkHashCall Orchestrator.via_cpu_processor "1k" batch] ∧
  evolves (λ r, r ∈ batch) nowhere nowhere nowhere
    (Orchestrator.store w) (Orchestrator.store w') ∧
  same_lists w w'.
Proof.
  unfold Orchestrator.prefix_on_cpu, Orchestrator.call_cpu.
  destruct (Base.hash_batch _ m (Orchestrator.store w) batch "1k")
    as [hs|e]; [|discriminate].
  cbn [mbind result_bind]. intros [= <-].
  destruct (record_1k_spec side
    (Orchestrator.mkWorld (Orchestrator.store w)
       (Orchestrator.ebooks_collection w) (Orchestrator.calibre_collection w)
       (Orchestrator.calls w ++
          [Orchestrator.mkHashCall Orchestrator.via_cpu_processor "1k" batch]))
    batch hs) as (Hev & Hsl & Hcl).
  by rewrite Hcl.
Qed.

Lemma hash_stage2_files_spec (stage2_candidates : list ref)
    (w w' : Orchestrator.World) (sel cands : list ref) :
  Orchestrator.hash_stage2_files CP m self stage2_candidates w
    = Ok (w', (sel, cands)) →
  cands = stage2_candidates ∧
  sel = filter (shares_size (Orchestrator.store w) stage2_candidates)
          (files (Orchestrator.calibre_collection w)) ∧
  Orchestrator.calls w' =
    Orchestrator.calls w ++ cpu_call true "1k" sel
      ++ cpu_call false "1k" stage2_candidates ∧
  evolves (λ r, r ∈ sel ∨ r ∈ stage2_candidates) nowhere nowhere nowhere
    (Orchestrator.store w) (Orchestrator.store w') ∧
  same_lists w w'.
Proof.
  unfold Orchestrator.hash_stage2_files. intros Hrun.
  destruct (Orchestrator.candidate_sizes _ _ _) as [sizes h1] eqn:Hsizes.
  apply candidate_sizes_spec in Hsizes as [Hco1 Hsizes].
  destruct (Orchestrator.select_by_size _ _ _ _) as [sel0 h2] eqn:Hsel.
  apply select_by_size_spec in Hsel as [Hco2 Hsel]. simpl in Hsel.
  assert (sel0 = filter (shares_size (Orchestrator.store w) stage2_candidates)
                   (files (Orchestrator.calibre_collection w))) as Hsel0.
  { rewrite Hsel. apply list_filter_iff. intros r. rewrite Hsizes.
    unfold shares_size. rewrite Exists_exists.
    destruct (Hco1 r) as (_ & _ & _ & -> & _). split.
    - intros [[]%not_elem_of_empty|(c & Hc & Heq)].
      exists c. split; [by apply list_elem_of_In|done].
    - intros (c & Hc & Heq). right. exists c.
      split; [by apply list_elem_of_In|done]. }
  clear Hsel Hsizes.
  set (w2 := Orchestrator.with_store w h2) in *.
  assert (cache_only (Orchestrator.store w) (Orchestrator.store w2)) as Hco
    by (by eapply evolves_trans).
  match type of Hrun with
  | mbind _ ?X = _ => destruct X as [w3|e] eqn:Hw3; [|discriminate]
  end.
  cbn [mbind result_bind] in Hrun.
  destruct (Orchestrator.prefix_on_cpu CP m self false stage2_candidates w3)
    as [w4|e] eqn:Hw4; [|discriminate].
  cbn [mbind result_bind] in Hrun. injection Hrun as <- <- <-.
  apply prefix_on_cpu_spec in Hw4 as (Hcalls4 & Hev4 & Hsame4).
  assert (Orchestrator.calls w3 =
            Orchestrator.calls w ++ cpu_call true "1k" sel0 ∧
          evolves (λ r, r ∈ sel0) nowhere nowhere nowhere
            (Orchestrator.store w) (Orchestrator.store w3) ∧
          same_lists w w3) as (Hcalls3 & Hev3 & Hsame3).
  { destruct sel0 as [|s0 sel0'].
    - injection Hw3 as <-. split; [by rewrite app_nil_r|].
      split; [by apply cache_only_any|by repeat split].
    - apply prefix_on_cpu_spec in Hw3 as (Hc & He & Hs).
      split; [done|]. split; [|done].
      eapply evolves_trans; [eapply cache_only_any; exact Hco|exact He]. }
  split; [done|]. split; [done|]. split; [|split].
  - by rewrite Hcalls4, Hcalls3, <- app_assoc.
  - eapply evolves_seq in Hev4; [|exact Hev3].
    eapply evolves_weaken; [..|exact Hev4]; unfold nowhere; tauto.
  - eapply same_lists_trans; [exact Hsame3|exact Hsame4].
Qed.

Lemma full_on_cpu_spec side batch w w' :
  Orchestrator.full_on_cpu CP m self side batch w = Ok w' →
  Orchestrator.calls w' = Orchestrator.calls w ++ cpu_call true "full" batch ∧
  evolves nowhere (λ r, r ∈ batch) nowhere nowhere
    (Orchestrator.store w) (Orchestrator.store w') ∧
  same_lists w w'.
Proof.
  unfold Orchestrator.full_on_cpu, Orchestrator.call_cpu.
  destruct batch as [|b batch'].
  { intros [= <-]. split; [by rewrite app_nil_r|].
    split; [apply evolves_refl|apply same_lists_refl]. }
  destruct (Base.hash_batch _ m (Orchestrator.store w) (b :: batch') "full")
    as [hs|e]; [|discriminate].
  cbn [mbind result_bind]. intros [= <-].
  destruct (record_full_spec side
    (Orchestrator.mkWorld (Orchestrator.store w)
       (Orchestrator.ebooks_collection w) (Orchestrator.calibre_collection w)
       (Orchestrator.calls w ++
          [Orchestrator.mkHashCall Orchestrator.via_cpu_processor "full"
             (b :: batch')]))
    (b :: batch') hs) as (Hev & Hsl & Hcl).
  by rewrite Hcl.
Qed.

Lemma full_on_gpu_spec side batch w w' :
  Orchestrator.full_on_gpu GP m self side batch w = Ok w' →
  Orchestrator.calls w' = Orchestrator.calls w ++ gpu_call "full" batch ∧
  evolves nowhere (λ r, r ∈ batch) nowhere nowhere
    (Orchestrator.store w) (Orchestrator.store w') ∧
  same_lists w w'.
Proof.
  unfold Orchestrator.full_on_gpu, Orchestrator.call_gpu, gpu_call.
  destruct batch as [|b batch'].
  { intros [= <-].
    split; [destruct (Orchestrator.gpu_processor self); by rewrite app_nil_r|].
    split; [apply evolves_refl|apply same_lists_refl]. }
  destruct (Orchestrator.gpu_processor self) as [g|].
  2:{ intros [= <-]. split; [by rewrite app_nil_r|].
      split; [apply evolves_refl|apply same_lists_refl]. }
  destruct (Base.hash_batch g m (Orchestrator.store w) (b :: batch') "full")
    as [hs|e]; [|discriminate].
  cbn [mbind result_bind]. intros [= <-].
  destruct (record_full_spec side
    (Orchestrator.mkWorld (Orchestrator.store w)
       (Orchestrator.ebooks_collection w) (Orchestrator.calibre_collection w)
       (Orchestrator.calls w ++
          [Orchestrator.mkHashCall Orchestrator.via_gpu_processor "full"
             (b :: batch')]))
    (b :: batch') hs) as (Hev & Hsl & Hcl).
  by rewrite Hcl.
Qed.

(** What [hash_stage3_files] selects, files and leaves behind. *)
Lemma hash_stage3_files_spec (stage3_candidates : list ref)
    (gpu_available : bool) (gpu_threshold : option Z)
    (processed_files : option (gset string))
    (w w' : Orchestrator.World) (sel cands : list ref) :
  Orchestrator.hash_stage3_files CP GP m self stage3_candidates gpu_available
    gpu_threshold processed_files w = Ok (w', (sel, cands)) →
  let h := Orchestrator.store w in
  let processed := default ∅ processed_files in
  let threshold :=
    Preprocessing.effective_threshold gpu_available gpu_threshold in
  cands = stage3_candidates ∧
  sel = filter (shares_pair h stage3_candidates)
          (files (Orchestrator.calibre_collection w)) ∧
  Orchestrator.calls w' =
    Orchestrator.calls w
    ++ gpu_call "full"
         (filter (λ r, (full_path (h r) ∉ processed) ∧
                   assigned_method gpu_available threshold (file_size (h r))
                     = gpu) sel)
    ++ cpu_call true "full"
         (filter (λ r, (full_path (h r) ∉ processed) ∧
                   assigned_method gpu_available threshold (file_size (h r))
                     = cpu) sel)
    ++ gpu_call "full"
         (filter (λ f, processing_method (h f) = gpu ∧
                       is_Some (Orchestrator.gpu_processor self))
            stage3_candidates)
    ++ cpu_call true "full"
         (filter (λ f, processing_method (h f) = cpu ∨
                       Orchestrator.gpu_processor self = None)
            stage3_candidates) ∧
  evolves nowhere (λ r, r ∈ sel ∨ r ∈ stage3_candidates) (λ r, r ∈ sel) nowhere
    h (Orchestrator.store w') ∧
  (∀ r, r ∈ sel → full_path (h r) ∉ processed →
        processing_method (Orchestrator.store w' r) =
        assigned_method gpu_available threshold (file_size (h r))) ∧
  same_lists w w'.
Proof.
  intros Hrun h processed threshold.
  unfold Orchestrator.hash_stage3_files in Hrun. fold h in Hrun.
  destruct (Orchestrator.candidate_size_1k _ _ _) as [keys h1] eqn:Hkeys.
  apply candidate_size_1k_spec in Hkeys as [Hco1 Hkeys].
  destruct (Orchestrator.select_by_size_1k _ _ _ _) as [sel0 h2] eqn:Hsel.
  apply select_by_size_1k_spec in Hsel as [Hco2 Hsel]. simpl in Hsel.
  assert (sel0 = filter (shares_pair h stage3_candidates)
                   (files (Orchestrator.calibre_collection w))) as Hsel0.
  { rewrite Hsel. apply list_filter_iff. intros r.
    unfold shares_key, shares_pair.
    rewrite (size_1k_key_cache_only h h1 r Hco1). rewrite Exists_exists.
    destruct (size_1k_key (h r)) as [key|]; split.
    - intros Hin%bool_decide_eq_true. split; [by eexists|].
      apply Hkeys in Hin as [[]%not_elem_of_empty|(c & Hc & Hkey)].
      exists c. split; [by apply list_elem_of_In|done].
    - intros (_ & c & Hc & Hkey). apply bool_decide_eq_true, Hkeys.
      right. exists c. split; [by apply list_elem_of_In|done].
    - done.
    - intros ([? ?] & _). done. }
  clear Hsel Hkeys.
  assert (cache_only h h2) as Hco by (by eapply evolves_trans).
  destruct (Preprocessing.preprocess_files sel0 gpu_available gpu_threshold
              (Some (default ∅ processed_files)) h2) as [h3 cat] eqn:Hpre.
  apply preprocess_files_spec in Hpre as (Hg & Hc & _ & Hh3).
  cbn [default] in Hg, Hc, Hh3. fold processed threshold in Hg, Hc, Hh3.
  assert (∀ v,
    filter (λ r, (full_path (h2 r) ∉ processed) ∧
              assigned_method gpu_available threshold (file_size (h2 r)) = v)
      sel0 =
    filter (λ r, (full_path (h r) ∉ processed) ∧
              assigned_method gpu_available threshold (file_size (h r)) = v)
      sel0) as Hfv.
  { intros v. apply list_filter_iff. intros r.
    destruct (Hco r) as (-> & _ & -> & _). done. }
  rewrite Hfv in Hg, Hc.
  assert (evolves nowhere nowhere (λ r, r ∈ sel0) nowhere h2 h3) as Hev3.
  { intros r. rewrite Hh3.
    destruct (decide (r ∈ sel0 ∧ _)) as [[Hin _]|_]; repeat split; try done. }
  assert (∀ r, r ∈ sel0 → full_path (h r) ∉ processed →
            processing_method (h3 r) =
            assigned_method gpu_available threshold (file_size (h r))) as Hm3.
  { intros r Hin Hp. rewrite Hh3. destruct (Hco r) as (Hpath & _ & Hsz & _).
    rewrite decide_True by (by rewrite Hpath). simpl. by rewrite Hsz. }
  set (w3 := Orchestrator.with_store w h3) in *.
  destruct (Orchestrator.full_on_gpu GP m self true _ w3) as [w4|e] eqn:H4;
    [|discriminate].
  cbn [mbind result_bind] in Hrun.
  destruct (Orchestrator.full_on_cpu CP m self true _ w4) as [w5|e] eqn:H5;
    [|discriminate].
  cbn [mbind result_bind] in Hrun.
  destruct (Orchestrator.full_on_gpu GP m self false _ w5) as [w6|e] eqn:H6;
    [|discriminate].
  cbn [mbind result_bind] in Hrun.
  destruct (Orchestrator.full_on_cpu CP m self false _ w6) as [w7|e] eqn:H7;
    [|discriminate].
  cbn [mbind result_bind] in Hrun. injection Hrun as <- <- <-.
  apply full_on_gpu_spec in H4 as (Hc4 & He4 & Hs4).
  apply full_on_cpu_spec in H5 as (Hc5 & He5 & Hs5).
  apply full_on_gpu_spec in H6 as (Hc6 & He6 & Hs6).
  apply full_on_cpu_spec in H7 as (Hc7 & He7 & Hs7).
  rewrite Hg in Hc4, He4. rewrite Hc in Hc5, He5.
  assert (evolves nowhere (λ r, r ∈ sel0 ∨ r ∈ stage3_candidates) nowhere
            nowhere (Orchestrator.store w3) (Orchestrator.store w7)) as Hev37.
  { eapply evolves_trans; [|eapply evolves_trans; [|eapply evolves_trans]].
    - eapply evolves_weaken; [..|exact He4]; try done.
      intros r [_ ?]%list_elem_of_filter. by left.
    - eapply evolves_weaken; [..|exact He5]; try done.
      intros r [_ ?]%list_elem_of_filter. by left.
    - eapply evolves_weaken; [..|exact He6]; try done.
      intros r [_ ?]%list_elem_of_filter. by right.
    - eapply evolves_weaken; [..|exact He7]; try done.
      intros r [_ ?]%list_elem_of_filter. by right. }
  split; [done|]. split; [done|]. split; [|split; [|split]].
  - rewrite Hc7, Hc6, Hc5, Hc4. simpl. by rewrite <- !app_assoc.
  - eapply evolves_trans; [eapply cache_only_any; exact Hco|].
    eapply evolves_trans.
    + eapply evolves_weaken; [..|exact Hev3]; done.
    + eapply evolves_weaken; [..|exact Hev37]; done.
  - intros r Hin Hp. rewrite <- (Hm3 r Hin Hp).
    destruct (Hev37 r) as (_ & _ & _ & _ & _ & _ & Hm & _).
    apply Hm. by intros [].
  - eapply same_lists_trans; [|exact Hs7].
    eapply same_lists_trans; [|exact Hs6].
    eapply same_lists_trans; [|exact Hs5].
    eapply same_lists_trans; [|exact Hs4]. by repeat split.
Qed.

End orchestrator.

(** ** The GPU/CPU policy *)

(** The policy in the words of the design document: [gpu] iff the GPU is
    available, a size threshold is set, and the size is at least that
    threshold; else [cpu]. *)
Definition policy_as_stated (gpu_available : bool) (gpu_threshold : option Z)
    (f : EbookFile) (assigned : Method) : Prop :=
  (assigned = gpu ↔
     gpu_available = true ∧ ∃ t, gpu_threshold = Some t ∧ file_size f >= t) ∧
  (assigned ≠ gpu → assigned = cpu).

(** The policy of the code: the threshold is the one given or, when none is
    given and the GPU is available, the default of 100MB. *)
Definition follows_policy (gpu_available : bool) (gpu_threshold : option Z)
    (f : EbookFile) (assigned : Method) : Prop :=
  policy_as_stated gpu_available
    (Preprocessing.effective_threshold gpu_available gpu_threshold) f assigned.

Lemma assigned_method_policy gpu_available threshold f :
  policy_as_stated gpu_available threshold f
    (assigned_method gpu_available threshold (file_size f)).
Proof.
  unfold policy_as_stated, assigned_method, Preprocessing.use_gpu.
  destruct gpu_available; simpl.
  - destruct threshold as [t|].
    + destruct (bool_decide (file_size f >= t)) eqn:Hb.
      * apply bool_decide_eq_true in Hb. split; [|done].
        split; [|done]. intros _. split; [done|]. by exists t.
      * apply bool_decide_eq_false in Hb. split; [|done].
        split; [done|]. intros (_ & t' & [= <-] & ?). done.
    + split; [|done]. split; [done|]. by intros (_ & t' & ? & _).
  - split; [|done]. split; [done|]. by intros [? _].
Qed.

(** A file of exactly 100MB in the datalake. *)
Definition example_big_heap : heap := λ _,
  new_file "/lake/big.epub" "big.epub" "big.epub" (100 * 1024 * 1024) ".epub".

(** C5, as stated, fails where no threshold is given: with the GPU
    available and [gpu_threshold = None], a file of 100MB is assigned [gpu],
    although no threshold was set. *)
Lemma preprocess_files_unset_threshold_counterexample :
  0%nat ∈ [0%nat] ∧
(full_path (example_big_heap 0%nat) ∉ (∅ : gset string)) ∧
  ¬ policy_as_stated true None (example_big_heap 0%nat)
      (processing_method
         ((Preprocessing.preprocess_files [0%nat] true None None
             example_big_heap).1 0%nat)).
Proof.
  split; [apply list_elem_of_here|]. split; [apply not_elem_of_empty|].
  intros [[Hgpu _] _].
  destruct (Hgpu eq_refl) as (_ & t & Ht & _). discriminate.
Qed.

(** C5, amended.  A record that [preprocess_files] does not skip as
    already processed is assigned [gpu] iff the GPU is available and its
    size is at least the threshold in effect, which is the given one or,
    when none is given and the GPU is available, 100MB; otherwise it is
    assigned [cpu].  [hash_stage3_files] applies the same function to the
    library records it selects for full hashing: when it returns, each of
    them that was not skipped carries the method this policy assigns. *)
Theorem gpu_cpu_policy :
  (∀ (files : list ref) (gpu_available : bool) (gpu_threshold : option Z)
     (processed_files : option (gset string)) (h : heap) (r : ref),
     r ∈ files → full_path (h r) ∉ default ∅ processed_files →
     follows_policy gpu_available gpu_threshold (h r)
       (processing_method
          ((Preprocessing.preprocess_files files gpu_available gpu_threshold
              processed_files h).1 r))) ∧
  (∀ (C G : Type) (CP : Base.HashProcessor C) (GP : Base.HashProcessor G)
     (m : Base.Machine) (self : Orchestrator.HashingOrchestrator)
     (stage3_candidates : list ref) (gpu_available : bool)
     (gpu_threshold : option Z) (processed_files : option (gset string))
     (w w' : Orchestrator.World) (sel cands : list ref) (r : ref),
     Orchestrator.hash_stage3_files CP GP m self stage3_candidates
       gpu_available gpu_threshold processed_files w = Ok (w', (sel, cands)) →
     r ∈ sel →
     full_path (Orchestrator.store w r) ∉ default ∅ processed_files →
     follows_policy gpu_available gpu_threshold (Orchestrator.store w r)
       (processing_method (Orchestrator.store w' r))).
Proof.
  split.
  - intros files gpu_available gpu_threshold processed_files h r Hr Hp.
    destruct (Preprocessing.preprocess_files _ _ _ _ _) as [h' cat] eqn:Hrun.
    apply preprocess_files_spec in Hrun as (_ & _ & _ & Hh'). simpl.
    rewrite Hh', decide_True by done. simpl.
    apply assigned_method_policy.
  - intros C G CP GP m self stage3_candidates gpu_available gpu_threshold
      processed_files w w' sel cands r Hrun Hr Hp.
    apply hash_stage3_files_spec in Hrun as (_ & _ & _ & _ & Hm & _).
    rewrite (Hm r Hr Hp). apply assigned_method_policy.
Qed.

Lemma gpu_cpu_policy_witness :
  0%nat ∈ [0%nat] ∧
(full_path (example_big_heap 0%nat) ∉ default (∅ : gset string) None) ∧
  follows_policy true None (example_big_heap 0%nat)
    (processing_method
       ((Preprocessing.preprocess_files [0%nat] true None None
           example_big_heap).1 0%nat)).
Proof.
  assert (0%nat ∈ [0%nat]) as H1 by apply list_elem_of_here.
  assert (full_path (example_big_heap 0%nat) ∉ default (∅ : gset string) None)
    as H2 by apply not_elem_of_empty.
  split; [exact H1|]. split; [exact H2|].
  exact (proj1 gpu_cpu_policy [0%nat] true None None example_big_heap 0%nat
           H1 H2).
Defined.

(** ** Which library records the orchestrator hashes *)

(** The machine of the examples: [example_fs], workers finishing in the
    order of submission. *)
Definition example_machine : Base.Machine := Base.mkMachine example_fs (seq 0).

(** An orchestrator without GPU processor. *)
Definition example_orchestrator
  : @Orchestrator.HashingOrchestrator Base.CPUHashProcessor Gpu.GPUHashProcessor :=
  Orchestrator.mkHashingOrchestrator
    (Base.mkCPUHashProcessor 10 (1024 * 1024)) None.

(** The world before the full stage in the scenario of
    [example_heap_1k]: datalake record 0 is the one Stage 3 candidate. *)
Definition example_world_1k : Orchestrator.World :=
  Orchestrator.mkWorld example_heap_1k example_ebooks example_calibre_1k [].

(** The full stage when the resume set holds the path of library
    record 3. *)
Definition example_stage3_resumed :=
  Orchestrator.hash_stage3_files (Base.cpu_is_processor toy_digest)
    (Base.gpu_is_processor toy_digest) example_machine example_orchestrator
    [0%nat] false None (Some {["/lib/x.epub"]}) example_world_1k.

(** C6, as stated, fails for a library record that is skipped as already
    processed: library record 3 shares its size and prefix hash with the
    Stage 2 candidate 0 and is selected, but as its path is in the resume
    set no [hash_batch] call receives it. *)
Lemma library_record_skipped_counterexample :
  shares_pair example_heap_1k [0%nat] 3%nat ∧
  3%nat ∈ files example_calibre_1k ∧
  match example_stage3_resumed with
  | Ok (w', (sel, _)) =>
      3%nat ∈ sel ∧
      ¬ ∃ c, c ∈ Orchestrator.calls w' ∧ 3%nat ∈ Orchestrator.call_files c
  | Raise _ => False
  end.
Proof.
  split; [|split].
  - split; [by eexists|]. apply Exists_cons_hd. done.
  - vm_compute. apply list_elem_of_here.
  - vm_compute. split; [apply list_elem_of_here|].
    intros (c & Hc & H3).
    apply list_elem_of_singleton in Hc. subst c. simpl in H3.
    apply list_elem_of_singleton in H3. discriminate.
Qed.

(** C6, amended.  The orchestrator hashes only library records that can
    still collide.  At the prefix stage the batch it sends for the library
    is exactly the list of library records whose size is the size of some
    Stage 1 candidate, and both batches of that stage go to the CPU
    processor with the stage '1k'.  At the full stage it selects exactly the
    library records that share [(size, prefix hash)] with some Stage 2
    candidate.  Of the selected records, those skipped as already processed
    are sent to no processor; the others are split by the method the policy
    assigns to them: the ones assigned to the CPU go, in one batch, to the
    CPU processor, and the ones assigned to the GPU go, in one batch, to
    the GPU processor if the orchestrator has one, and to no processor if
    it has none.  No other library record is hashed. *)
Theorem orchestrator_library_hashing :
  (∀ (C G : Type) (CP : Base.HashProcessor C) (m : Base.Machine)
     (self : @Orchestrator.HashingOrchestrator C G)
     (stage2_candidates : list ref) (w w' : Orchestrator.World)
     (sel cands : list ref),
     Orchestrator.hash_stage2_files CP m self stage2_candidates w
       = Ok (w', (sel, cands)) →
     sel = filter (shares_size (Orchestrator.store w) stage2_candidates)
             (files (Orchestrator.calibre_collection w)) ∧
     Orchestrator.calls w' =
       Orchestrator.calls w
       ++ batch_call Orchestrator.via_cpu_processor "1k" sel
       ++ [Orchestrator.mkHashCall Orchestrator.via_cpu_processor "1k"
             stage2_candidates]) ∧
  (∀ (C G : Type) (CP : Base.HashProcessor C) (GP : Base.HashProcessor G)
     (m : Base.Machine) (self : Orchestrator.HashingOrchestrator)
     (stage3_candidates : list ref) (gpu_available : bool)
     (gpu_threshold : option Z) (processed_files : option (gset string))
     (w w' : Orchestrator.World) (sel cands : list ref),
     Orchestrator.hash_stage3_files CP GP m self stage3_candidates
       gpu_available gpu_threshold processed_files w = Ok (w', (sel, cands)) →
     let h := Orchestrator.store w in
     let threshold :=
       Preprocessing.effective_threshold gpu_available gpu_threshold in
     let to_hash :=
       filter (λ r, full_path (h r) ∉ default ∅ processed_files) sel in
     let on_gpu :=
       filter (λ r, assigned_method gpu_available threshold (file_size (h r))
                    = gpu) to_hash in
     let on_cpu :=
       filter (λ r, assigned_method gpu_available threshold (file_size (h r))
                    = cpu) to_hash in
     sel = filter (shares_pair h stage3_candidates)
             (files (Orchestrator.calibre_collection w)) ∧
     (∀ r, r ∈ on_gpu ++ on_cpu ↔ r ∈ to_hash) ∧
     Orchestrator.calls w' =
       Orchestrator.calls w
       ++ match Orchestrator.gpu_processor self with
           | Some _ => batch_call Orchestrator.via_gpu_processor "full" on_gpu
           | None => []
           end
       ++ batch_call Orchestrator.via_cpu_processor "full" on_cpu
       ++ gpu_call self "full"
            (filter (λ f, processing_method (h f) = gpu ∧
                          is_Some (Orchestrator.gpu_processor self))
               stage3_candidates)
       ++ batch_call Orchestrator.via_cpu_processor "full"
            (filter (λ f, processing_method (h f) = cpu ∨
                          Orchestrator.gpu_processor self = None)
               stage3_candidates)).
Proof.
  split.
  - intros C G CP m self stage2_candidates w w' sel cands Hrun.
    apply hash_stage2_files_spec in Hrun as (_ & Hsel & Hcalls & _).
    done.
  - intros C G CP GP m self stage3_candidates gpu_available gpu_threshold
      processed_files w w' sel cands Hrun h threshold to_hash on_gpu on_cpu.
    apply hash_stage3_files_spec in Hrun as (_ & Hsel & Hcalls & _).
    fold h threshold in Hsel, Hcalls.
    split; [done|]. split.
    + intros r. unfold on_gpu, on_cpu.
      rewrite elem_of_app, !list_elem_of_filter.
      pose proof (assigned_method_policy gpu_available threshold (h r))
        as [_ Hcpu].
      destruct (decide (assigned_method gpu_available threshold
                          (file_size (h r)) = gpu)); tauto.
    + rewrite Hcalls. unfold on_gpu, on_cpu, to_hash.
      rewrite !list_filter_filter.
      assert (∀ (P Q : ref → Prop) `{∀ x, Decision (P x)} `{∀ x, Decision (Q x)}
                l, filter (λ x, P x ∧ Q x) l = filter (λ x, Q x ∧ P x) l)
        as Hcomm by (intros; apply list_filter_iff; tauto).
      rewrite (Hcomm (λ r, assigned_method _ _ (file_size (h r)) = gpu)).
      rewrite (Hcomm (λ r, assigned_method _ _ (file_size (h r)) = cpu)).
      set (lib_gpu := filter _ sel).
      assert (gpu_call self "full" lib_gpu =
              match Orchestrator.gpu_processor self with
              | Some _ => batch_call Orchestrator.via_gpu_processor "full" lib_gpu
              | None => []
              end) as ->; [|done].
      unfold gpu_call.
      by destruct (Orchestrator.gpu_processor self).
Qed.

(** The same full stage on a first run, with nothing to skip, and the
    world it leaves: library record 3 is hashed on the CPU processor. *)
Definition example_stage3_fresh :=
  Orchestrator.hash_stage3_files (Base.cpu_is_processor toy_digest)
    (Base.gpu_is_processor toy_digest) example_machine example_orchestrator
    [0%nat] false None None example_world_1k.

Definition example_stage3_world : Orchestrator.World :=
  match example_stage3_fresh with
  | Ok (w', _) => w'
  | Raise _ => example_world_1k
  end.

Lemma orchestrator_library_hashing_witness :
  example_stage3_fresh = Ok (example_stage3_world, ([3%nat], [0%nat])) ∧
  let h := Orchestrator.store example_world_1k in
  let threshold := Preprocessing.effective_threshold false None in
  let to_hash :=
    filter (λ r, full_path (h r) ∉ default (∅ : gset string) None) [3%nat] in
  let on_gpu :=
    filter (λ r, assigned_method false threshold (file_size (h r)) = gpu)
      to_hash in
  let on_cpu :=
    filter (λ r, assigned_method false threshold (file_size (h r)) = cpu)
      to_hash in
  [3%nat] = filter (shares_pair h [0%nat])
              (files (Orchestrator.calibre_collection example_world_1k)) ∧
  (∀ r, r ∈ on_gpu ++ on_cpu ↔ r ∈ to_hash) ∧
  Orchestrator.calls example_stage3_world =
    Orchestrator.calls example_world_1k
    ++ match Orchestrator.gpu_processor example_orchestrator with
        | Some _ => batch_call Orchestrator.via_gpu_processor "full" on_gpu
        | None => []
        end
    ++ batch_call Orchestrator.via_cpu_processor "full" on_cpu
    ++ gpu_call example_orchestrator "full"
         (filter (λ f, processing_method (h f) = gpu ∧
                       is_Some (Orchestrator.gpu_processor example_orchestrator))
            [0%nat])
    ++ batch_call Orchestrator.via_cpu_processor "full"
         (filter (λ f, processing_method (h f) = cpu ∨
                       Orchestrator.gpu_processor example_orchestrator = None)
            [0%nat]).
Proof.
  assert (example_stage3_fresh = Ok (example_stage3_world, ([3%nat], [0%nat])))
    as H2 by (vm_compute; reflexivity).
  split; [exact H2|].
  exact (proj2 orchestrator_library_hashing _ _ _ _ _ _ _ _ _ _ _ _ _ _ H2).
Defined.

(** On that run the library record is sent to the CPU processor, in a batch
    of its own, before the candidate. *)
Example orchestrator_library_hashing_example :
  Orchestrator.calls example_stage3_world =
    [Orchestrator.mkHashCall Orchestrator.via_cpu_processor "full" [3%nat];
     Orchestrator.mkHashCall Orchestrator.via_cpu_processor "full" [0%nat]].
Proof. vm_compute. done. Qed.

(** The full stage of an orchestrator without GPU processor that is told
    the GPU is available, with a threshold of 0: library record 3 is
    selected, not skipped and assigned to the GPU, and no [hash_batch] call
    receives it, while the datalake candidate falls back to the CPU
    processor. *)
Example library_gpu_batch_not_hashed :
  match Orchestrator.hash_stage3_files (Base.cpu_is_processor toy_digest)
          (Base.gpu_is_processor toy_digest) example_machine
          example_orchestrator [0%nat] true (Some 0) None example_world_1k with
  | Ok (w', (sel, _)) =>
      sel = [3%nat] ∧
      processing_method (Orchestrator.store w' 3%nat) = gpu ∧
      full_hash (Orchestrator.store w' 3%nat) = None ∧
      Orchestrator.calls w' =
        [Orchestrator.mkHashCall Orchestrator.via_cpu_processor "full" [0%nat]]
  | Raise _ => False
  end.
Proof. vm_compute. done. Qed.

(** ** The hash processors return at the two stages *)

Lemma cpu_hash_batch_returns (sha256 : bytes → bytes) (num_workers : Z)
    (as_completed : nat → list nat) (fs : filesystem) (h : heap)
    (files : list ref) (stage : string) :
  0 < num_workers →
  stage = "1k"%string ∨ stage = "full"%string →
  ∃ results,
    Cpu.hash_batch sha256 num_workers as_completed fs h files stage
      = Ok results.
Proof.
  intros Hw [-> | ->]; unfold Cpu.hash_batch; simpl;
    rewrite decide_False by lia; by eexists.
Qed.

Lemma gpu_hash_batch_returns (sha256 : bytes → bytes)
    (p : Gpu.GPUHashProcessor) (as_completed : nat → list nat)
    (fs : filesystem) (h : heap) (files : list ref) (stage : string) :
  Gpu.batch_size p ≠ 0 →
  stage = "1k"%string ∨ stage = "full"%string →
  ∃ results, Gpu.hash_batch sha256 p as_completed fs h files stage = Ok results.
Proof.
  intros Hbs [-> | ->]; unfold Gpu.hash_batch; simpl.
  - apply cpu_hash_batch_returns; [lia|by left].
  - destruct (Gpu._gpu_available p); simpl;
      [|apply cpu_hash_batch_returns; [lia|by right]].
    rewrite decide_False by done.
    destruct (decide (Gpu.batch_size p < 0)); by eexists.
Qed.

Section orchestrator_returns.
Context {C G : Type} (CP : Base.HashProcessor C) (GP : Base.HashProcessor G).
Variable m : Base.Machine.
Variable self : @Orchestrator.HashingOrchestrator C G.

(** A processor whose [hash_batch] returns at the given stage. *)
Definition returns_at {P : Type} (HP : Base.HashProcessor P) (p : P)
    (stage : string) : Prop :=
  ∀ h files, ∃ results, Base.hash_batch p m h files stage = Ok results.

Lemma prefix_on_cpu_returns side batch w :
  returns_at CP (Orchestrator.cpu_processor self) "1k" →
  ∃ w', Orchestrator.prefix_on_cpu CP m self side batch w = Ok w'.
Proof.
  intros Hcpu. unfold Orchestrator.prefix_on_cpu, Orchestrator.call_cpu.
  destruct (Hcpu (Orchestrator.store w) batch) as [hs ->]. by eexists.
Qed.

Lemma hash_stage2_files_returns stage2_candidates w :
  returns_at CP (Orchestrator.cpu_processor self) "1k" →
  ∃ w' sel,
    Orchestrator.hash_stage2_files CP m self stage2_candidates w
      = Ok (w', (sel, stage2_candidates)).
Proof.
  intros Hcpu. unfold Orchestrator.hash_stage2_files.
  destruct (Orchestrator.candidate_sizes _ _ _) as [sizes h1].
  destruct (Orchestrator.select_by_size _ _ _ _) as [sel h2].
  assert (∃ w3, match sel with
                | [] => Ok (Orchestrator.with_store w h2)
                | _ :: _ => Orchestrator.prefix_on_cpu CP m self true sel
                              (Orchestrator.with_store w h2)
                end = Ok w3) as [w3 ->].
  { destruct sel; [by eexists|]. by apply prefix_on_cpu_returns. }
  cbn [mbind result_bind].
  destruct (prefix_on_cpu_returns false stage2_candidates w3 Hcpu) as [w4 ->].
  by eexists _, _.
Qed.

Lemma full_on_cpu_returns side batch w :
  returns_at CP (Orchestrator.cpu_processor self) "full" →
  ∃ w', Orchestrator.full_on_cpu CP m self side batch w = Ok w'.
Proof.
  intros Hcpu. unfold Orchestrator.full_on_cpu, Orchestrator.call_cpu.
  destruct batch as [|b batch]; [by eexists|].
  destruct (Hcpu (Orchestrator.store w) (b :: batch)) as [hs ->]. by eexists.
Qed.

Lemma full_on_gpu_returns side batch w :
  (∀ g, Orchestrator.gpu_processor self = Some g → returns_at GP g "full") →
  ∃ w', Orchestrator.full_on_gpu GP m self side batch w = Ok w'.
Proof.
  intros Hgpu. unfold Orchestrator.full_on_gpu, Orchestrator.call_gpu.
  destruct batch as [|b batch]; [by eexists|].
  destruct (Orchestrator.gpu_processor self) as [g|]; [|by eexists].
  destruct (Hgpu g eq_refl (Orchestrator.store w) (b :: batch)) as [hs ->].
  by eexists.
Qed.

Lemma hash_stage3_files_returns stage3_candidates gpu_available gpu_threshold
    processed_files w :
  returns_at CP (Orchestrator.cpu_processor self) "full" →
  (∀ g, Orchestrator.gpu_processor self = Some g → returns_at GP g "full") →
  ∃ w' sel,
    Orchestrator.hash_stage3_files CP GP m self stage3_candidates
      gpu_available gpu_threshold processed_files w
      = Ok (w', (sel, stage3_candidates)).
Proof.
  intros Hcpu Hgpu. unfold Orchestrator.hash_stage3_files.
  destruct (Orchestrator.candidate_size_1k _ _ _) as [keys h1].
  destruct (Orchestrator.select_by_size_1k _ _ _ _) as [sel h2].
  destruct (Preprocessing.preprocess_files _ _ _ _ _) as [h3 cat].
  destruct (full_on_gpu_returns true (Preprocessing.cat_gpu cat)
              (Orchestrator.with_store w h3) Hgpu) as [w4 ->].
  cbn [mbind result_bind].
  destruct (full_on_cpu_returns true (Preprocessing.cat_cpu cat) w4 Hcpu)
    as [w5 ->].
  cbn [mbind result_bind].
  match goal with
  | |- context [Orchestrator.full_on_gpu GP m self false ?b w5] =>
      destruct (full_on_gpu_returns false b w5 Hgpu) as [w6 ->]
  end.
  cbn [mbind result_bind].
  match goal with
  | |- context [Orchestrator.full_on_cpu CP m self false ?b w6] =>
      destruct (full_on_cpu_returns false b w6 Hcpu) as [w7 ->]
  end.
  by eexists _, _.
Qed.

End orchestrator_returns.

(** ** Deduplication within the datalake *)

(** The identity a record is deduplicated under: the most specific one it
    carries. *)
Inductive DedupKey :=
| KeyFull (fh : bytes)
| KeyPrefix (size : Z) (k : bytes)
| KeySize (size : Z).

#[local] Instance DedupKey_eq_dec : EqDecision DedupKey.
Proof. solve_decision. Defined.

(** Full hash if populated, else (size, prefix hash) if the prefix hash is
    populated, else the size alone. *)
Definition dedup_key (f : EbookFile) : DedupKey :=
  match populated (full_hash f) with
  | Some fh => KeyFull fh
  | None =>
      match populated (first_1k_hash f) with
      | Some k => KeyPrefix (size_of f) k
      | None => KeySize (size_of f)
      end
  end.

(** The method written to the duplicates report for a key. *)
Definition key_method (k : DedupKey) : string :=
  match k with
  | KeyFull _ => "full_hash"
  | KeyPrefix _ _ => "size+1k_hash"
  | KeySize _ => "size_only"
  end.

(** The first record of a list that has the given key. *)
Fixpoint first_with_key (h : heap) (k : DedupKey) (l : list ref) : option ref :=
  match l with
  | [] => None
  | r :: l' =>
      if decide (dedup_key (h r) = k) then Some r else first_with_key h k l'
  end.

(** The record the three [seen_*] dictionaries hold for a key. *)
Definition seen (s : Main.Dedup) (k : DedupKey) : option ref :=
  match k with
  | KeyFull fh => Main.seen_hashes s !! fh
  | KeyPrefix size p => Main.seen_size_1k s !! (size, p)
  | KeySize size => Main.seen_sizes s !! size
  end.

Lemma first_with_key_app h k l1 l2 :
  first_with_key h k (l1 ++ l2) =
  match first_with_key h k l1 with
  | Some r => Some r
  | None => first_with_key h k l2
  end.
Proof.
  induction l1 as [|r l1 IH]; simpl; [done|].
  by destruct (decide (dedup_key (h r) = k)).
Qed.

Lemma first_with_key_Some h k l r :
  first_with_key h k l = Some r → r ∈ l ∧ dedup_key (h r) = k.
Proof.
  induction l as [|x l IH]; simpl; [done|].
  destruct (decide (dedup_key (h x) = k)).
  - intros [= <-]. split; [apply list_elem_of_here|done].
  - intros [? ?]%IH. split; [by apply list_elem_of_further|done].
Qed.

Lemma first_with_key_None h k l :
  first_with_key h k l = None → ∀ r, r ∈ l → dedup_key (h r) ≠ k.
Proof.
  induction l as [|x l IH]; simpl; [by intros _ r []%not_elem_of_nil|].
  destruct (decide (dedup_key (h x) = k)); [done|].
  intros Hn r [->|?]%elem_of_cons; [done|]. by apply IH.
Qed.

Lemma first_with_key_elem h l r :
  r ∈ l → is_Some (first_with_key h (dedup_key (h r)) l).
Proof.
  intros Hr.
  destruct (first_with_key h (dedup_key (h r)) l) eqn:E; [by eexists|].
  by eapply first_with_key_None in E.
Qed.

Lemma dedup_key_cache_only h h' r :
  cache_only h h' →
  populated (full_hash (h' r)) = populated (full_hash (h r)) ∧
  populated (first_1k_hash (h' r)) = populated (first_1k_hash (h r)) ∧
  size_of (h' r) = size_of (h r) ∧
  dedup_key (h' r) = dedup_key (h r).
Proof.
  intros Hco. destruct (Hco r) as (_ & _ & _ & Hs & Hk & Hf & _).
  unfold dedup_key. rewrite Hs, Hk, Hf; by try intros [].
Qed.

(** The rows of the report: one for each record that is not the first
    with its key, naming that first record and the method of the key. *)
Definition dup_row (h : heap) (l : list ref) (r : ref) : Main.DupRow :=
  Main.report_row h r
    (default r (first_with_key h (dedup_key (h r)) l))
    (key_method (dedup_key (h r))).

(** The state of the loop after the records [done], started in [h]. *)
Definition dedup_inv (h : heap) (done : list ref) (s : Main.Dedup) : Prop :=
  cache_only h (Main.dedup_store s) ∧
  (∀ k, seen s k = first_with_key h k done) ∧
  Main.deduplicated_files s =
    filter (λ r, first_with_key h (dedup_key (h r)) done = Some r) done ∧
  Main.duplicates_report s =
    dup_row h done <$>
      filter (λ r, first_with_key h (dedup_key (h r)) done ≠ Some r) done.

Lemma report_row_stable h h' r r0 how :
  cache_only h h' → Main.report_row h' r r0 how = Main.report_row h r r0 how.
Proof.
  intros Hco. unfold Main.report_row.
  destruct (Hco r) as (-> & -> & -> & _).
  by destruct (Hco r0) as (-> & _).
Qed.

(** Two tests that agree on the elements of a list select the same
    elements. *)
Lemma filter_ext_elem {A} (P Q : A → Prop) `{∀ x, Decision (P x)}
    `{∀ x, Decision (Q x)} (l : list A) :
  (∀ x, x ∈ l → (P x ↔ Q x)) → filter P l = filter Q l.
Proof.
  induction l as [|a l IH]; intros Hext; [done|].
  assert (filter P l = filter Q l) as Hl.
  { apply IH. intros x Hx. apply Hext. by apply list_elem_of_further. }
  destruct (decide (P a)) as [HP|HP].
  - rewrite !filter_cons_True; [by rewrite Hl| |done].
    by apply (Hext a (list_elem_of_here _ _)).
  - rewrite !filter_cons_False; [done| |done].
    intros HQ. apply HP. by apply (Hext a (list_elem_of_here _ _)).
Qed.

(** Adding a record at the end does not change who is first for the keys
    of the records before it. *)
Lemma dedup_filters_snoc h done r :
  r ∉ done →
  filter (λ x, first_with_key h (dedup_key (h x)) (done ++ [r]) = Some x)
    (done ++ [r]) =
  filter (λ x, first_with_key h (dedup_key (h x)) done = Some x) done ++
  (if first_with_key h (dedup_key (h r)) done is Some _ then [] else [r]) ∧
  dup_row h (done ++ [r]) <$>
    filter (λ x, first_with_key h (dedup_key (h x)) (done ++ [r]) ≠ Some x)
      (done ++ [r]) =
  (dup_row h done <$>
     filter (λ x, first_with_key h (dedup_key (h x)) done ≠ Some x) done) ++
  (if first_with_key h (dedup_key (h r)) done is Some r0
   then [Main.report_row h r r0 (key_method (dedup_key (h r)))] else []).
Proof.
  intros Hfresh.
  assert (∀ x, x ∈ done →
            first_with_key h (dedup_key (h x)) (done ++ [r]) =
            first_with_key h (dedup_key (h x)) done) as Hold.
  { intros x Hx. rewrite first_with_key_app.
    by destruct (first_with_key_elem h done x Hx) as [r0 ->]. }
  assert (first_with_key h (dedup_key (h r)) (done ++ [r]) =
          match first_with_key h (dedup_key (h r)) done with
          | Some r0 => Some r0
          | None => Some r
          end) as Hnew.
  { rewrite first_with_key_app. simpl. by rewrite decide_True. }
  rewrite !list.filter_app, fmap_app. split.
  - f_equal.
    + apply filter_ext_elem. intros x Hx. by rewrite Hold.
    + destruct (first_with_key h (dedup_key (h r)) done) as [r0|] eqn:Hr0.
      * rewrite filter_cons_False; [done|]. rewrite Hnew. intros [= ->].
        apply first_with_key_Some in Hr0 as [? _]. done.
      * rewrite filter_cons_True; [done|]. by rewrite Hnew.
  - f_equal.
    + rewrite (filter_ext_elem _
        (λ x, first_with_key h (dedup_key (h x)) done ≠ Some x)).
      * apply list_fmap_ext. intros i x Hx%list_elem_of_lookup_2.
        apply list_elem_of_filter in Hx as [_ Hx].
        unfold dup_row. by rewrite Hold.
      * intros x Hx. by rewrite Hold.
    + destruct (first_with_key h (dedup_key (h r)) done) as [r0|] eqn:Hr0.
      * rewrite filter_cons_True.
        -- simpl. unfold dup_row. by rewrite Hnew.
        -- rewrite Hnew. intros [= ->].
           apply first_with_key_Some in Hr0 as [? _]. done.
      * rewrite filter_cons_False; [done|]. rewrite Hnew. by intros [].
Qed.

Lemma seen_after_insert h done r (old new : DedupKey → option ref) :
  (∀ k, old k = first_with_key h k done) →
  old (dedup_key (h r)) = None →
  (∀ k, new k = if decide (k = dedup_key (h r)) then Some r else old k) →
  ∀ k, new k = first_with_key h k (done ++ [r]).
Proof.
  intros Hold Hnone Hnew k. rewrite Hnew, first_with_key_app. simpl.
  destruct (decide (k = dedup_key (h r))) as [->|Hne].
  - rewrite <- Hold, Hnone. by rewrite decide_True.
  - rewrite Hold. destruct (first_with_key h k done); [done|].
    by rewrite decide_False.
Qed.

Lemma seen_after_duplicate h done r r0 (old : DedupKey → option ref) :
  (∀ k, old k = first_with_key h k done) →
  old (dedup_key (h r)) = Some r0 →
  ∀ k, old k = first_with_key h k (done ++ [r]).
Proof.
  intros Hold Hsome k. rewrite first_with_key_app, <- Hold. simpl.
  destruct (old k) eqn:Hk; [done|].
  rewrite decide_False; [done|]. intros <-. congruence.
Qed.

(** One round of the loop keeps the invariant. *)
Lemma dedup_step_inv h done s r :
  dedup_inv h done s → r ∉ done →
  dedup_inv h (done ++ [r]) (Main.dedup_step s r).
Proof.
  intros (Hco & Hseen & Hwritten & Hreport) Hfresh.
  destruct (dedup_key_cache_only h (Main.dedup_store s) r Hco)
    as (Hfull & Hprefix & Hsize & _).
  destruct (dedup_filters_snoc h done r Hfresh) as [Hw Hr].
  pose proof (get_size_hash_fst (Main.dedup_store s) r) as Hsz.
  pose proof (get_size_hash_cache_only (Main.dedup_store s) r) as Hco1.
  assert (cache_only h (get_size_hash (Main.dedup_store s) r).2) as Hco2
    by (by eapply evolves_trans).
  unfold Main.dedup_step. rewrite Hfull, Hprefix.
  destruct (populated (full_hash (h r))) as [fh|] eqn:Efull.
  - assert (dedup_key (h r) = KeyFull fh) as Hkey
      by (unfold dedup_key; by rewrite Efull).
    pose proof (Hseen (KeyFull fh)) as Hs. simpl in Hs.
    rewrite Hkey in Hw, Hr.
    destruct (Main.seen_hashes s !! fh) as [original|] eqn:Elook;
      rewrite <- Hs in Hw, Hr; (split; [done|split; [|split]]); simpl.
    + eapply seen_after_duplicate; [exact Hseen|]. by rewrite Hkey.
    + by rewrite Hwritten, Hw, app_nil_r.
    + by rewrite Hreport, Hr, (report_row_stable h _ _ _ _ Hco).
    + eapply (seen_after_insert h done r (seen s)); [done|by rewrite Hkey|].
      intros k. rewrite Hkey. destruct k as [fh'| |]; simpl;
        try done; try (by rewrite decide_False).
      destruct (decide (fh' = fh)) as [->|Hne].
      * rewrite decide_True by done. apply lookup_insert_eq.
      * rewrite decide_False by congruence. by apply lookup_insert_ne.
    + by rewrite Hwritten, Hw.
    + by rewrite Hreport, Hr, app_nil_r.
  - destruct (get_size_hash (Main.dedup_store s) r) as [sz h1]; simpl in *.
    subst sz. rewrite Hsize.
    destruct (populated (first_1k_hash (h r))) as [p|] eqn:Eprefix.
    + assert (dedup_key (h r) = KeyPrefix (size_of (h r)) p) as Hkey
        by (unfold dedup_key; by rewrite Efull, Eprefix).
      pose proof (Hseen (KeyPrefix (size_of (h r)) p)) as Hs. simpl in Hs.
      rewrite Hkey in Hw, Hr.
      destruct (Main.seen_size_1k s !! (size_of (h r), p))
        as [original|] eqn:Elook;
        rewrite <- Hs in Hw, Hr; (split; [done|split; [|split]]); simpl.
      * eapply seen_after_duplicate; [exact Hseen|]. by rewrite Hkey.
      * by rewrite Hwritten, Hw, app_nil_r.
      * by rewrite Hreport, Hr, (report_row_stable h _ _ _ _ Hco2).
      * eapply (seen_after_insert h done r (seen s)); [done|by rewrite Hkey|].
        intros k. rewrite Hkey. destruct k as [|sz' p'|]; simpl;
          try done; try (by rewrite decide_False).
        destruct (decide ((sz', p') = (size_of (h r), p))) as [[= -> ->]|Hne].
        -- rewrite decide_True by done. apply lookup_insert_eq.
        -- rewrite decide_False by congruence. by apply lookup_insert_ne.
      * by rewrite Hwritten, Hw.
      * by rewrite Hreport, Hr, app_nil_r.
    + assert (dedup_key (h r) = KeySize (size_of (h r))) as Hkey
        by (unfold dedup_key; by rewrite Efull, Eprefix).
      pose proof (Hseen (KeySize (size_of (h r)))) as Hs. simpl in Hs.
      rewrite Hkey in Hw, Hr.
      destruct (Main.seen_sizes s !! size_of (h r)) as [original|] eqn:Elook;
        rewrite <- Hs in Hw, Hr; (split; [done|split; [|split]]); simpl.
      * eapply seen_after_duplicate; [exact Hseen|]. by rewrite Hkey.
      * by rewrite Hwritten, Hw, app_nil_r.
      * by rewrite Hreport, Hr, (report_row_stable h _ _ _ _ Hco2).
      * eapply (seen_after_insert h done r (seen s)); [done|by rewrite Hkey|].
        intros k. rewrite Hkey. destruct k as [| |sz']; simpl;
          try done; try (by rewrite decide_False).
        destruct (decide (sz' = size_of (h r))) as [->|Hne].
        -- rewrite decide_True by done. apply lookup_insert_eq.
        -- rewrite decide_False by congruence. by apply lookup_insert_ne.
      * by rewrite Hwritten, Hw.
      * by rewrite Hreport, Hr, app_nil_r.
Qed.

Lemma dedup_fold_inv h todo : ∀ done s,
  NoDup (done ++ todo) → dedup_inv h done s →
  dedup_inv h (done ++ todo) (fold_left Main.dedup_step todo s).
Proof.
  induction todo as [|r todo IH]; intros done s Hnd Hinv; simpl.
  - by rewrite app_nil_r.
  - replace (done ++ r :: todo) with ((done ++ [r]) ++ todo) in *
      by (by rewrite <- app_assoc).
    apply IH; [done|]. apply dedup_step_inv; [done|].
    apply list.NoDup_app in Hnd as [Hnd _].
    apply list.NoDup_app in Hnd as (_ & Hd & _).
    intros Hin. by apply (Hd r Hin), list_elem_of_here.
Qed.

(** What the deduplication pass computes on a list without repetition:
    the records that are the first with their key, in order, and one row
    for each of the others. *)
Lemma deduplicate_spec h l :
  NoDup l →
  cache_only h (Main.dedup_store (Main.deduplicate h l)) ∧
  Main.deduplicated_files (Main.deduplicate h l) =
    filter (λ r, first_with_key h (dedup_key (h r)) l = Some r) l ∧
  Main.duplicates_report (Main.deduplicate h l) =
    dup_row h l <$>
      filter (λ r, first_with_key h (dedup_key (h r)) l ≠ Some r) l.
Proof.
  intros Hnd. unfold Main.deduplicate.
  destruct (dedup_fold_inv h l [] (Main.mkDedup h ∅ ∅ ∅ [] [])) as (? & _ & ? & ?);
    [done| |done].
  split; [apply evolves_refl|]. split; [|done].
  intros [fh|sz p|sz]; simpl; apply lookup_empty.
Qed.

(** Closes [NoDup l] for a list of distinct literals. *)
Ltac solve_NoDup :=
  repeat (apply NoDup_cons_2;
          [let H := fresh in
           intros H;
           repeat (apply elem_of_cons in H as [H|H]; [discriminate H|]);
           by apply not_elem_of_nil in H|]);
  apply NoDup_nil_2.

(** C4, amended.  Over a merged unique list that holds each record once,
    the deduplication pass keys every record by the most specific identity
    it carries (full hash if populated, else size and prefix hash if the
    prefix hash is populated, else size alone).  The final output holds
    exactly the records that are the first of the list with their key;
    every other record is dropped and appears in the duplicates report with
    the path of that first record and the method of the key (full_hash,
    size+1k_hash or size_only).  In particular, of two records that both
    carry the same full hash at most one is in the final output, and each
    of the two that is not the first with that hash is reported with method
    full_hash.  The report holds nothing else: each of its rows is the row
    of a dropped record, and its method is full_hash exactly when that
    record carries a full hash, so that a record without full hash is
    never reported with method full_hash. *)
Theorem datalake_dedup_first_kept (h : heap) (unique_files : list ref) :
  NoDup unique_files →
  let d := Main.deduplicate h unique_files in
  (∀ r, r ∈ Main.deduplicated_files d ↔
        r ∈ unique_files ∧
        first_with_key h (dedup_key (h r)) unique_files = Some r) ∧
  (∀ r, r ∈ unique_files →
     ∃ r0, first_with_key h (dedup_key (h r)) unique_files = Some r0 ∧
           r0 ∈ Main.deduplicated_files d ∧
           (r ≠ r0 →
              (r ∉ Main.deduplicated_files d) ∧
              Main.report_row h r r0 (key_method (dedup_key (h r)))
                ∈ Main.duplicates_report d)) ∧
  (∀ r1 r2 fh, r1 ∈ unique_files → r2 ∈ unique_files → r1 ≠ r2 →
     populated (full_hash (h r1)) = Some fh →
     populated (full_hash (h r2)) = Some fh →
     ¬ (r1 ∈ Main.deduplicated_files d ∧ r2 ∈ Main.deduplicated_files d) ∧
     ∃ r0, first_with_key h (KeyFull fh) unique_files = Some r0 ∧
           r0 ∈ Main.deduplicated_files d ∧
           ∀ r, r = r1 ∨ r = r2 → r ≠ r0 →
                (r ∉ Main.deduplicated_files d) ∧
                Main.report_row h r r0 "full_hash" ∈ Main.duplicates_report d) ∧
  (∀ row, row ∈ Main.duplicates_report d →
     ∃ r r0, r ∈ unique_files ∧ (r ∉ Main.deduplicated_files d) ∧
             r0 ∈ Main.deduplicated_files d ∧
             first_with_key h (dedup_key (h r)) unique_files = Some r0 ∧
             row = Main.report_row h r r0 (key_method (dedup_key (h r))) ∧
             (Main.method row = "full_hash"%string ↔
              ∃ fh, populated (full_hash (h r)) = Some fh)).
Proof.
  intros Hnd d.
  destruct (deduplicate_spec h unique_files Hnd) as (_ & Hw & Hr).
  fold d in Hw, Hr.
  assert (∀ r, r ∈ Main.deduplicated_files d ↔
               r ∈ unique_files ∧
               first_with_key h (dedup_key (h r)) unique_files = Some r) as Hkept.
  { intros r. rewrite Hw, list_elem_of_filter. tauto. }
  assert (∀ r, r ∈ unique_files →
     ∃ r0, first_with_key h (dedup_key (h r)) unique_files = Some r0 ∧
           r0 ∈ Main.deduplicated_files d ∧
           (r ≠ r0 →
              (r ∉ Main.deduplicated_files d) ∧
              Main.report_row h r r0 (key_method (dedup_key (h r)))
                ∈ Main.duplicates_report d)) as Hall.
  { intros r Hin.
    destruct (first_with_key_elem h unique_files r Hin) as [r0 Hr0].
    exists r0. split; [done|].
    destruct (first_with_key_Some _ _ _ _ Hr0) as [Hin0 Hkey0].
    split; [apply Hkept; split; [done|by rewrite Hkey0]|].
    intros Hne. split.
    - rewrite Hkept. intros [_ Hfirst]. congruence.
    - rewrite Hr. apply list_elem_of_fmap.
      exists r. split.
      + unfold dup_row. by rewrite Hr0.
      + apply list_elem_of_filter. split; [congruence|done]. }
  assert (∀ row, row ∈ Main.duplicates_report d →
     ∃ r r0, r ∈ unique_files ∧ (r ∉ Main.deduplicated_files d) ∧
             r0 ∈ Main.deduplicated_files d ∧
             first_with_key h (dedup_key (h r)) unique_files = Some r0 ∧
             row = Main.report_row h r r0 (key_method (dedup_key (h r))) ∧
             (Main.method row = "full_hash"%string ↔
              ∃ fh, populated (full_hash (h r)) = Some fh)) as Hrows.
  { intros row. rewrite Hr.
    intros (r & -> & [Hnot Hin]%list_elem_of_filter)%list_elem_of_fmap.
    destruct (Hall r Hin) as (r0 & Hr0 & Hin0 & Hdrop).
    assert (r ≠ r0) as Hne by congruence.
    exists r, r0. split; [done|]. split; [by apply Hdrop|].
    split; [done|]. split; [done|]. split.
    - unfold dup_row. by rewrite Hr0.
    - unfold dup_row, dedup_key. simpl.
      destruct (populated (full_hash (h r))) as [fh|]; simpl.
      + split; [by eexists|done].
      + split; [|by intros [? ?]].
        by destruct (populated (first_1k_hash (h r))). }
  split; [done|]. split; [done|]. split; [|done].
  intros r1 r2 fh Hin1 Hin2 Hne H1 H2.
  assert (dedup_key (h r1) = KeyFull fh) as Hk1
    by (unfold dedup_key; by rewrite H1).
  assert (dedup_key (h r2) = KeyFull fh) as Hk2
    by (unfold dedup_key; by rewrite H2).
  split.
  - rewrite !Hkept, Hk1, Hk2. intros [[_ Ha] [_ Hb]]. congruence.
  - destruct (Hall r1 Hin1) as (r0 & Hr0 & Hin0 & Hdrop1).
    destruct (Hall r2 Hin2) as (r0' & Hr0' & _ & Hdrop2).
    rewrite Hk1 in Hr0, Hdrop1. rewrite Hk2 in Hr0', Hdrop2.
    assert (r0' = r0) as -> by congruence.
    exists r0. split; [done|]. split; [done|].
    intros r [-> | ->] Hner; [by apply Hdrop1|by apply Hdrop2].
Qed.

Lemma datalake_dedup_first_kept_witness :
  NoDup [0%nat; 2%nat; 3%nat] ∧
  let h := example_heap_full in
  let unique_files := [0%nat; 2%nat; 3%nat] in
  let d := Main.deduplicate h unique_files in
  (∀ r, r ∈ Main.deduplicated_files d ↔
        r ∈ unique_files ∧
        first_with_key h (dedup_key (h r)) unique_files = Some r) ∧
  (∀ r, r ∈ unique_files →
     ∃ r0, first_with_key h (dedup_key (h r)) unique_files = Some r0 ∧
           r0 ∈ Main.deduplicated_files d ∧
           (r ≠ r0 →
              (r ∉ Main.deduplicated_files d) ∧
              Main.report_row h r r0 (key_method (dedup_key (h r)))
                ∈ Main.duplicates_report d)) ∧
  (∀ r1 r2 fh, r1 ∈ unique_files → r2 ∈ unique_files → r1 ≠ r2 →
     populated (full_hash (h r1)) = Some fh →
     populated (full_hash (h r2)) = Some fh →
     ¬ (r1 ∈ Main.deduplicated_files d ∧ r2 ∈ Main.deduplicated_files d) ∧
     ∃ r0, first_with_key h (KeyFull fh) unique_files = Some r0 ∧
           r0 ∈ Main.deduplicated_files d ∧
           ∀ r, r = r1 ∨ r = r2 → r ≠ r0 →
                (r ∉ Main.deduplicated_files d) ∧
                Main.report_row h r r0 "full_hash" ∈ Main.duplicates_report d) ∧
  (∀ row, row ∈ Main.duplicates_report d →
     ∃ r r0, r ∈ unique_files ∧ (r ∉ Main.deduplicated_files d) ∧
             r0 ∈ Main.deduplicated_files d ∧
             first_with_key h (dedup_key (h r)) unique_files = Some r0 ∧
             row = Main.report_row h r r0 (key_method (dedup_key (h r))) ∧
             (Main.method row = "full_hash"%string ↔
              ∃ fh, populated (full_hash (h r)) = Some fh)).
Proof.
  assert (NoDup [0%nat; 2%nat; 3%nat]) as H by solve_NoDup.
  split; [exact H|].
  exact (datalake_dedup_first_kept example_heap_full [0%nat; 2%nat; 3%nat] H).
Defined.

(** The records 0 and 3 of the example carry the same full hash: record 0
    is kept, record 3 is reported as its duplicate by full hash. *)
Example deduplicate_example :
  Main.deduplicated_files (Main.deduplicate example_heap_full [0%nat; 2%nat; 3%nat])
    = [0%nat; 2%nat] ∧
  Main.duplicates_report (Main.deduplicate example_heap_full [0%nat; 2%nat; 3%nat])
    = [Main.mkDupRow "/lib/x.epub" "/lake/a.epub" "full_hash" 3 "x.epub"].
Proof. vm_compute. done. Qed.

(** Two copies of one file in the datalake, and a library file of another
    size and content. *)
Definition twins_fs : filesystem := λ path,
  if decide (path = "/lake/a.epub") then Regular [x01; x02; x03]%byte None
  else if decide (path = "/lake/copy/a.epub")
       then Regular [x01; x02; x03]%byte None
  else if decide (path = "/lib/x.epub")
       then Regular [x07; x08; x09; x0a; x0b]%byte None
  else Missing.

Definition twins_lake : list Main.FileInfo :=
  [Main.mkFileInfo "/lake/a.epub" "a.epub" "a.epub" 3 ".epub";
   Main.mkFileInfo "/lake/copy/a.epub" "copy/a.epub" "a.epub" 3 ".epub"].

Definition twins_library : list Main.FileInfo :=
  [Main.mkFileInfo "/lib/x.epub" "x.epub" "x.epub" 5 ".epub"].

(** The analysis of the twins, on the CPU. *)
Definition twins_run : result Main.Outcome :=
  let '(h0, ebooks_files, calibre_files) :=
    Main.discover twins_lake twins_library in
  Main.run_analyze toy_digest (Base.mkMachine twins_fs (seq 0)) example_device
    false 0 10 ∅ h0 ebooks_files calibre_files.

(** C4, as stated, fails in its last part: the two datalake files have the
    same bytes and the library holds neither, yet the second is reported
    with method size_only, not full_hash: both were found unique by size,
    so no hash was ever computed for them. *)
Lemma identical_files_reported_by_size_counterexample :
  twins_fs "/lake/a.epub" = twins_fs "/lake/copy/a.epub" ∧
  twins_fs "/lib/x.epub" ≠ twins_fs "/lake/a.epub" ∧
  match twins_run with
  | Ok o =>
      Main.written o = [0%nat] ∧
      Main.reported o =
        [Main.mkDupRow "/lake/copy/a.epub" "/lake/a.epub" "size_only" 3 "a.epub"] ∧
      ¬ ∃ row, row ∈ Main.reported o ∧ Main.method row = "full_hash"%string
  | Raise _ => False
  end.
Proof.
  split; [done|]. split; [done|].
  vm_compute. split; [done|]. split; [done|].
  intros (row & Hrow & Hm). apply list_elem_of_singleton in Hrow.
  subst row. discriminate.
Qed.

(** ** The analysis run *)

Lemma add_files_spec todo : ∀ c h c' h',
  Main.add_files c h todo = (c', h') →
  files c' = files c ++ todo ∧
  cache_only h h' ∧
  ∀ z, z ∈ dom (by_size c') ↔
       z ∈ dom (by_size c) ∨ ∃ r, r ∈ todo ∧ size_of (h r) = z.
Proof.
  induction todo as [|file rest IH]; intros c h c' h' Hrun;
    cbn [Main.add_files] in Hrun.
  - injection Hrun as <- <-. rewrite app_nil_r.
    split; [done|]. split; [apply evolves_refl|].
    intros z. split; [by left|]. by intros [?|(r & []%not_elem_of_nil & _)].
  - unfold add_file in Hrun.
    pose proof (get_size_hash_fst h file) as Hsz.
    pose proof (get_size_hash_cache_only h file) as Hco.
    destruct (get_size_hash h file) as [sz h1]; simpl in *. subst sz.
    apply IH in Hrun as (Hfiles & Hco' & Hdom). simpl in Hfiles, Hdom.
    split; [by rewrite Hfiles, <- app_assoc|].
    split; [by eapply evolves_trans|].
    intros z. rewrite Hdom. unfold dd_append.
    rewrite dom_insert, elem_of_union, elem_of_singleton. split.
    + intros [[->|?]|(r & Hr & <-)].
      * right. exists file. split; [apply list_elem_of_here|done].
      * by left.
      * right. exists r. split; [by apply list_elem_of_further|].
        by destruct (Hco r) as (_ & _ & _ & -> & _).
    + intros [?|(r & [->|Hr]%elem_of_cons & <-)].
      * left. by right.
      * left. by left.
      * right. exists r. split; [done|].
        by destruct (Hco r) as (_ & _ & _ & -> & _).
Qed.

Section blocks.
Variable sha256 : bytes → bytes.
Variable m : Base.Machine.
Variable hashing_orchestrator : Main.Hashing.
Hypothesis workers_positive :
  0 < Base.num_workers (Orchestrator.cpu_processor hashing_orchestrator).
Hypothesis batch_size_nonzero :
  ∀ g, Orchestrator.gpu_processor hashing_orchestrator = Some g →
       Gpu.batch_size g ≠ 0.

Lemma cpu_returns_at stage :
  stage = "1k"%string ∨ stage = "full"%string →
  returns_at m (Base.cpu_is_processor sha256)
    (Orchestrator.cpu_processor hashing_orchestrator) stage.
Proof. intros Hs h files. by apply cpu_hash_batch_returns. Qed.

Lemma gpu_returns_at g :
  Orchestrator.gpu_processor hashing_orchestrator = Some g →
  returns_at m (Base.gpu_is_processor sha256) g "full".
Proof.
  intros Hg h files. apply gpu_hash_batch_returns; [by apply batch_size_nonzero|].
  by right.
Qed.

(** The Stage 2 block returns; it splits its candidates in two, and writes
    prefix hashes only to library records and candidates. *)
Lemma stage2_block_spec (stage2_candidates : list ref) (w : Orchestrator.World) :
  ∃ w' stage2_unique stage3_candidates (test : ref → bool),
    Main.stage2_block sha256 m hashing_orchestrator stage2_candidates w
      = Ok (w', stage2_unique, stage3_candidates) ∧
    stage2_unique = filter (λ r, test r = false) stage2_candidates ∧
    stage3_candidates = filter (λ r, test r = true) stage2_candidates ∧
    evolves
      (λ r, r ∈ files (Orchestrator.calibre_collection w) ∨ r ∈ stage2_candidates)
      nowhere nowhere anywhere
      (Orchestrator.store w) (Orchestrator.store w') ∧
    same_lists w w'.
Proof.
  unfold Main.stage2_block.
  destruct stage2_candidates as [|c0 cs] eqn:Hcs.
  { exists w, [], [], (λ _, true). split; [done|]. split; [done|].
    split; [done|]. split; [apply evolves_refl|apply same_lists_refl]. }
  rewrite <- Hcs. clear Hcs.
  destruct (hash_stage2_files_returns (Base.cpu_is_processor sha256) m
              hashing_orchestrator stage2_candidates w
              (cpu_returns_at "1k" (or_introl eq_refl))) as (wh & sel & Hh).
  rewrite Hh. cbn [mbind result_bind].
  apply hash_stage2_files_spec in Hh as (_ & Hsel & _ & Hev & Hsame).
  unfold Stage2.compare.
  destruct (Stage2.compare_loop _ _ _ _ _) as [[h' u] c] eqn:Hcmp.
  apply stage2_loop in Hcmp as (-> & -> & Hfr & _).
  eexists _, _, _,
    (λ r, stage2_candidate (Orchestrator.calibre_collection wh)
            (Orchestrator.store wh r)).
  split; [done|]. split; [done|]. split; [done|]. split; [|done].
  apply frame_evolves in Hfr. simpl.
  eapply evolves_trans.
  - eapply evolves_weaken; [..|exact Hev]; try done.
    intros r [Hr|Hr]; [left|by right].
    rewrite Hsel in Hr. by apply list_elem_of_filter in Hr as [_ ?].
  - eapply evolves_weaken; [..|exact Hfr]; done.
Qed.

(** The Stage 3 block returns; its unique list is part of its candidates,
    and it writes full hashes only to library records and candidates, and
    methods only to library records. *)
Lemma stage3_block_spec (stage3_candidates : list ref) (gpu_available : bool)
    (gpu_threshold : option Z) (processed_files : gset string)
    (w : Orchestrator.World) :
  ∃ w' stage3_unique (test : ref → bool),
    Main.stage3_block sha256 m hashing_orchestrator stage3_candidates
      gpu_available gpu_threshold processed_files w = Ok (w', stage3_unique) ∧
    stage3_unique = filter (λ r, test r = false) stage3_candidates ∧
    evolves nowhere
      (λ r, r ∈ files (Orchestrator.calibre_collection w) ∨ r ∈ stage3_candidates)
      (λ r, r ∈ files (Orchestrator.calibre_collection w)) anywhere
      (Orchestrator.store w) (Orchestrator.store w') ∧
    same_lists w w'.
Proof.
  unfold Main.stage3_block.
  destruct stage3_candidates as [|c0 cs] eqn:Hcs.
  { exists w, [], (λ _, true). split; [done|]. split; [done|].
    split; [apply evolves_refl|apply same_lists_refl]. }
  rewrite <- Hcs. clear Hcs.
  destruct (hash_stage3_files_returns (Base.cpu_is_processor sha256)
              (Base.gpu_is_processor sha256) m hashing_orchestrator
              stage3_candidates gpu_available gpu_threshold
              (Some processed_files) w
              (cpu_returns_at "full" (or_intror eq_refl)) gpu_returns_at)
    as (wh & sel & Hh).
  rewrite Hh. cbn [mbind result_bind].
  apply hash_stage3_files_spec in Hh as (_ & Hsel & _ & Hev & _ & Hsame).
  unfold Stage3.compare.
  destruct (Stage3.compare_loop _ _ _ _) as [h' u] eqn:Hcmp.
  apply stage3_loop in Hcmp as (-> & Hfr & _).
  eexists _, _,
    (λ r, stage3_duplicate (Orchestrator.calibre_collection wh)
            (Orchestrator.store wh r)).
  split; [done|]. split; [done|]. split; [|done].
  apply frame_evolves in Hfr. simpl.
  assert (∀ r, r ∈ sel → r ∈ files (Orchestrator.calibre_collection w)) as Hsub.
  { intros r Hr. rewrite Hsel in Hr.
    by apply list_elem_of_filter in Hr as [_ ?]. }
  eapply evolves_trans.
  - eapply evolves_weaken; [..|exact Hev]; try done.
    intros r [Hr|Hr]; [left; by apply Hsub|by right].
  - eapply evolves_weaken; [..|exact Hfr]; done.
Qed.

End blocks.

Section run.
Variable sha256 : bytes → bytes.
Variable m : Base.Machine.
Variable dev : Gpu.Device.
Variable use_gpu : bool.
Variable threshold workers : Z.
Variable processed_files : gset string.
Variable h0 : heap.
Variable ebooks_files calibre_files : list ref.

(** The datalake records of one category, in the order of discovery. *)
Definition category (v : Method) : list ref :=
  filter (λ r, (full_path (h0 r) ∉ processed_files) ∧
               assigned_method use_gpu
                 (Preprocessing.effective_threshold use_gpu
                    (if use_gpu then Some threshold else None))
                 (file_size (h0 r)) = v)
    ebooks_files.

(** The records that enter the datalake collection: those that are not
    skipped, the GPU category first. *)
Definition files_to_process : list ref := category gpu ++ category cpu.

(** A datalake record collides by size: some library record has its
    size. *)
Definition collides (r : ref) : Prop := shares_size h0 calibre_files r.

#[local] Instance collides_dec r : Decision (collides r).
Proof. unfold collides, shares_size. apply _. Defined.

(** The records that may get a hash during a run: the library's, and the
    datalake records that collide by size. *)
Definition hashable (r : ref) : Prop :=
  r ∈ calibre_files ∨ (r ∈ files_to_process ∧ collides r).

Lemma NoDup_files_to_process : NoDup ebooks_files → NoDup files_to_process.
Proof.
  intros Hnd. unfold files_to_process, category. apply list.NoDup_app.
  split; [by apply list.NoDup_filter|]. split; [|by apply list.NoDup_filter].
  intros r [[_ Hg] _]%list_elem_of_filter [[_ Hc] _]%list_elem_of_filter.
  congruence.
Qed.

(** What a run computes: it returns; Stage 1 keeps of the records to
    process those that do not collide by size; the later stages keep some of
    those that do; the merged list has no repetition and is deduplicated in
    a store in which only hashable records got hashes. *)
Lemma run_analyze_spec :
  0 < workers → NoDup ebooks_files →
  ∃ o hd,
    Main.run_analyze sha256 m dev use_gpu threshold workers processed_files
      h0 ebooks_files calibre_files = Ok o ∧
    Main.stage1_unique o = filter (λ r, ¬ collides r) files_to_process ∧
    (∀ r, r ∈ Main.stage2_unique o ++ Main.stage3_unique o →
          r ∈ files_to_process ∧ collides r) ∧
    NoDup (Main.stage1_unique o ++ Main.stage2_unique o ++ Main.stage3_unique o) ∧
    evolves hashable hashable anywhere anywhere h0 hd ∧
    Main.written o =
      Main.deduplicated_files
        (Main.deduplicate hd
           (Main.stage1_unique o ++ Main.stage2_unique o ++ Main.stage3_unique o)) ∧
    Main.reported o =
      Main.duplicates_report
        (Main.deduplicate hd
           (Main.stage1_unique o ++ Main.stage2_unique o ++ Main.stage3_unique o)).
Proof.
  intros Hworkers Hnd. unfold Main.run_analyze.
  (* categorisation *)
  destruct (Preprocessing.preprocess_files _ _ _ _ _) as [h1 cat] eqn:Hpre.
  apply preprocess_files_spec in Hpre as (Hg & Hc & _ & Hh1).
  change (default ∅ (Some processed_files)) with processed_files
    in Hg, Hc, Hh1.
  fold (category gpu) in Hg. fold (category cpu) in Hc.
  rewrite Hg, Hc. fold files_to_process.
  assert (evolves nowhere nowhere anywhere nowhere h0 h1) as Hev1.
  { intros r. rewrite Hh1. destruct (decide _); repeat split; done. }
  (* the two collections *)
  destruct (Main.add_files empty_collection h1 files_to_process)
    as [ec h2] eqn:Hec.
  apply add_files_spec in Hec as (Hfe & Hco2 & _). simpl in Hfe.
  destruct (Main.add_files empty_collection h2 calibre_files)
    as [cc h3] eqn:Hcc.
  apply add_files_spec in Hcc as (Hfc & Hco3 & Hdom). simpl in Hfc.
  assert (evolves nowhere nowhere anywhere nowhere h0 h3) as Hev3.
  { eapply evolves_trans; [exact Hev1|].
    eapply evolves_trans; eapply cache_only_any; eassumption. }
  assert (∀ r, size_of (h3 r) ∈ get_unique_sizes cc ↔ collides r) as Hsizes.
  { intros r. unfold get_unique_sizes, collides, shares_size.
    rewrite Hdom, Exists_exists.
    destruct (Hev3 r) as (_ & _ & _ & -> & _). split.
    - intros [Hin|(c & Hc' & Heq)]; [by apply not_elem_of_empty in Hin|].
      exists c. split; [by apply list_elem_of_In|].
      destruct (Hev1 c) as (_ & _ & _ & <- & _).
      by destruct (Hco2 c) as (_ & _ & _ & <- & _).
    - intros (c & Hc' & Heq). right. exists c.
      split; [by apply list_elem_of_In|].
      destruct (Hco2 c) as (_ & _ & _ & -> & _).
      by destruct (Hev1 c) as (_ & _ & _ & -> & _). }
  (* Stage 1 *)
  unfold Stage1.compare.
  destruct (Stage1.compare_loop _ _ _ _ _) as [[h4 s1] c2] eqn:H1.
  apply stage1_loop in H1 as (Hs1 & Hc2 & Hfr4 & _).
  rewrite Hfe in Hs1, Hc2. simpl in Hs1, Hc2.
  assert (s1 = filter (λ r, ¬ collides r) files_to_process) as Es1.
  { rewrite Hs1. apply list_filter_iff. intros r. by rewrite Hsizes. }
  assert (c2 = filter collides files_to_process) as Ec2.
  { rewrite Hc2. apply list_filter_iff. intros r. by rewrite Hsizes. }
  clear Hs1 Hc2.
  apply frame_evolves in Hfr4.
  (* Stage 2 *)
  set (orch := Orchestrator.mkHashingOrchestrator _ _).
  assert (∀ g, Orchestrator.gpu_processor orch = Some g →
               Gpu.batch_size g ≠ 0) as Hbs.
  { intros g. unfold orch. simpl.
    destruct use_gpu; [|done].
    destruct (Gpu.probe_ok dev); [|done]. by intros [= <-]. }
  set (w1 := Orchestrator.mkWorld h4 ec cc []).
  destruct (stage2_block_spec sha256 m orch Hworkers c2 w1)
    as (w2 & s2 & c3 & test2 & -> & Es2 & Ec3 & Hev2 & Hsame2).
  cbn [mbind result_bind].
  (* Stage 3 *)
  match goal with
  | |- context [Main.stage3_block sha256 m orch c3 ?ga ?gt processed_files w2] =>
      destruct (stage3_block_spec sha256 m orch Hworkers Hbs c3 ga gt
                  processed_files w2)
        as (w3 & s3 & test3 & -> & Es3 & Hev3' & Hsame3)
  end.
  cbn [mbind result_bind].
  eexists _, (Orchestrator.store w3).
  split; [reflexivity|]. simpl.
  split; [done|].
  assert (∀ r, r ∈ c3 → r ∈ c2) as Hc32.
  { intros r. rewrite Ec3. by intros [_ ?]%list_elem_of_filter. }
  assert (∀ r, r ∈ c2 → r ∈ files_to_process ∧ collides r) as Hc2.
  { intros r. rewrite Ec2. by intros [? ?]%list_elem_of_filter. }
  split; [|split; [|split; [|done]]].
  - intros r [Hr|Hr]%elem_of_app; apply Hc2.
    + rewrite Es2 in Hr. by apply list_elem_of_filter in Hr as [_ ?].
    + apply Hc32. rewrite Es3 in Hr.
      by apply list_elem_of_filter in Hr as [_ ?].
  - pose proof (NoDup_files_to_process Hnd) as Hndf.
    assert (NoDup c2) as Hndc2 by (rewrite Ec2; by apply list.NoDup_filter).
    assert (NoDup c3) as Hndc3 by (rewrite Ec3; by apply list.NoDup_filter).
    apply list.NoDup_app. split; [rewrite Es1; by apply list.NoDup_filter|].
    split.
    + intros r Hr1 Hr23. rewrite Es1 in Hr1.
      apply list_elem_of_filter in Hr1 as [Hn _]. apply Hn.
      apply elem_of_app in Hr23 as [Hr|Hr]; apply Hc2.
      * rewrite Es2 in Hr. by apply list_elem_of_filter in Hr as [_ ?].
      * apply Hc32. rewrite Es3 in Hr.
        by apply list_elem_of_filter in Hr as [_ ?].
    + apply list.NoDup_app. split; [rewrite Es2; by apply list.NoDup_filter|].
      split; [|rewrite Es3; by apply list.NoDup_filter].
      intros r Hr2 Hr3. rewrite Es2 in Hr2. rewrite Es3, Ec3 in Hr3.
      apply list_elem_of_filter in Hr2 as [Hf _].
      apply list_elem_of_filter in Hr3 as [_ Hr3].
      apply list_elem_of_filter in Hr3 as [Ht _]. congruence.
  - destruct Hsame2 as (_ & Hcf2 & _). simpl in Hcf2.
    assert (∀ r, r ∈ files (Orchestrator.calibre_collection w2) →
                 r ∈ calibre_files) as Hlib2 by (intros r; by rewrite Hcf2, Hfc).
    eapply evolves_trans; [|eapply evolves_trans; [|eapply evolves_trans]].
    + eapply evolves_weaken; [..|exact Hev3]; done.
    + eapply evolves_weaken; [..|exact Hfr4]; done.
    + eapply evolves_weaken; [..|exact Hev2]; try done.
      simpl. intros r [Hr|Hr]; [left; by rewrite <- Hfc|right; by apply Hc2].
    + eapply evolves_weaken; [..|exact Hev3']; try done.
      intros r [Hr|Hr]; [left; by apply Hlib2|right; by apply Hc2, Hc32].
Qed.

End run.

(** ** Records that are unique by size *)

(** In an ascending list the first record with a key comes before every
    other record with that key. *)
Lemma first_with_key_filter_seq h K (Q : ref → Prop) `{∀ r, Decision (Q r)}
    (n : nat) : ∀ (a k i : nat),
  first_with_key h K (filter Q (seq a n)) = Some k →
  i ∈ filter Q (seq a n) → dedup_key (h i) = K →
  (k ≤ i)%nat.
Proof.
  induction n as [|n IH]; intros a k i Hfirst Hi Hkey; simpl in *;
    [by apply not_elem_of_nil in Hi|].
  assert (∀ x, x ∈ filter Q (seq (S a) n) → (a < x)%nat) as Hlater.
  { intros x [_ Hx]%list_elem_of_filter. apply elem_of_seq in Hx. lia. }
  destruct (decide (Q a)) as [Hq|Hq].
  - rewrite filter_cons_True in Hfirst, Hi by done. simpl in Hfirst.
    apply elem_of_cons in Hi as [->|Hi].
    + rewrite decide_True in Hfirst by done. injection Hfirst as <-. lia.
    + destruct (decide (dedup_key (h a) = K)).
      * injection Hfirst as <-. specialize (Hlater i Hi). lia.
      * by eapply IH.
  - rewrite filter_cons_False in Hfirst, Hi by done. by eapply IH.
Qed.

Section discovered.
Variable ebooks calibre : list Main.FileInfo.

Definition discovered_heap : heap := (Main.discover ebooks calibre).1.1.
Definition discovered_ebooks : list ref := (Main.discover ebooks calibre).1.2.
Definition discovered_calibre : list ref := (Main.discover ebooks calibre).2.

Lemma discovered_ebooks_lookup r d :
  ebooks !! r = Some d →
  discovered_heap r = Main.make_file d ∧ r ∈ discovered_ebooks.
Proof.
  intros Hr. unfold discovered_heap, discovered_ebooks. simpl. split.
  - by rewrite (lookup_app_l_Some _ _ _ _ Hr).
  - apply elem_of_seq. apply lookup_lt_Some in Hr. lia.
Qed.

Lemma discovered_ebooks_elem r :
  r ∈ discovered_ebooks → ∃ d, ebooks !! r = Some d.
Proof.
  unfold discovered_ebooks. simpl. intros Hr%elem_of_seq.
  apply lookup_lt_is_Some. lia.
Qed.

Lemma discovered_calibre_elem r :
  r ∈ discovered_calibre →
  (length ebooks ≤ r)%nat ∧
  ∃ c, c ∈ calibre ∧ discovered_heap r = Main.make_file c.
Proof.
  unfold discovered_calibre, discovered_heap. simpl. intros Hr%elem_of_seq.
  split; [lia|].
  destruct (lookup_lt_is_Some_2 calibre (r - length ebooks)) as [c Hc]; [lia|].
  exists c. split; [by eapply list_elem_of_lookup_2|].
  rewrite lookup_app_r by lia. by rewrite Hc.
Qed.

Lemma NoDup_discovered_ebooks : NoDup discovered_ebooks.
Proof. apply NoDup_seq. Qed.

End discovered.

(** C10, amended (size-only deduplication of Stage 1 uniques).  Take two
    datalake records, the [i]-th and the [j]-th discovered with [i < j], of
    equal size, neither skipped as already processed, whose size no library
    record has.  Whatever the files contain, a run with at least one worker
    returns; both records are classified unique in Stage 1; the later one
    is not in the final output; the duplicates report holds a row for it
    with method size_only that names as original the first datalake record
    of that size that was not skipped; that record is in the final output.
    It is the earlier of the two when no such record precedes it;
    otherwise the earlier of the two is not in the final output either. *)
Theorem stage1_uniques_deduplicated_by_size (sha256 : bytes → bytes)
    (m : Base.Machine) (dev : Gpu.Device) (use_gpu : bool)
    (threshold workers : Z) (processed_files : gset string)
    (ebooks calibre : list Main.FileInfo) (i j : nat) (di dj : Main.FileInfo) :
  0 < workers →
  (i < j)%nat →
  ebooks !! i = Some di → ebooks !! j = Some dj →
  Main.info_size di = Main.info_size dj →
  Main.info_path di ∉ processed_files →
  Main.info_path dj ∉ processed_files →
  (∀ c, c ∈ calibre → Main.info_size c ≠ Main.info_size di) →
  let '(h0, ebooks_files, calibre_files) := Main.discover ebooks calibre in
  ∃ o,
    Main.run_analyze sha256 m dev use_gpu threshold workers processed_files
      h0 ebooks_files calibre_files = Ok o ∧
    i ∈ Main.stage1_unique o ∧ j ∈ Main.stage1_unique o ∧
    (j ∉ Main.written o) ∧
    ∃ k dk,
      (k ≤ i)%nat ∧ ebooks !! k = Some dk ∧
      Main.info_size dk = Main.info_size di ∧
      k ∈ Main.stage1_unique o ∧ k ∈ Main.written o ∧
      Main.mkDupRow (Main.info_path dj) (Main.info_path dk) "size_only"
        (Main.info_size dj) (Main.info_name dj) ∈ Main.reported o ∧
      ((∀ k' dk', (k' < i)%nat → ebooks !! k' = Some dk' →
                  Main.info_size dk' = Main.info_size di →
                  Main.info_path dk' ∈ processed_files) → k = i) ∧
      (k ≠ i → i ∉ Main.written o) ∧
      (Main.info_path dk ∉ processed_files) ∧
      (∀ k' dk', (k' < k)%nat → ebooks !! k' = Some dk' →
                 Main.info_size dk' = Main.info_size di →
                 Main.info_path dk' ∈ processed_files).
Proof.
  intros Hworkers Hij Hi Hj Hsize Hpi Hpj Hlib.
  change (Main.discover ebooks calibre) with
    (discovered_heap ebooks calibre, discovered_ebooks ebooks calibre,
     discovered_calibre ebooks calibre).
  set (h0 := discovered_heap ebooks calibre).
  set (ef := discovered_ebooks ebooks calibre).
  set (cf := discovered_calibre ebooks calibre).
  set (sz := Main.info_size di) in *.
  destruct (run_analyze_spec sha256 m dev use_gpu threshold workers
              processed_files h0 ef cf Hworkers (NoDup_discovered_ebooks _ _))
    as (o & hd & Hrun & Hs1 & Hs23 & Hnd & Hev & Hw & Hr).
  exists o. split; [exact Hrun|].
  set (unique := Main.stage1_unique o ++ Main.stage2_unique o
                 ++ Main.stage3_unique o) in *.
  destruct (deduplicate_spec hd unique Hnd) as (_ & Hw' & Hr').
  rewrite <- Hw in Hw'. rewrite <- Hr in Hr'. clear Hw Hr.
  set (tested := Preprocessing.effective_threshold use_gpu
                   (if use_gpu then Some threshold else None)) in *.
  set (v := assigned_method use_gpu tested sz).
  (* what discovery made of the datalake records *)
  assert (∀ r d, ebooks !! r = Some d →
            h0 r = Main.make_file d ∧ r ∈ ef) as Hmade
    by (intros r d; apply discovered_ebooks_lookup).
  (* a datalake record of size [sz] that is not skipped is in Stage 1's
     unique list, and carries the key of its size *)
  assert (∀ r d, ebooks !! r = Some d → Main.info_size d = sz →
            Main.info_path d ∉ processed_files →
            r ∈ filter (λ r, ¬ collides h0 cf r)
                  (category use_gpu threshold processed_files h0 ef v)) as Hin1.
  { intros r d Hd Hdsz Hdp. destruct (Hmade r d Hd) as [Hh Hr].
    apply list_elem_of_filter. split.
    - unfold collides, shares_size. rewrite Exists_exists.
      intros (c & Hc%list_elem_of_In & Heq).
      apply discovered_calibre_elem in Hc as (_ & dc & Hdc & Hhc).
      fold h0 in Hhc. rewrite Hhc, Hh in Heq. unfold size_of in Heq.
      simpl in Heq. apply (Hlib dc Hdc). by rewrite Heq.
    - apply list_elem_of_filter. rewrite Hh. simpl. rewrite Hdsz. done. }
  assert (∀ r, r ∈ Main.stage1_unique o →
            r ∈ ef ∧ ¬ hashable use_gpu threshold processed_files h0 ef cf r)
    as Hplain.
  { intros r. rewrite Hs1. intros [Hnc Hr]%list_elem_of_filter.
    assert (r ∈ ef) as Hre.
    { apply elem_of_app in Hr as [Hr|Hr];
        by apply list_elem_of_filter in Hr as [_ ?]. }
    split; [done|]. intros [Hc|[_ Hc]]; [|done].
    apply discovered_calibre_elem in Hc as [Hge _].
    apply elem_of_seq in Hre. simpl in Hre. lia. }
  assert (∀ r, r ∈ Main.stage1_unique o →
            ∃ d, ebooks !! r = Some d ∧
                 full_path (hd r) = Main.info_path d ∧
                 filename (hd r) = Main.info_name d ∧
                 file_size (hd r) = Main.info_size d ∧
                 dedup_key (hd r) = KeySize (Main.info_size d) ∧
                 (Main.info_path d ∉ processed_files)) as Hkeys.
  { intros r Hr. pose proof Hr as Hrs. apply Hplain in Hr as [Hre Hnh].
    destruct (discovered_ebooks_elem ebooks calibre r Hre) as [d Hd].
    exists d. split; [done|]. destruct (Hmade r d Hd) as [Hh _].
    destruct (Hev r) as (Hp & Hn & Hz & Hso & H1k & Hfh & _).
    rewrite Hp, Hn, Hz, Hh. simpl. split; [done|]. split; [done|].
    split; [done|]. split.
    - unfold dedup_key. rewrite (Hfh Hnh), (H1k Hnh), Hso, Hh. done.
    - rewrite Hs1 in Hrs. apply list_elem_of_filter in Hrs as [_ Hrs].
      apply elem_of_app in Hrs as [Hrs|Hrs];
        apply list_elem_of_filter in Hrs as [[Hpr _] _];
        by rewrite Hh in Hpr. }
  assert (∀ r d, ebooks !! r = Some d → Main.info_size d = sz →
            Main.info_path d ∉ processed_files →
            r ∈ Main.stage1_unique o) as Hins1.
  { intros r d Hd Hdsz Hdp. rewrite Hs1. unfold files_to_process.
    rewrite list.filter_app, elem_of_app.
    pose proof (Hin1 r d Hd Hdsz Hdp) as Hr.
    unfold v in Hr. destruct (assigned_method use_gpu tested sz);
      [by right|by left|].
    apply list_elem_of_filter in Hr as [_ Hr].
    apply list_elem_of_filter in Hr as [[_ Hm] _].
    unfold assigned_method in Hm. by destruct (Preprocessing.use_gpu _ _ _). }
  pose proof (Hins1 i di Hi eq_refl Hpi) as Hi1.
  pose proof (Hins1 j dj Hj (eq_sym Hsize) Hpj) as Hj1.
  split; [done|]. split; [done|].
  destruct (Hkeys i Hi1) as (di' & Hdi' & _ & _ & _ & Hki & _).
  rewrite Hi in Hdi'. injection Hdi' as <-. fold sz in Hki.
  destruct (Hkeys j Hj1) as (dj' & Hdj' & Hpathj & Hnamej & Hsizej & Hkj & _).
  rewrite Hj in Hdj'. injection Hdj' as <-. rewrite <- Hsize in Hkj.
  fold sz in Hkj.
  (* the first record with the key of that size *)
  assert (i ∈ unique) as Hiu by (apply elem_of_app; by left).
  destruct (first_with_key_elem hd unique i Hiu) as [k Hk].
  rewrite Hki in Hk.
  assert (first_with_key hd (KeySize sz) (Main.stage1_unique o) = Some k) as Hk1.
  { unfold unique in Hk. rewrite first_with_key_app in Hk.
    destruct (first_with_key hd (KeySize sz) (Main.stage1_unique o)) eqn:E;
      [done|].
    by eapply first_with_key_None in E. }
  destruct (first_with_key_Some _ _ _ _ Hk1) as [Hks1 Hkk].
  destruct (Hkeys k Hks1) as (dk & Hdk & Hpathk & _ & _ & Hkk' & Hpk).
  assert (Main.info_size dk = sz) as Hszk by congruence.
  assert (∀ r d, ebooks !! r = Some d → Main.info_size d = sz →
            Main.info_path d ∉ processed_files → (k ≤ r)%nat) as Hfirstk.
  { intros r d Hrd Hszr Hpr.
    rewrite Hs1 in Hk1. unfold files_to_process in Hk1.
    rewrite list.filter_app, first_with_key_app in Hk1.
    pose proof (Hin1 r d Hrd Hszr Hpr) as Hiv.
    unfold category in Hiv, Hk1. rewrite !list_filter_filter in Hiv, Hk1.
    unfold ef, discovered_ebooks in Hiv, Hk1. simpl in Hiv, Hk1.
    destruct (first_with_key hd (KeySize sz) (filter _ (seq 0 (length ebooks))))
      as [k0|] eqn:Eg in Hk1.
    - injection Hk1 as ->.
      destruct (first_with_key_Some _ _ _ _ Eg) as [Hkg _].
      apply list_elem_of_filter in Hkg as [(_ & _ & Hvk) _].
      destruct (Hmade k dk Hdk) as [Hhk _]. rewrite Hhk in Hvk.
      simpl in Hvk. rewrite Hszk in Hvk. fold tested in Hvk. fold v in Hvk.
      rewrite Hvk in Hiv.
      eapply first_with_key_filter_seq; [exact Eg|exact Hiv|].
      destruct (Hkeys r (Hins1 r d Hrd Hszr Hpr))
        as (d' & Hd' & _ & _ & _ & Hkd & _).
      rewrite Hrd in Hd'. injection Hd' as <-. by rewrite Hkd, Hszr.
    - rewrite ?list_filter_filter in Hk1.
      destruct (first_with_key_Some _ _ _ _ Hk1) as [Hkc _].
      apply list_elem_of_filter in Hkc as [(_ & _ & Hvk) _].
      destruct (Hmade k dk Hdk) as [Hhk _]. rewrite Hhk in Hvk.
      simpl in Hvk. rewrite Hszk in Hvk. fold tested in Hvk. fold v in Hvk.
      rewrite Hvk in Hiv.
      eapply first_with_key_filter_seq; [exact Hk1|exact Hiv|].
      destruct (Hkeys r (Hins1 r d Hrd Hszr Hpr))
        as (d' & Hd' & _ & _ & _ & Hkd & _).
      rewrite Hrd in Hd'. injection Hd' as <-. by rewrite Hkd, Hszr. }
  assert (k ≤ i)%nat as Hle by (by apply (Hfirstk i di)).
  assert (j ≠ k) as Hjk by lia.
  assert (j ∈ unique) as Hju by (apply elem_of_app; by left).
  assert (k ∈ unique) as Hku by (apply elem_of_app; by left).
  split.
  { rewrite Hw'. intros [Hfirst _]%list_elem_of_filter.
    rewrite Hkj in Hfirst. congruence. }
  exists k, dk. split; [done|]. split; [done|]. split; [done|].
  split; [done|]. split; [|split; [|split; [|split; [|split]]]].
  - rewrite Hw'. apply list_elem_of_filter. split; [|done].
    by rewrite Hkk.
  - rewrite Hr'. apply list_elem_of_fmap. exists j. split.
    + unfold dup_row, Main.report_row. rewrite Hkj, Hk. simpl.
      by rewrite Hpathj, Hnamej, Hsizej, Hpathk.
    + apply list_elem_of_filter. split; [|done]. rewrite Hkj. congruence.
  - intros Hfirst. destruct (decide (k = i)) as [|Hne]; [done|].
    exfalso. apply Hpk. apply (Hfirst k dk); [lia|done|done].
  - intros Hne. rewrite Hw'. intros [Hfirst _]%list_elem_of_filter.
    rewrite Hki in Hfirst. congruence.
  - done.
  - intros k' dk' Hlt Hdk' Hszk'.
    destruct (decide (Main.info_path dk' ∈ processed_files)) as [|Hnp]; [done|].
    pose proof (Hfirstk k' dk' Hdk' Hszk' Hnp). lia.
Qed.

Lemma stage1_uniques_deduplicated_by_size_witness :
  0 < 10 ∧
  (0 < 1)%nat ∧
  twins_lake !! 0%nat
    = Some (Main.mkFileInfo "/lake/a.epub" "a.epub" "a.epub" 3 ".epub") ∧
  twins_lake !! 1%nat
    = Some (Main.mkFileInfo "/lake/copy/a.epub" "copy/a.epub" "a.epub" 3 ".epub") ∧
  (∀ c, c ∈ twins_library → Main.info_size c ≠ 3) ∧
  let '(h0, ebooks_files, calibre_files) :=
    Main.discover twins_lake twins_library in
  ∃ o,
    Main.run_analyze toy_digest (Base.mkMachine twins_fs (seq 0))
      example_device false 0 10 ∅ h0 ebooks_files calibre_files = Ok o ∧
    0%nat ∈ Main.stage1_unique o ∧ 1%nat ∈ Main.stage1_unique o ∧
    (1%nat ∉ Main.written o) ∧
    ∃ k dk,
      (k ≤ 0)%nat ∧ twins_lake !! k = Some dk ∧
      Main.info_size dk = 3 ∧
      k ∈ Main.stage1_unique o ∧ k ∈ Main.written o ∧
      Main.mkDupRow "/lake/copy/a.epub" (Main.info_path dk) "size_only" 3
        "a.epub" ∈ Main.reported o ∧
      ((∀ k' dk', (k' < 0)%nat → twins_lake !! k' = Some dk' →
                  Main.info_size dk' = 3 →
                  Main.info_path dk' ∈ (∅ : gset string)) → k = 0%nat) ∧
      (k ≠ 0%nat → 0%nat ∉ Main.written o) ∧
      (Main.info_path dk ∉ (∅ : gset string)) ∧
      (∀ k' dk', (k' < k)%nat → twins_lake !! k' = Some dk' →
                 Main.info_size dk' = 3 →
                 Main.info_path dk' ∈ (∅ : gset string)).
Proof.
  assert (0 < 10) as H0 by lia.
  assert (0 < 1)%nat as H1 by lia.
  assert (twins_lake !! 0%nat
    = Some (Main.mkFileInfo "/lake/a.epub" "a.epub" "a.epub" 3 ".epub"))
    as H2 by reflexivity.
  assert (twins_lake !! 1%nat
    = Some (Main.mkFileInfo "/lake/copy/a.epub" "copy/a.epub" "a.epub" 3 ".epub"))
    as H3 by reflexivity.
  assert (∀ c, c ∈ twins_library → Main.info_size c ≠ 3) as H4.
  { intros c Hc. apply list_elem_of_singleton in Hc. by subst c. }
  split; [exact H0|].
  split; [exact H1|]. split; [exact H2|]. split; [exact H3|].
  split; [exact H4|].
  exact (stage1_uniques_deduplicated_by_size toy_digest
           (Base.mkMachine twins_fs (seq 0)) example_device false 0 10 ∅
           twins_lake twins_library 0 1 _ _ H0 H1 H2 H3 eq_refl
           (not_elem_of_empty _) (not_elem_of_empty _) H4).
Defined.

(** Two datalake files of one size and different contents, and an empty
    library. *)
Definition strangers_fs : filesystem := λ path,
  if decide (path = "/lake/a.epub") then Regular [x01; x02; x03]%byte None
  else if decide (path = "/lake/b.epub") then Regular [x09; x09; x09]%byte None
  else Missing.

Definition strangers_lake : list Main.FileInfo :=
  [Main.mkFileInfo "/lake/a.epub" "a.epub" "a.epub" 3 ".epub";
   Main.mkFileInfo "/lake/b.epub" "b.epub" "b.epub" 3 ".epub"].

(** Three datalake files of one size, and an empty library. *)
Definition triplets_fs : filesystem := λ path,
  if decide (path = "/lake/a.epub") then Regular [x01; x02; x03]%byte None
  else if decide (path = "/lake/b.epub") then Regular [x09; x09; x09]%byte None
  else if decide (path = "/lake/c.epub") then Regular [x05; x06; x07]%byte None
  else Missing.

Definition triplets_lake : list Main.FileInfo :=
  [Main.mkFileInfo "/lake/a.epub" "a.epub" "a.epub" 3 ".epub";
   Main.mkFileInfo "/lake/b.epub" "b.epub" "b.epub" 3 ".epub";
   Main.mkFileInfo "/lake/c.epub" "c.epub" "c.epub" 3 ".epub"].

Definition triplets_run : result Main.Outcome :=
  let '(h0, ebooks_files, calibre_files) := Main.discover triplets_lake [] in
  Main.run_analyze toy_digest (Base.mkMachine triplets_fs (seq 0))
    example_device false 0 10 ∅ h0 ebooks_files calibre_files.

(** C10, as stated, fails for the pair of the second and the third of three
    datalake files of one size: both are classified unique in Stage 1 and
    have equal size, yet the first of the pair, record 1, is not in the
    final output: it is dropped as a duplicate, by size, of record 0, and
    so is the third. *)
Lemma first_of_pair_dropped_counterexample :
  (Main.info_size <$> triplets_lake !! 1%nat) =
    (Main.info_size <$> triplets_lake !! 2%nat) ∧
  match triplets_run with
  | Ok o =>
      1%nat ∈ Main.stage1_unique o ∧ 2%nat ∈ Main.stage1_unique o ∧
      Main.hash_calls o = [] ∧
      (1%nat ∉ Main.written o) ∧
      Main.written o = [0%nat] ∧
      Main.reported o =
        [Main.mkDupRow "/lake/b.epub" "/lake/a.epub" "size_only" 3 "b.epub";
         Main.mkDupRow "/lake/c.epub" "/lake/a.epub" "size_only" 3 "c.epub"]
  | Raise _ => False
  end.
Proof.
  split; [done|]. vm_compute.
  split; [apply list_elem_of_further, list_elem_of_here|].
  split; [do 2 apply list_elem_of_further; apply list_elem_of_here|].
  split; [done|]. split; [|done].
  intros H. apply list_elem_of_singleton in H. discriminate.
Qed.

(** The second of them is dropped all the same, as a duplicate by size. *)
Example different_contents_dropped :
  let '(h0, ebooks_files, calibre_files) := Main.discover strangers_lake [] in
  ∃ o,
    Main.run_analyze toy_digest (Base.mkMachine strangers_fs (seq 0))
      example_device false 0 10 ∅ h0 ebooks_files calibre_files = Ok o ∧
    Main.hash_calls o = [] ∧
    Main.written o = [0%nat] ∧
    Main.reported o =
      [Main.mkDupRow "/lake/b.epub" "/lake/a.epub" "size_only" 3 "b.epub"].
Proof. vm_compute. eexists. done. Qed.

(** * Further properties of the code *)

(** ** The comparators *)

(** X14.  Stage 1 and Stage 2 lose and repeat nothing: each splits its input in
    two lists that keep the order of the input and together hold every
    record of it once; the unique list of Stage 3 is a part of its input,
    in the order of the input. *)
Theorem stage_compare_partitions (ebooks calibre : FileCollection)
    (stage2_candidates stage3_candidates : list ref) (h : heap) :
  (let '(_, unique_files, candidates) := Stage1.compare ebooks calibre h in
   unique_files ++ candidates ≡ₚ files ebooks ∧
   unique_files `sublist_of` files ebooks ∧
   candidates `sublist_of` files ebooks) ∧
  (let '(_, unique_files, candidates) :=
     Stage2.compare calibre stage2_candidates h in
   unique_files ++ candidates ≡ₚ stage2_candidates ∧
   unique_files `sublist_of` stage2_candidates ∧
   candidates `sublist_of` stage2_candidates) ∧
  (let '(_, unique_files) := Stage3.compare calibre stage3_candidates h in
   unique_files `sublist_of` stage3_candidates).
Proof.
  split; [|split].
  - unfold Stage1.compare.
    destruct (Stage1.compare_loop _ _ _ _ _) as [[h' U] C] eqn:Hrun.
    apply stage1_loop in Hrun as (-> & -> & _). simpl.
    split; [|split; apply sublist_filter].
    rewrite <- (filter_app_complement
                  (λ r, size_of (h r) ∉ get_unique_sizes calibre)
                  (files ebooks)) at 3.
    f_equiv. apply reflexive_eq, list_filter_iff. intros r.
    split; [tauto|apply dec_stable].
  - unfold Stage2.compare.
    destruct (Stage2.compare_loop _ _ _ _ _) as [[h' U] C] eqn:Hrun.
    apply stage2_loop in Hrun as (-> & -> & _). simpl.
    split; [|split; apply sublist_filter].
    rewrite <- (filter_app_complement
                  (λ r, stage2_candidate calibre (h r) = false)
                  stage2_candidates) at 3.
    f_equiv. apply reflexive_eq, list_filter_iff. intros r.
    by destruct (stage2_candidate calibre (h r)).
  - unfold Stage3.compare.
    destruct (Stage3.compare_loop _ _ _ _) as [h' U] eqn:Hrun.
    apply stage3_loop in Hrun as (-> & _). simpl. apply sublist_filter.
Qed.

(** ** The library comparator *)

(** What [find_unique_files] returns, read off the store it is called in:
    the records unique by size; then, of the records whose size collides
    and that carry a prefix hash, those Stage 2 finds unique; then, of the
    Stage 2 candidates that carry a full hash, those Stage 3 finds unique. *)
Definition find_unique_files_result (ebooks calibre : FileCollection) (h : heap)
  : list ref :=
  let collides r := size_of (h r) ∈ get_unique_sizes calibre in
  let stage2_input :=
    filter (λ r, first_1k_hash (h r) ≠ None) (filter collides (files ebooks)) in
  let stage3_input :=
    filter (λ r, full_hash (h r) ≠ None)
      (filter (λ r, stage2_candidate calibre (h r) = true) stage2_input) in
  filter (λ r, ¬ collides r) (files ebooks) ++
  filter (λ r, stage2_candidate calibre (h r) = false) stage2_input ++
  filter (λ r, stage3_duplicate calibre (h r) = false) stage3_input.

Lemma filter_none {A} (P : A → Prop) `{∀ x, Decision (P x)} (l : list A) :
  (∀ x, x ∈ l → ¬ P x) → filter P l = [].
Proof.
  induction l as [|x l IH]; intros Hn; [done|].
  rewrite filter_cons_False by (apply Hn, list_elem_of_here).
  apply IH. intros y Hy. by apply Hn, list_elem_of_further.
Qed.

Lemma find_unique_files_spec (ebooks calibre : FileCollection) (h : heap) :
  (Comparison.find_unique_files ebooks calibre h).2 =
    find_unique_files_result ebooks calibre h ∧
  frame h (Comparison.find_unique_files ebooks calibre h).1.
Proof.
  unfold Comparison.find_unique_files, find_unique_files_result, Stage1.compare.
  destruct (Stage1.compare_loop _ _ _ _ _) as [[h1 U1] C1] eqn:H1.
  apply stage1_loop in H1 as (-> & -> & Hf1 & _). simpl.
  remember (filter (λ r, size_of (h r) ∈ get_unique_sizes calibre)
              (files ebooks)) as C1 eqn:HC1.
  assert (filter (λ f, first_1k_hash (h1 f) ≠ None) C1 =
          filter (λ r, first_1k_hash (h r) ≠ None) C1) as ->.
  { apply list_filter_iff. intros r.
    by destruct (Hf1 r) as (_ & _ & _ & _ & -> & _). }
  remember (filter (λ r, first_1k_hash (h r) ≠ None) C1) as W2 eqn:HW2.
  destruct C1 as [|c1 C1'].
  { subst W2. simpl. split; [by rewrite app_nil_r|done]. }
  destruct W2 as [|c2 W2'].
  { simpl. split; [by rewrite app_nil_r|done]. }
  unfold Stage2.compare.
  destruct (Stage2.compare_loop _ _ _ _ _) as [[h2 U2] C2] eqn:H2.
  apply stage2_loop in H2 as (-> & -> & Hf2 & _). cbn [app].
  pose proof (frame_trans _ _ _ Hf1 Hf2) as Hf12.
  assert (∀ b, filter (λ r, stage2_candidate calibre (h1 r) = b) (c2 :: W2') =
               filter (λ r, stage2_candidate calibre (h r) = b) (c2 :: W2'))
    as Hs2.
  { intros b. apply list_filter_iff. intros r.
    by rewrite (stage2_candidate_frame calibre h h1 Hf1). }
  rewrite !Hs2.
  remember (filter (λ r, stage2_candidate calibre (h r) = true) (c2 :: W2'))
    as C2 eqn:HC2.
  assert (filter (λ f, full_hash (h2 f) ≠ None) C2 =
          filter (λ r, full_hash (h r) ≠ None) C2) as ->.
  { apply list_filter_iff. intros r.
    by destruct (Hf12 r) as (_ & _ & _ & _ & _ & -> & _). }
  remember (filter (λ r, full_hash (h r) ≠ None) C2) as W3 eqn:HW3.
  destruct C2 as [|c3 C2'].
  { subst W3. simpl. split; [by rewrite !app_nil_r|done]. }
  destruct W3 as [|c4 W3'].
  { simpl. split; [by rewrite !app_nil_r|done]. }
  unfold Stage3.compare.
  destruct (Stage3.compare_loop _ _ _ _) as [h3 U3] eqn:H3.
  apply stage3_loop in H3 as (-> & Hf3 & _). cbn [app].
  split; [|by eapply frame_trans].
  cbn [snd]. rewrite <- app_assoc. do 2 f_equal.
  apply list_filter_iff. intros r.
  by rewrite (stage3_duplicate_frame calibre h h2 Hf12).
Qed.

(** X12.  [find_unique_files] returns the records unique by size, then the
    Stage 2 uniques among the colliding records that carry a prefix hash,
    then the Stage 3 uniques among the Stage 2 candidates that carry a full
    hash.  A record whose size collides and that carries no prefix hash is
    therefore in no list: it is not returned, and neither is a Stage 2
    candidate that carries no full hash, while a record that is returned is
    one of the datalake collection.  The call writes to no hash field. *)
Theorem find_unique_files_drops_unhashed (ebooks calibre : FileCollection)
    (h : heap) :
  let '(h', all_unique) := Comparison.find_unique_files ebooks calibre h in
  all_unique = find_unique_files_result ebooks calibre h ∧
  (∀ r, r ∈ all_unique → r ∈ files ebooks) ∧
  (∀ r, size_of (h r) ∈ get_unique_sizes calibre →
        first_1k_hash (h r) = None → r ∉ all_unique) ∧
  (∀ r, size_of (h r) ∈ get_unique_sizes calibre →
        stage2_candidate calibre (h r) = true →
        full_hash (h r) = None → r ∉ all_unique) ∧
  (∀ r, first_1k_hash (h' r) = first_1k_hash (h r) ∧
        full_hash (h' r) = full_hash (h r)).
Proof.
  destruct (find_unique_files_spec ebooks calibre h) as [Hres Hfr].
  destruct (Comparison.find_unique_files ebooks calibre h) as [h' all_unique].
  simpl in *. subst all_unique. unfold find_unique_files_result.
  split; [done|]. split; [|split; [|split]].
  - intros r. rewrite !elem_of_app, !list_elem_of_filter. tauto.
  - intros r Hs Hk. rewrite !elem_of_app, !list_elem_of_filter. tauto.
  - intros r Hs Hc Hf. rewrite !elem_of_app, !list_elem_of_filter.
    intros [?|[?|?]]; [tauto| |tauto].
    destruct (stage2_candidate calibre (h r)); [|done]. by destruct H.
  - intros r. by destruct (Hfr r) as (_ & _ & _ & _ & ? & ? & _).
Qed.

(** X13.  With no hash computed, [find_unique_files] is Stage 1: it returns the
    records unique by size and nothing else. *)
Theorem find_unique_files_without_hashes (ebooks calibre : FileCollection)
    (h : heap) :
  (∀ r, r ∈ files ebooks → first_1k_hash (h r) = None) →
  (Comparison.find_unique_files ebooks calibre h).2 =
  (Stage1.compare ebooks calibre h).1.2.
Proof.
  intros Hnone.
  destruct (find_unique_files_spec ebooks calibre h) as [-> _].
  destruct (stage1_compare_lists ebooks calibre h) as [-> _].
  unfold find_unique_files_result.
  assert (filter (λ r, first_1k_hash (h r) ≠ None)
            (filter (λ r, size_of (h r) ∈ get_unique_sizes calibre)
               (files ebooks)) = []) as ->.
  { apply filter_none. intros r [_ Hr]%list_elem_of_filter.
    rewrite (Hnone r Hr). tauto. }
  simpl. by rewrite app_nil_r.
Qed.

Lemma find_unique_files_without_hashes_witness :
  (∀ r, r ∈ files example_ebooks → first_1k_hash (example_heap r) = None) ∧
  (Comparison.find_unique_files example_ebooks example_calibre example_heap).2 =
  (Stage1.compare example_ebooks example_calibre example_heap).1.2.
Proof.
  assert (∀ r, r ∈ files example_ebooks → first_1k_hash (example_heap r) = None)
    as H.
  { intros r _. unfold example_heap. by destruct r as [|[|[|[|]]]]. }
  split; [exact H|].
  exact (find_unique_files_without_hashes example_ebooks example_calibre
           example_heap H).
Defined.

(** ** GPU/CPU categorisation *)

(** X15.  [preprocess_files] loses and repeats nothing: the three lists keep the
    order of the input and together hold every record of it once.  It writes
    the processing method of the records it puts in 'gpu' and 'cpu' and
    nothing else: a skipped record, and a record that is not in the input,
    is left as it was.  Without a GPU the 'gpu' list is empty whatever the
    threshold. *)
Theorem preprocess_files_partition (files : list ref) (gpu_available : bool)
    (gpu_threshold : option Z) (processed_files : option (gset string))
    (h : heap) :
  let '(h', categorized) :=
    Preprocessing.preprocess_files files gpu_available gpu_threshold
      processed_files h in
  Preprocessing.cat_gpu categorized ++ Preprocessing.cat_cpu categorized
    ++ Preprocessing.cat_skip categorized ≡ₚ files ∧
  Preprocessing.cat_gpu categorized `sublist_of` files ∧
  Preprocessing.cat_cpu categorized `sublist_of` files ∧
  Preprocessing.cat_skip categorized `sublist_of` files ∧
  (∀ r, r ∈ Preprocessing.cat_gpu categorized → processing_method (h' r) = gpu) ∧
  (∀ r, r ∈ Preprocessing.cat_cpu categorized → processing_method (h' r) = cpu) ∧
  (∀ r, r ∈ Preprocessing.cat_skip categorized ∨ r ∉ files → h' r = h r) ∧
  (∀ r, h' r = with_method (h r) (processing_method (h' r))) ∧
  (gpu_available = false → Preprocessing.cat_gpu categorized = []).
Proof.
  destruct (Preprocessing.preprocess_files _ _ _ _ _) as [h' cat] eqn:Hrun.
  apply preprocess_files_spec in Hrun as (Hg & Hc & Hs & Hh).
  set (processed := default ∅ processed_files) in *.
  set (threshold :=
         Preprocessing.effective_threshold gpu_available gpu_threshold) in *.
  set (assigned r :=
         assigned_method gpu_available threshold (file_size (h r))) in *.
  split; [|split; [|split; [|split; [|split; [|split; [|split; [|split]]]]]]].
  - rewrite Hg, Hc, Hs.
    rewrite <- (filter_app_complement (λ r, full_path (h r) ∉ processed) files)
      at 4.
    rewrite app_assoc. f_equiv.
    + rewrite <- (filter_app_complement (λ r, assigned r = gpu)
                    (filter (λ r, full_path (h r) ∉ processed) files)).
      rewrite !list_filter_filter. f_equiv.
      * apply reflexive_eq, list_filter_iff. intros r. tauto.
      * apply reflexive_eq, list_filter_iff. intros r. unfold assigned.
        unfold assigned_method.
        destruct (Preprocessing.use_gpu _ _ _); split; intros []; split;
          congruence.
    + apply reflexive_eq, list_filter_iff. intros r.
      split; [tauto|apply dec_stable].
  - rewrite Hg. apply sublist_filter.
  - rewrite Hc. apply sublist_filter.
  - rewrite Hs. apply sublist_filter.
  - intros r. rewrite Hg, Hh. intros [[Hp Ha] Hr]%list_elem_of_filter.
    by rewrite decide_True, <- Ha.
  - intros r. rewrite Hc, Hh. intros [[Hp Ha] Hr]%list_elem_of_filter.
    by rewrite decide_True, <- Ha.
  - intros r Hr. rewrite Hh, decide_False; [done|].
    intros [Hin Hp]. destruct Hr as [Hr|Hr]; [|done].
    rewrite Hs in Hr. by apply list_elem_of_filter in Hr as [? _].
  - intros r. rewrite Hh. destruct (decide _); [done|]. by destruct (h r).
  - intros ->. rewrite Hg. apply filter_none. intros r _ [_ Ha].
    discriminate Ha.
Qed.

(** X16.  [preprocess_files] is idempotent: called again with the same arguments
    on the store it left, it returns the same three lists and leaves every
    record as it is. *)
Theorem preprocess_files_idempotent (files : list ref) (gpu_available : bool)
    (gpu_threshold : option Z) (processed_files : option (gset string))
    (h : heap) :
  let '(h', categorized) :=
    Preprocessing.preprocess_files files gpu_available gpu_threshold
      processed_files h in
  let '(h'', categorized') :=
    Preprocessing.preprocess_files files gpu_available gpu_threshold
      processed_files h' in
  categorized' = categorized ∧ ∀ r, h'' r = h' r.
Proof.
  destruct (Preprocessing.preprocess_files _ _ _ _ h) as [h' cat] eqn:Hrun.
  destruct (Preprocessing.preprocess_files _ _ _ _ h') as [h'' cat'] eqn:Hrun'.
  apply preprocess_files_spec in Hrun as (Hg & Hc & Hs & Hh).
  apply preprocess_files_spec in Hrun' as (Hg' & Hc' & Hs' & Hh').
  assert (∀ r, full_path (h' r) = full_path (h r) ∧
               file_size (h' r) = file_size (h r)) as Hsame.
  { intros r. rewrite Hh. by destruct (decide _). }
  split.
  - destruct cat as [g c s], cat' as [g' c' s']. simpl in *.
    rewrite Hg, Hc, Hs, Hg', Hc', Hs'.
    f_equal; apply list_filter_iff; intros r;
      destruct (Hsame r) as [Hp Hz]; rewrite ?Hp, ?Hz; done.
  - intros r. rewrite Hh'. destruct (Hsame r) as [Hp Hz]. rewrite Hp, Hz.
    destruct (decide _) as [Hd|]; [|done].
    rewrite Hh, decide_True by done. done.
Qed.

(** ** The CPU hash backend *)

(** X10.  The prefix hash looks at the first 1024 bytes only: two readable files
    that agree on them get the same prefix hash, the digest of those bytes,
    whatever follows. *)
Theorem cpu_prefix_hash_reads_1024_bytes (sha256 : bytes → bytes)
    (fs : filesystem) (h : heap) (file1 file2 : ref) (data1 data2 : bytes) :
  fs (full_path (h file1)) = Regular data1 None →
  fs (full_path (h file2)) = Regular data2 None →
  take 1024 data1 = take 1024 data2 →
  Cpu.hash_first_1k sha256 fs h file1 = Ok (sha256 (take 1024 data1)) ∧
  Cpu.hash_first_1k sha256 fs h file2 = Cpu.hash_first_1k sha256 fs h file1.
Proof.
  intros H1 H2 Heq. unfold Cpu.hash_first_1k.
  rewrite !hash_first_1k_worker_spec, H1, H2.
  unfold digest_or_sentinel. simpl. by rewrite Heq.
Qed.

Definition long_fs : filesystem := λ path,
  if decide (path = "/lake/a.epub")
  then Regular (replicate 1024 x00 ++ [x01])%byte None
  else Regular (replicate 1024 x00 ++ [x02; x03])%byte None.

Lemma cpu_prefix_hash_reads_1024_bytes_witness :
  Cpu.hash_first_1k toy_digest long_fs example_heap 0 =
    Ok (toy_digest (replicate 1024 x00%byte)) ∧
  Cpu.hash_first_1k toy_digest long_fs example_heap 1 =
    Cpu.hash_first_1k toy_digest long_fs example_heap 0.
Proof.
  pose proof (cpu_prefix_hash_reads_1024_bytes toy_digest long_fs example_heap
                0 1 (replicate 1024 x00 ++ [x01])%byte
                (replicate 1024 x00 ++ [x02; x03])%byte
                eq_refl eq_refl) as H.
  rewrite !take_app_length' in H by (by rewrite length_replicate).
  exact (H eq_refl).
Defined.

(** X11.  For a file of at most 1024 bytes the prefix hash is the full hash: the
    two single-file methods of the CPU processor return the same bytes, also
    when the file cannot be opened or read (the empty sentinel twice). *)
Theorem cpu_prefix_hash_of_short_file (sha256 : bytes → bytes)
    (fs : filesystem) (h : heap) (file : ref) :
  match fs (full_path (h file)) with
  | Missing => True
  | Regular data _ => (length data ≤ 1024)%nat
  end →
  Cpu.hash_first_1k sha256 fs h file = Cpu.hash_full_file sha256 fs h file.
Proof.
  intros Hshort. unfold Cpu.hash_first_1k, Cpu.hash_full_file.
  rewrite hash_first_1k_worker_spec, hash_full_file_worker_spec.
  unfold digest_or_sentinel, bytes_to_hash.
  destruct (fs (full_path (h file))) as [|data bad]; [done|].
  by rewrite take_ge by done.
Qed.

Lemma cpu_prefix_hash_of_short_file_witness :
  Cpu.hash_first_1k toy_digest example_fs example_heap 0 =
  Cpu.hash_full_file toy_digest example_fs example_heap 0.
Proof.
  apply (cpu_prefix_hash_of_short_file toy_digest example_fs example_heap 0).
  vm_compute. lia.
Defined.

(** ** The GPU hash backend *)

Section gpu_batches.
Variable sha256 : bytes → bytes.

(** The batches are slices of the input, taken in order. *)
Lemma batch_loop_spec (p : Gpu.GPUHashProcessor) (fs : filesystem) (h : heap)
    (step : nat) :
  (0 < step)%nat →
  ∀ fuel todo results, (length todo ≤ fuel)%nat →
  Gpu.batch_loop sha256 p fs h step fuel todo results =
  results ++ (Gpu.hash_one sha256 p fs h <$> todo).
Proof.
  intros Hstep. induction fuel as [|fuel IH]; intros todo results Hfuel.
  - destruct todo; [|simpl in Hfuel; lia]. simpl. by rewrite app_nil_r.
  - destruct todo as [|f todo]; [simpl; by rewrite app_nil_r|].
    cbn [Gpu.batch_loop]. rewrite IH.
    + rewrite <- app_assoc, <- fmap_app. by rewrite take_drop.
    + rewrite length_drop. simpl in *. lia.
Qed.

(** What a batch call returns with an accelerator, at a stage other than
    '1k': the per-file results, in the order of the input. *)
Lemma gpu_hash_batch_results (p : Gpu.GPUHashProcessor)
    (as_completed : nat → list nat) (fs : filesystem) (h : heap)
    (files : list ref) (stage : string) :
  Gpu._gpu_available p = true → 0 < Gpu.batch_size p → stage ≠ "1k"%string →
  Gpu.hash_batch sha256 p as_completed fs h files stage =
  Ok (Gpu.hash_one sha256 p fs h <$> files).
Proof.
  intros Hon Hbs Hstage. unfold Gpu.hash_batch.
  rewrite decide_False by done. rewrite Hon. simpl.
  rewrite decide_False by lia. rewrite decide_False by lia.
  by rewrite batch_loop_spec by lia.
Qed.

End gpu_batches.

(** X9.  With an accelerator, at any stage other than '1k', the batch size does
    not show in the result of [hash_batch]: for every positive batch size
    the call returns, without raising, the results of [hash_full_file] on
    the files, one per file and in the order of the input, with the empty
    sentinel where [hash_full_file] raises. *)
Theorem gpu_hash_batch_per_file (sha256 : bytes → bytes)
    (p : Gpu.GPUHashProcessor) (as_completed : nat → list nat)
    (fs : filesystem) (h : heap) (files : list ref) (stage : string) :
  Gpu._gpu_available p = true → 0 < Gpu.batch_size p → stage ≠ "1k"%string →
  Gpu.hash_batch sha256 p as_completed fs h files stage =
  Ok ((λ file, Some match Gpu.hash_full_file sha256 p fs h file with
                    | Ok d => d
                    | Raise _ => []
                    end) <$> files).
Proof.
  intros Hon Hbs Hstage. rewrite gpu_hash_batch_results by done.
  f_equal. apply list_fmap_ext. intros _ file _. unfold Gpu.hash_one.
  by destruct (Gpu.hash_full_file sha256 p fs h file).
Qed.

Lemma gpu_hash_batch_per_file_witness :
  Gpu.hash_batch toy_digest (Gpu.new_processor example_device) (seq 0)
    example_fs example_heap [0; 2; 4]%nat "full" =
  Ok ((λ file, Some match Gpu.hash_full_file toy_digest
                            (Gpu.new_processor example_device) example_fs
                            example_heap file with
                    | Ok d => d
                    | Raise _ => []
                    end) <$> [0; 2; 4]%nat).
Proof.
  apply (gpu_hash_batch_per_file toy_digest (Gpu.new_processor example_device));
    [reflexivity|reflexivity|discriminate].
Defined.

(** X8.  Where the device has room for each file (or the chunk size left for it,
    the smaller of the processor's chunk size and the usable memory, is
    positive or -1, the sizes [read] accepts and that end the loop) and CuPy
    raises nothing but what [hash_full_file] catches, a full
    batch on the GPU backend returns what the same batch returns on a CPU
    backend, whatever the batch size, the number of workers and the order in
    which the workers finish. *)
Theorem gpu_hash_batch_agrees_with_cpu (sha256 : bytes → bytes)
    (p : Gpu.GPUHashProcessor) (num_workers : Z)
    (as_completed as_completed' : nat → list nat)
    (fs : filesystem) (h : heap) (files : list ref) :
  Gpu._gpu_available p = true → 0 < Gpu.batch_size p →
  0 < num_workers →
  as_completed' (length files) ≡ₚ seq 0 (length files) →
  (∀ file, file ∈ files →
     file_size (h file) <= Gpu.usable_memory (Gpu.device p) ∨
     Z.min (Gpu.chunk_size p) (Gpu.usable_memory (Gpu.device p)) ≠ 0 ∧
     -1 <= Z.min (Gpu.chunk_size p) (Gpu.usable_memory (Gpu.device p))) →
  (∀ e, Gpu.use_device (Gpu.device p) = Some e → caught e) →
  (∀ b e, Gpu.asarray (Gpu.device p) b = Some e → caught e) →
  Gpu.hash_batch sha256 p as_completed fs h files "full" =
  Cpu.hash_batch sha256 num_workers as_completed' fs h files "full".
Proof.
  intros Hon Hbs Hworkers Hperm Hroom Huse Hasarray.
  rewrite gpu_hash_batch_results by done.
  rewrite (cpu_hash_batch_spec sha256 num_workers as_completed' fs h files false)
    by done.
  f_equal. apply list_fmap_ext. intros _ file Hfile%list_elem_of_lookup_2.
  unfold Gpu.hash_one. rewrite gpu_hash_full_file_agrees by auto.
  unfold Cpu.hash_full_file. by rewrite hash_full_file_worker_spec.
Qed.

Lemma gpu_hash_batch_agrees_with_cpu_witness :
  Gpu.hash_batch toy_digest (Gpu.new_processor example_device) (seq 0)
    example_fs example_heap [0; 2; 4]%nat "full" =
  Cpu.hash_batch toy_digest 3 (λ n, reverse (seq 0 n))
    example_fs example_heap [0; 2; 4]%nat "full".
Proof.
  apply (gpu_hash_batch_agrees_with_cpu toy_digest
           (Gpu.new_processor example_device) 3 (seq 0)
           (λ n, reverse (seq 0 n)) example_fs example_heap [0; 2; 4]%nat).
  - reflexivity.
  - reflexivity.
  - lia.
  - simpl. by rewrite reverse_Permutation.
  - intros file _. right. split; vm_compute; discriminate.
  - intros e He. discriminate He.
  - intros b e He. discriminate He.
Defined.

(** ** Deduplication within the datalake *)

Lemma length_filter_complement {A} (P : A → Prop) `{∀ x, Decision (P x)}
    (l : list A) :
  (length (filter P l) + length (filter (λ x, ¬ P x) l) = length l)%nat.
Proof.
  rewrite <- length_app. apply Permutation_length, filter_app_complement.
Qed.

(** The records the pass keeps have pairwise different keys. *)
Lemma deduplicated_keys_distinct (h : heap) (unique_files : list ref) :
  NoDup unique_files →
  ∀ r1 r2, r1 ∈ Main.deduplicated_files (Main.deduplicate h unique_files) →
           r2 ∈ Main.deduplicated_files (Main.deduplicate h unique_files) →
           dedup_key (h r1) = dedup_key (h r2) → r1 = r2.
Proof.
  intros Hnd r1 r2.
  destruct (deduplicate_spec h unique_files Hnd) as (_ & -> & _).
  intros [H1 _]%list_elem_of_filter [H2 _]%list_elem_of_filter Hk.
  rewrite Hk in H1. congruence.
Qed.

(** Each record is kept or reported. *)
Lemma deduplicate_lengths (h : heap) (unique_files : list ref) :
  NoDup unique_files →
  (length (Main.deduplicated_files (Main.deduplicate h unique_files)) +
   length (Main.duplicates_report (Main.deduplicate h unique_files)) =
     length unique_files)%nat.
Proof.
  intros Hnd.
  destruct (deduplicate_spec h unique_files Hnd) as (_ & -> & ->).
  rewrite length_fmap. apply length_filter_complement.
Qed.

(** A row of the report is about a dropped record and names the kept record
    that has its key. *)
Lemma duplicates_report_rows (h : heap) (unique_files : list ref) :
  NoDup unique_files →
  ∀ row, row ∈ Main.duplicates_report (Main.deduplicate h unique_files) →
    ∃ r r0, r ∈ unique_files ∧
            (r ∉ Main.deduplicated_files (Main.deduplicate h unique_files)) ∧
            r0 ∈ Main.deduplicated_files (Main.deduplicate h unique_files) ∧
            dedup_key (h r0) = dedup_key (h r) ∧
            row = Main.report_row h r r0 (key_method (dedup_key (h r))).
Proof.
  intros Hnd row.
  destruct (deduplicate_spec h unique_files Hnd) as (_ & -> & ->).
  intros (r & -> & [Hnot Hin]%list_elem_of_filter)%list_elem_of_fmap.
  destruct (first_with_key_elem h unique_files r Hin) as [r0 Hr0].
  destruct (first_with_key_Some _ _ _ _ Hr0) as [Hin0 Hkey0].
  exists r, r0. split; [done|]. split; [|split; [|split]].
  - intros [? _]%list_elem_of_filter. done.
  - apply list_elem_of_filter. split; [by rewrite Hkey0|done].
  - done.
  - unfold dup_row. by rewrite Hr0.
Qed.

(** X17.  The deduplication pass accounts for every record of the merged unique
    list: the final output is a part of the list, in the order of the list;
    each record is either written or reported, so that the output and the
    report together have as many entries as the list; no two records of the
    output have the same deduplication key; and every row of the report is
    about a record that was dropped and names a record of the output that
    has the same key. *)
Theorem deduplicate_accounting (h : heap) (unique_files : list ref) :
  NoDup unique_files →
  let d := Main.deduplicate h unique_files in
  Main.deduplicated_files d `sublist_of` unique_files ∧
  (length (Main.deduplicated_files d) + length (Main.duplicates_report d) =
     length unique_files)%nat ∧
  (∀ r1 r2, r1 ∈ Main.deduplicated_files d → r2 ∈ Main.deduplicated_files d →
            dedup_key (h r1) = dedup_key (h r2) → r1 = r2) ∧
  (∀ row, row ∈ Main.duplicates_report d →
     ∃ r r0, r ∈ unique_files ∧ (r ∉ Main.deduplicated_files d) ∧
             r0 ∈ Main.deduplicated_files d ∧
             dedup_key (h r0) = dedup_key (h r) ∧
             row = Main.report_row h r r0 (key_method (dedup_key (h r)))).
Proof.
  intros Hnd d. subst d. split; [|split; [|split]].
  - destruct (deduplicate_spec h unique_files Hnd) as (_ & -> & _).
    apply sublist_filter.
  - by apply deduplicate_lengths.
  - by apply deduplicated_keys_distinct.
  - by apply duplicates_report_rows.
Qed.

Lemma deduplicate_accounting_witness :
  let d := Main.deduplicate example_heap_full [0%nat; 2%nat; 3%nat] in
  (length (Main.deduplicated_files d) + length (Main.duplicates_report d) =
     3)%nat.
Proof.
  assert (NoDup [0%nat; 2%nat; 3%nat]) as H by solve_NoDup.
  exact (proj1 (proj2 (deduplicate_accounting example_heap_full
                         [0%nat; 2%nat; 3%nat] H))).
Defined.

Lemma filter_all {A} (P : A → Prop) `{∀ x, Decision (P x)} (l : list A) :
  (∀ x, x ∈ l → P x) → filter P l = l.
Proof.
  induction l as [|x l IH]; intros Hall; [done|].
  rewrite filter_cons_True by (apply Hall, list_elem_of_here).
  f_equal. apply IH. intros y Hy. by apply Hall, list_elem_of_further.
Qed.

Lemma first_with_key_unique h l r :
  r ∈ l →
  (∀ r', r' ∈ l → dedup_key (h r') = dedup_key (h r) → r' = r) →
  first_with_key h (dedup_key (h r)) l = Some r.
Proof.
  intros Hin Hu.
  destruct (first_with_key_elem h l r Hin) as [r0 Hr0].
  destruct (first_with_key_Some _ _ _ _ Hr0) as [Hin0 Hkey0].
  by rewrite Hr0, (Hu r0 Hin0 Hkey0).
Qed.

(** X18.  The deduplication pass is idempotent: run again on its own output, in
    the store it left, it keeps every record and reports no duplicate. *)
Theorem deduplicate_idempotent (h : heap) (unique_files : list ref) :
  NoDup unique_files →
  let d := Main.deduplicate h unique_files in
  let d' := Main.deduplicate (Main.dedup_store d) (Main.deduplicated_files d) in
  Main.deduplicated_files d' = Main.deduplicated_files d ∧
  Main.duplicates_report d' = [].
Proof.
  intros Hnd d.
  destruct (deduplicate_spec h unique_files Hnd) as (Hco & Hw & _).
  fold d in Hco, Hw.
  pose proof (deduplicated_keys_distinct h unique_files Hnd) as Hinj.
  fold d in Hinj.
  assert (NoDup (Main.deduplicated_files d)) as Hnd'
    by (rewrite Hw; by apply list.NoDup_filter).
  destruct (deduplicate_spec (Main.dedup_store d) (Main.deduplicated_files d)
              Hnd') as (_ & Hw' & Hr').
  assert (∀ r, r ∈ Main.deduplicated_files d →
     first_with_key (Main.dedup_store d) (dedup_key (Main.dedup_store d r))
       (Main.deduplicated_files d) = Some r) as Hfirst.
  { intros r Hr. apply first_with_key_unique; [done|].
    intros r0 Hr0 Hk. apply Hinj; [done|done|].
    destruct (dedup_key_cache_only h _ r Hco) as (_ & _ & _ & <-).
    by destruct (dedup_key_cache_only h _ r0 Hco) as (_ & _ & _ & <-). }
  simpl. split.
  - rewrite Hw'. by apply filter_all.
  - rewrite Hr'. rewrite filter_none; [done|].
    intros r Hr Hne. by apply Hne, Hfirst.
Qed.

Lemma deduplicate_idempotent_witness :
  let d := Main.deduplicate example_heap_full [0%nat; 2%nat; 3%nat] in
  let d' := Main.deduplicate (Main.dedup_store d) (Main.deduplicated_files d) in
  Main.deduplicated_files d' = Main.deduplicated_files d ∧
  Main.duplicates_report d' = [].
Proof.
  assert (NoDup [0%nat; 2%nat; 3%nat]) as H by solve_NoDup.
  exact (deduplicate_idempotent example_heap_full [0%nat; 2%nat; 3%nat] H).
Defined.

(** ** The file collection *)

Lemma cache_only_fields h h' :
  cache_only h h' →
  ∀ r, size_of (h' r) = size_of (h r) ∧
       first_1k_hash (h' r) = first_1k_hash (h r) ∧
       full_hash (h' r) = full_hash (h r).
Proof.
  intros Hco r. destruct (Hco r) as (_ & _ & _ & Hs & Hk & Hf & _).
  split; [done|]. split; [apply Hk|apply Hf]; by intros [].
Qed.

(** The three indexes after a run of [add_file] over [todo]: the lists of
    the two [defaultdict]s grow at the end, in the order of insertion; the
    full-hash dictionary holds the last record inserted under a hash. *)
Lemma add_files_lookup todo : ∀ c h c' h',
  Main.add_files c h todo = (c', h') →
  (∀ z, default [] (by_size c' !! z) =
        default [] (by_size c !! z) ++ filter (λ r, size_of (h r) = z) todo) ∧
  (∀ z k, default [] (by_size_and_1k c' !! (z, k)) =
          default [] (by_size_and_1k c !! (z, k)) ++
          filter (λ r, size_of (h r) = z ∧ first_1k_hash (h r) = Some k) todo) ∧
  (∀ fh, by_full_hash c' !! fh =
         match list.last (filter (λ r, full_hash (h r) = Some fh) todo) with
         | Some r => Some r
         | None => by_full_hash c !! fh
         end).
Proof.
  induction todo as [|file rest IH]; intros c h c' h' Hrun;
    cbn [Main.add_files] in Hrun.
  - injection Hrun as <- <-. split; [|split]; intros; simpl;
      by rewrite ?app_nil_r.
  - unfold add_file in Hrun.
    pose proof (get_size_hash_fst h file) as Hsz.
    pose proof (get_size_hash_cache_only h file) as Hco.
    destruct (get_size_hash h file) as [sz h1]; simpl in *. subst sz.
    assert (∀ r, size_of (h1 r) = size_of (h r)) as Hs1
      by (intros r; by destruct (cache_only_fields h h1 Hco r) as (? & _)).
    assert (∀ r, first_1k_hash (h1 r) = first_1k_hash (h r)) as Hk1
      by (intros r; by destruct (cache_only_fields h h1 Hco r) as (_ & ? & _)).
    assert (∀ r, full_hash (h1 r) = full_hash (h r)) as Hf1
      by (intros r; by destruct (cache_only_fields h h1 Hco r) as (_ & _ & ?)).
    rewrite Hk1, Hf1 in Hrun.
    apply IH in Hrun as (Hbs & Hb1 & Hbf). simpl in Hbs, Hb1, Hbf.
    split; [|split].
    + intros z. rewrite Hbs. unfold dd_append.
      assert (filter (λ r, size_of (h1 r) = z) rest =
              filter (λ r, size_of (h r) = z) rest) as ->
        by (apply list_filter_iff; intros r; by rewrite Hs1).
      destruct (decide (size_of (h file) = z)) as [<-|Hne].
      * rewrite lookup_insert_eq. simpl.
        rewrite filter_cons_True by done. by rewrite <- app_assoc.
      * rewrite lookup_insert_ne by done.
        by rewrite filter_cons_False by done.
    + intros z k. rewrite Hb1.
      assert (filter (λ r, size_of (h1 r) = z ∧ first_1k_hash (h1 r) = Some k)
                rest =
              filter (λ r, size_of (h r) = z ∧ first_1k_hash (h r) = Some k)
                rest) as ->
        by (apply list_filter_iff; intros r; by rewrite Hs1, Hk1).
      destruct (first_1k_hash (h file)) as [k0|] eqn:Hk0.
      * unfold dd_append.
        destruct (decide ((size_of (h file), k0) = (z, k))) as [[= <- <-]|Hne].
        -- rewrite lookup_insert_eq. simpl.
           rewrite filter_cons_True by (by rewrite Hk0).
           by rewrite <- app_assoc.
        -- rewrite lookup_insert_ne by done.
           rewrite filter_cons_False; [done|].
           rewrite Hk0. intros [<- [= <-]]. done.
      * rewrite filter_cons_False; [done|]. rewrite Hk0. by intros [_ ?].
    + intros fh. rewrite Hbf.
      assert (filter (λ r, full_hash (h1 r) = Some fh) rest =
              filter (λ r, full_hash (h r) = Some fh) rest) as ->
        by (apply list_filter_iff; intros r; by rewrite Hf1).
      destruct (full_hash (h file)) as [fh0|] eqn:Hfh0.
      * destruct (decide (fh0 = fh)) as [->|Hne].
        -- rewrite filter_cons_True by (by rewrite Hfh0).
           rewrite lookup_insert_eq.
           destruct (filter _ rest) as [|x l] eqn:E; [done|].
           change (list.last (file :: x :: l)) with (list.last (x :: l)).
           destruct (list.last (x :: l)) eqn:El; [done|].
           by apply last_None in El.
        -- rewrite filter_cons_False by (rewrite Hfh0; congruence).
           by rewrite lookup_insert_ne.
      * rewrite filter_cons_False; [done|]. by rewrite Hfh0.
Qed.

(** X19.  Insertion and lookup in a [FileCollection] built by [add_file] from the
    empty one: [files] is the list of the records added, in order;
    [get_files_by_size] and [get_files_by_size_and_1k] return the records
    added with that size (and that prefix hash), in the order of insertion,
    and the empty list for a key that was never added; [get_unique_sizes]
    has exactly the sizes of the records added; [get_file_by_full_hash]
    returns the last record added with that full hash, and [None] when
    there is none. *)
Theorem file_collection_lookup (h : heap) (added : list ref) :
  let '(c, h') := Main.add_files empty_collection h added in
  files c = added ∧
  (∀ size, get_files_by_size c size =
           filter (λ r, size_of (h r) = size) added) ∧
  (∀ size hash_1k, get_files_by_size_and_1k c size hash_1k =
     filter (λ r, size_of (h r) = size ∧ first_1k_hash (h r) = Some hash_1k)
       added) ∧
  (∀ size, size ∈ get_unique_sizes c ↔ ∃ r, r ∈ added ∧ size_of (h r) = size) ∧
  (∀ hash_value, get_file_by_full_hash c hash_value =
     list.last (filter (λ r, full_hash (h r) = Some hash_value) added)) ∧
  (∀ r, size_of (h' r) = size_of (h r) ∧
        first_1k_hash (h' r) = first_1k_hash (h r) ∧
        full_hash (h' r) = full_hash (h r)).
Proof.
  destruct (Main.add_files empty_collection h added) as [c h'] eqn:Hrun.
  pose proof (add_files_spec _ _ _ _ _ Hrun) as (Hfiles & Hco & Hdom).
  apply add_files_lookup in Hrun as (Hbs & Hb1 & Hbf).
  unfold empty_collection in *. cbn [by_size by_size_and_1k by_full_hash] in *.
  split; [done|]. split; [|split; [|split; [|split]]].
  - intros size. unfold get_files_by_size. by rewrite Hbs, lookup_empty.
  - intros size k. unfold get_files_by_size_and_1k.
    by rewrite Hb1, lookup_empty.
  - intros size. unfold get_unique_sizes. rewrite Hdom. simpl.
    rewrite dom_empty. split; [|by right].
    by intros [[]%not_elem_of_empty|?].
  - intros fh. unfold get_file_by_full_hash. rewrite Hbf. simpl.
    rewrite lookup_empty. by destruct (list.last _).
  - by apply cache_only_fields.
Qed.

(** ** The values the orchestrator stores *)

(** The recording loop of the prefix stage, given the hash [d r] found for
    each record [r] of the batch: the record gets it unless it is the empty
    sentinel, and is then appended to the index under its size and hash. *)
Lemma store_1k_hashes_values (d : ref → bytes) batch : ∀ h idx h' idx',
  Orchestrator.store_1k_hashes (zip batch ((λ f, Some (d f)) <$> batch)) h idx
    = (h', idx') →
  (∀ r, first_1k_hash (h' r) =
        if decide (r ∈ batch ∧ truthy (d r) = true) then Some (d r)
        else first_1k_hash (h r)) ∧
  (∀ z k, default [] (idx' !! (z, k)) =
          default [] (idx !! (z, k)) ++
          filter (λ r, size_of (h r) = z ∧ d r = k ∧ truthy k = true) batch).
Proof.
  induction batch as [|file rest IH]; intros h idx h' idx' Hrun;
    cbn [zip zip_with fmap list_fmap Orchestrator.store_1k_hashes] in Hrun.
  - injection Hrun as <- <-. split.
    + intros r. rewrite decide_False; [done|]. by intros [[]%not_elem_of_nil _].
    + intros z k. by rewrite app_nil_r.
  - destruct (truthy (d file)) eqn:Ht.
    + set (h1 := set_first_1k_hash h file (Some (d file))) in *.
      pose proof (get_size_hash_fst h1 file) as Hsz.
      pose proof (get_size_hash_cache_only h1 file) as Hco.
      destruct (get_size_hash h1 file) as [sz h2]; simpl in Hsz. subst sz.
      apply IH in Hrun as [Hk Hidx].
      pose proof (cache_only_fields h1 h2 Hco) as Hf2.
      assert (∀ r, size_of (h1 r) = size_of (h r)) as Hs1.
      { intros r. unfold h1, set_first_1k_hash, upd.
        by destruct (decide (r = file)) as [->|]. }
      split.
      * intros r. rewrite Hk.
        destruct (Hf2 r) as (_ & -> & _).
        destruct (decide (r ∈ rest ∧ truthy (d r) = true)) as [[Hr Htr]|Hn].
        -- rewrite decide_True; [done|].
           split; [by apply list_elem_of_further|done].
        -- unfold h1, set_first_1k_hash, upd.
           destruct (decide (r = file)) as [->|Hne]; simpl.
           ++ rewrite decide_True; [done|]. split; [apply list_elem_of_here|done].
           ++ rewrite decide_False; [done|].
              intros [[->|?]%elem_of_cons ?]; [done|]. by apply Hn.
      * intros z k. rewrite Hidx. unfold dd_append. rewrite Hs1.
        assert (filter (λ r, size_of (h2 r) = z ∧ d r = k ∧ truthy k = true) rest
                = filter (λ r, size_of (h r) = z ∧ d r = k ∧ truthy k = true)
                    rest) as ->.
        { apply list_filter_iff. intros r.
          destruct (Hf2 r) as (-> & _). by rewrite Hs1. }
        destruct (decide ((size_of (h file), d file) = (z, k))) as [[= <- <-]|Hne].
        -- rewrite lookup_insert_eq. simpl.
           rewrite filter_cons_True by done. by rewrite <- app_assoc.
        -- rewrite lookup_insert_ne by done.
           rewrite filter_cons_False; [done|]. intros (<- & <- & _). done.
    + apply IH in Hrun as [Hk Hidx]. split.
      * intros r. rewrite Hk.
        destruct (decide (r ∈ rest ∧ truthy (d r) = true)) as [[Hr Htr]|Hn].
        -- rewrite decide_True; [done|].
           split; [by apply list_elem_of_further|done].
        -- rewrite decide_False; [done|].
           intros [[->|?]%elem_of_cons ?]; [congruence|]. by apply Hn.
      * intros z k. rewrite Hidx.
        rewrite filter_cons_False; [done|]. intros (_ & <- & ?). congruence.
Qed.

(** The recording loop of the full stage: the record gets its hash unless
    it is the empty sentinel, and the dictionary then has an entry under
    that hash. *)
Lemma store_full_hashes_values (d : ref → bytes) batch : ∀ h idx h' idx',
  Orchestrator.store_full_hashes (zip batch ((λ f, Some (d f)) <$> batch)) h idx
    = (h', idx') →
  (∀ r, full_hash (h' r) =
        if decide (r ∈ batch ∧ truthy (d r) = true) then Some (d r)
        else full_hash (h r)) ∧
  (∀ fh, is_Some (idx' !! fh) ↔
         is_Some (idx !! fh) ∨ ∃ r, r ∈ batch ∧ d r = fh ∧ truthy fh = true).
Proof.
  induction batch as [|file rest IH]; intros h idx h' idx' Hrun;
    cbn [zip zip_with fmap list_fmap Orchestrator.store_full_hashes] in Hrun.
  - injection Hrun as <- <-. split.
    + intros r. rewrite decide_False; [done|]. by intros [[]%not_elem_of_nil _].
    + intros fh. split; [by left|].
      by intros [?|(r & []%not_elem_of_nil & _)].
  - destruct (truthy (d file)) eqn:Ht.
    + apply IH in Hrun as [Hk Hidx]. split.
      * intros r. rewrite Hk.
        destruct (decide (r ∈ rest ∧ truthy (d r) = true)) as [[Hr Htr]|Hn].
        -- rewrite decide_True; [done|].
           split; [by apply list_elem_of_further|done].
        -- unfold set_full_hash, upd.
           destruct (decide (r = file)) as [->|Hne]; simpl.
           ++ rewrite decide_True; [done|]. split; [apply list_elem_of_here|done].
           ++ rewrite decide_False; [done|].
              intros [[->|?]%elem_of_cons ?]; [done|]. by apply Hn.
      * intros fh. rewrite Hidx. rewrite lookup_insert_is_Some. split.
        -- intros [[<-|[_ ?]]|(r & Hr & Hd & Hfh)].
           ++ right. exists file. split; [apply list_elem_of_here|done].
           ++ by left.
           ++ right. exists r. split; [by apply list_elem_of_further|done].
        -- intros [?|(r & [->|Hr]%elem_of_cons & Hd & Hfh)].
           ++ left. destruct (decide (d file = fh)); [by left|by right].
           ++ left. by left.
           ++ right. by exists r.
    + apply IH in Hrun as [Hk Hidx]. split.
      * intros r. rewrite Hk.
        destruct (decide (r ∈ rest ∧ truthy (d r) = true)) as [[Hr Htr]|Hn].
        -- rewrite decide_True; [done|].
           split; [by apply list_elem_of_further|done].
        -- rewrite decide_False; [done|].
           intros [[->|?]%elem_of_cons ?]; [congruence|]. by apply Hn.
      * intros fh. rewrite Hidx. split.
        -- intros [?|(r & Hr & Hd & Hfh)]; [by left|].
           right. exists r. split; [by apply list_elem_of_further|done].
        -- intros [?|(r & [->|Hr]%elem_of_cons & Hd & Hfh)]; [by left| |].
           ++ congruence.
           ++ right. by exists r.
Qed.

(** ** The hashing stages on the CPU processor *)

Section cpu_values.
Variable sha256 : bytes → bytes.
Variable m : Base.Machine.
Variable orch : Main.Hashing.
Hypothesis completes : ∀ n, Base.as_completed m n ≡ₚ seq 0 n.
Hypothesis workers_positive :
  0 < Base.num_workers (Orchestrator.cpu_processor orch).

(** What the CPU workers return for a record: the digest of the first 1024
    bytes, or of the whole file, found at its path, or the empty
    sentinel. *)
Definition prefix_digest (h : heap) (r : ref) : bytes :=
  digest_or_sentinel sha256 true (Base.fs m (full_path (h r))).

Definition full_digest (h : heap) (r : ref) : bytes :=
  digest_or_sentinel sha256 false (Base.fs m (full_path (h r))).

Lemma digests_same_path h h' :
  (∀ r, full_path (h' r) = full_path (h r)) →
  ∀ r, prefix_digest h' r = prefix_digest h r ∧
       full_digest h' r = full_digest h r.
Proof. intros Hp r. unfold prefix_digest, full_digest. by rewrite Hp. Qed.

Lemma evolves_paths T1 Tf Tm Ts h h' :
  evolves T1 Tf Tm Ts h h' →
  ∀ r, full_path (h' r) = full_path (h r) ∧ size_of (h' r) = size_of (h r).
Proof. intros Hev r. by destruct (Hev r) as (? & _ & _ & ? & _). Qed.

Lemma cpu_batch_value (h : heap) (batch : list ref) (first_1k : bool) :
  Base.hash_batch (HashProcessor := Base.cpu_is_processor sha256)
    (Orchestrator.cpu_processor orch) m h batch
    (if first_1k then "1k" else "full") =
  Ok ((λ f, Some (if first_1k then prefix_digest h f else full_digest h f))
        <$> batch).
Proof.
  cbn [Base.hash_batch Base.cpu_is_processor].
  rewrite cpu_hash_batch_spec by (done || apply completes).
  f_equal. apply list_fmap_ext. intros _ f _. by destruct first_1k.
Qed.

(** One prefix-hashing block of [hash_stage2_files]. *)
Lemma prefix_on_cpu_values (side : bool) (batch : list ref)
    (w : Orchestrator.World) :
  ∃ w',
    Orchestrator.prefix_on_cpu (Base.cpu_is_processor sha256) m orch side
      batch w = Ok w' ∧
    let h := Orchestrator.store w in
    (∀ r, first_1k_hash (Orchestrator.store w' r) =
          if decide (r ∈ batch ∧ truthy (prefix_digest h r) = true)
          then Some (prefix_digest h r) else first_1k_hash (h r)) ∧
    (∀ z k,
       get_files_by_size_and_1k (Orchestrator.calibre_collection w') z k =
       get_files_by_size_and_1k (Orchestrator.calibre_collection w) z k ++
       if side
       then filter (λ r, size_of (h r) = z ∧ prefix_digest h r = k ∧
                         truthy k = true) batch
       else []) ∧
    by_full_hash (Orchestrator.calibre_collection w') =
      by_full_hash (Orchestrator.calibre_collection w).
Proof.
  unfold Orchestrator.prefix_on_cpu, Orchestrator.call_cpu.
  rewrite (cpu_batch_value (Orchestrator.store w) batch true).
  cbn [mbind result_bind]. eexists. split; [reflexivity|].
  unfold Orchestrator.record_1k. cbn [Orchestrator.store
    Orchestrator.calibre_collection Orchestrator.ebooks_collection].
  destruct side.
  - destruct (Orchestrator.store_1k_hashes _ _ _) as [h' idx'] eqn:Hrun.
    apply (store_1k_hashes_values (prefix_digest (Orchestrator.store w)))
      in Hrun as [Hk Hidx].
    cbn. split; [done|]. split; [|done].
    intros z k. unfold get_files_by_size_and_1k. cbn. apply Hidx.
  - destruct (Orchestrator.store_1k_hashes _ _ _) as [h' idx'] eqn:Hrun.
    apply (store_1k_hashes_values (prefix_digest (Orchestrator.store w)))
      in Hrun as [Hk Hidx].
    cbn. split; [done|]. split; [|done].
    intros z k. by rewrite app_nil_r.
Qed.

#[local] Existing Instance shares_size_dec.

(** [hash_stage2_files] on the CPU processor: it returns; the library
    records it selects are those that share a size with a candidate; the
    selected records and the candidates get their prefix digest unless it is
    the empty sentinel; the library index grows by the selected records
    that got one. *)
Lemma hash_stage2_files_values (stage2_candidates : list ref)
    (w : Orchestrator.World) :
  ∃ w' sel,
    Orchestrator.hash_stage2_files (Base.cpu_is_processor sha256) m orch
      stage2_candidates w = Ok (w', (sel, stage2_candidates)) ∧
    let h := Orchestrator.store w in
    sel = filter (shares_size h stage2_candidates)
            (files (Orchestrator.calibre_collection w)) ∧
    (∀ r, first_1k_hash (Orchestrator.store w' r) =
          if decide ((r ∈ sel ∨ r ∈ stage2_candidates) ∧
                     truthy (prefix_digest h r) = true)
          then Some (prefix_digest h r) else first_1k_hash (h r)) ∧
    (∀ z k,
       get_files_by_size_and_1k (Orchestrator.calibre_collection w') z k =
       get_files_by_size_and_1k (Orchestrator.calibre_collection w) z k ++
       filter (λ r, size_of (h r) = z ∧ prefix_digest h r = k ∧
                    truthy k = true) sel) ∧
    by_full_hash (Orchestrator.calibre_collection w') =
      by_full_hash (Orchestrator.calibre_collection w) ∧
    evolves (λ r, r ∈ sel ∨ r ∈ stage2_candidates) nowhere nowhere nowhere
      h (Orchestrator.store w') ∧
    same_lists w w'.
Proof.
  destruct (hash_stage2_files_returns (Base.cpu_is_processor sha256) m orch
              stage2_candidates w) as (w' & sel & Hrun).
  { intros h files. rewrite (cpu_batch_value h files true). by eexists. }
  exists w', sel. split; [done|].
  pose proof (hash_stage2_files_spec _ m orch _ _ _ _ _ Hrun)
    as (_ & Hsel & _ & Hev & Hsame).
  intros h. split; [done|].
  unfold Orchestrator.hash_stage2_files in Hrun.
  destruct (Orchestrator.candidate_sizes _ _ _) as [sizes h1] eqn:Hsizes.
  apply candidate_sizes_spec in Hsizes as [Hco1 _].
  destruct (Orchestrator.select_by_size _ _ _ _) as [sel0 h2] eqn:Hsel0.
  apply select_by_size_spec in Hsel0 as [Hco2 _].
  pose proof (evolves_trans _ _ _ _ _ _ _ Hco1 Hco2) as Hco.
  set (w2 := Orchestrator.with_store w h2) in *.
  assert (∃ w3,
    match sel0 with
    | [] => Ok w2
    | _ :: _ => Orchestrator.prefix_on_cpu (Base.cpu_is_processor sha256) m
                  orch true sel0 w2
    end = Ok w3 ∧
    (∀ r, first_1k_hash (Orchestrator.store w3 r) =
          if decide (r ∈ sel0 ∧ truthy (prefix_digest h2 r) = true)
          then Some (prefix_digest h2 r) else first_1k_hash (h2 r)) ∧
    (∀ z k,
       get_files_by_size_and_1k (Orchestrator.calibre_collection w3) z k =
       get_files_by_size_and_1k (Orchestrator.calibre_collection w) z k ++
       filter (λ r, size_of (h2 r) = z ∧ prefix_digest h2 r = k ∧
                    truthy k = true) sel0) ∧
    by_full_hash (Orchestrator.calibre_collection w3) =
      by_full_hash (Orchestrator.calibre_collection w) ∧
    (∀ r, full_path (Orchestrator.store w3 r) = full_path (h2 r)))
    as (w3 & Hw3 & Hk3 & Hidx3 & Hfh3 & Hp3).
  { destruct sel0 as [|s0 sel0'] eqn:Es.
    - exists w2. split; [done|]. split; [|split; [|done]].
      + intros r. rewrite decide_False; [done|].
        by intros [[]%not_elem_of_nil _].
      + intros z k. by rewrite app_nil_r.
    - rewrite <- Es in *.
      destruct (prefix_on_cpu_values true sel0 w2)
        as (w3 & Hw3 & Hk3 & Hidx3 & Hfh3).
      exists w3. split; [by rewrite Es in *|]. split; [done|].
      split; [done|]. split; [done|].
      apply prefix_on_cpu_spec in Hw3 as (_ & Hev3 & _).
      intros r. by destruct (Hev3 r) as (? & _). }
  rewrite Hw3 in Hrun. cbn [mbind result_bind] in Hrun.
  destruct (prefix_on_cpu_values false stage2_candidates w3)
    as (w4 & Hw4 & Hk4 & Hidx4 & Hfh4).
  rewrite Hw4 in Hrun. cbn [mbind result_bind] in Hrun.
  injection Hrun as <- <-.
  assert (∀ r, full_path (h2 r) = full_path (h r)) as Hp2
    by (intros r; by destruct (Hco r) as (? & _)).
  assert (∀ r, prefix_digest (Orchestrator.store w3) r = prefix_digest h r)
    as Hd3.
  { intros r. unfold prefix_digest. by rewrite Hp3, Hp2. }
  assert (∀ r, prefix_digest h2 r = prefix_digest h r) as Hd2.
  { intros r. unfold prefix_digest. by rewrite Hp2. }
  pose proof (cache_only_fields h h2 Hco) as Hf2.
  split; [|split; [|split; [|done]]].
  - intros r. rewrite Hk4, Hd3, Hk3, Hd2.
    destruct (Hf2 r) as (_ & -> & _).
    destruct (decide (r ∈ stage2_candidates ∧ _)) as [[? ?]|Hn4].
    + rewrite decide_True; [done|]. split; [by right|done].
    + destruct (decide (r ∈ sel0 ∧ _)) as [[? ?]|Hn3].
      * rewrite decide_True; [done|]. split; [by left|done].
      * rewrite decide_False; [done|]. intros [[?|?] ?]; tauto.
  - intros z k. rewrite Hidx4, app_nil_r, Hidx3. f_equal.
    apply list_filter_iff. intros r. rewrite Hd2.
    by destruct (Hf2 r) as (-> & _).
  - by rewrite Hfh4, Hfh3.
Qed.

(** A datalake record passes Stage 2 as a candidate: its prefix could be
    read, and some library record of its size has the same prefix
    digest. *)
Definition matches_prefix (h : heap) (library : list ref) (r : ref) : Prop :=
  truthy (prefix_digest h r) = true ∧
  Exists (λ c, size_of (h c) = size_of (h r) ∧
               prefix_digest h c = prefix_digest h r) library.

#[local] Instance matches_prefix_dec h library r :
  Decision (matches_prefix h library r).
Proof. unfold matches_prefix. apply _. Defined.

(** The Stage 2 block of a run on records that carry no prefix hash yet,
    with an empty library index. *)
Lemma stage2_block_values (stage2_candidates : list ref)
    (w : Orchestrator.World) (h : heap) (library : list ref) :
  h = Orchestrator.store w →
  library = files (Orchestrator.calibre_collection w) →
  (∀ r, first_1k_hash (h r) = None) →
  (∀ z k, get_files_by_size_and_1k (Orchestrator.calibre_collection w) z k = []) →
  ∃ w',
    Main.stage2_block sha256 m orch stage2_candidates w =
      Ok (w', filter (λ r, ¬ matches_prefix h library r) stage2_candidates,
              filter (matches_prefix h library) stage2_candidates) ∧
    (∀ r, first_1k_hash (Orchestrator.store w' r) =
          if decide ((r ∈ filter (shares_size h stage2_candidates) library ∨
                      r ∈ stage2_candidates) ∧
                     truthy (prefix_digest h r) = true)
          then Some (prefix_digest h r) else None) ∧
    by_full_hash (Orchestrator.calibre_collection w') =
      by_full_hash (Orchestrator.calibre_collection w) ∧
    evolves anywhere nowhere nowhere anywhere h (Orchestrator.store w') ∧
    same_lists w w'.
Proof.
  intros -> -> Hfresh Hempty.
  set (h := Orchestrator.store w) in *.
  set (library := files (Orchestrator.calibre_collection w)) in *.
  unfold Main.stage2_block.
  destruct stage2_candidates as [|c0 cs].
  { exists w. split; [done|]. split; [|split; [done|]].
    - intros r. rewrite decide_False; [done|].
      intros [[Hs|[]%not_elem_of_nil] _].
      apply list_elem_of_filter in Hs as [Hs _]. by apply Exists_nil in Hs.
    - split; [apply evolves_refl|apply same_lists_refl]. }
  cbv iota. generalize (c0 :: cs). clear c0 cs. intros stage2_candidates.
  set (sel := filter (shares_size h stage2_candidates) library).
  destruct (hash_stage2_files_values stage2_candidates w)
    as (wh & sel' & Hrun & Hsel & Hk & Hidx & Hfh & Hev & Hsame).
  fold h library in Hsel, Hk, Hidx, Hev. fold sel in Hsel. subst sel'.
  rewrite Hrun. cbn [mbind result_bind].
  unfold Stage2.compare.
  destruct (Stage2.compare_loop _ _ _ _ _) as [[h' u] c] eqn:Hcmp.
  apply stage2_loop in Hcmp as (-> & -> & Hfr & _). cbn [app].
  assert (∀ r, r ∈ stage2_candidates →
            stage2_candidate (Orchestrator.calibre_collection wh)
              (Orchestrator.store wh r) = true ↔ matches_prefix h library r)
    as Htest.
  { intros r Hr. unfold stage2_candidate, matches_prefix.
    rewrite Hk.
    destruct (Hev r) as (_ & _ & _ & -> & _).
    destruct (truthy (prefix_digest h r)) eqn:Ht.
    - rewrite decide_True by (split; [by right|done]).
      rewrite Hidx, Hempty. cbn [app].
      destruct (filter _ sel) as [|x l] eqn:Ef.
      + split; [done|]. intros [_ (c & Hc & Hsz & Hd)%Exists_exists].
        apply list_elem_of_In in Hc.
        assert (c ∈ filter (λ r0, size_of (h r0) = size_of (h r) ∧
                  prefix_digest h r0 = prefix_digest h r ∧
                  truthy (prefix_digest h r) = true) sel) as Hin.
        { apply list_elem_of_filter. split; [done|].
          apply list_elem_of_filter. split; [|done].
          apply Exists_exists. exists r. split; [by apply list_elem_of_In|done]. }
        rewrite Ef in Hin. by apply not_elem_of_nil in Hin.
      + split; [|done]. intros _. split; [done|].
        assert (x ∈ filter (λ r0, size_of (h r0) = size_of (h r) ∧
                  prefix_digest h r0 = prefix_digest h r ∧
                  truthy (prefix_digest h r) = true) sel) as Hin
          by (rewrite Ef; apply list_elem_of_here).
        apply list_elem_of_filter in Hin as [(Hsz & Hd & _) Hx].
        apply list_elem_of_filter in Hx as [_ Hx].
        apply Exists_exists. exists x. split; [by apply list_elem_of_In|done].
    - rewrite decide_False by (intros [_ ?]; done). rewrite Hfresh.
      split; [done|]. by intros [? _]. }
  eexists. split.
  - f_equal. f_equal; [f_equal|].
    + apply filter_ext_elem. intros r Hr. rewrite <- (Htest r Hr).
      by destruct (stage2_candidate _ _).
    + apply filter_ext_elem. intros r Hr. by rewrite <- (Htest r Hr).
  - cbn [Orchestrator.with_store Orchestrator.store
         Orchestrator.calibre_collection].
    split; [|split; [done|split]].
    + intros r. destruct (Hfr r) as (_ & _ & _ & _ & -> & _).
      rewrite Hk, Hfresh. done.
    + apply frame_evolves in Hfr.
      eapply evolves_trans; eapply evolves_weaken; try eassumption; done.
    + done.
Qed.

(** One full-hashing block of [hash_stage3_files] that goes to the CPU. *)
Lemma full_on_cpu_values (side : bool) (batch : list ref)
    (w : Orchestrator.World) :
  ∃ w',
    Orchestrator.full_on_cpu (Base.cpu_is_processor sha256) m orch side
      batch w = Ok w' ∧
    (∀ r, full_hash (Orchestrator.store w' r) =
          if decide (r ∈ batch ∧
                     truthy (full_digest (Orchestrator.store w) r) = true)
          then Some (full_digest (Orchestrator.store w) r)
          else full_hash (Orchestrator.store w r)) ∧
    (∀ fh, is_Some (by_full_hash (Orchestrator.calibre_collection w') !! fh) ↔
           is_Some (by_full_hash (Orchestrator.calibre_collection w) !! fh) ∨
           (side = true ∧
            ∃ r, r ∈ batch ∧ full_digest (Orchestrator.store w) r = fh ∧
                 truthy fh = true)).
Proof.
  unfold Orchestrator.full_on_cpu, Orchestrator.call_cpu.
  destruct batch as [|b0 bs].
  { exists w. split; [done|]. split.
    - intros r. rewrite decide_False; [done|].
      by intros [[]%not_elem_of_nil _].
    - intros fh. split; [by left|].
      by intros [?|(_ & r & []%not_elem_of_nil & _)]. }
  generalize (b0 :: bs). clear b0 bs. intros batch.
  rewrite (cpu_batch_value (Orchestrator.store w) batch false).
  cbn [mbind result_bind]. eexists. split; [reflexivity|].
  unfold Orchestrator.record_full. cbn [Orchestrator.store
    Orchestrator.calibre_collection Orchestrator.ebooks_collection].
  destruct side.
  - destruct (Orchestrator.store_full_hashes _ _ _) as [h' idx'] eqn:Hrun.
    apply (store_full_hashes_values (full_digest (Orchestrator.store w)))
      in Hrun as [Hk Hidx].
    cbn. split; [done|]. intros fh. rewrite Hidx. split.
    + intros [?|?]; [by left|by right].
    + intros [?|[_ ?]]; [by left|by right].
  - destruct (Orchestrator.store_full_hashes _ _ _) as [h' idx'] eqn:Hrun.
    apply (store_full_hashes_values (full_digest (Orchestrator.store w)))
      in Hrun as [Hk Hidx].
    cbn. split; [done|]. intros fh. split; [by left|].
    by intros [?|[? _]].
Qed.

(** [hash_stage3_files] of an orchestrator that has no GPU processor,
    called without a GPU: it returns; the library records selected are
    those that share size and prefix hash with a candidate; of these, the
    ones whose path is not in the resume set, and all the candidates, get
    their full digest unless it is the empty sentinel; the library
    dictionary gets an entry for each digest a library record got. *)
Lemma hash_stage3_files_values (stage3_candidates : list ref)
    (gpu_threshold : option Z) (processed : gset string)
    (w : Orchestrator.World) (h : heap) :
  Orchestrator.gpu_processor orch = None →
  h = Orchestrator.store w →
  ∃ w' sel,
    Orchestrator.hash_stage3_files (Base.cpu_is_processor sha256)
      (Base.gpu_is_processor sha256) m orch stage3_candidates false
      gpu_threshold (Some processed) w = Ok (w', (sel, stage3_candidates)) ∧
    sel = filter (shares_pair h stage3_candidates)
            (files (Orchestrator.calibre_collection w)) ∧
    (∀ r, full_hash (Orchestrator.store w' r) =
          if decide ((r ∈ filter (λ r, full_path (h r) ∉ processed) sel ∨
                      r ∈ stage3_candidates) ∧
                     truthy (full_digest h r) = true)
          then Some (full_digest h r) else full_hash (h r)) ∧
    (∀ fh, is_Some (by_full_hash (Orchestrator.calibre_collection w') !! fh) ↔
           is_Some (by_full_hash (Orchestrator.calibre_collection w) !! fh) ∨
           ∃ r, r ∈ filter (λ r, full_path (h r) ∉ processed) sel ∧
                full_digest h r = fh ∧ truthy fh = true) ∧
    evolves nowhere anywhere anywhere nowhere h (Orchestrator.store w') ∧
    same_lists w w'.
Proof.
  intros Hnogpu ->.
  set (h := Orchestrator.store w).
  destruct (hash_stage3_files_returns (Base.cpu_is_processor sha256)
              (Base.gpu_is_processor sha256) m orch stage3_candidates false
              gpu_threshold (Some processed) w) as (w' & sel & Hrun).
  { intros h0 files. rewrite (cpu_batch_value h0 files false). by eexists. }
  { intros g Hg. by rewrite Hnogpu in Hg. }
  exists w', sel. split; [done|].
  pose proof (hash_stage3_files_spec _ _ m orch _ _ _ _ _ _ _ _ Hrun)
    as (_ & Hsel & _ & Hev & _ & Hsame).
  fold h in Hsel, Hev. split; [done|].
  unfold Orchestrator.hash_stage3_files in Hrun. fold h in Hrun.
  destruct (Orchestrator.candidate_size_1k _ _ _) as [keys h1] eqn:Hkeys.
  apply candidate_size_1k_spec in Hkeys as [Hco1 _].
  destruct (Orchestrator.select_by_size_1k _ _ _ _) as [sel0 h2] eqn:Hsel0.
  apply select_by_size_1k_spec in Hsel0 as [Hco2 _].
  pose proof (evolves_trans _ _ _ _ _ _ _ Hco1 Hco2) as Hco.
  destruct (Preprocessing.preprocess_files _ _ _ _ _) as [h3 cat] eqn:Hpre.
  apply preprocess_files_spec in Hpre as (Hg & Hc & _ & Hh3).
  cbn [default] in Hg, Hc, Hh3.
  assert (Preprocessing.cat_cpu cat =
          filter (λ r, full_path (h r) ∉ processed) sel0) as Hcpu.
  { rewrite Hc. apply list_filter_iff. intros r.
    destruct (Hco r) as (-> & _). unfold assigned_method. simpl. tauto. }
  assert (Preprocessing.cat_gpu cat = []) as Hgpu.
  { rewrite Hg. apply filter_none. intros r _ [_ Ha]. discriminate Ha. }
  rewrite Hgpu, Hcpu in Hrun. clear Hg Hc Hgpu Hcpu.
  set (lib_batch := filter (λ r, full_path (h r) ∉ processed) sel0) in *.
  assert (∀ r, full_path (h3 r) = full_path (h r) ∧
               full_hash (h3 r) = full_hash (h r)) as Hf3.
  { intros r. rewrite Hh3.
    destruct (cache_only_fields h h2 Hco r) as (_ & _ & Hfh).
    destruct (Hco r) as (Hp & _).
    destruct (decide _); simpl; by rewrite ?Hp, ?Hfh. }
  set (w3 := Orchestrator.with_store w h3) in *.
  assert (∀ side batch w0,
            Orchestrator.full_on_gpu (Base.gpu_is_processor sha256) m orch
              side batch w0 = Ok w0) as Hskip.
  { intros side batch w0. unfold Orchestrator.full_on_gpu.
    rewrite Hnogpu. by destruct batch. }
  rewrite Hskip in Hrun. cbn [mbind result_bind] in Hrun.
  destruct (full_on_cpu_values true lib_batch w3) as (w5 & Hw5 & Hk5 & Hidx5).
  rewrite Hw5 in Hrun. cbn [mbind result_bind] in Hrun.
  rewrite Hskip in Hrun. cbn [mbind result_bind] in Hrun.
  rewrite (filter_all (λ f, processing_method (h f) = cpu ∨
                            Orchestrator.gpu_processor orch = None))
    in Hrun by (intros r _; by right).
  destruct (full_on_cpu_values false stage3_candidates w5)
    as (w7 & Hw7 & Hk7 & Hidx7).
  rewrite Hw7 in Hrun. cbn [mbind result_bind] in Hrun.
  injection Hrun as <- <-.
  apply full_on_cpu_spec in Hw5 as (_ & Hev5 & _).
  change (Orchestrator.store w3) with h3 in *.
  assert (∀ r, full_digest h3 r = full_digest h r) as Hd3.
  { intros r. unfold full_digest. by destruct (Hf3 r) as [-> _]. }
  assert (∀ r, full_digest (Orchestrator.store w5) r = full_digest h r) as Hd5.
  { intros r. rewrite <- Hd3. unfold full_digest.
    by destruct (Hev5 r) as (-> & _). }
  split; [|split; [|split; [|done]]].
  - intros r. rewrite Hk7, Hd5, Hk5, Hd3.
    destruct (Hf3 r) as [_ ->].
    destruct (decide (r ∈ stage3_candidates ∧ _)) as [[? ?]|Hn7].
    + rewrite decide_True; [done|]. split; [by right|done].
    + destruct (decide (r ∈ lib_batch ∧ _)) as [[? ?]|Hn5].
      * rewrite decide_True; [done|]. split; [by left|done].
      * rewrite decide_False; [done|]. intros [[?|?] ?]; tauto.
  - intros fh. rewrite Hidx7, Hidx5. setoid_rewrite Hd3.
    setoid_rewrite Hd5. split.
    + intros [[?|[_ ?]]|[? _]]; [by left|by right|done].
    + intros [?|?]; [by left; left|left; by right].
  - eapply evolves_weaken; [..|exact Hev]; done.
Qed.

(** A datalake record is found in the library by Stage 3: it could be read
    in full, and one of the library records that were hashed in full has
    the same digest. *)
Definition matches_full (h : heap) (hashed_library : list ref) (r : ref) : Prop :=
  truthy (full_digest h r) = true ∧
  Exists (λ c, full_digest h c = full_digest h r) hashed_library.

#[local] Instance matches_full_dec h hashed_library r :
  Decision (matches_full h hashed_library r).
Proof. unfold matches_full. apply _. Defined.

#[local] Existing Instance shares_pair_dec.

(** The library records that are hashed in full for a list of Stage 3
    candidates: they share size and prefix hash with a candidate, and their
    path is not in the resume set. *)
Definition hashed_library (h : heap) (processed : gset string)
    (library stage3_candidates : list ref) : list ref :=
  filter (λ r, full_path (h r) ∉ processed)
    (filter (shares_pair h stage3_candidates) library).

(** The Stage 3 block of a run without GPU, on records that carry no full
    hash yet, with an empty library dictionary. *)
Lemma stage3_block_values (stage3_candidates : list ref)
    (gpu_threshold : option Z) (processed : gset string)
    (w : Orchestrator.World) (h : heap) (library : list ref) :
  Orchestrator.gpu_processor orch = None →
  h = Orchestrator.store w →
  library = files (Orchestrator.calibre_collection w) →
  (∀ r, full_hash (h r) = None) →
  (∀ fh, by_full_hash (Orchestrator.calibre_collection w) !! fh = None) →
  ∃ w',
    Main.stage3_block sha256 m orch stage3_candidates false gpu_threshold
      processed w =
    Ok (w', filter (λ r, ¬ matches_full h
                            (hashed_library h processed library
                               stage3_candidates) r)
              stage3_candidates).
Proof.
  intros Hnogpu -> -> Hfresh Hempty.
  set (h := Orchestrator.store w) in *.
  set (library := files (Orchestrator.calibre_collection w)) in *.
  unfold Main.stage3_block.
  destruct stage3_candidates as [|c0 cs]; [by exists w|].
  cbv iota. generalize (c0 :: cs). clear c0 cs. intros stage3_candidates.
  destruct (hash_stage3_files_values stage3_candidates gpu_threshold processed
              w h Hnogpu eq_refl)
    as (wh & sel & Hrun & Hsel & Hk & Hidx & Hev & Hsame).
  fold library in Hsel.
  rewrite Hrun. cbn [mbind result_bind].
  unfold Stage3.compare.
  destruct (Stage3.compare_loop _ _ _ _) as [h' u] eqn:Hcmp.
  apply stage3_loop in Hcmp as (-> & Hfr & _). cbn [app].
  eexists. do 2 f_equal.
  apply filter_ext_elem. intros r Hr.
  unfold stage3_duplicate, matches_full, get_file_by_full_hash.
  subst sel. rewrite Hk, Hfresh. unfold hashed_library.
  destruct (truthy (full_digest h r)) eqn:Ht.
  - rewrite decide_True by (split; [by right|done]).
    rewrite Ht. simpl.
    destruct (by_full_hash (Orchestrator.calibre_collection wh)
                !! full_digest h r) as [c|] eqn:Hc.
    + split; [done|]. intros Hn. exfalso. apply Hn. split; [done|].
      assert (is_Some (by_full_hash (Orchestrator.calibre_collection wh)
                         !! full_digest h r)) as Hs by (by eexists).
      apply Hidx in Hs as [[? Hs]|(c' & Hc' & Hd & _)].
      { by rewrite Hempty in Hs. }
      apply Exists_exists. exists c'. split; [by apply list_elem_of_In|done].
    + split; [|done]. intros _ [_ (c' & Hc' & Hd)%Exists_exists].
      apply list_elem_of_In in Hc'.
      assert (is_Some (by_full_hash (Orchestrator.calibre_collection wh)
                         !! full_digest h r)) as [? Hs].
      { apply Hidx. right. exists c'. done. }
      congruence.
  - rewrite decide_False by (intros [_ ?]; done).
    split; [|done]. by intros _ [? _].
Qed.

End cpu_values.

(** ** A run without GPU, by file content *)

Section cpu_run.
Variable sha256 : bytes → bytes.
Variable m : Base.Machine.
Variable dev : Gpu.Device.
Variable threshold workers : Z.
Variable processed_files : gset string.
Variable h0 : heap.
Variable ebooks_files calibre_files : list ref.
Hypothesis completes : ∀ n, Base.as_completed m n ≡ₚ seq 0 n.
Hypothesis workers_positive : 0 < workers.
Hypothesis fresh :
  ∀ r, first_1k_hash (h0 r) = None ∧ full_hash (h0 r) = None.

#[local] Existing Instance shares_size_dec.
#[local] Existing Instance matches_prefix_dec.
#[local] Existing Instance matches_full_dec.

(** The datalake records that are not skipped as already processed. *)
Definition to_process : list ref :=
  filter (λ r, full_path (h0 r) ∉ processed_files) ebooks_files.

(** The Stage 2 and the Stage 3 candidates of the run. *)
Definition size_candidates : list ref :=
  filter (shares_size h0 calibre_files) to_process.

Definition prefix_candidates : list ref :=
  filter (matches_prefix sha256 m h0 calibre_files) size_candidates.

(** The library records that are hashed in full: their path is not in the
    resume set, their prefix could be read, and they share size and prefix
    digest with a Stage 3 candidate. *)
Definition library_hashed_in_full : list ref :=
  filter (λ c, (full_path (h0 c) ∉ processed_files) ∧
               truthy (prefix_digest sha256 m h0 c) = true ∧
               Exists (λ f, size_of (h0 f) = size_of (h0 c) ∧
                            prefix_digest sha256 m h0 f =
                              prefix_digest sha256 m h0 c)
                 prefix_candidates)
    calibre_files.

(** What a run without GPU computes, in terms of what is in the files: it
    returns; Stage 1 keeps the records whose size no library record has;
    Stage 2 keeps, of the others, those whose prefix digest is not that of a
    library record of the same size (or could not be read); Stage 3 keeps,
    of the others, those whose full digest is not that of a library record
    hashed in full (or could not be read). *)
Lemma run_analyze_cpu_spec :
  ∃ o,
    Main.run_analyze sha256 m dev false threshold workers processed_files
      h0 ebooks_files calibre_files = Ok o ∧
    Main.stage1_unique o =
      filter (λ r, ¬ shares_size h0 calibre_files r) to_process ∧
    Main.stage2_unique o =
      filter (λ r, ¬ matches_prefix sha256 m h0 calibre_files r)
        size_candidates ∧
    Main.stage3_unique o =
      filter (λ r, ¬ matches_full sha256 m h0 library_hashed_in_full r)
        prefix_candidates.
Proof.
  unfold Main.run_analyze.
  (* categorisation *)
  destruct (Preprocessing.preprocess_files _ _ _ _ _) as [h1 cat] eqn:Hpre.
  apply preprocess_files_spec in Hpre as (Hg & Hc & _ & Hh1).
  cbn [default] in Hg, Hc, Hh1.
  assert (Preprocessing.cat_gpu cat = []) as ->.
  { rewrite Hg. apply filter_none. intros r _ [_ Ha]. discriminate Ha. }
  assert (Preprocessing.cat_cpu cat = to_process) as ->.
  { rewrite Hc. apply list_filter_iff. intros r. unfold assigned_method.
    simpl. tauto. }
  cbn [app]. clear Hg Hc.
  assert (evolves nowhere nowhere anywhere nowhere h0 h1) as Hev1.
  { intros r. rewrite Hh1. destruct (decide _); repeat split; done. }
  (* the two collections *)
  destruct (Main.add_files empty_collection h1 to_process) as [ec h2] eqn:Hec.
  apply add_files_spec in Hec as (Hfe & Hco2 & _). simpl in Hfe.
  destruct (Main.add_files empty_collection h2 calibre_files)
    as [cc h3] eqn:Hcc.
  pose proof (add_files_spec _ _ _ _ _ Hcc) as (Hfc & Hco3 & Hdom).
  apply add_files_lookup in Hcc as (_ & Hb1 & Hbf).
  simpl in Hfc. unfold empty_collection in Hdom, Hb1, Hbf.
  cbn [by_size by_size_and_1k by_full_hash] in Hdom, Hb1, Hbf.
  assert (evolves nowhere nowhere anywhere nowhere h0 h3) as Hev3.
  { eapply evolves_trans; [exact Hev1|].
    eapply evolves_trans; eapply cache_only_any; eassumption. }
  assert (evolves nowhere nowhere anywhere nowhere h0 h2) as Hev2.
  { eapply evolves_trans; [exact Hev1|]. eapply cache_only_any; eassumption. }
  assert (∀ h, evolves nowhere nowhere anywhere anywhere h0 h →
            ∀ r, first_1k_hash (h r) = None ∧ full_hash (h r) = None) as Hfresh.
  { intros h Hev r. destruct (Hev r) as (_ & _ & _ & _ & Hk & Hf & _).
    rewrite Hk, Hf by (by intros []). apply fresh. }
  assert (∀ z k, get_files_by_size_and_1k cc z k = []) as Hidx0.
  { intros z k. unfold get_files_by_size_and_1k. rewrite Hb1, lookup_empty.
    simpl. apply filter_none. intros r _ [_ Hk].
    destruct (Hfresh h2) with (r := r) as [Hn _];
      [eapply evolves_weaken; [..|exact Hev2]; done|]. congruence. }
  assert (∀ fh, by_full_hash cc !! fh = None) as Hbf0.
  { intros fh. rewrite Hbf, lookup_empty.
    rewrite filter_none; [done|]. intros r _ Hf.
    destruct (Hfresh h2) with (r := r) as [_ Hn];
      [eapply evolves_weaken; [..|exact Hev2]; done|]. congruence. }
  assert (∀ r, size_of (h3 r) ∈ get_unique_sizes cc ↔
               shares_size h0 calibre_files r) as Hsizes.
  { intros r. unfold get_unique_sizes, shares_size.
    rewrite Hdom, Exists_exists.
    destruct (Hev3 r) as (_ & _ & _ & -> & _). split.
    - intros [Hin|(c & Hc' & Heq)]; [by apply not_elem_of_empty in Hin|].
      exists c. split; [by apply list_elem_of_In|].
      by destruct (Hev2 c) as (_ & _ & _ & <- & _).
    - intros (c & Hc' & Heq). right. exists c.
      split; [by apply list_elem_of_In|].
      by destruct (Hev2 c) as (_ & _ & _ & -> & _). }
  (* Stage 1 *)
  unfold Stage1.compare.
  destruct (Stage1.compare_loop _ _ _ _ _) as [[h4 s1] c2] eqn:H1.
  apply stage1_loop in H1 as (Hs1 & Hc2 & Hfr4 & _).
  rewrite Hfe in Hs1, Hc2. simpl in Hs1, Hc2.
  assert (s1 = filter (λ r, ¬ shares_size h0 calibre_files r) to_process)
    as Es1.
  { rewrite Hs1. apply list_filter_iff. intros r. by rewrite Hsizes. }
  assert (c2 = size_candidates) as Ec2.
  { rewrite Hc2. apply list_filter_iff. intros r. by rewrite Hsizes. }
  clear Hs1 Hc2. subst s1 c2.
  apply frame_evolves in Hfr4.
  assert (evolves nowhere nowhere anywhere anywhere h0 h4) as Hev4.
  { eapply evolves_trans; [|eapply evolves_weaken; [..|exact Hfr4]; done].
    eapply evolves_weaken; [..|exact Hev3]; done. }
  (* Stage 2 *)
  set (orch := Orchestrator.mkHashingOrchestrator _ _).
  set (w1 := Orchestrator.mkWorld h4 ec cc []).
  destruct (stage2_block_values sha256 m orch completes workers_positive
              size_candidates w1 h4 calibre_files eq_refl (eq_sym Hfc))
    as (w2 & Hrun2 & Hk2 & Hbf2 & Hevw2 & Hsame2).
  { intros r. by destruct (Hfresh h4 Hev4 r). }
  { done. }
  rewrite Hrun2. cbn [mbind result_bind].
  assert (∀ h, evolves anywhere anywhere anywhere anywhere h0 h →
            ∀ r, size_of (h r) = size_of (h0 r) ∧
                 prefix_digest sha256 m h r = prefix_digest sha256 m h0 r ∧
                 full_digest sha256 m h r = full_digest sha256 m h0 r ∧
                 full_path (h r) = full_path (h0 r)) as Hsame.
  { intros h Hev r. destruct (Hev r) as (Hp & _ & _ & Hs & _).
    unfold prefix_digest, full_digest. by rewrite Hp, Hs. }
  pose proof (Hsame h4 (evolves_weaken _ _ _ _ anywhere anywhere anywhere
                anywhere _ _ (λ _ H, I) (λ _ H, I) (λ _ H, I) (λ _ H, I) Hev4))
    as Hsame4.
  assert (∀ r, matches_prefix sha256 m h4 calibre_files r ↔
               matches_prefix sha256 m h0 calibre_files r) as Hmp.
  { intros r. unfold matches_prefix.
    destruct (Hsame4 r) as (Hs & Hd & _). rewrite Hs, Hd.
    apply and_iff_compat_l. rewrite !Exists_exists.
    split; intros (c & Hc & Hsc & Hdc); exists c; (split; [done|]);
      destruct (Hsame4 c) as (Hs' & Hd' & _); rewrite ?Hs', ?Hd' in *; done. }
  assert (filter (matches_prefix sha256 m h4 calibre_files) size_candidates =
          prefix_candidates) as ->
    by (by apply list_filter_iff).
  assert (filter (λ r, ¬ matches_prefix sha256 m h4 calibre_files r)
            size_candidates =
          filter (λ r, ¬ matches_prefix sha256 m h0 calibre_files r)
            size_candidates) as ->
    by (apply list_filter_iff; intros r; by rewrite Hmp).
  (* Stage 3 *)
  assert (evolves anywhere nowhere anywhere anywhere h0 (Orchestrator.store w2))
    as Hev02.
  { eapply evolves_trans;
      [eapply evolves_weaken; [..|exact Hev4]; done|].
    eapply evolves_weaken; [..|exact Hevw2]; done. }
  pose proof (Hsame _ (evolves_weaken _ _ _ _ anywhere anywhere anywhere
                anywhere _ _ (λ _ H, I) (λ _ H, I) (λ _ H, I) (λ _ H, I)
                Hev02)) as Hsame2'.
  destruct Hsame2 as (_ & Hcf2 & _). cbn in Hcf2. rewrite Hfc in Hcf2.
  destruct (stage3_block_values sha256 m orch completes workers_positive
              prefix_candidates None processed_files w2
              (Orchestrator.store w2) calibre_files eq_refl eq_refl
              (eq_sym Hcf2))
    as (w3 & Hrun3).
  { intros r. destruct (Hev02 r) as (_ & _ & _ & _ & _ & Hf & _).
    rewrite Hf by (by intros []). apply fresh. }
  { intros fh. by rewrite Hbf2. }
  rewrite Hrun3. cbn [mbind result_bind].
  eexists. split; [reflexivity|]. cbn.
  split; [done|]. split; [done|].
  set (h2' := Orchestrator.store w2) in *.
  assert (∀ r, first_1k_hash (h2' r) =
               if decide ((r ∈ filter (shares_size h4 size_candidates)
                                 calibre_files ∨ r ∈ size_candidates) ∧
                          truthy (prefix_digest sha256 m h0 r) = true)
               then Some (prefix_digest sha256 m h0 r) else None) as Hk2'.
  { intros r. rewrite Hk2. by destruct (Hsame4 r) as (_ & -> & _). }
  assert (∀ f, f ∈ prefix_candidates →
            size_1k_key (h2' f) =
            Some (size_of (h0 f), prefix_digest sha256 m h0 f)) as Hkeyf.
  { intros f [[Ht _] Hf]%list_elem_of_filter.
    unfold size_1k_key. rewrite Hk2'.
    rewrite decide_True by (split; [by right|done]).
    by destruct (Hsame2' f) as (-> & _). }
  assert (hashed_library h2' processed_files calibre_files
            prefix_candidates = library_hashed_in_full) as Hlib.
  { unfold hashed_library, library_hashed_in_full.
    rewrite list_filter_filter. apply filter_ext_elem. intros c Hc.
    destruct (Hsame2' c) as (Hs & _ & _ & ->).
    apply and_iff_compat_l. unfold shares_pair. split.
    - intros [[key Hkey] (f & Hf & Heq)%Exists_exists].
      apply list_elem_of_In in Hf. rewrite (Hkeyf f Hf) in Heq.
      unfold size_1k_key in Hkey, Heq. rewrite Hk2', Hs in Hkey, Heq.
      destruct (decide _) as [[_ Ht]|]; [|done].
      injection Heq as Hsz Hd. split; [done|].
      apply Exists_exists. exists f. split; [by apply list_elem_of_In|done].
    - intros [Ht (f & Hf & Hsz & Hd)%Exists_exists].
      apply list_elem_of_In in Hf.
      assert (size_1k_key (h2' c) =
              Some (size_of (h0 c), prefix_digest sha256 m h0 c)) as Hkeyc.
      { unfold size_1k_key. rewrite Hk2', Hs.
        rewrite decide_True; [done|]. split; [|done]. left.
        apply list_elem_of_filter. split; [|done].
        apply Exists_exists. exists f.
        split; [|by rewrite (proj1 (Hsame4 f)), (proj1 (Hsame4 c))].
        apply list_elem_of_In.
        by apply list_elem_of_filter in Hf as [_ ?]. }
      rewrite Hkeyc. split; [by eexists|].
      apply Exists_exists. exists f. split; [by apply list_elem_of_In|].
      rewrite (Hkeyf f Hf). by rewrite Hsz, Hd. }
  rewrite Hlib. apply list_filter_iff. intros r.
  unfold matches_full. destruct (Hsame2' r) as (_ & _ & -> & _).
  apply not_iff_compat, and_iff_compat_l. rewrite !Exists_exists.
  split; intros (c & Hc & Hdc); exists c; (split; [done|]);
    destruct (Hsame2' c) as (_ & _ & Hd' & _); rewrite ?Hd' in *; done.
Qed.

End cpu_run.

Lemma discovered_fresh (ebooks calibre : list Main.FileInfo) (r : ref) :
  first_1k_hash (discovered_heap ebooks calibre r) = None ∧
  full_hash (discovered_heap ebooks calibre r) = None.
Proof.
  unfold discovered_heap. simpl. by destruct ((ebooks ++ calibre) !! r).
Qed.

Lemma discovered_calibre_record (ebooks calibre : list Main.FileInfo)
    (c : Main.FileInfo) :
  c ∈ calibre →
  ∃ r, r ∈ discovered_calibre ebooks calibre ∧
       discovered_heap ebooks calibre r = Main.make_file c.
Proof.
  intros [j Hj]%list_elem_of_lookup_1.
  exists (length ebooks + j)%nat. split.
  - unfold discovered_calibre. simpl. apply elem_of_seq.
    apply lookup_lt_Some in Hj. lia.
  - unfold discovered_heap. simpl.
    rewrite lookup_app_r by lia.
    replace (length ebooks + j - length ebooks)%nat with j by lia.
    by rewrite Hj.
Qed.

Lemma truthy_digest (sha256 : bytes → bytes) (first_1k : bool) (n : node) :
  truthy (digest_or_sentinel sha256 first_1k n) = true →
  ∃ b, bytes_to_hash first_1k n = Some b ∧
       digest_or_sentinel sha256 first_1k n = sha256 b.
Proof.
  unfold digest_or_sentinel.
  destruct (bytes_to_hash first_1k n) as [b|]; [|done]. by exists b.
Qed.

Lemma truthy_nonempty (b : bytes) : b ≠ [] → truthy b = true.
Proof. by destruct b. Qed.

(** X1.  A datalake file that has a copy in the library is not reported as
    missing.  In a run without GPU in which every worker finishes, take a
    datalake file and a library file that have the same recorded size and
    the same content, both readable, the library file not being in the
    resume set: the run returns, no stage classifies the datalake file as
    unique, and it is not written to the output.  (The digest function is
    taken never to return the empty byte string, as SHA-256 does not.) *)
Theorem library_copy_not_reported_missing (sha256 : bytes → bytes)
    (m : Base.Machine) (dev : Gpu.Device) (threshold workers : Z)
    (processed_files : gset string) (ebooks calibre : list Main.FileInfo)
    (i : nat) (di c : Main.FileInfo) (data : bytes) :
  (∀ b, sha256 b ≠ []) →
  (∀ n, Base.as_completed m n ≡ₚ seq 0 n) →
  0 < workers →
  ebooks !! i = Some di → c ∈ calibre →
  Main.info_size di = Main.info_size c →
  Base.fs m (Main.info_path di) = Regular data None →
  Base.fs m (Main.info_path c) = Regular data None →
  Main.info_path c ∉ processed_files →
  let '(h0, ebooks_files, calibre_files) := Main.discover ebooks calibre in
  ∃ o,
    Main.run_analyze sha256 m dev false threshold workers processed_files
      h0 ebooks_files calibre_files = Ok o ∧
    (i ∉ Main.stage1_unique o) ∧ (i ∉ Main.stage2_unique o) ∧
    (i ∉ Main.stage3_unique o) ∧ (i ∉ Main.written o).
Proof.
  intros Hsha Hcompletes Hworkers Hi Hc Hsize Hfi Hfc Hproc.
  change (Main.discover ebooks calibre) with
    (discovered_heap ebooks calibre, discovered_ebooks ebooks calibre,
     discovered_calibre ebooks calibre).
  set (h0 := discovered_heap ebooks calibre).
  set (ef := discovered_ebooks ebooks calibre).
  set (cf := discovered_calibre ebooks calibre).
  destruct (run_analyze_cpu_spec sha256 m dev threshold workers
              processed_files h0 ef cf Hcompletes Hworkers
              (discovered_fresh ebooks calibre))
    as (o & Hrun & Hs1 & Hs2 & Hs3).
  destruct (run_analyze_spec sha256 m dev false threshold workers
              processed_files h0 ef cf Hworkers
              (NoDup_discovered_ebooks ebooks calibre))
    as (o' & hd & Hrun' & _ & _ & Hnd & _ & Hw & _).
  rewrite Hrun in Hrun'. injection Hrun' as <-.
  exists o. split; [done|].
  destruct (discovered_ebooks_lookup ebooks calibre i di Hi) as [Hhi Hin].
  destruct (discovered_calibre_record ebooks calibre c Hc) as (rc & Hrc & Hhc).
  fold h0 in Hhi, Hhc. fold cf in Hrc.
  assert (size_of (h0 rc) = size_of (h0 i)) as Hsz
    by (rewrite Hhi, Hhc; unfold size_of; simpl; done).
  assert (prefix_digest sha256 m h0 i = sha256 (take 1024 data) ∧
          prefix_digest sha256 m h0 rc = sha256 (take 1024 data) ∧
          full_digest sha256 m h0 i = sha256 data ∧
          full_digest sha256 m h0 rc = sha256 data) as (Hpi & Hpc & Hdi & Hdc).
  { unfold prefix_digest, full_digest, digest_or_sentinel.
    rewrite Hhi, Hhc. simpl. by rewrite Hfi, Hfc. }
  assert (i ∈ size_candidates processed_files h0 ef cf →
          matches_prefix sha256 m h0 cf i) as Hmp.
  { intros _. split; [rewrite Hpi; by apply truthy_nonempty|].
    apply Exists_exists. exists rc.
    split; [by apply list_elem_of_In|]. by rewrite Hpi, Hpc. }
  assert (i ∈ prefix_candidates sha256 m processed_files h0 ef cf →
          matches_full sha256 m h0
            (library_hashed_in_full sha256 m processed_files h0 ef cf) i)
    as Hmf.
  { intros Hcand. split; [rewrite Hdi; by apply truthy_nonempty|].
    apply Exists_exists. exists rc. split; [|by rewrite Hdi, Hdc].
    apply list_elem_of_In, list_elem_of_filter. split; [|done].
    split; [by rewrite Hhc|].
    split; [rewrite Hpc; by apply truthy_nonempty|].
    apply Exists_exists. exists i.
    split; [by apply list_elem_of_In|]. by rewrite Hpi, Hpc. }
  assert (i ∉ Main.stage1_unique o) as Hn1.
  { rewrite Hs1. intros [Hn _]%list_elem_of_filter. apply Hn.
    apply Exists_exists. exists rc. split; [by apply list_elem_of_In|done]. }
  assert (i ∉ Main.stage2_unique o) as Hn2.
  { rewrite Hs2. intros [Hn Hcand]%list_elem_of_filter. by apply Hn, Hmp. }
  assert (i ∉ Main.stage3_unique o) as Hn3.
  { rewrite Hs3. intros [Hn Hcand]%list_elem_of_filter. by apply Hn, Hmf. }
  split; [done|]. split; [done|]. split; [done|].
  rewrite Hw. destruct (deduplicate_spec hd _ Hnd) as (_ & -> & _).
  intros [_ Hu]%list_elem_of_filter.
  apply elem_of_app in Hu as [?|[?|?]%elem_of_app]; done.
Qed.

(** A datalake with a copy of a library file and a file of its own, both of
    the size of the library file. *)
Definition copies_fs : filesystem := λ path,
  if decide (path = "/lake/a.epub") then Regular [x01; x02; x03]%byte None
  else if decide (path = "/lake/b.epub") then Regular [x04; x05; x06]%byte None
  else if decide (path = "/lib/Author/a.epub")
       then Regular [x01; x02; x03]%byte None
  else Missing.

Definition copies_lake : list Main.FileInfo :=
  [Main.mkFileInfo "/lake/a.epub" "a.epub" "a.epub" 3 ".epub";
   Main.mkFileInfo "/lake/b.epub" "b.epub" "b.epub" 3 ".epub"].

Definition copies_library : list Main.FileInfo :=
  [Main.mkFileInfo "/lib/Author/a.epub" "Author/a.epub" "a.epub" 3 ".epub"].

Lemma toy_digest_nonempty (b : bytes) : toy_digest b ≠ [].
Proof. done. Qed.

Lemma library_copy_not_reported_missing_witness :
  let '(h0, ebooks_files, calibre_files) :=
    Main.discover copies_lake copies_library in
  ∃ o,
    Main.run_analyze toy_digest (Base.mkMachine copies_fs (seq 0))
      example_device false 0 10 ∅ h0 ebooks_files calibre_files = Ok o ∧
    (0%nat ∉ Main.stage1_unique o) ∧ (0%nat ∉ Main.stage2_unique o) ∧
    (0%nat ∉ Main.stage3_unique o) ∧ (0%nat ∉ Main.written o).
Proof.
  apply (library_copy_not_reported_missing toy_digest
           (Base.mkMachine copies_fs (seq 0)) example_device 0 10 ∅
           copies_lake copies_library 0
           (Main.mkFileInfo "/lake/a.epub" "a.epub" "a.epub" 3 ".epub")
           (Main.mkFileInfo "/lib/Author/a.epub" "Author/a.epub" "a.epub" 3
              ".epub")
           [x01; x02; x03]%byte).
  - exact toy_digest_nonempty.
  - intros n. reflexivity.
  - lia.
  - reflexivity.
  - apply list_elem_of_here.
  - reflexivity.
  - reflexivity.
  - reflexivity.
  - apply not_elem_of_empty.
Defined.

(** The copy is left out and the other file is written. *)
Example copies_run :
  let '(h0, ebooks_files, calibre_files) :=
    Main.discover copies_lake copies_library in
  ∃ o,
    Main.run_analyze toy_digest (Base.mkMachine copies_fs (seq 0))
      example_device false 0 10 ∅ h0 ebooks_files calibre_files = Ok o ∧
    Main.written o = [1%nat] ∧ Main.reported o = [].
Proof. vm_compute. eexists. done. Qed.

(** X2.  A datalake file is left out as being in the library only on the
    evidence of a full digest.  In a run without GPU in which every worker
    finishes, a datalake file that is not in the resume set and that no
    stage classifies as unique could be read in full, and some library file
    that is not in the resume set could be read in full and has the same
    digest; moreover some library file has its recorded size and the digest
    of its first 1024 bytes. *)
Theorem excluded_file_has_library_digest (sha256 : bytes → bytes)
    (m : Base.Machine) (dev : Gpu.Device) (threshold workers : Z)
    (processed_files : gset string) (ebooks calibre : list Main.FileInfo)
    (i : nat) (di : Main.FileInfo) :
  (∀ n, Base.as_completed m n ≡ₚ seq 0 n) →
  0 < workers →
  ebooks !! i = Some di →
  Main.info_path di ∉ processed_files →
  let '(h0, ebooks_files, calibre_files) := Main.discover ebooks calibre in
  ∃ o,
    Main.run_analyze sha256 m dev false threshold workers processed_files
      h0 ebooks_files calibre_files = Ok o ∧
    (i ∉ Main.stage1_unique o → i ∉ Main.stage2_unique o →
     i ∉ Main.stage3_unique o →
     (∃ c data_i data_c,
        c ∈ calibre ∧ (Main.info_path c ∉ processed_files) ∧
        bytes_to_hash false (Base.fs m (Main.info_path di)) = Some data_i ∧
        bytes_to_hash false (Base.fs m (Main.info_path c)) = Some data_c ∧
        sha256 data_c = sha256 data_i) ∧
     (∃ c prefix_i prefix_c,
        c ∈ calibre ∧ Main.info_size c = Main.info_size di ∧
        bytes_to_hash true (Base.fs m (Main.info_path di)) = Some prefix_i ∧
        bytes_to_hash true (Base.fs m (Main.info_path c)) = Some prefix_c ∧
        sha256 prefix_c = sha256 prefix_i)).
Proof.
  intros Hcompletes Hworkers Hi Hproc.
  change (Main.discover ebooks calibre) with
    (discovered_heap ebooks calibre, discovered_ebooks ebooks calibre,
     discovered_calibre ebooks calibre).
  set (h0 := discovered_heap ebooks calibre).
  set (ef := discovered_ebooks ebooks calibre).
  set (cf := discovered_calibre ebooks calibre).
  destruct (run_analyze_cpu_spec sha256 m dev threshold workers
              processed_files h0 ef cf Hcompletes Hworkers
              (discovered_fresh ebooks calibre))
    as (o & Hrun & Hs1 & Hs2 & Hs3).
  exists o. split; [done|]. intros Hn1 Hn2 Hn3.
  destruct (discovered_ebooks_lookup ebooks calibre i di Hi) as [Hhi Hin].
  fold h0 in Hhi. fold ef in Hin.
  assert (i ∈ to_process processed_files h0 ef) as Hto.
  { apply list_elem_of_filter. split; [by rewrite Hhi|done]. }
  assert (i ∈ size_candidates processed_files h0 ef cf) as Hsc.
  { apply list_elem_of_filter. split; [|done].
    destruct (decide (shares_size h0 cf i)) as [|Hn]; [done|].
    exfalso. apply Hn1. rewrite Hs1. by apply list_elem_of_filter. }
  assert (matches_prefix sha256 m h0 cf i) as Hmp.
  { destruct (decide (matches_prefix sha256 m h0 cf i)) as [|Hn]; [done|].
    exfalso. apply Hn2. rewrite Hs2. by apply list_elem_of_filter. }
  assert (i ∈ prefix_candidates sha256 m processed_files h0 ef cf) as Hpc
    by (by apply list_elem_of_filter).
  assert (matches_full sha256 m h0
            (library_hashed_in_full sha256 m processed_files h0 ef cf) i)
    as Hmf.
  { destruct (decide (matches_full sha256 m h0
        (library_hashed_in_full sha256 m processed_files h0 ef cf) i))
      as [|Hn]; [done|].
    exfalso. apply Hn3. rewrite Hs3. by apply list_elem_of_filter. }
  assert (full_path (h0 i) = Main.info_path di ∧
          size_of (h0 i) = Main.info_size di) as [Hpi Hzi]
    by (by rewrite Hhi).
  split.
  - destruct Hmf as [Ht (rc & Hrc & Hd)%Exists_exists].
    apply list_elem_of_In in Hrc.
    apply list_elem_of_filter in Hrc as [(Hnp & _) Hrc].
    destruct (discovered_calibre_elem ebooks calibre rc Hrc)
      as (_ & c & Hc & Hhc).
    fold h0 in Hhc.
    assert (full_path (h0 rc) = Main.info_path c) as Hpc' by (by rewrite Hhc).
    unfold full_digest in Ht, Hd. rewrite Hpi in Ht, Hd. rewrite Hpc' in Hd.
    destruct (truthy_digest _ _ _ Ht) as (data_i & Hbi & Hdi).
    rewrite Hdi in Hd.
    assert (truthy (digest_or_sentinel sha256 false
                      (Base.fs m (Main.info_path c))) = true) as Htc
      by (by rewrite Hd, <- Hdi).
    destruct (truthy_digest _ _ _ Htc) as (data_c & Hbc & Hdc).
    exists c, data_i, data_c. rewrite <- Hpc'. split; [done|].
    split; [done|]. rewrite Hpc'. split; [done|]. split; [done|]. congruence.
  - destruct Hmp as [Ht (rc & Hrc & Hsz & Hd)%Exists_exists].
    apply list_elem_of_In in Hrc.
    destruct (discovered_calibre_elem ebooks calibre rc Hrc)
      as (_ & c & Hc & Hhc).
    fold h0 in Hhc.
    assert (full_path (h0 rc) = Main.info_path c ∧
            size_of (h0 rc) = Main.info_size c) as [Hpc' Hzc]
      by (by rewrite Hhc).
    unfold prefix_digest in Ht, Hd. rewrite Hpi in Ht, Hd. rewrite Hpc' in Hd.
    destruct (truthy_digest _ _ _ Ht) as (prefix_i & Hbi & Hdi).
    rewrite Hdi in Hd.
    assert (truthy (digest_or_sentinel sha256 true
                      (Base.fs m (Main.info_path c))) = true) as Htc
      by (by rewrite Hd, <- Hdi).
    destruct (truthy_digest _ _ _ Htc) as (prefix_c & Hbc & Hdc).
    exists c, prefix_i, prefix_c. split; [done|].
    split; [congruence|]. split; [done|]. split; [done|]. congruence.
Qed.

Lemma excluded_file_has_library_digest_witness :
  let '(h0, ebooks_files, calibre_files) :=
    Main.discover copies_lake copies_library in
  ∃ o,
    Main.run_analyze toy_digest (Base.mkMachine copies_fs (seq 0))
      example_device false 0 10 ∅ h0 ebooks_files calibre_files = Ok o ∧
    (0%nat ∉ Main.stage1_unique o → 0%nat ∉ Main.stage2_unique o →
     0%nat ∉ Main.stage3_unique o →
     (∃ c data_i data_c,
        c ∈ copies_library ∧ (Main.info_path c ∉ (∅ : gset string)) ∧
        bytes_to_hash false (copies_fs "/lake/a.epub") = Some data_i ∧
        bytes_to_hash false (copies_fs (Main.info_path c)) = Some data_c ∧
        toy_digest data_c = toy_digest data_i) ∧
     (∃ c prefix_i prefix_c,
        c ∈ copies_library ∧ Main.info_size c = 3 ∧
        bytes_to_hash true (copies_fs "/lake/a.epub") = Some prefix_i ∧
        bytes_to_hash true (copies_fs (Main.info_path c)) = Some prefix_c ∧
        toy_digest prefix_c = toy_digest prefix_i)).
Proof.
  apply (excluded_file_has_library_digest toy_digest
           (Base.mkMachine copies_fs (seq 0)) example_device 0 10 ∅
           copies_lake copies_library 0
           (Main.mkFileInfo "/lake/a.epub" "a.epub" "a.epub" 3 ".epub")).
  - intros n. reflexivity.
  - lia.
  - reflexivity.
  - apply not_elem_of_empty.
Defined.

(** X3.  A datalake file that cannot be read is kept.  In a run without GPU in
    which every worker finishes, a datalake file that is not in the resume
    set and cannot be opened, or cannot be read to its end, is classified
    unique by one of the three stages, whatever the library holds. *)
Theorem unreadable_file_is_classified_unique (sha256 : bytes → bytes)
    (m : Base.Machine) (dev : Gpu.Device) (threshold workers : Z)
    (processed_files : gset string) (ebooks calibre : list Main.FileInfo)
    (i : nat) (di : Main.FileInfo) :
  (∀ n, Base.as_completed m n ≡ₚ seq 0 n) →
  0 < workers →
  ebooks !! i = Some di →
  Main.info_path di ∉ processed_files →
  bytes_to_hash false (Base.fs m (Main.info_path di)) = None →
  let '(h0, ebooks_files, calibre_files) := Main.discover ebooks calibre in
  ∃ o,
    Main.run_analyze sha256 m dev false threshold workers processed_files
      h0 ebooks_files calibre_files = Ok o ∧
    (i ∈ Main.stage1_unique o ∨ i ∈ Main.stage2_unique o ∨
     i ∈ Main.stage3_unique o).
Proof.
  intros Hcompletes Hworkers Hi Hproc Hbad.
  change (Main.discover ebooks calibre) with
    (discovered_heap ebooks calibre, discovered_ebooks ebooks calibre,
     discovered_calibre ebooks calibre).
  set (h0 := discovered_heap ebooks calibre).
  set (ef := discovered_ebooks ebooks calibre).
  set (cf := discovered_calibre ebooks calibre).
  destruct (run_analyze_cpu_spec sha256 m dev threshold workers
              processed_files h0 ef cf Hcompletes Hworkers
              (discovered_fresh ebooks calibre))
    as (o & Hrun & Hs1 & Hs2 & Hs3).
  exists o. split; [done|].
  destruct (discovered_ebooks_lookup ebooks calibre i di Hi) as [Hhi Hin].
  fold h0 in Hhi. fold ef in Hin.
  assert (i ∈ to_process processed_files h0 ef) as Hto.
  { apply list_elem_of_filter. split; [by rewrite Hhi|done]. }
  rewrite Hs1, Hs2, Hs3.
  destruct (decide (shares_size h0 cf i)) as [Hss|Hss];
    [|left; by apply list_elem_of_filter].
  assert (i ∈ size_candidates processed_files h0 ef cf) as Hsc
    by (by apply list_elem_of_filter).
  right.
  destruct (decide (matches_prefix sha256 m h0 cf i)) as [Hmp|Hmp];
    [|left; by apply list_elem_of_filter].
  right. apply list_elem_of_filter. split; [|by apply list_elem_of_filter].
  intros [Ht _]. unfold full_digest, digest_or_sentinel in Ht.
  rewrite Hhi in Ht. simpl in Ht. by rewrite Hbad in Ht.
Qed.

(** A datalake file that is gone by the time it is hashed, with a library
    file of its recorded size. *)
Definition vanished_lake : list Main.FileInfo :=
  [Main.mkFileInfo "/lake/gone.epub" "gone.epub" "gone.epub" 3 ".epub"].

Lemma unreadable_file_is_classified_unique_witness :
  let '(h0, ebooks_files, calibre_files) :=
    Main.discover vanished_lake copies_library in
  ∃ o,
    Main.run_analyze toy_digest (Base.mkMachine copies_fs (seq 0))
      example_device false 0 10 ∅ h0 ebooks_files calibre_files = Ok o ∧
    (0%nat ∈ Main.stage1_unique o ∨ 0%nat ∈ Main.stage2_unique o ∨
     0%nat ∈ Main.stage3_unique o).
Proof.
  apply (unreadable_file_is_classified_unique toy_digest
           (Base.mkMachine copies_fs (seq 0)) example_device 0 10 ∅
           vanished_lake copies_library 0
           (Main.mkFileInfo "/lake/gone.epub" "gone.epub" "gone.epub" 3
              ".epub")).
  - intros n. reflexivity.
  - lia.
  - reflexivity.
  - apply not_elem_of_empty.
  - reflexivity.
Defined.

(** The file that is gone is written to the output, as unique by prefix
    hash. *)
Example vanished_run :
  let '(h0, ebooks_files, calibre_files) :=
    Main.discover vanished_lake copies_library in
  ∃ o,
    Main.run_analyze toy_digest (Base.mkMachine copies_fs (seq 0))
      example_device false 0 10 ∅ h0 ebooks_files calibre_files = Ok o ∧
    Main.stage2_unique o = [0%nat] ∧ Main.written o = [0%nat].
Proof. vm_compute. eexists. done. Qed.

(** ** Runs that need no hashing *)

(** X4.  When no datalake file has the size of a library file (an empty library
    is the extreme case), a run hashes nothing: it returns, whatever the
    number of workers and with or without GPU, no [hash_batch] call is
    made, every file that is not in the resume set is unique by size, the
    later stages find nothing, and no record carries a hash at the end. *)
Theorem no_size_collision_no_hashing (sha256 : bytes → bytes)
    (m : Base.Machine) (dev : Gpu.Device) (use_gpu : bool)
    (threshold workers : Z) (processed_files : gset string)
    (ebooks calibre : list Main.FileInfo) :
  (∀ d c, d ∈ ebooks → c ∈ calibre → Main.info_size d ≠ Main.info_size c) →
  let '(h0, ebooks_files, calibre_files) := Main.discover ebooks calibre in
  ∃ o,
    Main.run_analyze sha256 m dev use_gpu threshold workers processed_files
      h0 ebooks_files calibre_files = Ok o ∧
    Main.hash_calls o = [] ∧
    Main.stage2_unique o = [] ∧ Main.stage3_unique o = [] ∧
    (∀ r, r ∈ Main.stage1_unique o ↔
          ∃ d, ebooks !! r = Some d ∧ Main.info_path d ∉ processed_files) ∧
    (∀ r, first_1k_hash (Main.final_store o r) = None ∧
          full_hash (Main.final_store o r) = None).
Proof.
  intros Hsizes.
  change (Main.discover ebooks calibre) with
    (discovered_heap ebooks calibre, discovered_ebooks ebooks calibre,
     discovered_calibre ebooks calibre).
  set (h0 := discovered_heap ebooks calibre).
  set (ef := discovered_ebooks ebooks calibre).
  set (cf := discovered_calibre ebooks calibre).
  unfold Main.run_analyze.
  destruct (Preprocessing.preprocess_files _ _ _ _ _) as [h1 cat] eqn:Hpre.
  apply preprocess_files_spec in Hpre as (Hg & Hc & _ & Hh1).
  cbn [default] in Hg, Hc, Hh1.
  assert (evolves nowhere nowhere anywhere nowhere h0 h1) as Hev1.
  { intros r. rewrite Hh1. destruct (decide _); repeat split; done. }
  set (ftp := Preprocessing.cat_gpu cat ++ Preprocessing.cat_cpu cat).
  assert (∀ r, r ∈ ftp ↔ r ∈ ef ∧ full_path (h0 r) ∉ processed_files) as Hftp.
  { intros r. unfold ftp. rewrite elem_of_app, Hg, Hc, !list_elem_of_filter.
    unfold assigned_method.
    destruct (Preprocessing.use_gpu _ _ _); split; try tauto. }
  destruct (Main.add_files empty_collection h1 ftp) as [ec h2] eqn:Hec.
  apply add_files_spec in Hec as (Hfe & Hco2 & _). simpl in Hfe.
  destruct (Main.add_files empty_collection h2 cf) as [cc h3] eqn:Hcc.
  apply add_files_spec in Hcc as (Hfc & Hco3 & Hdom). simpl in Hfc.
  assert (evolves nowhere nowhere anywhere nowhere h0 h2) as Hev2.
  { eapply evolves_trans; [exact Hev1|]. eapply cache_only_any; eassumption. }
  assert (evolves nowhere nowhere anywhere nowhere h0 h3) as Hev3.
  { eapply evolves_trans; [exact Hev2|]. eapply cache_only_any; eassumption. }
  unfold Stage1.compare.
  destruct (Stage1.compare_loop _ _ _ _ _) as [[h4 s1] c2] eqn:H1.
  apply stage1_loop in H1 as (Hs1 & Hc2 & Hfr4 & _).
  rewrite Hfe in Hs1, Hc2. simpl in Hs1, Hc2.
  assert (∀ r, r ∈ ftp → size_of (h3 r) ∉ get_unique_sizes cc) as Hnone.
  { intros r [Hr _]%Hftp. unfold get_unique_sizes. rewrite Hdom.
    intros [Hin|(c & Hc' & Heq)]; [by apply not_elem_of_empty in Hin|].
    destruct (discovered_ebooks_elem ebooks calibre r Hr) as [d Hd].
    destruct (discovered_ebooks_lookup ebooks calibre r d Hd) as [Hhr _].
    destruct (discovered_calibre_elem ebooks calibre c Hc')
      as (_ & dc & Hdc & Hhc).
    fold h0 in Hhr, Hhc.
    destruct (Hev3 r) as (_ & _ & _ & Hsr & _).
    destruct (Hev2 c) as (_ & _ & _ & Hsc & _).
    rewrite Hsr, Hhr in Heq. rewrite Hsc, Hhc in Heq.
    apply (Hsizes d dc); [by eapply list_elem_of_lookup_2|done|done]. }
  assert (c2 = []) as ->.
  { rewrite Hc2. apply filter_none. intros r Hr Hin. by apply (Hnone r Hr). }
  assert (s1 = ftp) as ->.
  { rewrite Hs1. by apply filter_all. }
  cbn [Main.stage2_block Main.stage3_block mbind result_bind app].
  eexists. split; [reflexivity|]. cbn.
  split; [done|]. split; [done|]. split; [done|]. split.
  - intros r. rewrite Hftp. split.
    + intros [Hr Hp].
      destruct (discovered_ebooks_elem ebooks calibre r Hr) as [d Hd].
      exists d. split; [done|].
      destruct (discovered_ebooks_lookup ebooks calibre r d Hd) as [Hhr _].
      fold h0 in Hhr. by rewrite Hhr in Hp.
    + intros (d & Hd & Hp).
      destruct (discovered_ebooks_lookup ebooks calibre r d Hd) as [Hhr Hr].
      fold h0 in Hhr. split; [done|]. by rewrite Hhr.
  - intros r. rewrite app_nil_r.
    assert (∀ l, cache_only h4 (Main.dedup_store (Main.deduplicate h4 l)))
      as Hded.
    { intros l. unfold Main.deduplicate.
      assert (∀ s, cache_only h4 (Main.dedup_store s) →
                cache_only h4 (Main.dedup_store (fold_left Main.dedup_step l s)))
        as Hfold.
      { induction l as [|x l IH]; intros s Hs; [done|]. simpl. apply IH.
        unfold Main.dedup_step.
        pose proof (get_size_hash_cache_only (Main.dedup_store s) x) as Hx.
        destruct (populated (full_hash (Main.dedup_store s x)));
          [destruct (Main.seen_hashes s !! _); exact Hs|].
        destruct (populated (first_1k_hash (Main.dedup_store s x)));
          destruct (get_size_hash (Main.dedup_store s) x) as [sz hx];
          simpl in Hx.
        - destruct (Main.seen_size_1k s !! _); simpl;
            by eapply evolves_trans.
        - destruct (Main.seen_sizes s !! _); simpl;
            by eapply evolves_trans. }
      apply Hfold. apply evolves_refl. }
    destruct (cache_only_fields _ _ (Hded ftp) r) as (_ & -> & ->).
    destruct (Hfr4 r) as (_ & _ & _ & _ & -> & -> & _).
    destruct (cache_only_fields _ _
                (evolves_trans _ _ _ _ _ _ _ Hco2 Hco3) r) as (_ & -> & ->).
    rewrite Hh1. destruct (discovered_fresh ebooks calibre r) as [Hk Hf].
    fold h0 in Hk, Hf. by destruct (decide _).
Qed.

Lemma no_size_collision_no_hashing_witness :
  let '(h0, ebooks_files, calibre_files) := Main.discover strangers_lake [] in
  ∃ o,
    Main.run_analyze toy_digest (Base.mkMachine strangers_fs (seq 0))
      example_device true 0 0 ∅ h0 ebooks_files calibre_files = Ok o ∧
    Main.hash_calls o = [] ∧
    Main.stage2_unique o = [] ∧ Main.stage3_unique o = [] ∧
    (∀ r, r ∈ Main.stage1_unique o ↔
          ∃ d, strangers_lake !! r = Some d ∧
               Main.info_path d ∉ (∅ : gset string)) ∧
    (∀ r, first_1k_hash (Main.final_store o r) = None ∧
          full_hash (Main.final_store o r) = None).
Proof.
  apply (no_size_collision_no_hashing toy_digest
           (Base.mkMachine strangers_fs (seq 0)) example_device true 0 0 ∅
           strangers_lake []).
  intros d c _ Hc. by apply not_elem_of_nil in Hc.
Defined.

(** ** What a run writes *)

(** X5.  The output and the duplicates report of a run account for the unique
    lists.  A run with at least one worker returns; it writes each record
    at most once, and only datalake files that are not in the resume set;
    the output and the report together have as many entries as the three
    unique lists; and every row of the report is about a datalake file
    that is not written, outside the resume set, and names as original a
    datalake file that is written. *)
Theorem run_output_accounting (sha256 : bytes → bytes)
    (m : Base.Machine) (dev : Gpu.Device) (use_gpu : bool)
    (threshold workers : Z) (processed_files : gset string)
    (ebooks calibre : list Main.FileInfo) :
  0 < workers →
  let '(h0, ebooks_files, calibre_files) := Main.discover ebooks calibre in
  ∃ o,
    Main.run_analyze sha256 m dev use_gpu threshold workers processed_files
      h0 ebooks_files calibre_files = Ok o ∧
    NoDup (Main.written o) ∧
    (∀ r, r ∈ Main.written o →
          ∃ d, ebooks !! r = Some d ∧ Main.info_path d ∉ processed_files) ∧
    (length (Main.written o) + length (Main.reported o) =
       length (Main.stage1_unique o) + length (Main.stage2_unique o) +
       length (Main.stage3_unique o))%nat ∧
    (∀ row, row ∈ Main.reported o →
       ∃ r r0 d d0,
         ebooks !! r = Some d ∧ ebooks !! r0 = Some d0 ∧
         (r ∉ Main.written o) ∧ r0 ∈ Main.written o ∧
         (Main.info_path d ∉ processed_files) ∧
         Main.duplicate_path row = Main.info_path d ∧
         Main.original_path row = Main.info_path d0 ∧
         Main.dup_size row = Main.info_size d ∧
         Main.dup_filename row = Main.info_name d).
Proof.
  intros Hworkers.
  change (Main.discover ebooks calibre) with
    (discovered_heap ebooks calibre, discovered_ebooks ebooks calibre,
     discovered_calibre ebooks calibre).
  set (h0 := discovered_heap ebooks calibre).
  set (ef := discovered_ebooks ebooks calibre).
  set (cf := discovered_calibre ebooks calibre).
  destruct (run_analyze_spec sha256 m dev use_gpu threshold workers
              processed_files h0 ef cf Hworkers
              (NoDup_discovered_ebooks ebooks calibre))
    as (o & hd & Hrun & Hs1 & Hs23 & Hnd & Hev & Hw & Hr).
  exists o. split; [done|].
  set (U := Main.stage1_unique o ++ Main.stage2_unique o ++ Main.stage3_unique o)
    in *.
  assert (∀ r, r ∈ U →
            ∃ d, ebooks !! r = Some d ∧ (Main.info_path d ∉ processed_files) ∧
                 full_path (hd r) = Main.info_path d ∧
                 file_size (hd r) = Main.info_size d ∧
                 filename (hd r) = Main.info_name d) as HU.
  { intros r Hr'.
    assert (r ∈ files_to_process use_gpu threshold processed_files h0 ef)
      as Hto.
    { unfold U in Hr'. apply elem_of_app in Hr' as [Hr'|Hr'].
      - rewrite Hs1 in Hr'. by apply list_elem_of_filter in Hr' as [_ ?].
      - by apply Hs23. }
    assert (r ∈ ef ∧ full_path (h0 r) ∉ processed_files) as [Hin Hp].
    { unfold files_to_process, category in Hto.
      apply elem_of_app in Hto as [Hto|Hto];
        apply list_elem_of_filter in Hto as [[? _] ?]; done. }
    destruct (discovered_ebooks_elem ebooks calibre r Hin) as [d Hd].
    destruct (discovered_ebooks_lookup ebooks calibre r d Hd) as [Hhr _].
    fold h0 in Hhr. exists d. split; [done|].
    destruct (Hev r) as (Hpath & Hname & Hsize & _).
    rewrite Hpath, Hname, Hsize, Hhr. rewrite Hhr in Hp. done. }
  destruct (deduplicate_spec hd U Hnd) as (_ & Hwf & _).
  pose proof (deduplicate_lengths hd U Hnd) as Hlen.
  pose proof (duplicates_report_rows hd U Hnd) as Hrows.
  rewrite <- Hw, <- Hr in Hlen, Hrows. rewrite <- Hw in Hwf.
  split; [rewrite Hwf; by apply list.NoDup_filter|]. split; [|split].
  - intros r Hr'. rewrite Hwf in Hr'.
    apply list_elem_of_filter in Hr' as [_ Hr'].
    destruct (HU r Hr') as (d & Hd & Hp & _). by exists d.
  - rewrite Hlen. unfold U. rewrite !length_app. lia.
  - intros row Hrow.
    destruct (Hrows row Hrow) as (r & r0 & Hin & Hnw & Hin0 & _ & ->).
    assert (r0 ∈ U) as Hin0'
      by (rewrite Hwf in Hin0; by apply list_elem_of_filter in Hin0 as [_ ?]).
    destruct (HU r Hin) as (d & Hd & Hp & Hpath & Hsize & Hname).
    destruct (HU r0 Hin0') as (d0 & Hd0 & _ & Hpath0 & _).
    exists r, r0, d, d0. unfold Main.report_row. simpl.
    rewrite Hpath, Hpath0, Hsize, Hname. done.
Qed.

Lemma run_output_accounting_witness :
  let '(h0, ebooks_files, calibre_files) :=
    Main.discover twins_lake twins_library in
  ∃ o,
    Main.run_analyze toy_digest (Base.mkMachine twins_fs (seq 0))
      example_device false 0 10 ∅ h0 ebooks_files calibre_files = Ok o ∧
    NoDup (Main.written o) ∧
    (∀ r, r ∈ Main.written o →
          ∃ d, twins_lake !! r = Some d ∧
               Main.info_path d ∉ (∅ : gset string)) ∧
    (length (Main.written o) + length (Main.reported o) =
       length (Main.stage1_unique o) + length (Main.stage2_unique o) +
       length (Main.stage3_unique o))%nat ∧
    (∀ row, row ∈ Main.reported o →
       ∃ r r0 d d0,
         twins_lake !! r = Some d ∧ twins_lake !! r0 = Some d0 ∧
         (r ∉ Main.written o) ∧ r0 ∈ Main.written o ∧
         (Main.info_path d ∉ (∅ : gset string)) ∧
         Main.duplicate_path row = Main.info_path d ∧
         Main.original_path row = Main.info_path d0 ∧
         Main.dup_size row = Main.info_size d ∧
         Main.dup_filename row = Main.info_name d).
Proof.
  apply (run_output_accounting toy_digest (Base.mkMachine twins_fs (seq 0))
           example_device false 0 10 ∅ twins_lake twins_library).
  lia.
Defined.

(** ** The CSV handler *)

Section csv_writing.
Import CsvHandler.
Variable h : heap.

(** The rows written for a list of records when the clock has been read
    [t0] times. *)
Definition rows_of (clock : nat → string) (t0 : nat) (l : list ref) : list Line :=
  imap (λ i r, DataLine (to_dict (h r) (clock (t0 + i)%nat))) l.

(** The writer accepts the row of each of these records, whatever the time
    it is stamped with. *)
Definition rows_accepted (d : Disk) (l : list ref) : Prop :=
  ∀ r t, r ∈ l → write_error d (DataLine (to_dict (h r) t)) = None.

(** Two states of the disk differ in the files and the time only. *)
Definition same_surroundings (d d0 : Disk) : Prop :=
  unwritable d = unwritable d0 ∧ unstatable d = unstatable d0 ∧
  write_error d = write_error d0 ∧ now d = now d0.

Lemma rows_of_app clock t0 l1 l2 :
  rows_of clock t0 (l1 ++ l2) =
  rows_of clock t0 l1 ++ rows_of clock (t0 + length l1) l2.
Proof.
  unfold rows_of. rewrite imap_app. f_equal.
  apply imap_ext. intros i r _. simpl. do 3 f_equal. lia.
Qed.

Lemma rows_of_take_drop clock t0 k l :
  (k ≤ length l)%nat →
  rows_of clock t0 l =
  rows_of clock t0 (take k l) ++ rows_of clock (t0 + k) (drop k l).
Proof.
  intros Hk. rewrite <- (take_drop k l) at 1.
  by rewrite rows_of_app, length_take_le.
Qed.

Lemma rows_accepted_mono d l l' :
  l' ⊆ l → rows_accepted d l → rows_accepted d l'.
Proof. intros Hsub Hacc r t Hr. apply Hacc. by apply Hsub. Qed.

(** The loop of [_flush_buffer] on rows the writer accepts. *)
Lemma write_rows_spec path todo : ∀ d,
  rows_accepted d todo →
  ∃ d', write_rows h path todo d = Ok d' ∧
        same_surroundings d' d ∧
        ticks d' = (ticks d + length todo)%nat ∧
        (∀ p, p ≠ path → content d' !! p = content d !! p) ∧
        (content d' !! path =
           Some (default [] (content d !! path) ++
                 rows_of (now d) (ticks d) todo) ∨
         (todo = [] ∧ content d' !! path = content d !! path)).
Proof.
  induction todo as [|file rest IH]; intros d Hacc.
  { exists d. split; [done|]. split; [done|]. split; [simpl; lia|].
    split; [done|]. by right. }
  cbn [write_rows read_clock]. unfold write_line. cbn [write_error].
  rewrite (Hacc file (now d (ticks d))) by apply list_elem_of_here.
  cbn [mbind result_bind].
  set (d2 := with_content _ _).
  destruct (IH d2) as (d' & Hrun & (Hu & Hs & He & Hn) & Ht & Hother & Hc).
  { intros r t Hr. unfold d2. cbn. apply Hacc. by apply list_elem_of_further. }
  exists d'. split; [done|]. split; [done|].
  split; [rewrite Ht; unfold d2; cbn; lia|]. split.
  - intros p Hp. rewrite Hother by done. unfold d2, with_content. cbn.
    by rewrite lookup_insert_ne.
  - left. destruct Hc as [Hc|[-> Hc]]; rewrite Hc.
    + unfold d2, with_content. cbn. rewrite lookup_insert_eq. cbn.
      rewrite <- app_assoc. do 2 f_equal. unfold rows_of. cbn.
      rewrite Nat.add_0_r. f_equal.
      apply imap_ext. intros i r _. cbn. do 3 f_equal. lia.
    + unfold d2, with_content. cbn. rewrite lookup_insert_eq.
      unfold rows_of. cbn. by rewrite Nat.add_0_r.
Qed.

(** A handler is given its records in a number of batches. *)
Fixpoint write_batches (self : CSVHandler) (batches : list (list ref))
    (d : Disk) : result (CSVHandler * Disk) :=
  match batches with
  | [] => Ok (self, d)
  | files :: later =>
      '(self1, d1) ← write_batch self files h d;
      write_batches self1 later d1
  end.

(** The lines a file starts with once the header is taken care of: what it
    had, or the header line. *)
Definition base_lines (d0 : Disk) (path : string) : list Line :=
  if has_lines d0 path then default [] (content d0 !! path)
  else [HeaderLine].

(** The state of a handler made for [path] on the disk [d0], after it was
    given the records [given]: nothing happened as long as it was given
    none; then the header is settled, the first [k] records are in the
    file and the others in the buffer. *)
Definition csv_inv (path : string) (bs : Z) (d0 : Disk) (given : list ref)
    (self : CSVHandler) (d : Disk) : Prop :=
  csv_path self = path ∧ batch_size self = bs ∧
  same_surroundings d d0 ∧
  (∀ p, p ≠ path → content d !! p = content d0 !! p) ∧
  match given with
  | [] =>
      _buffer self = [] ∧ _header_written self = false ∧
      content d !! path = content d0 !! path ∧ ticks d = ticks d0
  | _ :: _ =>
      ∃ k, (k ≤ length given)%nat ∧ _header_written self = true ∧
           _buffer self = drop k given ∧ ticks d = (ticks d0 + k)%nat ∧
           content d !! path =
             Some (base_lines d0 path ++
                   rows_of (now d0) (ticks d0) (take k given))
  end.

(** What the disk has to allow for the handler of [path] to write the
    records [given]: the path can be tested, opened and written, and the
    writer accepts the header line and the row of each record. *)
Definition lets_write (d0 : Disk) (path : string) (given : list ref) : Prop :=
  (path ∉ unwritable d0) ∧ (path ∉ unstatable d0) ∧
  write_error d0 HeaderLine = None ∧ rows_accepted d0 given.

Lemma lets_write_mono d0 path l l' :
  l' ⊆ l → lets_write d0 path l → lets_write d0 path l'.
Proof.
  intros Hsub (? & ? & ? & Hacc). repeat (split; [done|]).
  by apply (rows_accepted_mono d0 l).
Qed.

Lemma flush_buffer_inv path bs d0 given self d :
  lets_write d0 path given → given ≠ [] →
  csv_inv path bs d0 given self d →
  ∃ self' d',
    _flush_buffer self h d = Ok (self', d') ∧
    csv_inv path bs d0 given self' d' ∧ _buffer self' = [].
Proof.
  intros (Hw & _ & _ & Hacc) Hne (Hp & Hbs & (Hu & Hs & He & Hn) & Hother & Hgiven).
  destruct given as [|g0 gs]; [done|].
  destruct Hgiven as (k & Hk & Hhw & Hbuf & Ht & Hc).
  unfold _flush_buffer. destruct (_buffer self) as [|b0 b] eqn:Eb.
  { exists self, d. split; [done|]. split; [|done].
    repeat split; try done. exists k. by rewrite Eb. }
  unfold open_a. rewrite Hp, Hu, decide_False by done.
  cbn [mbind result_bind]. rewrite <- Eb in Hbuf |- *.
  set (d1 := with_content d _).
  assert (content d1 !! path = content d !! path) as Hc1.
  { unfold d1, with_content. simpl. rewrite lookup_insert_eq, Hc. done. }
  destruct (write_rows_spec path (_buffer self) d1)
    as (d2 & -> & (Hu' & Hs' & He' & Hn') & Ht' & Ho' & Hr).
  { intros r t Hr. unfold d1. cbn. rewrite He. apply Hacc.
    rewrite Hbuf in Hr. by apply (subseteq_drop k (g0 :: gs)). }
  cbn [mbind result_bind].
  eexists _, _. split; [reflexivity|].
  split; [|done]. split; [done|]. split; [done|].
  split.
  { split; [by rewrite Hu'|]. split; [by rewrite Hs'|].
    split; [by rewrite He'|by rewrite Hn']. }
  split.
  - intros p Hpne. rewrite Ho' by done. unfold d1, with_content. simpl.
    rewrite lookup_insert_ne by done. by apply Hother.
  - exists (length (g0 :: gs)). split; [done|]. split; [done|].
    split; [by rewrite drop_all|].
    assert (length (_buffer self) = (length (g0 :: gs) - k)%nat) as Hlen
      by (by rewrite Hbuf, length_drop).
    split; [rewrite Ht', Hlen; unfold d1; simpl; rewrite Ht; simpl in Hk; lia|].
    destruct Hr as [Hr|[Hnil _]]; [|by rewrite Eb in Hnil].
    rewrite Hr, Hc1, Hc. cbn [default from_option id]. f_equal.
    rewrite <- app_assoc. f_equal.
    rewrite firstn_all.
    rewrite (rows_of_take_drop _ _ k (g0 :: gs)) by done.
    f_equal. rewrite Hbuf. unfold d1. cbn [now ticks with_content].
    by rewrite Hn, Ht.
Qed.

Lemma has_lines_same (d d' : Disk) (path : string) :
  content d !! path = content d' !! path →
  has_lines d path = has_lines d' path.
Proof. unfold has_lines. by intros ->. Qed.

(** On a path that can be tested, [has_content] is true exactly for a file
    that has a line. *)
Lemma has_content_spec (d : Disk) (path : string) :
  path ∉ unstatable d → has_content d path = Ok (has_lines d path).
Proof.
  intros Hs. unfold has_content, exists_. rewrite decide_False by done.
  cbn [mbind result_bind]. f_equal. unfold has_lines.
  destruct (content d !! path) as [[|l ls]|] eqn:Hc.
  - apply andb_false_r.
  - rewrite bool_decide_eq_true_2; [done|by eexists].
  - apply andb_false_r.
Qed.

Lemma write_batch_inv path bs d0 given self d files :
  lets_write d0 path (given ++ files) →
  csv_inv path bs d0 given self d →
  ∃ self' d',
    write_batch self files h d = Ok (self', d') ∧
    csv_inv path bs d0 (given ++ files) self' d'.
Proof.
  intros Hlets Hinv. unfold write_batch.
  destruct files as [|f0 fs]; [exists self, d; by rewrite app_nil_r|].
  assert (f0 :: fs ≠ []) as Hne by done.
  revert Hne Hlets. generalize (f0 :: fs). clear f0 fs. intros files Hne Hlets.
  pose proof Hlets as (Hw & Hst & Hhead & Hacc).
  destruct Hinv as (Hp & Hbs & (Hu & Hs & He & Hn) & Hother & Hgiven).
  (* the header *)
  assert (∃ self1 d1,
    write_header self d = Ok (self1, d1) ∧
    csv_path self1 = path ∧ batch_size self1 = bs ∧
    same_surroundings d1 d0 ∧
    (∀ p, p ≠ path → content d1 !! p = content d0 !! p) ∧
    ∃ k, (k ≤ length given)%nat ∧ _header_written self1 = true ∧
         _buffer self1 = drop k given ∧ ticks d1 = (ticks d0 + k)%nat ∧
         content d1 !! path =
           Some (base_lines d0 path ++
                 rows_of (now d0) (ticks d0) (take k given)))
    as (self1 & d1 & Hwh & Hp1 & Hbs1 & Hsame1 & Hother1 & k & Hk & Hhw1 &
        Hbuf1 & Ht1 & Hc1).
  { unfold write_header. destruct given as [|g0 gs].
    - destruct Hgiven as (Hbuf & Hhw & Hc & Ht). rewrite Hhw, Hp.
      rewrite has_content_spec by (by rewrite Hs).
      cbn [mbind result_bind].
      rewrite (has_lines_same d d0 path Hc). unfold base_lines.
      destruct (has_lines d0 path) eqn:Hhas.
      + eexists _, _. split; [reflexivity|]. repeat (split; [done|]).
        exists 0%nat. split; [done|]. split; [done|]. split; [done|].
        split; [by rewrite Nat.add_0_r|].
        rewrite Hc. unfold has_lines in Hhas.
        destruct (content d0 !! path) as [[|l0 ls]|]; try done.
        by rewrite app_nil_r.
      + unfold open_w. rewrite Hu, decide_False by done.
        cbn [mbind result_bind]. unfold write_line. cbn [write_error with_content].
        rewrite He, Hhead. cbn [mbind result_bind].
        eexists _, _. split; [reflexivity|].
        unfold with_content. cbn.
        repeat (split; [done|]). split.
        * intros p Hpne. rewrite !lookup_insert_ne by done. by apply Hother.
        * exists 0%nat. split; [done|]. split; [done|]. split; [done|].
          split; [by rewrite Nat.add_0_r|].
          by rewrite !lookup_insert_eq.
    - destruct Hgiven as (k & Hk & Hhw & Hbuf & Ht & Hc). rewrite Hhw.
      eexists _, _. split; [reflexivity|]. repeat (split; [done|]).
      by exists k. }
  rewrite Hwh. cbn [mbind result_bind].
  set (self2 := with_buffer self1 (_buffer self1 ++ files)).
  assert (csv_inv path bs d0 (given ++ files) self2 d1) as Hinv2.
  { repeat (split; [done|]).
    destruct (given ++ files) as [|x xs] eqn:Egf.
    { apply app_eq_nil in Egf as [_ ?]. done. }
    rewrite <- Egf. exists k. split; [rewrite length_app; lia|].
    split; [done|]. split; [|split; [done|]].
    - unfold self2. cbn. rewrite Hbuf1. by rewrite drop_app_le.
    - by rewrite take_app_le. }
  destruct (decide (Z.of_nat (length (_buffer self2)) >= batch_size self2)).
  - destruct (flush_buffer_inv path bs d0 (given ++ files) self2 d1 Hlets)
      as (self3 & d3 & Hf & Hinv3 & _); [|done|].
    { intros [_ ?]%app_eq_nil. done. }
    by exists self3, d3.
  - by exists self2, d1.
Qed.

Lemma write_batches_inv path bs d0 batches : ∀ given self d,
  lets_write d0 path (given ++ concat batches) →
  csv_inv path bs d0 given self d →
  ∃ self' d',
    write_batches self batches d = Ok (self', d') ∧
    csv_inv path bs d0 (given ++ concat batches) self' d'.
Proof.
  induction batches as [|files later IH]; intros given self d Hlets Hinv; simpl.
  - exists self, d. by rewrite app_nil_r.
  - simpl in Hlets. rewrite app_assoc in Hlets.
    destruct (write_batch_inv path bs d0 given self d files) as
      (self1 & d1 & -> & Hinv1); [|done|].
    { apply (lets_write_mono d0 path ((given ++ files) ++ concat later));
        [|done].
      intros x Hx. apply elem_of_app. by left. }
    cbn [mbind result_bind]. rewrite app_assoc. by apply IH.
Qed.

Lemma flush_inv path bs d0 given self d :
  lets_write d0 path given →
  csv_inv path bs d0 given self d →
  ∃ self' d',
    flush self h d = Ok (self', d') ∧ _buffer self' = [] ∧
    (∀ p, p ≠ path → content d' !! p = content d0 !! p) ∧
    content d' !! path =
      match given with
      | [] => content d0 !! path
      | _ :: _ =>
          Some (base_lines d0 path ++ rows_of (now d0) (ticks d0) given)
      end.
Proof.
  intros Hw Hinv. unfold flush.
  destruct given as [|g0 gs].
  - destruct Hinv as (_ & _ & _ & Hother & Hbuf & _ & Hc & _).
    exists self, d. unfold _flush_buffer. by rewrite Hbuf.
  - destruct (flush_buffer_inv path bs d0 (g0 :: gs) self d Hw)
      as (self' & d' & Hf & Hinv' & Hbuf'); [done|done|].
    exists self', d'. split; [done|]. split; [done|].
    destruct Hinv' as (_ & _ & _ & Hother & k & Hk & _ & Hdrop & _ & Hc).
    split; [done|]. rewrite Hc. do 3 f_equal.
    rewrite Hbuf' in Hdrop.
    assert (length (drop k (g0 :: gs)) = 0%nat) as Hlen by (by rewrite <- Hdrop).
    rewrite length_drop in Hlen. apply take_ge. lia.
Qed.

End csv_writing.

(** X20.  A handler writes every record it is given once, in the order given.
    Take a new handler for a path that the disk lets test, open and write,
    with a writer that accepts the header line and the row of each record
    (no string it cannot encode, no error of the device); give the handler
    any number of batches with [write_batch] and then call [flush]: the
    calls return and the buffer ends empty; if no record was given the disk
    is as before (no file is made, no header written); otherwise the file
    holds what it held (or, if it was absent or empty, the header line),
    followed by one row for each record, in the order given, whatever the
    batch size and the cut into batches.  No other file changes. *)
Theorem csv_handler_writes_each_record_once (h : heap) (path : string)
    (batch_size : Z) (batches : list (list ref)) (d0 : CsvHandler.Disk) :
  path ∉ CsvHandler.unwritable d0 →
  path ∉ CsvHandler.unstatable d0 →
  CsvHandler.write_error d0 CsvHandler.HeaderLine = None →
  (∀ r t, r ∈ concat batches →
     CsvHandler.write_error d0
       (CsvHandler.DataLine (CsvHandler.to_dict (h r) t)) = None) →
  ∃ self1 d1 self2 d2,
    write_batches h (CsvHandler.new_handler path batch_size) batches d0
      = Ok (self1, d1) ∧
    CsvHandler.flush self1 h d1 = Ok (self2, d2) ∧
    CsvHandler._buffer self2 = [] ∧
    (∀ p, p ≠ path → CsvHandler.content d2 !! p = CsvHandler.content d0 !! p) ∧
    CsvHandler.content d2 !! path =
      match concat batches with
      | [] => CsvHandler.content d0 !! path
      | _ :: _ =>
          Some (base_lines d0 path ++
                rows_of h (CsvHandler.now d0) (CsvHandler.ticks d0)
                  (concat batches))
      end.
Proof.
  intros Hw Hst Hhead Hacc.
  assert (lets_write h d0 path (concat batches)) as Hlets by done.
  destruct (write_batches_inv h path batch_size d0 batches []
              (CsvHandler.new_handler path batch_size) d0 Hlets)
    as (self1 & d1 & Hb & Hinv).
  { repeat split; done. }
  destruct (flush_inv h path batch_size d0 _ self1 d1 Hlets Hinv)
    as (self2 & d2 & Hf & Hbuf & Hother & Hc).
  by exists self1, d1, self2, d2.
Qed.

(** A disk with no file, on which nothing fails, and a clock. *)
Definition example_disk : CsvHandler.Disk :=
  CsvHandler.mkDisk ∅ ∅ ∅ (λ _, None)
    (λ i, if decide (i = 0%nat) then "t0" else "t1") 0.

Lemma csv_handler_writes_each_record_once_witness :
  ∃ self1 d1 self2 d2,
    write_batches example_heap (CsvHandler.new_handler "out.csv" 100)
      [[0%nat]; []; [1%nat]] example_disk = Ok (self1, d1) ∧
    CsvHandler.flush self1 example_heap d1 = Ok (self2, d2) ∧
    CsvHandler._buffer self2 = [] ∧
    (∀ p, p ≠ "out.csv"%string →
          CsvHandler.content d2 !! p = CsvHandler.content example_disk !! p) ∧
    CsvHandler.content d2 !! "out.csv"%string =
      Some (base_lines example_disk "out.csv" ++
            rows_of example_heap (CsvHandler.now example_disk)
              (CsvHandler.ticks example_disk) [0%nat; 1%nat]).
Proof.
  apply (csv_handler_writes_each_record_once example_heap "out.csv" 100
           [[0%nat]; []; [1%nat]] example_disk).
  - apply not_elem_of_empty.
  - apply not_elem_of_empty.
  - reflexivity.
  - reflexivity.
Defined.

Example csv_handler_example :
  ∃ self d,
    (self1d ← write_batches example_heap (CsvHandler.new_handler "out.csv" 100)
                [[0%nat]; []; [1%nat]] example_disk;
     CsvHandler.flush self1d.1 example_heap self1d.2) = Ok (self, d) ∧
    CsvHandler.content d !! "out.csv"%string =
      Some [CsvHandler.HeaderLine;
            CsvHandler.DataLine
              (CsvHandler.mkRow "a.epub" "a.epub" 3 "/lake/a.epub" "t0");
            CsvHandler.DataLine
              (CsvHandler.mkRow "b.epub" "b.epub" 5 "/lake/b.epub" "t1")].
Proof. eexists _, _. split; [vm_compute; reflexivity|]. vm_compute. done. Qed.

(** A writer that cannot encode the name of record 1: the handler raises
    the writer's exception when the buffer is flushed. *)
Definition picky_disk : CsvHandler.Disk :=
  CsvHandler.mkDisk ∅ ∅ ∅
    (λ l, match l with
          | CsvHandler.DataLine row =>
              if bool_decide (CsvHandler.row_filename row = "b.epub"%string)
              then Some (ValueError "surrogates not allowed")
              else None
          | CsvHandler.HeaderLine => None
          end)
    (λ _, "t") 0.

Example csv_handler_raises_example :
  (self1d ← write_batches example_heap (CsvHandler.new_handler "out.csv" 100)
              [[0%nat; 1%nat]] picky_disk;
   CsvHandler.flush self1d.1 example_heap self1d.2)
  = Raise (ValueError "surrogates not allowed").
Proof. vm_compute. reflexivity. Qed.

(** X21.  The output file of a run.  At the end of [run_analyze], on a disk that
    lets the output path be tested, opened, written and removed, with a
    writer that accepts the header line and the row of each deduplicated
    record: the calls return; when no record is left to write, the output
    file does not exist afterwards, whether or not it did before;
    otherwise it holds the header line followed by one row for each
    deduplicated record, in order, whatever the batch size.  No other file
    changes. *)
Theorem write_output_spec (h : heap) (output_path : string) (batch_size : Z)
    (deduplicated_files : list ref) (d : CsvHandler.Disk) :
  output_path ∉ CsvHandler.unwritable d →
  output_path ∉ CsvHandler.unstatable d →
  CsvHandler.write_error d CsvHandler.HeaderLine = None →
  (∀ r t, r ∈ deduplicated_files →
     CsvHandler.write_error d
       (CsvHandler.DataLine (CsvHandler.to_dict (h r) t)) = None) →
  ∃ d',
    CsvHandler.write_output output_path batch_size deduplicated_files h d
      = Ok d' ∧
    (∀ p, p ≠ output_path →
          CsvHandler.content d' !! p = CsvHandler.content d !! p) ∧
    CsvHandler.content d' !! output_path =
      match deduplicated_files with
      | [] => None
      | _ :: _ =>
          Some (CsvHandler.HeaderLine ::
                rows_of h (CsvHandler.now d) (CsvHandler.ticks d)
                  deduplicated_files)
      end.
Proof.
  intros Hw Hst Hhead Hacc. unfold CsvHandler.write_output.
  unfold CsvHandler.exists_. rewrite decide_False by done.
  cbn [mbind result_bind].
  set (d1 := CsvHandler.with_content d
               (delete output_path (CsvHandler.content d))).
  set (there := bool_decide (is_Some (CsvHandler.content d !! output_path))).
  assert (∃ d1',
    (if there then CsvHandler.unlink d output_path else Ok d) = Ok d1' ∧
    CsvHandler.content d1' !! output_path = None ∧
    (∀ p, p ≠ output_path →
          CsvHandler.content d1' !! p = CsvHandler.content d !! p) ∧
    same_surroundings d1' d ∧
    CsvHandler.ticks d1' = CsvHandler.ticks d)
    as (d1' & -> & Hnone & Hother1 & (Hu1 & Hs1 & He1 & Hn1) & Ht1).
  { unfold there, CsvHandler.unlink.
    destruct (CsvHandler.content d !! output_path) eqn:Hc.
    - rewrite bool_decide_eq_true_2 by (by eexists).
      rewrite decide_False by done.
      exists d1. split; [done|]. unfold d1, CsvHandler.with_content. cbn.
      split; [apply lookup_delete_eq|]. split; [|done].
      intros p Hp. by rewrite lookup_delete_ne.
    - rewrite bool_decide_eq_false_2 by (by intros [? ?]).
      exists d. done. }
  clear d1 there. cbn [mbind result_bind].
  assert (lets_write h d1' output_path deduplicated_files) as Hlets.
  { split; [by rewrite Hu1|]. split; [by rewrite Hs1|].
    split; [by rewrite He1|]. intros r t Hr. rewrite He1. by apply Hacc. }
  destruct (write_batch_inv h output_path batch_size d1' []
              (CsvHandler.new_handler output_path batch_size) d1'
              deduplicated_files Hlets)
    as (self2 & d2 & -> & Hinv2).
  { repeat split; done. }
  cbn [mbind result_bind app] in *.
  destruct (flush_inv h output_path batch_size d1' _ self2 d2 Hlets Hinv2)
    as (self3 & d3 & -> & _ & Hother3 & Hc3).
  cbn [mbind result_bind]. exists d3. split; [done|]. split.
  - intros p Hp. rewrite Hother3 by done. by apply Hother1.
  - rewrite Hc3. destruct deduplicated_files; [done|].
    unfold base_lines, CsvHandler.has_lines. rewrite Hnone.
    by rewrite Hn1, Ht1.
Qed.

(** A disk on which the output file of an earlier run is still there. *)
Definition stale_disk : CsvHandler.Disk :=
  CsvHandler.mkDisk
    {["out.csv"%string :=
        [CsvHandler.HeaderLine;
         CsvHandler.DataLine
           (CsvHandler.mkRow "old.epub" "old.epub" 1 "/lake/old.epub" "t")]]}
    ∅ ∅ (λ _, None) (λ i, if decide (i = 0%nat) then "t0" else "t1") 0.

Lemma write_output_spec_witness :
  ∃ d',
    CsvHandler.write_output "out.csv" 1 [0%nat; 1%nat] example_heap stale_disk
      = Ok d' ∧
    (∀ p, p ≠ "out.csv"%string →
          CsvHandler.content d' !! p = CsvHandler.content stale_disk !! p) ∧
    CsvHandler.content d' !! "out.csv"%string =
      Some (CsvHandler.HeaderLine ::
            rows_of example_heap (CsvHandler.now stale_disk)
              (CsvHandler.ticks stale_disk) [0%nat; 1%nat]).
Proof.
  apply (write_output_spec example_heap "out.csv" 1 [0%nat; 1%nat] stale_disk).
  - apply not_elem_of_empty.
  - apply not_elem_of_empty.
  - reflexivity.
  - reflexivity.
Defined.

(** On that disk the stale file is replaced by the header and the two
    rows; with nothing to write, the stale file is removed and none is
    made. *)
Example write_output_example :
  ∃ d1 d2,
    CsvHandler.write_output "out.csv" 1 [0%nat; 1%nat] example_heap stale_disk
      = Ok d1 ∧
    CsvHandler.content d1 !! "out.csv"%string =
      Some [CsvHandler.HeaderLine;
            CsvHandler.DataLine
              (CsvHandler.mkRow "a.epub" "a.epub" 3 "/lake/a.epub" "t0");
            CsvHandler.DataLine
              (CsvHandler.mkRow "b.epub" "b.epub" 5 "/lake/b.epub" "t1")] ∧
    CsvHandler.write_output "out.csv" 1 [] example_heap stale_disk = Ok d2 ∧
    CsvHandler.content d2 !! "out.csv"%string = None.
Proof.
  eexists _, _. split; [vm_compute; reflexivity|]. split; [vm_compute; done|].
  split; [vm_compute; reflexivity|]. vm_compute. done.
Qed.

(** ** What the orchestrator stores *)

(** X6.  The prefix stage on the CPU processor, with at least one worker and
    every worker finishing: [hash_stage2_files] returns; the library
    records it hashes are those that have the size of a candidate; each of
    these and each candidate gets as prefix hash the digest of the first
    1024 bytes found at its path, unless the file could not be read (the
    worker returned the empty sentinel), in which case the field is left as
    it was; no other field of any record is written; and the library index
    answers [get_files_by_size_and_1k size k] with what it answered before
    followed by the library records of that size that were just given the
    hash [k], in the order of the library. *)
Theorem prefix_stage_stores_digests (sha256 : bytes → bytes)
    (m : Base.Machine) (orch : Main.Hashing)
    (stage2_candidates : list ref) (w : Orchestrator.World) :
  (∀ n, Base.as_completed m n ≡ₚ seq 0 n) →
  0 < Base.num_workers (Orchestrator.cpu_processor orch) →
  ∃ w' sel,
    Orchestrator.hash_stage2_files (Base.cpu_is_processor sha256) m orch
      stage2_candidates w = Ok (w', (sel, stage2_candidates)) ∧
    let h := Orchestrator.store w in
    sel = filter (λ c, Exists (λ r, size_of (h r) = size_of (h c))
                         stage2_candidates)
            (files (Orchestrator.calibre_collection w)) ∧
    (∀ r, first_1k_hash (Orchestrator.store w' r) =
          if decide ((r ∈ sel ∨ r ∈ stage2_candidates) ∧
                     truthy (prefix_digest sha256 m h r) = true)
          then Some (prefix_digest sha256 m h r) else first_1k_hash (h r)) ∧
    (∀ z k,
       get_files_by_size_and_1k (Orchestrator.calibre_collection w') z k =
       get_files_by_size_and_1k (Orchestrator.calibre_collection w) z k ++
       filter (λ r, size_of (h r) = z ∧ prefix_digest sha256 m h r = k ∧
                    truthy k = true) sel) ∧
    evolves (λ r, r ∈ sel ∨ r ∈ stage2_candidates) nowhere nowhere nowhere
      h (Orchestrator.store w').
Proof.
  intros Hcompletes Hworkers.
  destruct (hash_stage2_files_values sha256 m orch Hcompletes Hworkers
              stage2_candidates w)
    as (w' & sel & Hrun & Hsel & Hk & Hidx & _ & Hev & _).
  exists w', sel. done.
Qed.

(** The world of the example before any hashing: the datalake records 0,
    1, 2 and the library records 3, 4 of [example_heap]. *)
Definition example_world : Orchestrator.World :=
  Orchestrator.mkWorld example_heap example_ebooks example_calibre [].

Lemma prefix_stage_stores_digests_witness :
  ∃ w' sel,
    Orchestrator.hash_stage2_files (Base.cpu_is_processor toy_digest)
      example_machine example_orchestrator [0%nat; 2%nat] example_world
      = Ok (w', (sel, [0%nat; 2%nat])) ∧
    let h := Orchestrator.store example_world in
    sel = filter (λ c, Exists (λ r, size_of (h r) = size_of (h c))
                         [0%nat; 2%nat])
            (files (Orchestrator.calibre_collection example_world)) ∧
    (∀ r, first_1k_hash (Orchestrator.store w' r) =
          if decide ((r ∈ sel ∨ r ∈ [0%nat; 2%nat]) ∧
                     truthy (prefix_digest toy_digest example_machine h r)
                       = true)
          then Some (prefix_digest toy_digest example_machine h r)
          else first_1k_hash (h r)) ∧
    (∀ z k,
       get_files_by_size_and_1k (Orchestrator.calibre_collection w') z k =
       get_files_by_size_and_1k
         (Orchestrator.calibre_collection example_world) z k ++
       filter (λ r, size_of (h r) = z ∧
                    prefix_digest toy_digest example_machine h r = k ∧
                    truthy k = true) sel) ∧
    evolves (λ r, r ∈ sel ∨ r ∈ [0%nat; 2%nat]) nowhere nowhere nowhere
      h (Orchestrator.store w').
Proof.
  apply (prefix_stage_stores_digests toy_digest example_machine
           example_orchestrator [0%nat; 2%nat] example_world).
  - intros n. reflexivity.
  - reflexivity.
Defined.

(** The datalake file 2 has a fault at its second byte: of the two
    candidates only record 0 gets a prefix hash, and so does the library
    record 3 of the same size. *)
Example prefix_stage_example :
  match Orchestrator.hash_stage2_files (Base.cpu_is_processor toy_digest)
          example_machine example_orchestrator [0%nat; 2%nat] example_world with
  | Ok (w', (sel, _)) =>
      sel = [3%nat] ∧
      first_1k_hash (Orchestrator.store w' 0%nat)
        = Some (toy_digest [x01; x02; x03]%byte) ∧
      first_1k_hash (Orchestrator.store w' 2%nat) = None ∧
      first_1k_hash (Orchestrator.store w' 3%nat)
        = Some (toy_digest [x07; x08; x09]%byte) ∧
      get_files_by_size_and_1k (Orchestrator.calibre_collection w') 3
        (toy_digest [x07; x08; x09]%byte) = [3%nat]
  | Raise _ => False
  end.
Proof. vm_compute. done. Qed.

(** The records of a list whose path is not in the resume set. *)
Definition not_resumed (h : heap) (processed_files : gset string)
    (l : list ref) : list ref :=
  filter (λ r, full_path (h r) ∉ processed_files) l.

(** X7.  The full stage of an orchestrator without GPU processor, called
    without GPU, on the CPU processor with at least one worker and every
    worker finishing: [hash_stage3_files] returns; the library records it
    selects are those that carry a prefix hash and share size and prefix
    hash with a candidate; the selected records whose path is not in the
    resume set, and all the candidates, get as full hash the digest of the
    whole file found at their path, unless it could not be read; prefix
    hashes are left as they are; and the library's full-hash dictionary has
    an entry for a hash exactly when it had one before or a library record
    was just given that hash. *)
Theorem full_stage_stores_digests (sha256 : bytes → bytes)
    (m : Base.Machine) (orch : Main.Hashing)
    (stage3_candidates : list ref) (gpu_threshold : option Z)
    (processed_files : gset string) (w : Orchestrator.World) :
  (∀ n, Base.as_completed m n ≡ₚ seq 0 n) →
  0 < Base.num_workers (Orchestrator.cpu_processor orch) →
  Orchestrator.gpu_processor orch = None →
  ∃ w' sel,
    Orchestrator.hash_stage3_files (Base.cpu_is_processor sha256)
      (Base.gpu_is_processor sha256) m orch stage3_candidates false
      gpu_threshold (Some processed_files) w
      = Ok (w', (sel, stage3_candidates)) ∧
    let h := Orchestrator.store w in
    let hashed := not_resumed h processed_files sel in
    sel = filter (shares_pair h stage3_candidates)
            (files (Orchestrator.calibre_collection w)) ∧
    (∀ r, full_hash (Orchestrator.store w' r) =
          if decide ((r ∈ hashed ∨ r ∈ stage3_candidates) ∧
                     truthy (full_digest sha256 m h r) = true)
          then Some (full_digest sha256 m h r) else full_hash (h r)) ∧
    (∀ r, first_1k_hash (Orchestrator.store w' r) = first_1k_hash (h r)) ∧
    (∀ fh, is_Some (get_file_by_full_hash
                      (Orchestrator.calibre_collection w') fh) ↔
           is_Some (get_file_by_full_hash
                      (Orchestrator.calibre_collection w) fh) ∨
           ∃ r, r ∈ hashed ∧ full_digest sha256 m h r = fh ∧
                truthy fh = true).
Proof.
  intros Hcompletes Hworkers Hnogpu.
  destruct (hash_stage3_files_values sha256 m orch Hcompletes Hworkers
              stage3_candidates gpu_threshold processed_files w
              (Orchestrator.store w) Hnogpu eq_refl)
    as (w' & sel & Hrun & Hsel & Hk & Hidx & Hev & _).
  exists w', sel. split; [done|]. split; [done|]. split; [done|].
  split; [|done].
  intros r. destruct (Hev r) as (_ & _ & _ & _ & H1 & _). apply H1. by intros [].
Qed.

Lemma full_stage_stores_digests_witness :
  ∃ w' sel,
    Orchestrator.hash_stage3_files (Base.cpu_is_processor toy_digest)
      (Base.gpu_is_processor toy_digest) example_machine example_orchestrator
      [0%nat] false None (Some ∅) example_world_1k = Ok (w', (sel, [0%nat])) ∧
    let h := Orchestrator.store example_world_1k in
    let hashed := not_resumed h ∅ sel in
    sel = filter (shares_pair h [0%nat])
            (files (Orchestrator.calibre_collection example_world_1k)) ∧
    (∀ r, full_hash (Orchestrator.store w' r) =
          if decide ((r ∈ hashed ∨ r ∈ [0%nat]) ∧
                     truthy (full_digest toy_digest example_machine h r) = true)
          then Some (full_digest toy_digest example_machine h r)
          else full_hash (h r)) ∧
    (∀ r, first_1k_hash (Orchestrator.store w' r) = first_1k_hash (h r)) ∧
    (∀ fh, is_Some (get_file_by_full_hash
                      (Orchestrator.calibre_collection w') fh) ↔
           is_Some (get_file_by_full_hash
                      (Orchestrator.calibre_collection example_world_1k) fh) ∨
           ∃ r, r ∈ hashed ∧
                full_digest toy_digest example_machine h r = fh ∧
                truthy fh = true).
Proof.
  apply (full_stage_stores_digests toy_digest example_machine
           example_orchestrator [0%nat] None ∅ example_world_1k).
  - intros n. reflexivity.
  - reflexivity.
  - reflexivity.
Defined.

(** ** Copying the files of the CSV *)

(** A small system for the examples: the disk maps the paths of regular
    files to their content and has the directories [/import] and [/books];
    a path whose last part is longer than 255 characters cannot be tested;
    [mkdir] and [copy2] raise nothing; every random suffix is [owl07]; the
    CSV file lists [a.epub] twice and a file that is not there. *)
Definition rsplit (c s : string) : option (string * string) :=
  match index 0 c (String.rev s) with
  | Some i =>
      let n := (String.length s - i - 1)%nat in
      Some (substring 0 n s, substring (S n) i s)
  | None => None
  end.

Definition example_name (p : string) : string :=
  match rsplit "/" p with Some (_, name) => name | None => p end.

Definition example_files : list EbookFile :=
  [new_file "/books/x/a.epub" "x/a.epub" "a.epub" 3 ".epub";
   new_file "/books/y/a.epub" "y/a.epub" "a.epub" 2 ".epub";
   new_file "/books/gone.pdf" "gone.pdf" "gone.pdf" 7 ".pdf"].

Definition name_too_long (p : string) : bool :=
  Nat.ltb 255 (String.length (example_name p)).

Definition example_system : Copier.System (gmap string bytes) :=
  {| Copier.joinpath a b := a +:+ "/" +:+ b;
     Copier.stem p :=
       match rsplit "." (example_name p) with
       | Some (s, _) => s
       | None => example_name p
       end;
     Copier.suffix p :=
       match rsplit "." (example_name p) with
       | Some (_, e) => "." +:+ e
       | None => ""
       end;
     Copier.parent p :=
       match rsplit "/" p with Some (d, _) => d | None => "." end;
     Copier.exists_ d p :=
       if name_too_long p
       then Copier.Raises (Copier.OtherOSError "[Errno 36] File name too long")
       else Copier.Returns
              (bool_decide (is_Some (d !! p))
               || bool_decide (p ∈ ["/import"; "/books"]%string));
     Copier.is_file d p :=
       if name_too_long p
       then Copier.Raises (Copier.OtherOSError "[Errno 36] File name too long")
       else Copier.Returns (bool_decide (is_Some (d !! p)));
     Copier.stat_st_size d p :=
       match d !! p with
       | Some data => Copier.Returns (Z.of_nat (length data))
       | None => Copier.Returns 4096
       end;
     Copier.mkdir d p := (d, None);
     Copier.copy2 d src dst :=
       match d !! src with
       | Some data => (<[dst := data]> d, None)
       | None =>
           (d, Some (Copier.OtherOSError "[Errno 2] No such file or directory"))
       end;
     Copier.generate_random_suffix n := "owl07";
     Copier.read_all d csv base := Copier.Returns example_files;
     Copier.lower s := s |}%string.

Definition example_books : gmap string bytes :=
  {[ "/books/x/a.epub"%string := [Byte.x01; Byte.x02; Byte.x03];
     "/books/y/a.epub"%string := [Byte.x04; Byte.x05] ]}.

(** The same disk when [/import/a.epub] is there already. *)
Definition taken_import : gmap string bytes :=
  <["/import/a.epub"%string := [Byte.x09]]> example_books.

Definition example_copier (conflict_handling : string) : Copier.FileCopier :=
  Copier.mkFileCopier "/out/unique.csv" "/books" "/import" conflict_handling 4.

Section copier.
Context {fs : Type} (sys : Copier.System fs).
Import Copier.

(** The random tries look at the disk and change nothing but the number of
    suffixes drawn; the first free name wins, and the first test that
    raises ends the tries. *)
Lemma random_tries_spec (n : nat) (target : string) (w : World) :
  match random_tries sys n target w with
  | (out, w') =>
      disk w' = disk w ∧ copy2_calls w' = copy2_calls w ∧
      match out with
      | Returns (Some new_path) =>
          ∃ i, (i < n)%nat ∧ drawn w' = (drawn w + S i)%nat ∧
               new_path = renamed sys target
                            (generate_random_suffix sys (drawn w + i)) ∧
               exists_ sys (disk w) new_path = Returns false ∧
               ∀ j, (j < i)%nat →
                    exists_ sys (disk w)
                      (renamed sys target
                         (generate_random_suffix sys (drawn w + j)))
                    = Returns true
      | Returns None =>
          drawn w' = (drawn w + n)%nat ∧
          ∀ j, (j < n)%nat →
               exists_ sys (disk w)
                 (renamed sys target
                    (generate_random_suffix sys (drawn w + j))) = Returns true
      | Raises e =>
          ∃ i, (i < n)%nat ∧ drawn w' = (drawn w + S i)%nat ∧
               exists_ sys (disk w)
                 (renamed sys target
                    (generate_random_suffix sys (drawn w + i))) = Raises e ∧
               ∀ j, (j < i)%nat →
                    exists_ sys (disk w)
                      (renamed sys target
                         (generate_random_suffix sys (drawn w + j)))
                    = Returns true
      end
  end.
Proof.
  revert w. induction n as [|n IH]; intros w; simpl.
  - split; [done|]. split; [done|]. split; [lia|]. intros j Hj. lia.
  - destruct (exists_ sys (disk w)
                (renamed sys target (generate_random_suffix sys (drawn w))))
      as [[|]|e] eqn:Hex.
    + specialize (IH (mkWorld (disk w) (S (drawn w)) (copy2_calls w))).
      destruct (random_tries sys n target
                  (mkWorld (disk w) (S (drawn w)) (copy2_calls w)))
        as [found w'].
      simpl in IH. destruct IH as (Hd & Hc & IH).
      split; [done|]. split; [done|]. destruct found as [[new_path|]|e].
      * destruct IH as (i & Hi & Hdr & Hp & Hfree & Hbefore).
        exists (S i). split; [lia|]. split; [lia|].
        replace (drawn w + S i)%nat with (S (drawn w) + i)%nat by lia.
        split; [done|]. split; [done|]. intros [|j] Hj.
        -- by rewrite Nat.add_0_r.
        -- replace (drawn w + S j)%nat with (S (drawn w) + j)%nat by lia.
           apply Hbefore. lia.
      * destruct IH as (Hdr & Hall). split; [lia|]. intros [|j] Hj.
        -- by rewrite Nat.add_0_r.
        -- replace (drawn w + S j)%nat with (S (drawn w) + j)%nat by lia.
           apply Hall. lia.
      * destruct IH as (i & Hi & Hdr & Hraise & Hbefore).
        exists (S i). split; [lia|]. split; [lia|].
        replace (drawn w + S i)%nat with (S (drawn w) + i)%nat by lia.
        split; [done|]. intros [|j] Hj.
        -- by rewrite Nat.add_0_r.
        -- replace (drawn w + S j)%nat with (S (drawn w) + j)%nat by lia.
           apply Hbefore. lia.
    + simpl. split; [done|]. split; [done|]. exists 0%nat.
      rewrite Nat.add_0_r. split; [lia|]. split; [lia|]. split; [done|].
      split; [done|]. intros j Hj. lia.
    + simpl. split; [done|]. split; [done|]. exists 0%nat.
      rewrite Nat.add_0_r. split; [lia|]. split; [lia|]. split; [done|].
      intros j Hj. lia.
Qed.

(** The counter loop returns the first free numbered name, or raises what
    the first test that raises does. *)
Lemma counter_loop_spec (fuel : nat) (target : string) (counter : nat) (d : fs) :
  match counter_loop sys fuel target counter d with
  | Some out =>
      ∃ k, (k < fuel)%nat ∧
           (∀ j, (j < k)%nat →
                 exists_ sys d (renamed sys target (str_of_nat (counter + j)))
                 = Returns true) ∧
           match out with
           | Returns new_path =>
               new_path = renamed sys target (str_of_nat (counter + k)) ∧
               exists_ sys d new_path = Returns false
           | Raises e =>
               exists_ sys d (renamed sys target (str_of_nat (counter + k)))
               = Raises e
           end
  | None =>
      ∀ j, (j < fuel)%nat →
           exists_ sys d (renamed sys target (str_of_nat (counter + j)))
           = Returns true
  end.
Proof.
  revert counter. induction fuel as [|fuel IH]; intros counter; simpl.
  - intros j Hj. lia.
  - destruct (exists_ sys d (renamed sys target (str_of_nat counter)))
      as [[|]|e] eqn:Hex.
    + specialize (IH (S counter)).
      destruct (counter_loop sys fuel target (S counter) d) as [out|].
      * destruct IH as (k & Hk & Hbefore & Hout).
        exists (S k). split; [lia|].
        replace (counter + S k)%nat with (S counter + k)%nat by lia.
        split; [|done]. intros [|j] Hj.
        -- by rewrite Nat.add_0_r.
        -- replace (counter + S j)%nat with (S counter + j)%nat by lia.
           apply Hbefore. lia.
      * intros [|j] Hj.
        -- by rewrite Nat.add_0_r.
        -- replace (counter + S j)%nat with (S counter + j)%nat by lia.
           apply IH. lia.
    + exists 0%nat. rewrite Nat.add_0_r. split; [lia|].
      split; [intros j Hj; lia|done].
    + exists 0%nat. rewrite Nat.add_0_r. split; [lia|].
      split; [intros j Hj; lia|done].
Qed.

(** What a resolved name is: free on the disk, which is left as it was. *)
Lemma resolve_filename_conflict_free (fuel : nat) (filename target : string)
    (w w' : World) (new_path : string) :
  _resolve_filename_conflict sys fuel filename target w
    = Some (Returns new_path, w') →
  exists_ sys (disk w) new_path = Returns false ∧
  disk w' = disk w ∧ copy2_calls w' = copy2_calls w.
Proof.
  unfold _resolve_filename_conflict.
  pose proof (random_tries_spec 100 target w) as Hr.
  destruct (random_tries sys 100 target w) as [[[p|]|e] w1].
  - destruct Hr as (Hd & Hc & i & _ & _ & _ & Hfree & _).
    intros [= <- <-]. done.
  - destruct Hr as (Hd & Hc & _).
    pose proof (counter_loop_spec fuel target 1 (disk w1)) as Hl.
    destruct (counter_loop sys fuel target 1 (disk w1)) as [[p|e]|]; [| |done].
    + destruct Hl as (k & _ & _ & _ & Hfree).
      intros [= <- <-]. by rewrite <- Hd.
    + intros [=].
  - intros [=].
Qed.

(** What the renaming raises was raised by a test of the disk, which is
    left as it was. *)
Lemma resolve_filename_conflict_raises (fuel : nat) (filename target : string)
    (w w' : World) (e : Error) :
  _resolve_filename_conflict sys fuel filename target w = Some (Raises e, w') →
  (∃ p, exists_ sys (disk w) p = Raises e) ∧
  disk w' = disk w ∧ copy2_calls w' = copy2_calls w.
Proof.
  unfold _resolve_filename_conflict.
  pose proof (random_tries_spec 100 target w) as Hr.
  destruct (random_tries sys 100 target w) as [[[p|]|e0] w1].
  - intros [=].
  - destruct Hr as (Hd & Hc & _).
    pose proof (counter_loop_spec fuel target 1 (disk w1)) as Hl.
    destruct (counter_loop sys fuel target 1 (disk w1)) as [[p|e0]|]; [| |done].
    + intros [=].
    + destruct Hl as (k & _ & _ & Hraise).
      intros [= <- <-]. rewrite Hd in Hraise. split; [by eexists|done].
  - destruct Hr as (Hd & Hc & i & _ & _ & Hraise & _).
    intros [= <- <-]. split; [by eexists|done].
Qed.

(** An exception that leaves [copy_file] after the dry-run test: the
    [FileExistsError] it raises itself, what the tests of the target
    folder raise, or what [mkdir] raises that is not an [OSError]. *)
Definition raised_past_handlers (self : FileCopier) (e : Error) : Prop :=
  e = FileExistsError ("Cannot create target directory: "
                       +:+ target_folder self +:+ " exists as a file") ∨
  (∃ d, exists_ sys d (target_folder self) = Raises e) ∨
  (∃ d, is_file sys d (target_folder self) = Raises e) ∨
  (∃ d, (mkdir sys d (target_folder self)).2 = Some e) ∧
  match e with
  | ValueError _ | OtherException _ => True
  | _ => False
  end.

Lemma make_folder_and_copy_spec (self : FileCopier) (file : EbookFile)
    (target_path : string) (w : World) :
  match make_folder_and_copy sys self file target_path w with
  | (out, w') =>
      drawn w' = drawn w ∧
      (copy2_calls w' = copy2_calls w ∨
       copy2_calls w' = copy2_calls w ++ [(full_path file, target_path)]) ∧
      match out with
      | Returns result =>
          source result = full_path file ∧ target result = Some target_path
      | Raises e => raised_past_handlers self e
      end
  end.
Proof.
  unfold make_folder_and_copy.
  destruct (mkdir sys (disk w) (target_folder self)) as [d1 raised] eqn:Hmk.
  assert (∀ e, raised = Some e →
               ∃ d, (mkdir sys d (target_folder self)).2 = Some e) as Hraised.
  { intros e ->. exists (disk w). by rewrite Hmk. }
  destruct raised as [[e|e|e|e|e]|]; simpl;
    try (split; [done|]; split; [by left|];
         first [done | do 3 right; split; [by apply Hraised|done]]).
  clear Hraised.
  destruct (copy2 sys d1 (full_path file) target_path) as [d2 raised2].
  destruct raised2 as [e|]; simpl.
  { split; [done|]. split; [by right|]. done. }
  destruct (exists_ sys d2 target_path) as [[|]|e]; simpl;
    [|split; [done|]; split; [by right|]; done..].
  destruct (stat_st_size sys d2 target_path) as [st_size|e]; simpl;
    [|split; [done|]; split; [by right|]; done].
  destruct (bool_decide (st_size = 0) && bool_decide (file_size file > 0));
    simpl; (split; [done|]; split; [by right|]; done).
Qed.

Lemma copy_to_spec (self : FileCopier) (file : EbookFile) (target_path : string)
    (w : World) :
  match copy_to sys self file target_path w with
  | (out, w') =>
      drawn w' = drawn w ∧
      (copy2_calls w' = copy2_calls w ∨
       copy2_calls w' = copy2_calls w ++ [(full_path file, target_path)]) ∧
      match out with
      | Returns result =>
          source result = full_path file ∧ target result = Some target_path
      | Raises e => raised_past_handlers self e
      end
  end.
Proof.
  unfold copy_to, target_folder_is_file.
  pose proof (make_folder_and_copy_spec self file target_path w) as Hgo.
  destruct (exists_ sys (disk w) (target_folder self)) as [[|]|e] eqn:Hex.
  - destruct (is_file sys (disk w) (target_folder self)) as [[|]|e] eqn:Hif.
    + split; [done|]. split; [by left|]. by left.
    + done.
    + split; [done|]. split; [by left|]. right. right. left. by exists (disk w).
  - done.
  - split; [done|]. split; [by left|]. right. left. by exists (disk w).
Qed.

Lemma copy_or_announce_spec (self : FileCopier) (file : EbookFile)
    (dry_run : bool) (target_path : string) (w : World) :
  match copy_or_announce sys self file dry_run target_path w with
  | (out, w') =>
      drawn w' = drawn w ∧
      (copy2_calls w' = copy2_calls w ∨
       dry_run = false ∧
       copy2_calls w' = copy2_calls w ++ [(full_path file, target_path)]) ∧
      match out with
      | Returns result =>
          source result = full_path file ∧ target result = Some target_path
      | Raises e => dry_run = false ∧ raised_past_handlers self e
      end
  end.
Proof.
  unfold copy_or_announce. destruct dry_run.
  - split; [done|]. split; [by left|]. done.
  - pose proof (copy_to_spec self file target_path w) as H.
    destruct (copy_to sys self file target_path w) as [out w'].
    destruct H as (Hd & Hc & Hout). split; [done|]. split.
    + destruct Hc as [Hc|Hc]; [by left|by right].
    + destruct out; [done|]. done.
Qed.

(** What [copy_file] returns is about the file it was given; what it
    raises was raised by a test of the disk it was called on, or got past
    its handlers; it fails to end in the renaming only. *)
Lemma copy_file_outcome (fuel : nat) (self : FileCopier) (file : EbookFile)
    (dry_run : bool) (w : World) :
  match copy_file sys fuel self file dry_run w with
  | Some (Returns result, _) => source result = full_path file
  | Some (Raises e, _) =>
      (∃ p, exists_ sys (disk w) p = Raises e) ∨
      dry_run = false ∧ raised_past_handlers self e
  | None => conflict_handling self = "rename"%string
  end.
Proof.
  unfold copy_file.
  destruct (exists_ sys (disk w) (full_path file)) as [[|]|e] eqn:Hsrc;
    [|done|left; by eexists].
  set (target_path := joinpath sys (target_folder self) (filename file)).
  assert (∀ t w0,
    match copy_or_announce sys self file dry_run t w0 with
    | (Returns result, _) => source result = full_path file
    | (Raises e, _) =>
        (∃ p, exists_ sys (disk w) p = Raises e) ∨
        dry_run = false ∧ raised_past_handlers self e
    end) as Hgo.
  { intros t w0. pose proof (copy_or_announce_spec self file dry_run t w0) as H.
    destruct (copy_or_announce sys self file dry_run t w0) as [[r|e] w'];
      destruct H as (_ & _ & H); [by destruct H|by right]. }
  destruct (exists_ sys (disk w) target_path) as [[|]|e] eqn:Hdst;
    [|apply Hgo|left; by eexists].
  case_bool_decide; [done|]. case_bool_decide as Hrename; [|apply Hgo].
  destruct (_resolve_filename_conflict sys fuel (filename file) target_path w)
    as [[[t|e] w1]|] eqn:Hres; [apply Hgo| |done].
  left. by destruct (resolve_filename_conflict_raises _ _ _ _ _ _ Hres).
Qed.

(** *** The counters of [copy_all] *)

Definition mentions_skipping (result : CopyResult) : bool :=
  contains "skipping" (lower sys (message result)).

(** The counters say what the list of results holds. *)
Definition tallied (stats : Stats) : Prop :=
  stats_success stats =
    length (filter (λ r, success r = true) (stats_results stats)) ∧
  stats_skipped stats =
    length (filter (λ r, success r = false ∧ mentions_skipping r = true)
              (stats_results stats)) ∧
  stats_failed stats =
    length (filter (λ r, success r = false ∧ mentions_skipping r = false)
              (stats_results stats)).

Lemma count_total (stats : Stats) (result : CopyResult) :
  stats_total (count sys stats result) = stats_total stats ∧
  stats_results (count sys stats result) = stats_results stats ++ [result].
Proof.
  unfold count. destruct (success result); [done|].
  by destruct (contains "skipping" (lower sys (message result))).
Qed.

Lemma count_tallied (stats : Stats) (result : CopyResult) :
  tallied stats → tallied (count sys stats result).
Proof.
  intros (H1 & H2 & H3). unfold tallied.
  destruct (count_total stats result) as [_ ->].
  rewrite !list.filter_app, !length_app. unfold count.
  destruct (success result) eqn:Hs.
  - simpl. rewrite filter_cons_True, !filter_cons_False by first [done | intros [? ?]; congruence].
    simpl. lia.
  - fold (mentions_skipping result).
    destruct (mentions_skipping result) eqn:Hm; simpl.
    + rewrite (filter_cons_False (λ r, success r = true))
        by congruence.
      rewrite filter_cons_True by done.
      rewrite filter_cons_False by (intros [? ?]; congruence).
      simpl. lia.
    + rewrite (filter_cons_False (λ r, success r = true))
        by congruence.
      rewrite filter_cons_False by (intros [? ?]; congruence).
      rewrite filter_cons_True by done.
      simpl. lia.
Qed.

Lemma tallied_sum (stats : Stats) :
  tallied stats →
  (stats_success stats + stats_failed stats + stats_skipped stats =
     length (stats_results stats))%nat.
Proof.
  intros (-> & -> & ->). induction (stats_results stats) as [|r l IH]; [done|].
  destruct (success r) eqn:Hs.
  - rewrite filter_cons_True, !filter_cons_False by first [done | intros [? ?]; congruence].
    simpl. lia.
  - rewrite (filter_cons_False (λ r, success r = true)) by congruence.
    destruct (mentions_skipping r) eqn:Hm.
    + rewrite filter_cons_False by (intros [? ?]; congruence).
      rewrite filter_cons_True by done. simpl. lia.
    + rewrite filter_cons_True by done.
      rewrite filter_cons_False by (intros [? ?]; congruence). simpl. lia.
Qed.

Lemma copy_loop_spec (fuel : nat) (self : FileCopier) (dry_run : bool)
    (files : list EbookFile) :
  ∀ (stats : Stats) (w : World), tallied stats →
  match copy_loop sys fuel self dry_run files stats w with
  | Some (Returns stats', _) =>
      tallied stats' ∧ stats_total stats' = stats_total stats ∧
      ∃ new, stats_results stats' = stats_results stats ++ new ∧
             source <$> new = full_path <$> files
  | Some (Raises e, _) =>
      (∃ d p, exists_ sys d p = Raises e) ∨
      dry_run = false ∧ raised_past_handlers self e
  | None => conflict_handling self = "rename"%string
  end.
Proof.
  induction files as [|file files IH]; intros stats w Ht; simpl.
  - split; [done|]. split; [done|]. exists []. by rewrite app_nil_r.
  - pose proof (copy_file_outcome fuel self file dry_run w) as Hf.
    destruct (copy_file sys fuel self file dry_run w) as [[[r|e] w1]|];
      [| |done].
    2:{ destruct Hf as [[p Hp]|Hf]; [left; by exists (disk w), p|by right]. }
    specialize (IH (count sys stats r) w1 (count_tallied stats r Ht)).
    destruct (copy_loop sys fuel self dry_run files (count sys stats r) w1)
      as [[[stats'|e] w']|]; [|done|done].
    destruct IH as (Ht' & Htot & new & Hres & Hsrc).
    destruct (count_total stats r) as [Htot1 Hres1].
    split; [done|]. split; [congruence|]. exists (r :: new).
    rewrite Hres, Hres1, <- app_assoc. split; [done|].
    by rewrite !fmap_cons, Hf, Hsrc.
Qed.

(** *** A dry run *)

(** What a dry run says of a file, on the disk [d]. *)
Definition announced (self : FileCopier) (d : fs) (file : EbookFile)
    (result : CopyResult) : Prop :=
  let target_path := joinpath sys (target_folder self) (filename file) in
  match exists_ sys d (full_path file) with
  | Raises _ => False
  | Returns false =>
      result = mkCopyResult false (full_path file) None
                 ("Source file does not exist: " +:+ full_path file)
  | Returns true =>
      match exists_ sys d target_path with
      | Raises _ => False
      | Returns taken =>
          if taken && bool_decide (conflict_handling self = "skip"%string) then
            result = mkCopyResult false (full_path file) (Some target_path)
                       ("Target file exists, skipping: " +:+ target_path)
          else
            ∃ t, result = mkCopyResult true (full_path file) (Some t)
                            ("Would copy to: " +:+ t) ∧
                 if taken
                    && bool_decide (conflict_handling self = "rename"%string)
                 then exists_ sys d t = Returns false
                 else t = target_path
      end
  end.

Lemma copy_file_dry (fuel : nat) (self : FileCopier) (file : EbookFile)
    (w : World) :
  match copy_file sys fuel self file true w with
  | Some (out, w') =>
      disk w' = disk w ∧ copy2_calls w' = copy2_calls w ∧
      match out with
      | Returns result => announced self (disk w) file result
      | Raises e => ∃ p, exists_ sys (disk w) p = Raises e
      end
  | None => conflict_handling self = "rename"%string
  end.
Proof.
  unfold copy_file, announced.
  destruct (exists_ sys (disk w) (full_path file)) as [[|]|e] eqn:Hsrc; simpl;
    [|done|split; [done|]; split; [done|]; by eexists].
  set (target_path := joinpath sys (target_folder self) (filename file)).
  destruct (exists_ sys (disk w) target_path) as [[|]|e] eqn:Hex; simpl.
  - case_bool_decide as Hskip; simpl; [done|].
    case_bool_decide as Hrename; simpl.
    + destruct (_resolve_filename_conflict sys fuel (filename file)
                  target_path w) as [[[t|e] w1]|] eqn:Hres; [| |done].
      * destruct (resolve_filename_conflict_free _ _ _ _ _ _ Hres)
          as (Hfree & Hd & Hc).
        split; [done|]. split; [done|]. by exists t.
      * by destruct (resolve_filename_conflict_raises _ _ _ _ _ _ Hres)
          as (Hp & Hd & Hc).
    + split; [done|]. split; [done|]. by exists target_path.
  - split; [done|]. split; [done|]. by exists target_path.
  - split; [done|]. split; [done|]. by eexists.
Qed.

Lemma copy_loop_dry (fuel : nat) (self : FileCopier) (files : list EbookFile) :
  ∀ (stats : Stats) (w : World),
  match copy_loop sys fuel self true files stats w with
  | Some (out, w') =>
      disk w' = disk w ∧ copy2_calls w' = copy2_calls w ∧
      match out with
      | Returns stats' =>
          ∃ new, stats_results stats' = stats_results stats ++ new ∧
                 Forall2 (announced self (disk w)) files new
      | Raises e => ∃ p, exists_ sys (disk w) p = Raises e
      end
  | None => conflict_handling self = "rename"%string
  end.
Proof.
  induction files as [|file files IH]; intros stats w; simpl.
  - split; [done|]. split; [done|]. exists [].
    rewrite app_nil_r. split; [done|]. constructor.
  - pose proof (copy_file_dry fuel self file w) as Hf.
    destruct (copy_file sys fuel self file true w) as [[[r|e] w1]|];
      [|done|done].
    destruct Hf as (Hd & Hc & Hr).
    specialize (IH (count sys stats r) w1).
    destruct (copy_loop sys fuel self true files (count sys stats r) w1)
      as [[out w']|]; [|done].
    destruct IH as (Hd' & Hc' & Hout).
    split; [congruence|]. split; [congruence|].
    destruct out as [stats'|e].
    + destruct Hout as (new & Hres & Hall). exists (r :: new).
      destruct (count_total stats r) as [_ Hres1].
      rewrite Hres, Hres1, <- app_assoc. split; [done|].
      constructor; [done|]. by rewrite <- Hd.
    + by rewrite <- Hd.
Qed.

End copier.

Section copier_properties.
Import Copier.

(** X24.  The name [_resolve_filename_conflict] returns is free.  The call leaves
    the disk as it is and draws between 1 and 100 random suffixes.  When it
    returns, the path it returns does not exist, and is the target renamed
    with the last suffix drawn or, after 100 suffixes that gave taken
    names, with a counter from 1 on.  When it raises, the exception is the
    one [Path.exists] raised on the last name tried (the target renamed
    with the last suffix drawn, or with a counter), the names tried before
    being taken.  The renaming fails to end within [fuel] rounds of the
    counter loop only when the names of the first 100 suffixes and of the
    counters 1 to [fuel] all exist. *)
Theorem resolve_filename_conflict_returns_free_name {fs : Type}
    (sys : System fs) (fuel : nat) (filename target : string) (w : World) :
  match _resolve_filename_conflict sys fuel filename target w with
  | Some (out, w') =>
      disk w' = disk w ∧ copy2_calls w' = copy2_calls w ∧
      (drawn w < drawn w' ≤ drawn w + 100)%nat ∧
      (∀ j, (drawn w ≤ j < drawn w' - 1)%nat →
            exists_ sys (disk w)
              (renamed sys target (generate_random_suffix sys j))
            = Returns true) ∧
      ∃ tried,
        (tried = renamed sys target
                   (generate_random_suffix sys (drawn w' - 1)) ∨
         drawn w' = (drawn w + 100)%nat ∧
         exists_ sys (disk w)
           (renamed sys target (generate_random_suffix sys (drawn w' - 1)))
         = Returns true ∧
         ∃ counter, (1 ≤ counter ≤ fuel)%nat ∧
                    tried = renamed sys target (str_of_nat counter) ∧
                    ∀ c, (1 ≤ c < counter)%nat →
                         exists_ sys (disk w)
                           (renamed sys target (str_of_nat c))
                         = Returns true) ∧
        match out with
        | Returns new_path =>
            new_path = tried ∧ exists_ sys (disk w) new_path = Returns false
        | Raises e => exists_ sys (disk w) tried = Raises e
        end
  | None =>
      (∀ j, (j < 100)%nat →
            exists_ sys (disk w)
              (renamed sys target (generate_random_suffix sys (drawn w + j)))
            = Returns true) ∧
      (∀ counter, (1 ≤ counter ≤ fuel)%nat →
            exists_ sys (disk w) (renamed sys target (str_of_nat counter))
            = Returns true)
  end.
Proof.
  unfold _resolve_filename_conflict.
  pose proof (random_tries_spec sys 100 target w) as Hr.
  destruct (random_tries sys 100 target w) as [[[p|]|e] w1].
  - destruct Hr as (Hd & Hc & i & Hi & Hdr & Hp & Hfree & Hbefore).
    split; [done|]. split; [done|]. split; [lia|]. split.
    { intros j Hj. replace j with (drawn w + (j - drawn w))%nat by lia.
      apply Hbefore. lia. }
    exists p. split; [|done]. left. rewrite Hp. do 2 f_equal. lia.
  - destruct Hr as (Hd & Hc & Hdr & Hall).
    pose proof (counter_loop_spec sys fuel target 1 (disk w1)) as Hl.
    destruct (counter_loop sys fuel target 1 (disk w1)) as [out|].
    + destruct Hl as (k & Hk & Hbefore & Hout).
      split; [done|]. split; [done|]. split; [lia|]. split.
      { intros j Hj. replace j with (drawn w + (j - drawn w))%nat by lia.
        apply Hall. lia. }
      exists (renamed sys target (str_of_nat (1 + k))). split.
      * right. split; [done|]. split.
        { replace (drawn w1 - 1)%nat with (drawn w + 99)%nat by lia.
          apply Hall. lia. }
        exists (1 + k)%nat. split; [lia|]. split; [done|].
        intros c Hc'. rewrite <- Hd.
        replace c with (1 + (c - 1))%nat by lia. apply Hbefore. lia.
      * rewrite <- Hd. destruct out as [new_path|e]; [|done].
        destruct Hout as [-> Hout]. done.
    + split; [done|]. intros counter Hc'. rewrite <- Hd.
      replace counter with (1 + (counter - 1))%nat by lia. apply Hl. lia.
  - destruct Hr as (Hd & Hc & i & Hi & Hdr & Hraise & Hbefore).
    split; [done|]. split; [done|]. split; [lia|]. split.
    { intros j Hj. replace j with (drawn w + (j - drawn w))%nat by lia.
      apply Hbefore. lia. }
    eexists. split; [by left|].
    replace (drawn w1 - 1)%nat with (drawn w + i)%nat by lia. done.
Qed.

(** X22.  The statistics of [copy_all] add up.  When the call returns, [total]
    is the number of records read from the CSV file, [results] has one
    entry per record, in order, with the record's full path as source;
    [success] counts the results that succeeded, [skipped] the failures
    whose lowercased message contains "skipping", [failed] the others, so
    that the three counters sum to [total].  The call raises only what
    [read_all] raises, what [Path.exists] raises on a path it tests or,
    outside a dry run, what gets past the handlers of [copy_file]: its own
    [FileExistsError], what the tests of the target folder raise, and what
    [mkdir] raises that is not an [OSError].  It fails to end only in a
    renaming. *)
Theorem copy_all_accounting {fs : Type} (sys : System fs) (fuel : nat)
    (self : FileCopier) (dry_run : bool) (w : World) :
  match copy_all sys fuel self dry_run w with
  | Some (Returns stats, _) =>
      ∃ files,
        read_all sys (disk w) (csv_path self) (source_base self)
          = Returns files ∧
        stats_total stats = length files ∧
        source <$> stats_results stats = full_path <$> files ∧
        stats_success stats =
          length (filter (λ r, success r = true) (stats_results stats)) ∧
        stats_skipped stats =
          length (filter (λ r, success r = false ∧
                               mentions_skipping sys r = true)
                    (stats_results stats)) ∧
        (stats_success stats + stats_failed stats + stats_skipped stats =
           stats_total stats)%nat
  | Some (Raises e, _) =>
      read_all sys (disk w) (csv_path self) (source_base self) = Raises e ∨
      (∃ d p, exists_ sys d p = Raises e) ∨
      dry_run = false ∧ raised_past_handlers sys self e
  | None => conflict_handling self = "rename"%string
  end.
Proof.
  unfold copy_all.
  destruct (read_all sys (disk w) (csv_path self) (source_base self))
    as [files|e]; [|by left].
  assert (tallied sys (mkStats (length files) 0 0 0 [])) as Ht by done.
  pose proof (copy_loop_spec sys fuel self dry_run files _ w Ht) as Hl.
  destruct (copy_loop sys fuel self dry_run files
              (mkStats (length files) 0 0 0 []) w) as [[[stats|e] w']|];
    [|by right|done].
  destruct Hl as (Ht' & Htot & new & Hres & Hsrc). simpl in Htot, Hres.
  exists files. split; [done|]. split; [done|].
  rewrite Hres. split; [done|].
  pose proof (tallied_sum sys stats Ht') as Hsum.
  destruct Ht' as (Hs & Hk & _). rewrite Hres in Hs, Hk, Hsum.
  split; [done|]. split; [done|].
  rewrite Hsum, Htot. by rewrite <- (length_fmap source), Hsrc, length_fmap.
Qed.

(** X23.  A dry run changes nothing.  [copy_all(dry_run=True)] leaves the disk as
    it is and calls [shutil.copy2] for no file, whether it returns or
    raises; it raises only what [read_all] raises or what [Path.exists]
    raises on a path of that disk; when it returns, its results say, for
    each record in order, that the source does not exist, or that the
    target exists and is skipped, or where the file would be copied: to
    [target_folder / filename], or in 'rename' mode, when that exists, to a
    path that does not exist. *)
Theorem copy_all_dry_run_changes_nothing {fs : Type} (sys : System fs)
    (fuel : nat) (self : FileCopier) (w : World) :
  match copy_all sys fuel self true w with
  | Some (out, w') =>
      disk w' = disk w ∧ copy2_calls w' = copy2_calls w ∧
      match out with
      | Returns stats =>
          ∃ files,
            read_all sys (disk w) (csv_path self) (source_base self)
              = Returns files ∧
            Forall2 (announced sys self (disk w)) files (stats_results stats)
      | Raises e =>
          read_all sys (disk w) (csv_path self) (source_base self) = Raises e ∨
          ∃ p, exists_ sys (disk w) p = Raises e
      end
  | None => conflict_handling self = "rename"%string
  end.
Proof.
  unfold copy_all.
  destruct (read_all sys (disk w) (csv_path self) (source_base self))
    as [files|e]; [|split; [done|]; split; [done|]; by left].
  pose proof (copy_loop_dry sys fuel self files
                (mkStats (length files) 0 0 0 []) w) as Hl.
  destruct (copy_loop sys fuel self true files
              (mkStats (length files) 0 0 0 []) w) as [[out w']|]; [|done].
  destruct Hl as (Hd & Hc & Hout).
  split; [done|]. split; [done|]. destruct out as [stats|e]; [|by right].
  destruct Hout as (new & Hres & Hall).
  exists files. split; [done|]. by rewrite Hres.
Qed.

(** X25.  In 'skip' and 'rename' mode [copy_file] writes over no file that was
    there when it was called: it calls [shutil.copy2] at most once, outside
    a dry run only, with the record's full path, which exists, as source
    and a destination that did not exist. *)
Theorem copy_file_spares_existing_files {fs : Type} (sys : System fs)
    (fuel : nat) (self : FileCopier) (file : EbookFile) (dry_run : bool)
    (w w' : World) (out : outcome CopyResult) :
  conflict_handling self = "skip"%string ∨
  conflict_handling self = "rename"%string →
  copy_file sys fuel self file dry_run w = Some (out, w') →
  copy2_calls w' = copy2_calls w ∨
  dry_run = false ∧ exists_ sys (disk w) (full_path file) = Returns true ∧
  ∃ destination,
    copy2_calls w' = copy2_calls w ++ [(full_path file, destination)] ∧
    exists_ sys (disk w) destination = Returns false.
Proof.
  intros Hmode. unfold copy_file.
  destruct (exists_ sys (disk w) (full_path file)) as [[|]|e] eqn:Hsrc; simpl;
    [|intros [= <- <-]; by left..].
  set (target_path := joinpath sys (target_folder self) (filename file)).
  assert (∀ t w0, disk w0 = disk w → copy2_calls w0 = copy2_calls w →
            exists_ sys (disk w) t = Returns false →
            Some (copy_or_announce sys self file dry_run t w0) = Some (out, w') →
            copy2_calls w' = copy2_calls w ∨
            dry_run = false ∧ Returns true = Returns true ∧
            ∃ destination,
              copy2_calls w' = copy2_calls w ++ [(full_path file, destination)] ∧
              exists_ sys (disk w) destination = Returns false) as Hgo.
  { intros t w0 Hd Hc Hfree.
    pose proof (copy_or_announce_spec sys self file dry_run t w0) as H.
    destruct (copy_or_announce sys self file dry_run t w0) as [out0 w0'].
    destruct H as (_ & Hcalls & _). intros [= <- <-].
    destruct Hcalls as [Hcalls|[Hdry Hcalls]]; [left; congruence|].
    right. split; [done|]. split; [done|]. exists t. split; [congruence|done]. }
  destruct (exists_ sys (disk w) target_path) as [[|]|e] eqn:Hex;
    [|by apply Hgo|intros [= <- <-]; by left].
  case_bool_decide as Hskip; [intros [= <- <-]; by left|].
  case_bool_decide as Hrename; [|by destruct Hmode].
  destruct (_resolve_filename_conflict sys fuel (filename file) target_path w)
    as [[[t|e] w1]|] eqn:Hres; [| |done].
  - destruct (resolve_filename_conflict_free sys _ _ _ _ _ _ Hres)
      as (Hfree & Hd & Hc).
    by apply Hgo.
  - destruct (resolve_filename_conflict_raises sys _ _ _ _ _ _ Hres)
      as (_ & Hd & Hc).
    intros [= <- <-]. by left.
Qed.

Lemma copy_file_spares_existing_files_witness :
  let file := new_file "/books/y/a.epub" "y/a.epub" "a.epub" 2 ".epub" in
  let w := mkWorld taken_import 0 [] in
  let w' := mkWorld (<["/import/a_owl07.epub"%string :=
                        [Byte.x04; Byte.x05]]> taken_import) 1
              [("/books/y/a.epub", "/import/a_owl07.epub")]%string in
  copy2_calls w' = copy2_calls w ∨
  false = false ∧
  exists_ example_system (disk w) (full_path file) = Returns true ∧
  ∃ destination,
    copy2_calls w' = copy2_calls w ++ [(full_path file, destination)] ∧
    exists_ example_system (disk w) destination = Returns false.
Proof.
  intros file w w'.
  apply (copy_file_spares_existing_files example_system 0
           (example_copier "rename") file false w w'
           (Returns (mkCopyResult true "/books/y/a.epub"
                       (Some "/import/a_owl07.epub"%string)
                       "Copied successfully"))).
  - by right.
  - vm_compute. reflexivity.
Defined.

Lemma prefix_app (s t : string) : String.prefix s (s +:+ t) = true.
Proof.
  induction s as [|c s IH]; [by destruct t|].
  change (String.prefix (String c s) (String c (s +:+ t)) = true).
  cbn [String.prefix]. by destruct (Ascii.ascii_dec c c).
Qed.

(** [str.lower] of the example system leaves a "skipping" where it is. *)
Lemma contains_skipping_app (a b : string) :
  contains "skipping" (a +:+ "skipping" +:+ b) = true.
Proof.
  induction a as [|c a IH].
  { change (contains "skipping" ("skipping" +:+ b) = true).
    pose proof (prefix_app "skipping" b) as Hp.
    destruct ("skipping" +:+ b); cbn [contains]; by rewrite Hp. }
  change (contains "skipping" (String c (a +:+ "skipping" +:+ b)) = true).
  cbn [contains]. rewrite IH. apply orb_true_r.
Qed.

(** X26.  A target that exists is left alone in 'skip' mode, and counted as
    skipped.  [str.lower] is taken to leave a lowercase "skipping" where it
    is.  For a record whose source exists and whose target
    [target_folder / filename] exists, [copy_file] returns a failure with
    that target, in a dry run or not, without touching the disk, drawing a
    suffix or calling [shutil.copy2]; and [copy_all] adds it to [skipped],
    not to [failed]. *)
Theorem skip_conflict_is_counted_as_skipped {fs : Type} (sys : System fs)
    (fuel : nat) (self : FileCopier) (file : EbookFile) (dry_run : bool)
    (w : World) (stats : Stats) :
  (∀ a b, contains "skipping" (lower sys (a +:+ "skipping" +:+ b)) = true) →
  conflict_handling self = "skip"%string →
  exists_ sys (disk w) (full_path file) = Returns true →
  exists_ sys (disk w) (joinpath sys (target_folder self) (filename file))
    = Returns true →
  ∃ result,
    copy_file sys fuel self file dry_run w = Some (Returns result, w) ∧
    success result = false ∧
    target result =
      Some (joinpath sys (target_folder self) (filename file)) ∧
    count sys stats result =
      mkStats (stats_total stats) (stats_success stats) (stats_failed stats)
        (S (stats_skipped stats)) (stats_results stats ++ [result]).
Proof.
  intros Hlower Hskip Hsrc Hdst. eexists. split.
  - unfold copy_file. rewrite Hsrc, Hdst. simpl.
    rewrite bool_decide_eq_true_2 by done. reflexivity.
  - split; [done|]. split; [done|]. unfold count. simpl.
    change ("Target file exists, skipping: "
            +:+ joinpath sys (target_folder self) (filename file))
      with ("Target file exists, " +:+ "skipping"
            +:+ (": " +:+ joinpath sys (target_folder self) (filename file))).
    by rewrite Hlower.
Qed.

Lemma skip_conflict_is_counted_as_skipped_witness :
  ∃ result,
    copy_file example_system 0 (example_copier "skip")
      (new_file "/books/y/a.epub" "y/a.epub" "a.epub" 2 ".epub") false
      (mkWorld taken_import 0 [])
    = Some (Returns result, mkWorld taken_import 0 []) ∧
    success result = false ∧
    target result = Some "/import/a.epub"%string ∧
    count example_system (mkStats 3 1 0 0 []) result =
      mkStats 3 1 0 1 ([] ++ [result]).
Proof.
  apply (skip_conflict_is_counted_as_skipped example_system 0
           (example_copier "skip")
           (new_file "/books/y/a.epub" "y/a.epub" "a.epub" 2 ".epub") false
           (mkWorld taken_import 0 []) (mkStats 3 1 0 0 [])).
  - apply contains_skipping_app.
  - reflexivity.
  - vm_compute. reflexivity.
  - vm_compute. reflexivity.
Defined.

(** X27.  What counts as skipped is read off the message.  [str.lower] is taken
    to leave a lowercase "skipping" where it is.  A record whose source
    does not exist and whose full path contains "skipping" makes
    [copy_file] return a failure without target, and [copy_all] adds it to
    [skipped], not to [failed]. *)
Theorem missing_source_named_skipping_is_counted_as_skipped {fs : Type}
    (sys : System fs) (fuel : nat) (self : FileCopier) (file : EbookFile)
    (dry_run : bool) (w : World) (stats : Stats) (a b : string) :
  (∀ a b, contains "skipping" (lower sys (a +:+ "skipping" +:+ b)) = true) →
  exists_ sys (disk w) (full_path file) = Returns false →
  full_path file = a +:+ "skipping" +:+ b →
  ∃ result,
    copy_file sys fuel self file dry_run w = Some (Returns result, w) ∧
    success result = false ∧ target result = None ∧
    count sys stats result =
      mkStats (stats_total stats) (stats_success stats) (stats_failed stats)
        (S (stats_skipped stats)) (stats_results stats ++ [result]).
Proof.
  intros Hlower Hsrc Hname. eexists. split.
  - unfold copy_file. rewrite Hsrc. reflexivity.
  - split; [done|]. split; [done|]. unfold count. simpl. rewrite Hname.
    change ("Source file does not exist: " +:+ a +:+ "skipping" +:+ b)
      with (("Source file does not exist: " +:+ a) +:+ "skipping" +:+ b).
    by rewrite Hlower.
Qed.

Lemma missing_source_named_skipping_is_counted_as_skipped_witness :
  ∃ result,
    copy_file example_system 0 (example_copier "overwrite")
      (new_file "/books/skipping stones.epub" "skipping stones.epub"
         "skipping stones.epub" 5 ".epub") false
      (mkWorld example_books 0 [])
    = Some (Returns result, mkWorld example_books 0 []) ∧
    success result = false ∧ target result = None ∧
    count example_system (mkStats 1 0 0 0 []) result =
      mkStats 1 0 0 1 ([] ++ [result]).
Proof.
  apply (missing_source_named_skipping_is_counted_as_skipped example_system 0
           (example_copier "overwrite")
           (new_file "/books/skipping stones.epub" "skipping stones.epub"
              "skipping stones.epub" 5 ".epub") false
           (mkWorld example_books 0 []) (mkStats 1 0 0 0 [])
           "/books/" " stones.epub").
  - apply contains_skipping_app.
  - vm_compute. reflexivity.
  - reflexivity.
Defined.

(** The three modes on the example: two records with the file name
    [a.epub] and one whose source is gone. *)
Example copy_all_modes :
  let run mode dry_run :=
    match copy_all example_system 0 (example_copier mode) dry_run
            (mkWorld example_books 0 []) with
    | Some (Returns stats, w) =>
        Some (stats_success stats, stats_failed stats, stats_skipped stats,
              target <$> stats_results stats,
              disk w !! "/import/a.epub"%string, length (copy2_calls w))
    | _ => None
    end in
  run "rename"%string false =
    Some (2, 1, 0,
          [Some "/import/a.epub"; Some "/import/a_owl07.epub"; None]%string,
          Some [Byte.x01; Byte.x02; Byte.x03], 2)%nat ∧
  run "overwrite"%string false =
    Some (2, 1, 0, [Some "/import/a.epub"; Some "/import/a.epub"; None]%string,
          Some [Byte.x04; Byte.x05], 2)%nat ∧
  run "skip"%string false =
    Some (1, 1, 1, [Some "/import/a.epub"; Some "/import/a.epub"; None]%string,
          Some [Byte.x01; Byte.x02; Byte.x03], 1)%nat ∧
  run "skip"%string true =
    Some (2, 1, 0, [Some "/import/a.epub"; Some "/import/a.epub"; None]%string,
          None, 0)%nat.
Proof. vm_compute. done. Qed.

(** A record whose file name is too long for the file system to test:
    [copy_file] raises what [Path.exists] raises, in a dry run too. *)
Definition long_name : string :=
  String.concat "" (repeat "a"%string 256) +:+ ".epub".

Example copy_file_untestable_source :
  copy_file example_system 0 (example_copier "skip")
    (new_file ("/books/" +:+ long_name) long_name long_name 5 ".epub") true
    (mkWorld example_books 0 [])
  = Some (Raises (OtherOSError "[Errno 36] File name too long"),
          mkWorld example_books 0 []).
Proof. vm_compute. reflexivity. Qed.

End copier_properties.
